(* ===== verification/_CoqProject ===== *)
-Q . S2P
Prelude.v
Storage.v
Disk.v
Store.v
Pager.v
Mvcc.v
Snapshots.v
TxPager.v
BufferPool.v
Node.v
BTree.v
Cursor.v
Transaction.v
Wal.v
Recovery.v
GoLib.v
Catalog.v
Rows.v
Ast.v
Lexer.v
Parser.v
Eval.v
Agg.v
Stats.v
Planner.v
Db.v
Frame.v
AggSpec.v
Sample.v
StatsSpec.v
Operators.v
Plans.v
Volcano.v
Select.v
Queries.v
Joins.v
Opening.v
Dml.v
Exec.v
TxControl.v
Durability.v
Writes.v
Tables.v
Inserts.v
Changes.v
Statements.v
Txns.v
Lazy.v
Restart.v
Lasting.v
Histories.v
Creation.v
Sessions.v
Server.v
Lifecycle.v
Commands.v
Repl.v
Dashboard.v
