(* ===== verification/Prelude.v ===== *)
(** * db-engine: a verification library

    The repository is a small relational database written in Go: 4 KiB pages in
    one file per table and index, a shared page cache, B+ trees, a write-ahead
    log, MVCC transactions, a SQL parser, a planner and Volcano operators.  This
    library translates its storage and query layers into executable definitions
    and proves what makes them correct.

    ** Parts and files

    Every file models the Go file it names; definitions keep the names of the
    code, and a definition that has no counterpart of its own (a loop body, a
    field update) stands next to the operation it belongs to.

    - [Prelude]: outcomes of Go calls ([res]: value, error, panic, out of fuel),
      the state and error monad [M], machine integers, little-endian codecs,
      lemmas on lists and options.
    - [Storage] (src/storage/page.go), [Disk] (the part of [os.File] used: a file
      is its bytes and a write budget, so that a device can fail between any two
      writes), [Store] (the interfaces [PageStore] and [FullStore] of
      src/pager/pager.go as classes with their laws), [Pager]
      (src/pager/pager.go), [TxPager] (src/pager/txpager.go), [BufferPool]
      (src/bufferpool/pool.go).
    - [Node], [BTree], [Cursor] (src/btree).
    - [Mvcc] (src/mvcc/mvcc.go) with its maps as values, [Snapshots] with the same
      maps in a store, where sharing and copying differ; [Wal] (src/wal/wal.go).
    - [GoLib]: what is used of Go's strings, io and fmt; [Catalog]
      (src/catalog/catalog.go), [Rows] (row codec of src/executor/executor.go),
      [Stats] (src/stats/stats.go).
    - [Ast], [Lexer], [Parser] (src/query).
    - [Planner] (src/planner).
    - [Eval] (predicates and their meaning), [Agg] (src/executor/agg.go), [Db] (the open database),
      [Operators] (src/executor/operators.go), [Select] (src/executor/executor.go,
      agg.go and subquery.go), [Dml] (src/executor/dml.go and executor.go),
      [Exec] (statements, [Open] and [Close]).
    - [Server] (src/server and src/client): frames, the loop over the requests
      of a connection, the client's call; [Lifecycle] (src/server/server.go and
      src/cmd/dbserver/main.go): the goroutines that serve and close, as a
      transition system.
    - [Commands] and [Repl] (src/cmd/dbengine/main.go): the page and B+ tree
      commands as processes on the bytes of a file, the SQL session as a loop
      over input lines; [Dashboard] (src/cmd/dashboard/main.go): the handlers of
      the web interface.
    - Proofs about several of them: [Transaction], [Recovery] (crashes during
      recovery), [Frame], [AggSpec], [StatsSpec], [Plans], [Volcano],
      [Queries], [Joins], [TxControl], [Durability], [Writes] (a tree of the
      database under an auto-commit transaction), [Tables] (the state of a
      table between statements), [Inserts], [Changes] (DELETE and UPDATE),
      [Statements] (their sequences, over the interface [TableState] of a
      table that executes statements), [Opening] (a query as the first
      statement that needs a transaction's [TxPager]), [Txns] (the statements of
      one transaction), [Lazy] (statements that open the table's file when they
      first need it), [Restart] (what a crash or the end of a transaction leaves
      of a table on disk), [Lasting] (the same for auto-commit statements and for
      a process that stops between statements), [Histories] (all of these in
      sequence), [Creation] (from an empty directory on);
      [Sample] is the database with one row on which theorems are
      instantiated, [Sessions] runs scenarios of the repository's tests from
      SQL text to file contents.

    ** How the parts interact

    The B+ tree is proved against the interface [PageStoreSpec] only; [Pager],
    [BufPager] and [TxPager] over any [FullStore] implement it, so the stack the
    executor builds (tree over transaction buffer over cache over file) is
    covered by composition, in [Transaction].  All open files share one [Pool];
    a call on one file moves and evicts frames of others, and [Frame] states what
    it leaves alone ([read_step], [same_files]).  [DB] keeps the files, the log,
    the catalog, the transactions of every goroutine, and a heap of [TxPager]
    objects, because the code shares those by pointer.  The planner turns a
    SELECT into a [PhysicalNode], [buildOp] turns that into operators over
    handles on page stores, [execute] drives them.

    ** What the theorems show

    - Pages: encoding and decoding are inverse, a changed byte is detected,
      record append respects the page bounds ([Storage]).
    - Files: any run of page operations, double frees included, leaves a file
      that can be reopened with the same page count and free list; allocation
      survives a crash between any two writes ([Pager]).
    - Cache: the pool is an LRU cache that never overflows and is invisible to
      clients that keep to the contract of the store ([BufferPool]).
    - Histories: open a database in an empty directory, create a table, and go on
      with INSERT, DELETE, UPDATE and SELECT on it, on their own, transactions that end with COMMIT or
      ROLLBACK, transactions in whose COMMIT the log's device and those of the
      files stop after any number of writes, and stops of the process between
      statements, the database being opened again after each: every answer is
      that of a list of rows to which the statements that committed have been
      applied, and a COMMIT that was reported is among them ([Creation],
      [Histories], by [Lasting], [Restart], [Txns] and [Durability]).
    - Transactions: writes reach the base store only by [Flush], all of them, and
      [Rollback] leaves none, also when the free list has no room for the pages
      to give back ([TxPager], [Transaction]); BEGIN, COMMIT and
      ROLLBACK of many goroutines refine an abstract session machine
      ([TxControl]).
    - Durability: when COMMIT stops at any write, opening the database again
      finds all of the transaction's pages or none, and all of them when COMMIT
      had reported success ([Durability]); recovery that is interrupted any
      number of times is complete once a run of it ends ([Recovery]).
    - Trees: a B+ tree is a finite map under any sequence of operations, cursors
      enumerate ranges in order ([Node], [BTree], [Cursor]).
    - Log: what was appended is found after a torn write, recovery redoes exactly
      the committed writes ([Wal]).
    - Snapshots: visibility is as specified ([Mvcc]), and what is committed later
      does not reach the map of an older snapshot ([Snapshots]).
    - Catalog, rows, statistics: the catalog refines a finite map of schemas
      across restarts, codecs round-trip, ANALYZE summarises the columns
      ([Catalog], [Rows], [StatsSpec]).
    - SQL: the parser ends on every input without a panic ([Parser]).
    - Conditions: a WHERE clause is evaluated as SQL says where its conditions
      compare existing columns with literals; the others count as satisfied
      ([Eval]).
    - Queries: every access path the planner may choose returns the rows the
      WHERE clause selects ([Plans]), the operators compute what a plan means
      ([Volcano]), grouping, aggregates and sorting are what they should be
      ([AggSpec]), and a SELECT on one table returns what the reference
      semantics computes from the visible rows ([Queries]).  A SELECT on several
      tables does so from the rows of their cross product that satisfy all
      conditions, if every condition between tables names first the column of the
      table that comes first, or no two columns could be confused ([Joins]).
    - Statements: a row that INSERT has reported is found by the queries that
      follow, in place of the row that had its key ([Inserts]); DELETE and UPDATE
      change exactly the rows their clause selects for later snapshots, and what
      snapshots taken before see is stated too ([Changes]); any sequence of
      INSERT, DELETE, UPDATE and SELECT on a table, erroneous ones included,
      answers as a list of rows in key order does ([Statements]).  The proof is
      against the class [TableState], with two instances: the table between
      auto-commit statements, and the table inside a transaction.  A transaction
      of such statements reads what it wrote, is not seen by the queries of other
      goroutines before it ends, and COMMIT installs all of its changes, ROLLBACK
      none of them ([Txns]).
    - Connections: what a client gets over the wire is what the executor answers
      to its statements, one after the other ([Server]); once [Close] has closed
      the listener the server comes to its end as far as its clients leave, and
      at most one connection is left when [Close] is back ([Lifecycle]).
    - Commands: a sequence of B+ tree commands, each a process of its own on the
      file its predecessor left, prints what a sequence of operations on a sorted
      association list prints, and what [write] stores is what [read] shows
      ([Commands]); a SQL session executes exactly the statements of its lines,
      ends with no transaction open, and prints tables whose columns line up
      ([Repl]); a web request executes the statements of its text up to the first
      error ([Dashboard]).
    The theorems about queries and statements have a scope, which their texts
    say: clauses without subqueries; in a SELECT no comparison of two columns of
    one table; INSERT, DELETE, UPDATE, transactions and histories on tables
    without secondary indexes; SELECT on tables whose secondary indexes are in
    step with the rows; file names that the log keeps.

    - Defects: several theorems state behaviour the authors will not have
      meant (a cursor on emptied leaves, stale log records, index pointers
      after DROP INDEX, long names in the catalog file, statistics read from
      the MVCC header, a primary key compared with a column, join conditions
      written from right to left, conditions within one of several tables,
      NUL bytes in group keys, responses larger than a frame, concurrent
      commits on one table, stale index entries, sums beyond 64 bits, pages freed twice, rows lost to older
      snapshots by UPDATE, a server process that ends without draining its
      connections, a [Close] that comes before [Serve]).

    ** Bounds and fuel

    Integers of 8, 16, 32 and 64 bits are [Z] with their wrap-around written
    out.  Recursion that the code bounds by data only takes fuel: [fuel] for the
    loops of operators and scans, [tfuel] for descents in a B+ tree, a depth for
    nested subqueries, the number of tokens for the parser.  The theorems state
    an amount that is enough: a tree over 32-bit page identifiers is never higher
    than 32, so [32 <= tfuel] suffices; operators need [exec_fuel] of their plan
    ([Volcano]), which [select_fuel] bounds from the WHERE clause and the number
    of slots of the table ([Queries]); DELETE and UPDATE need one unit more than
    the slots; and [Parse] passes its own fuel.  Identifiers of transactions and
    records and the pages of a file are finite: a statement on a table states how
    many of them it needs ([table_holds]), and so does a history ([history_cost]:
    on a table of at most [B] slots an auto-commit statement may use [2 B + 2] of
    them, a transaction of [m] statements [m B + 2]); a new table has [2 ^ 26].

    ** What is an argument

    Unicode tables beyond ASCII ([Unicode]), [math.Log2] and out-of-range float
    conversions ([Math]), the iteration order of Go maps ([MapOrder], or an
    explicit list), the capacity a growing slice is given ([growcap]), the schedule
    of recovery, [encoding/json] and the texts of errors ([JSON], [decode_query]),
    [strings.TrimSpace] beyond ASCII ([Spaces]).

    ** What is not modelled

    - Mutexes and the interleavings inside one call: every call of the executor
      is one atomic step; sequences of calls of several goroutines are covered.
    - [Sync]: a write that returned is durable; torn and lost writes are covered
      where theorems quantify over file contents or write budgets.
    - The network itself (binding, dialling, the client's [Close]), flags and
      messages of src/cmd/dbserver, and of the other commands the terminal
      (input is a list of lines, output a list of prints), HTTP routing, JSON
      encoding and durations: input and output only.
    - The parser of goroutine identifiers.
    - In histories: secondary indexes, other DDL than the first CREATE TABLE, and a
      device that stops inside a statement other than COMMIT.  For the state of
      the rows, a stop between two statements of a transaction is a COMMIT none
      of whose writes arrives.
*)
From stdpp Require Export base gmap sets list strings numbers list_numbers sorting.
From Stdlib Require Export ZArith Lia.
From Stdlib Require Export Strings.Byte.
From stdpp Require Import options.

#[export] Set Default Proof Using "Type".

(** ** Notation scope of the development *)
Declare Scope db_scope.
Delimit Scope db_scope with db.
Open Scope Z_scope.

(** ** Results, errors and panics *)

(** Arguments of a [fmt.Errorf] verb. *)
Inductive garg : Type :=
  | GInt (z : Z)
  | GStr (s : string).

(** Go errors: [fmt.Errorf] with its format, wrapping ([%w]) kept as structure,
    and the two operating-system errors the file layer can return. *)
Inductive error : Type :=
  | Errorf (fmt : string) (args : list garg)
  | Wrapf (fmt : string) (args : list garg) (e : error)
  | ErrEOF
  | ErrIO.

(** Outcome of a Go call: a value, an error value, a run-time panic (slice or
    index out of range), or fuel exhausted in a definition that takes fuel. *)
Inductive res (A : Type) : Type :=
  | Ok (a : A)
  | Err (e : error)
  | Panic
  | OutOfFuel.
Arguments Ok {A} _. Arguments Err {A} _. Arguments Panic {A}. Arguments OutOfFuel {A}.

#[export] Instance res_ret : MRet res := @Ok.
#[export] Instance res_bind : MBind res := λ A B f m,
  match m with Ok a => f a | Err e => Err e | Panic => Panic | OutOfFuel => OutOfFuel end.
#[export] Instance res_fmap : FMap res := λ A B f m,
  match m with Ok a => Ok (f a) | Err e => Err e | Panic => Panic | OutOfFuel => OutOfFuel end.

(** [fmt.Errorf("...: %w", err)] around a call. *)
Definition wrap_err {A} (fmt : string) (args : list garg) (r : res A) : res A :=
  match r with Err e => Err (Wrapf fmt args e) | r => r end.

Definition is_ok {A} (r : res A) : bool := match r with Ok _ => true | _ => false end.
Definition is_err {A} (r : res A) : bool := match r with Err _ => true | _ => false end.

(** Stateful calls: the state reached is kept whatever the outcome, as in Go. *)
Definition M (S A : Type) : Type := S → res A * S.

#[export] Instance M_ret S : MRet (M S) := λ A a s, (Ok a, s).
#[export] Instance M_bind S : MBind (M S) := λ A B f m s,
  match m s with
  | (Ok a, s') => f a s'
  | (Err e, s') => (Err e, s')
  | (Panic, s') => (Panic, s')
  | (OutOfFuel, s') => (OutOfFuel, s')
  end.

Definition lift {S A} (r : res A) : M S A := λ s, (r, s).
Definition fail {S A} (e : error) : M S A := λ s, (Err e, s).
Definition wrap {S A} (fmt : string) (args : list garg) (m : M S A) : M S A :=
  λ s, let '(r, s') := m s in (wrap_err fmt args r, s').
Definition get_state {S} : M S S := λ s, (Ok s, s).
Definition put_state {S} (s : S) : M S unit := λ _, (Ok tt, s).
Definition modify {S} (f : S → S) : M S unit := λ s, (Ok tt, f s).

Lemma M_bind_Ok {S A B} (m : M S A) (f : A → M S B) s a s' :
  m s = (Ok a, s') → (m ≫= f) s = f a s'.
Proof. intros E. unfold mbind, M_bind. by rewrite E. Qed.

Lemma M_bind_Err {S A B} (m : M S A) (f : A → M S B) s e s' :
  m s = (Err e, s') → (m ≫= f) s = (Err e, s').
Proof. intros E. unfold mbind, M_bind. by rewrite E. Qed.

Lemma M_bind_Ok_inv {S A B} (m : M S A) (f : A → M S B) s b s' :
  (m ≫= f) s = (Ok b, s') → ∃ a s1, m s = (Ok a, s1) ∧ f a s1 = (Ok b, s').
Proof.
  unfold mbind, M_bind. destruct (m s) as [[] s1] eqn:E; intros; simplify_eq; eauto.
Qed.

(** Runs the stateful calls of a goal one step at a time. *)
Ltac M_run := unfold get_state, put_state, modify, lift, fail, wrap; unfold mbind, M_bind, mret, M_ret; cbn beta iota zeta.

Lemma wrap_Ok {S A} fmt args (m : M S A) s a s' :
  m s = (Ok a, s') → wrap fmt args m s = (Ok a, s').
Proof. intros E. unfold wrap. by rewrite E. Qed.

(** ** Machine integers *)

Definition u8_max : Z := 2 ^ 8.
Definition u16_max : Z := 2 ^ 16.
Definition u32_max : Z := 2 ^ 32.
Definition u64_max : Z := 2 ^ 64.
(** [math.MaxUint64] *)
Definition MaxUint64 : Z := 2 ^ 64 - 1.

Definition u8 (z : Z) : Z := z mod 2 ^ 8.
Definition u16 (z : Z) : Z := z mod 2 ^ 16.
Definition u32 (z : Z) : Z := z mod 2 ^ 32.
Definition u64 (z : Z) : Z := z mod 2 ^ 64.

Abbreviation is_u8 z := (0 ≤ z < 2 ^ 8).
Abbreviation is_u16 z := (0 ≤ z < 2 ^ 16).
Abbreviation is_u32 z := (0 ≤ z < 2 ^ 32).
Abbreviation is_u64 z := (0 ≤ z < 2 ^ 64).

(** ** Lists *)

Lemma elem_of_snoc {A} (x y : A) l : x ∈ l ++ [y] ↔ x ∈ l ∨ x = y.
Proof. by rewrite elem_of_app, list_elem_of_singleton. Qed.

Lemma NoDup_snoc {A} (x : A) l : NoDup (l ++ [x]) ↔ NoDup l ∧ x ∉ l.
Proof.
  rewrite NoDup_app. split.
  - intros (Hl & Hd & _). split; [done|]. intros Hx. by apply (Hd x), list_elem_of_singleton.
  - intros [Hl Hx]. split_and!; [done| |apply NoDup_singleton].
    by intros y Hy ->%list_elem_of_singleton.
Qed.

Lemma StronglySorted_lookup_lt {A} (R : A → A → Prop) l i j a b :
  StronglySorted R l → l !! i = Some a → l !! j = Some b → (i < j)%nat → R a b.
Proof.
  intros Hs Hi Hj Hlt. rewrite <-(take_drop j l) in Hs.
  eapply (StronglySorted_app_1_elem_of R); [exact Hs| |].
  - apply elem_of_take. eauto.
  - apply (list_elem_of_lookup_2 _ 0). by rewrite lookup_drop, Nat.add_0_r.
Qed.

(** Inserting before position [i], as Go's append-and-shift loops do. *)
Definition insert_at {A} (i : nat) (x : A) (l : list A) : list A := take i l ++ x :: drop i l.

(** ** Bytes and byte arrays *)

#[export] Instance byte_eq_dec : EqDecision byte := Byte.byte_eq_dec.
#[export] Instance byte_countable : Countable byte := inj_countable Byte.to_N Byte.of_N Byte.of_to_N.

Definition byte_to_Z (b : byte) : Z := Z.of_N (Byte.to_N b).
(** [byte(z)]: the conversion truncates to 8 bits. *)
Definition byte_of_Z (z : Z) : byte :=
  default x00 (Byte.of_N (Z.to_N (z mod 256))).

Lemma byte_to_Z_range b : 0 ≤ byte_to_Z b < 256.
Proof. unfold byte_to_Z. pose proof (Byte.to_N_bounded b). lia. Qed.

Lemma byte_to_of_Z z : byte_to_Z (byte_of_Z z) = z mod 256.
Proof.
  unfold byte_to_Z, byte_of_Z. pose proof (Z.mod_pos_bound z 256 eq_refl).
  destruct (Byte.of_N (Z.to_N (z mod 256))) as [b|] eqn:E; simpl.
  - apply Byte.to_of_N in E. rewrite E. lia.
  - apply Byte.of_N_None_iff in E. lia.
Qed.

Lemma byte_of_to_Z b : byte_of_Z (byte_to_Z b) = b.
Proof.
  unfold byte_of_Z, byte_to_Z. pose proof (Byte.to_N_bounded b).
  rewrite Z.mod_small by lia. rewrite N2Z.id, Byte.of_to_N. done.
Qed.

Lemma byte_to_Z_inj a b : byte_to_Z a = byte_to_Z b → a = b.
Proof. intros E. rewrite <-(byte_of_to_Z a), E. apply byte_of_to_Z. Qed.

(** Little-endian encoding of the low [8*n] bits ([binary.LittleEndian.PutUintN]). *)
Fixpoint le_enc (n : nat) (z : Z) : list byte :=
  match n with
  | O => []
  | S n => byte_of_Z z :: le_enc n (z / 256)
  end.

(** [binary.LittleEndian.UintN] *)
Fixpoint le_dec (l : list byte) : Z :=
  match l with
  | [] => 0
  | b :: l => byte_to_Z b + 256 * le_dec l
  end.

Lemma length_le_enc n z : length (le_enc n z) = n.
Proof. revert z; induction n; intros; cbn [le_enc length]; auto. Qed.

Lemma le_dec_enc n z : le_dec (le_enc n z) = z mod 2 ^ (8 * Z.of_nat n).
Proof.
  revert z; induction n as [|n IH]; intros z; cbn [le_enc le_dec].
  { symmetry; apply Z.mod_1_r. }
  rewrite IH, byte_to_of_Z.
  replace (8 * Z.of_nat (S n)) with (8 + 8 * Z.of_nat n) by lia.
  rewrite Z.pow_add_r by lia. change (2 ^ 8) with 256.
  rewrite Z.rem_mul_r by lia. lia.
Qed.

Lemma le_dec_enc_small n z :
  0 ≤ z < 2 ^ (8 * Z.of_nat n) → le_dec (le_enc n z) = z.
Proof. intros. rewrite le_dec_enc. by apply Z.mod_small. Qed.

Lemma le_dec_range l : 0 ≤ le_dec l < 2 ^ (8 * Z.of_nat (length l)).
Proof.
  induction l as [|b l IH]; cbn [le_dec length]; [lia|].
  pose proof (byte_to_Z_range b).
  replace (8 * Z.of_nat (S (length l))) with (8 + 8 * Z.of_nat (length l)) by lia.
  rewrite Z.pow_add_r by lia. change (2 ^ 8) with 256. nia.
Qed.

Lemma le_enc_dec l : le_enc (length l) (le_dec l) = l.
Proof.
  induction l as [|b l IH]; cbn [le_dec length le_enc]; [done|].
  pose proof (byte_to_Z_range b). f_equal.
  - apply byte_to_Z_inj. rewrite byte_to_of_Z.
    rewrite (Z.mul_comm 256), Z.mod_add by lia. by apply Z.mod_small.
  - replace ((byte_to_Z b + 256 * le_dec l) / 256) with (le_dec l); [done|].
    rewrite (Z.mul_comm 256), Z.div_add by lia. rewrite Z.div_small; lia.
Qed.

#[global] Arguments le_enc : simpl never.
#[global] Arguments byte_of_Z : simpl never.
#[global] Arguments byte_to_Z : simpl never.

(** [make([]byte, n)] and [var buf [n]byte] *)
Definition zeros (n : nat) : list byte := replicate n x00.

(** [d[off:off+n]] for a slice that is in range. *)
Definition slice (off n : nat) (d : list byte) : list byte := take n (drop off d).

(** [copy(d[off:], bs)] for a destination that has room. *)
Definition put (off : nat) (bs : list byte) (d : list byte) : list byte :=
  take off d ++ bs ++ drop (off + length bs) d.

(** [d[off:off+n]] with Go's bounds check. *)
Definition slice_chk (off n : nat) (d : list byte) : res (list byte) :=
  if decide (off + n ≤ length d)%nat then Ok (slice off n d) else Panic.

Lemma length_zeros n : length (zeros n) = n.
Proof. apply length_replicate. Qed.

Lemma length_put off bs d :
  (off + length bs ≤ length d)%nat → length (put off bs d) = length d.
Proof.
  intros. unfold put. rewrite !length_app, length_take, length_drop. lia.
Qed.

Lemma length_slice off n d :
  (off + n ≤ length d)%nat → length (slice off n d) = n.
Proof. intros. unfold slice. rewrite length_take, length_drop. lia. Qed.

Lemma slice_put_eq off n bs d :
  length bs = n → (off + n ≤ length d)%nat → slice off n (put off bs d) = bs.
Proof.
  intros Hn Hle. unfold slice, put.
  rewrite drop_app_length' by (rewrite length_take; lia).
  apply take_app_length'. lia.
Qed.

Lemma slice_put_before off n off' bs d :
  (off + n ≤ off')%nat → (off' + length bs ≤ length d)%nat →
  slice off n (put off' bs d) = slice off n d.
Proof.
  intros. unfold slice, put. apply list_eq; intros i.
  destruct (decide (i < n)%nat).
  - rewrite !lookup_take_lt, !lookup_drop by lia.
    rewrite lookup_app_l by (rewrite length_take; lia).
    by rewrite lookup_take_lt by lia.
  - by rewrite !lookup_take_ge by lia.
Qed.

Lemma slice_put_after off n off' bs d :
  (off' + length bs ≤ off)%nat → (off' + length bs ≤ length d)%nat →
  slice off n (put off' bs d) = slice off n d.
Proof.
  intros. unfold slice, put. apply list_eq; intros i.
  destruct (decide (i < n)%nat).
  - rewrite !lookup_take_lt, !lookup_drop by lia.
    rewrite lookup_app_r by (rewrite length_take; lia).
    rewrite length_take, lookup_app_r by lia.
    rewrite lookup_drop. f_equal. lia.
  - by rewrite !lookup_take_ge by lia.
Qed.

Lemma slice_all n d : length d = n → slice 0 n d = d.
Proof. intros. unfold slice. rewrite drop_0. apply take_ge. lia. Qed.

Lemma slice_slice o1 n1 o2 n2 d :
  (o2 + n2 ≤ n1)%nat → slice o2 n2 (slice o1 n1 d) = slice (o1 + o2) n2 d.
Proof.
  intros. unfold slice. rewrite skipn_firstn_comm, drop_drop, take_take.
  f_equal. lia.
Qed.

Lemma slice_zeros off n m : (off + n ≤ m)%nat → slice off n (zeros m) = zeros n.
Proof.
  intros. unfold slice, zeros. rewrite drop_replicate, take_replicate. f_equal. lia.
Qed.

(** The slice in the middle of a concatenation. *)
Lemma slice_app_mid off n (pre bs post : list byte) :
  length pre = off → length bs = n → slice off n (pre ++ bs ++ post) = bs.
Proof.
  intros Hp Hb. unfold slice. rewrite drop_app_length' by done. by apply take_app_length'.
Qed.

Lemma slice_chk_ok off n d : (off + n ≤ length d)%nat → slice_chk off n d = Ok (slice off n d).
Proof. intros. unfold slice_chk. by rewrite decide_True by done. Qed.

(** Little-endian accessors of an array. *)
Definition get_u16 (off : nat) (d : list byte) : Z := le_dec (slice off 2 d).
Definition get_u32 (off : nat) (d : list byte) : Z := le_dec (slice off 4 d).
Definition get_u64 (off : nat) (d : list byte) : Z := le_dec (slice off 8 d).
Definition put_u16 (off : nat) (z : Z) (d : list byte) : list byte := put off (le_enc 2 z) d.
Definition put_u32 (off : nat) (z : Z) (d : list byte) : list byte := put off (le_enc 4 z) d.
Definition put_u64 (off : nat) (z : Z) (d : list byte) : list byte := put off (le_enc 8 z) d.
(** [d[i]] and [d[i] = b] on an index in range *)
Definition get_u8 (off : nat) (d : list byte) : Z := le_dec (slice off 1 d).
Definition put_u8 (off : nat) (z : Z) (d : list byte) : list byte := put off (le_enc 1 z) d.

Create Rewrite HintDb arr.
#[export] Hint Rewrite length_zeros length_le_enc @length_app @length_take @length_drop
  @length_replicate : arr.

(** The fields of an array, cut at consecutive lengths. *)
Fixpoint cut (ns : list nat) (off : nat) (d : list byte) : list (list byte) :=
  match ns with
  | [] => []
  | n :: ns => slice off n d :: cut ns (off + n) d
  end.

Lemma concat_cut ns off d :
  (off + sum_list ns = length d)%nat → concat (cut ns off d) = drop off d.
Proof.
  revert off. induction ns as [|n ns IH]; intros off E; simpl in *.
  { symmetry. apply drop_ge. lia. }
  rewrite IH by lia. unfold slice. rewrite <-drop_drop. apply take_drop.
Qed.

Lemma cut_ext ns d d' :
  sum_list ns = length d → sum_list ns = length d' → cut ns 0 d = cut ns 0 d' → d = d'.
Proof.
  intros H1 H2 E. apply (f_equal (@concat byte)) in E. rewrite !concat_cut in E by lia.
  by rewrite !drop_0 in E.
Qed.

Lemma le_enc_dec_len n l : length l = n → le_enc n (le_dec l) = l.
Proof. intros <-. apply le_enc_dec. Qed.

Lemma le_dec_u8 l : length l = 1%nat → is_u8 (le_dec l).
Proof. intros E. pose proof (le_dec_range l). rewrite E in *. done. Qed.
Lemma le_dec_u16 l : length l = 2%nat → is_u16 (le_dec l).
Proof. intros E. pose proof (le_dec_range l). rewrite E in *. done. Qed.
Lemma le_dec_u32 l : length l = 4%nat → is_u32 (le_dec l).
Proof. intros E. pose proof (le_dec_range l). rewrite E in *. done. Qed.
Lemma le_dec_u64 l : length l = 8%nat → is_u64 (le_dec l).
Proof. intros E. pose proof (le_dec_range l). rewrite E in *. done. Qed.

(** A one-byte write in the middle of a slice. *)
Lemma put_byte_split i b d :
  (i < length d)%nat → put i [b] d = take i d ++ b :: drop (S i) d.
Proof. intros. unfold put. simpl. by rewrite Nat.add_1_r. Qed.

Ltac arr_unfold :=
  unfold get_u8, get_u16, get_u32, get_u64, put_u8, put_u16, put_u32, put_u64 in *.

(** Constants of the layer in use; later files extend it with [::=]. *)
Ltac arr_consts := idtac.

Lemma slice_put_byte off n i b d :
  (off ≤ i)%nat → (i < off + n)%nat → (off + n ≤ length d)%nat →
  slice off n (put i [b] d) =
    slice off (i - off) d ++ b :: slice (S i) (off + n - S i) d.
Proof.
  intros. rewrite put_byte_split by lia. unfold slice.
  rewrite drop_app_le by (rewrite length_take; lia).
  rewrite skipn_firstn_comm, firstn_app, take_take, length_take, length_drop.
  rewrite Nat.min_r by lia. f_equal.
  replace (n - (i - off) `min` (length d - off))%nat with (S (off + n - S i)) by lia.
  done.
Qed.

(** Filling a zeroed array from the left. *)
Lemma put_zeros_app k pre bs m :
  length pre = k → (length bs ≤ m)%nat →
  put k bs (pre ++ zeros m) = (pre ++ bs) ++ zeros (m - length bs).
Proof.
  intros <- Hm. unfold put. rewrite take_app_length, <-app_assoc. f_equal. f_equal.
  rewrite drop_app_ge by lia.
  rewrite Nat.add_comm, Nat.add_sub. apply drop_replicate.
Qed.

Lemma put_zeros_0 bs m :
  (length bs ≤ m)%nat → put 0 bs (zeros m) = bs ++ zeros (m - length bs).
Proof. intros. apply (put_zeros_app 0 []); done. Qed.

(** Side conditions about array bounds. *)
Ltac arr_len :=
  repeat first
    [ rewrite length_put by arr_len
    | rewrite length_slice by arr_len ];
  autorewrite with arr; arr_consts; cbn [length] in *; lia.

(** Reads a slice through a stack of writes: each write is the one read, or
    lies before or after it. *)
Ltac arr_read :=
  arr_unfold;
  repeat first
    [ rewrite slice_put_eq by arr_len
    | rewrite slice_put_before by arr_len
    | rewrite slice_put_after by arr_len ].
