(* ===== verification/Storage.v ===== *)
(** * Storage: the 4 KiB page and its on-disk form ([src/storage/page.go])

    [Page] is the in-memory page, [Encode]/[Decode] its disk form, [Write] the
    sequential append.  [ChecksumIEEE] is Go's [hash/crc32] with the IEEE
    polynomial, bit by bit. *)
From S2P Require Import Prelude.
From stdpp Require Import options.

(** ** Constants *)
Definition PageSize : nat := Z.to_nat 4096.
Definition HeaderSize : nat := 24.
Definition DataSize : nat := PageSize - HeaderSize.
Definition MagicNumber : Z := 0xDB110011.

Lemma PageSize_val : Z.of_nat PageSize = 4096.
Proof. unfold PageSize. lia. Qed.
Lemma DataSize_val : Z.of_nat DataSize = 4072.
Proof. unfold DataSize, PageSize, HeaderSize. lia. Qed.
#[global] Opaque PageSize DataSize.

(** Arithmetic with the page constants. *)
Ltac page_consts :=
  pose proof PageSize_val; pose proof DataSize_val; unfold HeaderSize in *.
Ltac page_lia := page_consts; lia.

Definition PageTypeFree : Z := 0.
Definition PageTypeMeta : Z := 1.
Definition PageTypeData : Z := 2.

(** ** Data *)
Record PageHeader : Type := mkPageHeader {
  PageID : Z;
  PageType : Z;
  Flags : Z;
  FreeSpaceOffset : Z;
  NumCells : Z;
  Checksum : Z;
  LSN : Z
}.

Record Page : Type := mkPage {
  Header : PageHeader;
  Data : list byte
}.

Definition NewPage (id pt : Z) : Page :=
  mkPage (mkPageHeader id pt 0 0 0 0 0) (zeros DataSize).

(** ** CRC-32 (IEEE), reflected, bit by bit *)
Definition crc_poly : Z := 0xEDB88320.
Definition crc_bit (c : Z) : Z :=
  if Z.odd c then Z.lxor (Z.shiftr c 1) crc_poly else Z.shiftr c 1.
Definition crc_byte (c : Z) (b : byte) : Z :=
  Nat.iter 8 crc_bit (Z.lxor c (byte_to_Z b)).
Definition crc_update (c : Z) (d : list byte) : Z := foldl crc_byte c d.
Definition ChecksumIEEE (d : list byte) : Z :=
  Z.lxor (crc_update 0xFFFFFFFF d) 0xFFFFFFFF.

(** ** Operations *)
Definition FreeSpace (p : Page) : Z := Z.of_nat DataSize - FreeSpaceOffset (Header p).

Definition Write (data : list byte) (p : Page) : res Page :=
  let h := Header p in
  let offset := FreeSpaceOffset h in
  if decide (Z.of_nat DataSize < offset + Z.of_nat (length data)) then
    Err (Errorf "not enough space on page %d: need %d bytes, only %d free"
           [GInt (PageID h); GInt (Z.of_nat (length data)); GInt (Z.of_nat DataSize - offset)])
  else
    Ok (mkPage
          (mkPageHeader (PageID h) (PageType h) (Flags h)
             (u16 (offset + u16 (Z.of_nat (length data)))) (u16 (NumCells h + 1))
             (Checksum h) (LSN h))
          (put (Z.to_nat offset) data (Data p))).

Definition Encode (p : Page) : list byte :=
  let h := Header p in
  let raw := zeros PageSize in
  let raw := put_u32 0 MagicNumber raw in
  let raw := put_u32 4 (PageID h) raw in
  let raw := put_u8 8 (PageType h) raw in
  let raw := put_u8 9 (Flags h) raw in
  let raw := put_u16 10 (FreeSpaceOffset h) raw in
  let raw := put_u16 12 (NumCells h) raw in
  let raw := put_u32 20 (LSN h) raw in
  let raw := put HeaderSize (Data p) raw in
  put_u32 16 (ChecksumIEEE (slice HeaderSize DataSize raw)) raw.

Definition Decode (raw : list byte) : res Page :=
  let magic := get_u32 0 raw in
  if decide (magic ≠ MagicNumber) then
    Err (Errorf "bad magic number: got 0x%08X, want 0x%08X" [GInt magic; GInt MagicNumber])
  else
    let storedChecksum := get_u32 16 raw in
    let actualChecksum := ChecksumIEEE (slice HeaderSize DataSize raw) in
    if decide (storedChecksum ≠ actualChecksum) then
      Err (Errorf "checksum mismatch on page %d: stored=0x%08X computed=0x%08X"
             [GInt (get_u32 4 raw); GInt storedChecksum; GInt actualChecksum])
    else
      Ok (mkPage
            (mkPageHeader (get_u32 4 raw) (get_u8 8 raw) (get_u8 9 raw)
               (get_u16 10 raw) (get_u16 12 raw) storedChecksum (get_u32 20 raw))
            (slice HeaderSize DataSize raw)).

(** ** Well-formed pages: every field within its Go type *)
Record page_wf (p : Page) : Prop := {
  wf_id : is_u32 (PageID (Header p));
  wf_type : is_u8 (PageType (Header p));
  wf_flags : is_u8 (Flags (Header p));
  wf_fso : is_u16 (FreeSpaceOffset (Header p));
  wf_cells : is_u16 (NumCells (Header p));
  wf_sum : is_u32 (Checksum (Header p));
  wf_lsn : is_u32 (LSN (Header p));
  wf_data : length (Data p) = DataSize
}.

(** The page as it comes back from disk: [Decode] fills in the checksum. *)
Definition with_checksum (c : Z) (p : Page) : Page :=
  let h := Header p in
  mkPage (mkPageHeader (PageID h) (PageType h) (Flags h) (FreeSpaceOffset h)
            (NumCells h) c (LSN h)) (Data p).

Lemma NewPage_wf id pt : is_u32 id → is_u8 pt → page_wf (NewPage id pt).
Proof. intros. split; simpl; try lia. apply length_zeros. Qed.

(** ** The checksum is an injective function of one byte *)
Lemma crc_bit_range c : is_u32 c → is_u32 (crc_bit c).
Proof.
  intros H. unfold crc_bit. rewrite Z.shiftr_div_pow2 by lia.
  assert (0 ≤ c / 2 ^ 1 < 2 ^ 31) by (split; [apply Z.div_pos | apply Z.div_lt_upper_bound]; lia).
  destruct (Z.odd c); [|lia].
  split; [apply Z.lxor_nonneg; unfold crc_poly; lia|].
  assert (Z.lxor (c / 2 ^ 1) crc_poly = 0 ∨ 0 < Z.lxor (c / 2 ^ 1) crc_poly) as [->|Hp].
  { assert (0 ≤ Z.lxor (c / 2 ^ 1) crc_poly); [|lia].
    apply Z.lxor_nonneg; unfold crc_poly; lia. }
  { lia. }
  apply Z.log2_lt_pow2; [done|].
  eapply Z.le_lt_trans; [apply Z.log2_lxor; unfold crc_poly; lia|].
  apply Z.max_lub_lt; [|done].
  destruct (decide (c / 2 ^ 1 = 0)) as [->|]; [done|].
  apply Z.log2_lt_pow2; lia.
Qed.

Lemma crc_bit_top c : is_u32 c → Z.testbit (crc_bit c) 31 = Z.odd c.
Proof.
  intros H. unfold crc_bit.
  assert (Z.testbit (Z.shiftr c 1) 31 = false) as E.
  { rewrite Z.shiftr_spec by lia. change (31 + 1) with 32.
    apply Z.bits_above_log2; [lia|].
    destruct (decide (c = 0)) as [->|]; [done|]. apply Z.log2_lt_pow2; lia. }
  destruct (Z.odd c); [|done]. rewrite Z.lxor_spec, E. done.
Qed.

Lemma crc_bit_inj a b : is_u32 a → is_u32 b → crc_bit a = crc_bit b → a = b.
Proof.
  intros Ha Hb E.
  assert (Z.odd a = Z.odd b) as Eo by (rewrite <-!crc_bit_top by done; by rewrite E).
  assert (Z.shiftr a 1 = Z.shiftr b 1) as Es.
  { unfold crc_bit in E. rewrite Eo in E. destruct (Z.odd b); [|done].
    apply (f_equal (λ z, Z.lxor z crc_poly)) in E.
    by rewrite !Z.lxor_assoc, Z.lxor_nilpotent, !Z.lxor_0_r in E. }
  rewrite !Z.shiftr_div_pow2 in Es by lia.
  rewrite (Z.div_mod a (2 ^ 1)), (Z.div_mod b (2 ^ 1)), Es by lia.
  f_equal. change (2 ^ 1) with 2. rewrite !Zmod_odd, Eo. done.
Qed.

Lemma crc_iter_range n c : is_u32 c → is_u32 (Nat.iter n crc_bit c).
Proof. intros. induction n; simpl; auto using crc_bit_range. Qed.

Lemma crc_iter_inj n a b :
  is_u32 a → is_u32 b → Nat.iter n crc_bit a = Nat.iter n crc_bit b → a = b.
Proof.
  intros Ha Hb. induction n as [|n IH]; simpl; [done|]. intros E.
  apply IH, crc_bit_inj; auto using crc_iter_range.
Qed.

Lemma lxor_u32 a b : is_u32 a → is_u32 b → is_u32 (Z.lxor a b).
Proof.
  intros Ha Hb.
  assert (0 ≤ Z.lxor a b) as Hx by (apply Z.lxor_nonneg; lia). split; [done|].
  destruct (decide (Z.lxor a b = 0)) as [->|]; [lia|].
  apply Z.log2_lt_pow2; [lia|].
  eapply Z.le_lt_trans; [apply Z.log2_lxor; lia|].
  assert (∀ z, is_u32 z → Z.log2 z < 32) as HL.
  { intros z Hz. destruct (decide (z = 0)) as [->|]; [done|]. apply Z.log2_lt_pow2; lia. }
  apply Z.max_lub_lt; auto.
Qed.

Lemma lxor_inj_l a b c : Z.lxor a c = Z.lxor b c → a = b.
Proof.
  intros E. apply (f_equal (λ z, Z.lxor z c)) in E.
  by rewrite !Z.lxor_assoc, Z.lxor_nilpotent, !Z.lxor_0_r in E.
Qed.

Lemma byte_u32 b : is_u32 (byte_to_Z b).
Proof. pose proof (byte_to_Z_range b). lia. Qed.

Create HintDb crc.
#[export] Hint Resolve crc_bit_range crc_iter_range lxor_u32 byte_u32 : crc.

Lemma crc_byte_range c b : is_u32 c → is_u32 (crc_byte c b).
Proof. intros. apply crc_iter_range. auto with crc. Qed.

Lemma crc_update_range c d : is_u32 c → is_u32 (crc_update c d).
Proof.
  revert c. induction d as [|b d IH]; intros c Hc; [done|].
  simpl. apply IH, crc_byte_range, Hc.
Qed.

Lemma crc_update_inj_l a b d :
  is_u32 a → is_u32 b → crc_update a d = crc_update b d → a = b.
Proof.
  revert a b. induction d as [|x d IH]; intros a b Ha Hb; simpl; [done|]. intros E.
  apply IH in E; auto using crc_byte_range.
  apply crc_iter_inj in E; auto with crc. by apply lxor_inj_l in E.
Qed.

Lemma crc_byte_inj_r c x y : is_u32 c → crc_byte c x = crc_byte c y → x = y.
Proof.
  intros Hc E. apply crc_iter_inj in E; auto with crc.
  rewrite !(Z.lxor_comm c) in E. by apply lxor_inj_l, byte_to_Z_inj in E.
Qed.

Lemma ChecksumIEEE_range d : is_u32 (ChecksumIEEE d).
Proof. apply lxor_u32; [|lia]. apply crc_update_range. lia. Qed.

Lemma ChecksumIEEE_one_byte pre x y post :
  ChecksumIEEE (pre ++ x :: post) = ChecksumIEEE (pre ++ y :: post) → x = y.
Proof.
  unfold ChecksumIEEE, crc_update. rewrite !foldl_app. simpl. intros E.
  apply lxor_inj_l in E.
  assert (is_u32 (foldl crc_byte 0xFFFFFFFF pre)) by (apply crc_update_range; lia).
  apply crc_update_inj_l in E; auto using crc_byte_range.
  by eapply crc_byte_inj_r.
Qed.

Example ChecksumIEEE_check_value :
  ChecksumIEEE [x31; x32; x33; x34; x35; x36; x37; x38; x39] = 0xCBF43926.
Proof. reflexivity. Qed.

(** ** The disk form *)

(** The byte layout written by [Encode], field by field. *)
Definition page_layout : list nat := [4; 4; 1; 1; 2; 2; 2; 4; 4; DataSize]%nat.

Lemma sum_page_layout : sum_list page_layout = PageSize.
Proof. unfold page_layout; simpl. page_lia. Qed.

Ltac arr_consts ::= page_consts.

Lemma length_Encode p : length (Data p) = DataSize → length (Encode p) = PageSize.
Proof. intros Hd. unfold Encode. arr_unfold. arr_len. Qed.

Lemma get_Encode_fields p :
  length (Data p) = DataSize →
  slice 0 4 (Encode p) = le_enc 4 MagicNumber ∧
  slice 4 4 (Encode p) = le_enc 4 (PageID (Header p)) ∧
  slice 8 1 (Encode p) = le_enc 1 (PageType (Header p)) ∧
  slice 9 1 (Encode p) = le_enc 1 (Flags (Header p)) ∧
  slice 10 2 (Encode p) = le_enc 2 (FreeSpaceOffset (Header p)) ∧
  slice 12 2 (Encode p) = le_enc 2 (NumCells (Header p)) ∧
  slice 14 2 (Encode p) = zeros 2 ∧
  slice 16 4 (Encode p) = le_enc 4 (ChecksumIEEE (Data p)) ∧
  slice 20 4 (Encode p) = le_enc 4 (LSN (Header p)) ∧
  slice HeaderSize DataSize (Encode p) = Data p.
Proof.
  intros Hd. unfold Encode. arr_unfold.
  repeat split; arr_read; auto using slice_zeros.
Qed.

Lemma cut_Encode p :
  length (Data p) = DataSize →
  cut page_layout 0 (Encode p) =
    [le_enc 4 MagicNumber; le_enc 4 (PageID (Header p)); le_enc 1 (PageType (Header p));
     le_enc 1 (Flags (Header p)); le_enc 2 (FreeSpaceOffset (Header p));
     le_enc 2 (NumCells (Header p)); zeros 2; le_enc 4 (ChecksumIEEE (Data p));
     le_enc 4 (LSN (Header p)); Data p].
Proof.
  intros Hd.
  destruct (get_Encode_fields p Hd) as (E0 & E4 & E8 & E9 & E10 & E12 & E14 & E16 & E20 & E24).
  unfold HeaderSize in *. cbn [cut page_layout Nat.add].
  by rewrite E0, E4, E8, E9, E10, E12, E14, E16, E20, E24.
Qed.

Lemma Decode_Encode_ok p :
  page_wf p → Decode (Encode p) = Ok (with_checksum (ChecksumIEEE (Data p)) p).
Proof.
  intros [Hid Hty Hfl Hfs Hnc Hsum Hlsn Hd].
  destruct (get_Encode_fields p Hd) as (E0 & E4 & E8 & E9 & E10 & E12 & _ & E16 & E20 & E24).
  pose proof (ChecksumIEEE_range (Data p)).
  unfold Decode. arr_unfold. rewrite E0, E4, E8, E9, E10, E12, E16, E20, E24.
  rewrite !le_dec_enc_small by (simpl; done || lia).
  by rewrite !decide_False by auto.
Qed.

(** What [Decode] accepts is well formed, and is the encoding of the page it
    returns as soon as the reserved bytes are zero, as [Encode] leaves them. *)
Lemma Decode_ok raw p :
  length raw = PageSize → Decode raw = Ok p →
  page_wf p ∧ Checksum (Header p) = ChecksumIEEE (Data p) ∧
  (slice 14 2 raw = zeros 2 → Encode p = raw).
Proof.
  intros Hlen HD. unfold Decode in HD.
  case_decide as Hm; [done|]. case_decide as Hs; [done|]. injection HD as <-.
  assert (length (slice HeaderSize DataSize raw) = DataSize) as Hd by (apply length_slice; page_lia).
  arr_unfold. split; [|split; [done|]].
  { split; simpl; eauto; first [apply le_dec_u8 | apply le_dec_u16 | apply le_dec_u32]; arr_len. }
  intros Hz. apply (cut_ext page_layout); [by rewrite sum_page_layout, length_Encode..| |].
  { by rewrite sum_page_layout. }
  rewrite cut_Encode by done. cbn [cut page_layout Nat.add Header Data PageID PageType Flags
    FreeSpaceOffset NumCells LSN].
  rewrite <-Hs, <-Hm. rewrite !le_enc_dec_len by arr_len. by rewrite Hz.
Qed.

Lemma Decode_total raw : is_ok (Decode raw) = true ∨ is_err (Decode raw) = true.
Proof. unfold Decode. repeat case_decide; simpl; auto. Qed.

(** ** Properties *)

(** The stored form is lossless: decoding an encoded page gives the page back
    with the checksum of its data filled in, and two pages with the same stored
    form differ at most in their in-memory checksum field. *)
Theorem Decode_Encode p q :
  page_wf p → page_wf q →
  length (Encode p) = PageSize ∧
  Decode (Encode p) = Ok (with_checksum (ChecksumIEEE (Data p)) p) ∧
  (Encode p = Encode q ↔ with_checksum 0 p = with_checksum 0 q).
Proof.
  intros Hp Hq. split; [by apply length_Encode, wf_data|]. split; [by apply Decode_Encode_ok|].
  pose proof (Decode_Encode_ok p Hp) as Dp. pose proof (Decode_Encode_ok q Hq) as Dq.
  split; intros E.
  - rewrite E, Dq in Dp. injection Dp as E'. 
    destruct p as [[] dp], q as [[] dq]. unfold with_checksum in *. simpl in *. congruence.
  - destruct p as [[] dp], q as [[] dq]. unfold with_checksum in *. simpl in *.
    unfold Encode. simpl. congruence.
Qed.

(** C38. Decoding is total on page-sized buffers (it never panics), accepts only
    well-formed pages whose checksum is that of their data, and is inverted by
    [Encode] when the two reserved bytes are zero. *)
Theorem Decode_sound raw :
  length raw = PageSize →
  match Decode raw with
  | Ok p => page_wf p ∧ Checksum (Header p) = ChecksumIEEE (Data p) ∧
            (slice 14 2 raw = zeros 2 → Encode p = raw)
  | Err _ => get_u32 0 raw ≠ MagicNumber ∨
             get_u32 16 raw ≠ ChecksumIEEE (slice HeaderSize DataSize raw)
  | _ => False
  end.
Proof.
  intros Hlen. destruct (Decode raw) as [p|e| |] eqn:E.
  - by apply Decode_ok.
  - unfold Decode in E. repeat case_decide; auto.
  - by destruct (Decode_total raw); rewrite E in *.
  - by destruct (Decode_total raw); rewrite E in *.
Qed.

(** C37. Any change of a single byte of the data area of a stored page is caught. *)
Theorem Decode_detects_data_corruption p i b :
  page_wf p → (HeaderSize ≤ i < PageSize)%nat → Encode p !! i ≠ Some b →
  ∃ stored computed, stored ≠ computed ∧
    Decode (put i [b] (Encode p)) =
      Err (Errorf "checksum mismatch on page %d: stored=0x%08X computed=0x%08X"
             [GInt (PageID (Header p)); GInt stored; GInt computed]).
Proof.
  intros Hwf Hi Hb. pose proof (length_Encode p (wf_data p Hwf)) as Hlen.
  destruct (get_Encode_fields p (wf_data p Hwf)) as (E0 & E4 & _ & _ & _ & _ & _ & E16 & _ & E24).
  unfold Decode. arr_unfold.
  assert (∀ off n, (off + n ≤ HeaderSize)%nat →
    slice off n (put i [b] (Encode p)) = slice off n (Encode p)) as Hhdr.
  { intros. apply slice_put_before; arr_len. }
  rewrite !(Hhdr 0 4)%nat, !(Hhdr 4 4)%nat, !(Hhdr 16 4)%nat by (unfold HeaderSize; lia).
  rewrite E0, E4, E16, !le_dec_enc_small by
    (first [apply ChecksumIEEE_range | apply (wf_id p Hwf) | done]).
  rewrite decide_False by auto.
  assert (ChecksumIEEE (Data p) ≠
          ChecksumIEEE (slice HeaderSize DataSize (put i [b] (Encode p)))) as Hne.
  { rewrite <-E24. set (raw := Encode p) in *.
    destruct (lookup_lt_is_Some_2 raw i ltac:(page_lia)) as [c Hc].
    assert (raw = put i [c] raw) as Hraw.
    { rewrite put_byte_split by page_lia. symmetry. by apply take_drop_middle. }
    rewrite Hraw at 1. rewrite !slice_put_byte by arr_len.
    intros ->%ChecksumIEEE_one_byte. done. }
  rewrite decide_True by done. eauto.
Qed.

(** A page whose free-space offset lies within its data area. *)
Definition page_ok (p : Page) : Prop :=
  page_wf p ∧ FreeSpaceOffset (Header p) ≤ Z.of_nat DataSize.

(** [Write] fails exactly when the data does not fit; otherwise it stores the
    data at the old free-space offset, moves the offset past it, keeps every
    other byte, and the page stays well formed. *)
Theorem Write_spec p data :
  page_ok p →
  let off := Z.to_nat (FreeSpaceOffset (Header p)) in
  if decide (Z.of_nat (length data) ≤ FreeSpace p) then
    ∃ p', Write data p = Ok p' ∧ page_ok p' ∧
      FreeSpace p' = FreeSpace p - Z.of_nat (length data) ∧
      NumCells (Header p') = u16 (NumCells (Header p) + 1) ∧
      slice off (length data) (Data p') = data ∧
      take off (Data p') = take off (Data p) ∧
      drop (off + length data) (Data p') = drop (off + length data) (Data p)
  else is_err (Write data p) = true.
Proof.
  intros [[Hid Hty Hfl Hfs Hnc Hsum Hlsn Hd] Hok] off. unfold FreeSpace, Write. page_consts.
  case_decide as Hroom; [|rewrite decide_True by lia; done].
  rewrite decide_False by lia.
  assert (off + length data ≤ length (Data p))%nat by (subst off; lia).
  assert (u16 (FreeSpaceOffset (Header p) + u16 (Z.of_nat (length data)))
          = FreeSpaceOffset (Header p) + Z.of_nat (length data)) as Hfso.
  { unfold u16. rewrite !Z.mod_small; try lia. rewrite Z.mod_small; lia. }
  eexists; split; [done|]. cbn [Header Data FreeSpaceOffset NumCells]. rewrite Hfso.
  split_and!; [|lia|reflexivity|by apply slice_put_eq| |].
  - split; [|cbn [Header FreeSpaceOffset]; lia].
    split; cbn [Header Data PageID PageType Flags FreeSpaceOffset NumCells Checksum LSN];
      [exact Hid|exact Hty|exact Hfl|lia| |exact Hsum|exact Hlsn|by rewrite length_put].
    apply Z.mod_pos_bound. lia.
  - unfold put. rewrite take_app_le by (rewrite length_take; lia).
    rewrite take_take. f_equal. lia.
  - unfold put. rewrite app_assoc. apply drop_app_length'.
    rewrite length_app, length_take. lia.
Qed.

(** ** Witnesses *)
Lemma NewPage_data_wf id : is_u32 id → page_wf (NewPage id PageTypeData).
Proof. intros. by apply NewPage_wf. Qed.
Lemma NewPage_data_ok id : is_u32 id → page_ok (NewPage id PageTypeData).
Proof. intros. split; [by apply NewPage_data_wf|]. simpl. page_lia. Qed.

Lemma Decode_Encode_witness :
  Decode (Encode (NewPage 7 PageTypeData)) =
    Ok (with_checksum (ChecksumIEEE (zeros DataSize)) (NewPage 7 PageTypeData)).
Proof.
  apply (Decode_Encode (NewPage 7 PageTypeData) (NewPage 8 PageTypeData));
    apply NewPage_data_wf; lia.
Defined.

Lemma Decode_sound_witness :
  match Decode (zeros PageSize) with Ok _ => False | Err _ => True | _ => False end.
Proof.
  pose proof (Decode_sound (zeros PageSize) (length_zeros _)) as H.
  assert (get_u32 0 (zeros PageSize) = 0) as E.
  { unfold get_u32. rewrite slice_zeros by page_lia. reflexivity. }
  destruct (Decode (zeros PageSize)) as [p|e| |] eqn:ED; [|done..].
  unfold Decode in ED. rewrite E in ED. done.
Defined.

Lemma Decode_detects_data_corruption_witness :
  ∃ stored computed, stored ≠ computed ∧
    Decode (put 24 [x01] (Encode (NewPage 7 PageTypeData))) =
      Err (Errorf "checksum mismatch on page %d: stored=0x%08X computed=0x%08X"
             [GInt 7; GInt stored; GInt computed]).
Proof.
  apply (Decode_detects_data_corruption (NewPage 7 PageTypeData) 24 x01).
  - apply NewPage_data_wf. lia.
  - page_lia.
  - destruct (get_Encode_fields (NewPage 7 PageTypeData)) as (_&_&_&_&_&_&_&_&_&E).
    { apply length_zeros. }
    intros Hb.
    assert (slice HeaderSize DataSize (Encode (NewPage 7 PageTypeData)) !! 0%nat = Some x01) as Hc.
    { unfold slice. rewrite lookup_take_lt by page_lia. by rewrite lookup_drop. }
    rewrite E in Hc. simpl in Hc. unfold zeros in Hc.
    by apply lookup_replicate in Hc as [? _].
Defined.

Lemma Write_spec_witness :
  ∃ p', Write [x41; x42] (NewPage 7 PageTypeData) = Ok p' ∧ FreeSpace p' = 4070 ∧
    slice 0 2 (Data p') = [x41; x42].
Proof.
  pose proof (Write_spec (NewPage 7 PageTypeData) [x41; x42] (NewPage_data_ok 7 ltac:(lia))) as H.
  rewrite decide_True in H.
  2: { unfold FreeSpace. simpl. page_lia. }
  destruct H as (p' & HW & _ & Hfs & _ & Hs & _). exists p'. split; [done|].
  split; [rewrite Hfs; unfold FreeSpace; simpl; page_lia | exact Hs].
Defined.

#[global] Opaque Encode Decode ChecksumIEEE.
