(* ===== verification/Disk.v ===== *)
(** * Disk: the part of [os.File] the engine uses

    A file is its bytes, whether the handle is still open, and a write budget:
    [None] for a healthy device, [Some k] for one that fails after [k] more
    writes (a full disk, or a crash in the middle of an operation).  [ReadAt]
    and [WriteAt] are the only accesses of the pager and of the log. *)
From S2P Require Import Prelude.
From stdpp Require Import options.

Record File : Type := mkFile {
  f_bytes : list byte;
  f_open : bool;
  f_credit : option nat
}.

(** A file opened on [b] on a healthy device. *)
Definition OpenFile (b : list byte) : File := mkFile b true None.
Definition CloseFile (f : File) : File := mkFile (f_bytes f) false (f_credit f).

(** [f.ReadAt(buf[:n], off)]: a short read is [io.EOF]. *)
Definition ReadAt (off n : nat) (f : File) : res (list byte) :=
  if negb (f_open f) then Err ErrIO
  else if decide (off + n ≤ length (f_bytes f))%nat then Ok (slice off n (f_bytes f))
  else Err ErrEOF.

(** The bytes after writing [bs] at [off]: a gap past the end reads as zeros. *)
Definition write_bytes (off : nat) (bs b : list byte) : list byte :=
  put off bs (b ++ zeros (off + length bs - length b)).

Definition WriteAt (off : nat) (bs : list byte) : M File unit := λ f,
  if negb (f_open f) then (Err ErrIO, f)
  else match f_credit f with
  | Some O => (Err ErrIO, f)
  | c => (Ok tt, mkFile (write_bytes off bs (f_bytes f)) true (pred <$> c))
  end.

Definition file_ok (f : File) : Prop := f_open f = true ∧ f_credit f = None.

Lemma length_write_bytes off bs b :
  length (write_bytes off bs b) = Nat.max (length b) (off + length bs).
Proof. unfold write_bytes. rewrite length_put; autorewrite with arr; lia. Qed.

Lemma slice_app_l off n d d' :
  (off + n ≤ length d)%nat → slice off n (d ++ d') = slice off n d.
Proof.
  intros. unfold slice. rewrite drop_app_le by lia. apply take_app_le.
  rewrite length_drop. lia.
Qed.

Lemma slice_write_bytes_eq off bs b n :
  n = length bs → slice off n (write_bytes off bs b) = bs.
Proof. intros ->. apply slice_put_eq; [done|]. autorewrite with arr. lia. Qed.

Lemma slice_write_bytes_ne off bs b off' n :
  (off' + n ≤ length b)%nat → (off' + n ≤ off ∨ off + length bs ≤ off')%nat →
  slice off' n (write_bytes off bs b) = slice off' n b.
Proof.
  intros Hb Hne. unfold write_bytes.
  destruct Hne; [rewrite slice_put_before | rewrite slice_put_after];
    try (apply slice_app_l; done); autorewrite with arr; lia.
Qed.

Lemma WriteAt_ok off bs f :
  file_ok f → WriteAt off bs f = (Ok tt, OpenFile (write_bytes off bs (f_bytes f))).
Proof. intros [Ho Hc]. unfold WriteAt. by rewrite Ho, Hc. Qed.

Lemma ReadAt_ok off n f :
  file_ok f → (off + n ≤ length (f_bytes f))%nat →
  ReadAt off n f = Ok (slice off n (f_bytes f)).
Proof. intros [Ho _] H. unfold ReadAt. rewrite Ho. simpl. by rewrite decide_True. Qed.

Lemma ReadAt_eof off n f :
  file_ok f → (length (f_bytes f) < off + n)%nat → ReadAt off n f = Err ErrEOF.
Proof. intros [Ho _] H. unfold ReadAt. rewrite Ho. simpl. rewrite decide_False by lia. done. Qed.

Lemma OpenFile_ok b : file_ok (OpenFile b).
Proof. done. Qed.
#[export] Hint Resolve OpenFile_ok : core.
