(* ===== verification/Store.v ===== *)
(** * Store: the [PageStore] and [FullStore] interfaces ([src/pager/pager.go])

    The B+ tree is written against [PageStore], the transaction buffer against
    [FullStore].  [PageStoreSpec] is what an implementation promises: the store
    represents a finite map from page identifiers to page data, reads return
    it, writes update it, allocation extends it with a fresh zeroed page as
    long as there is room, and freeing removes a page. *)
From S2P Require Import Prelude Storage.
From stdpp Require Import options.

Class PageStore (S : Type) : Type := {
  ps_read : Z → M S Page;
  ps_write : Page → M S unit;
  ps_alloc : M S Z
}.

Class FullStore (S : Type) : Type := {
  fs_pages :: PageStore S;
  fs_free : Z → M S unit
}.

(** What a store holds: page identifier to page data. *)
Abbreviation pmap := (gmap Z (list byte)).

Class PageStoreSpec (S : Type) {PS : PageStore S} : Type := {
  ps_rep : S → pmap → Prop;
  ps_room : S → Z;
  ps_rep_wf s v id d :
    ps_rep s v → v !! id = Some d → 0 < id < 2 ^ 32 ∧ length d = DataSize;
  ps_read_spec s v id d :
    ps_rep s v → v !! id = Some d →
    ∃ p s', ps_read id s = (Ok p, s') ∧ ps_rep s' v ∧ ps_room s' = ps_room s ∧
      PageID (Header p) = id ∧ Data p = d;
  ps_write_spec s v p :
    ps_rep s v → page_wf p → is_Some (v !! PageID (Header p)) →
    ∃ s', ps_write p s = (Ok tt, s') ∧
      ps_rep s' (<[PageID (Header p) := Data p]> v) ∧ ps_room s' = ps_room s;
  ps_alloc_spec s v :
    ps_rep s v → 0 < ps_room s →
    ∃ id s', ps_alloc s = (Ok id, s') ∧ v !! id = None ∧
      ps_rep s' (<[id := zeros DataSize]> v) ∧ ps_room s' = ps_room s - 1
}.

Class FullStoreSpec (S : Type) {FS : FullStore S} : Type := {
  fs_spec :: PageStoreSpec S;
  fs_slots : S → Z;
  fs_slots_read s id : fs_slots (ps_read id s).2 = fs_slots s;
  fs_slots_write s p : fs_slots (ps_write p s).2 = fs_slots s;
  fs_slots_alloc s : fs_slots s ≤ fs_slots (ps_alloc s).2;
  fs_free_spec s v id :
    ps_rep s v → is_Some (v !! id) → 0 < fs_slots s →
    ∃ s', fs_free id s = (Ok tt, s') ∧ ps_rep s' (delete id v) ∧
      ps_room s' = ps_room s + 1 ∧ fs_slots s' = fs_slots s - 1;
  fs_full_spec s v id :
    ps_rep s v → is_Some (v !! id) → fs_slots s ≤ 0 →
    ∃ e s', fs_free id s = (Err e, s') ∧ ps_rep s' v ∧ ps_room s' = ps_room s
}.

(** ** The interface as a model: pages in memory *)

Record Mem : Type := mkMem { mem_pages : pmap; mem_next : Z }.

Definition mem_new : Mem := mkMem ∅ 1.

#[export] Instance Mem_pages : PageStore Mem := {|
  ps_read id := λ s, match mem_pages s !! id with
    | Some d => (Ok (mkPage (Header (NewPage id PageTypeData)) d), s)
    | None => (Err (Errorf "no page %d" [GInt id]), s)
    end;
  ps_write p := λ s, match mem_pages s !! PageID (Header p) with
    | Some _ => (Ok tt, mkMem (<[PageID (Header p) := Data p]> (mem_pages s)) (mem_next s))
    | None => (Err (Errorf "no page %d" [GInt (PageID (Header p))]), s)
    end;
  ps_alloc := λ s,
    if decide (mem_next s < 2 ^ 32) then
      (Ok (mem_next s), mkMem (<[mem_next s := zeros DataSize]> (mem_pages s)) (mem_next s + 1))
    else (Err (Errorf "no room" []), s)
|}.

Definition mem_rep (s : Mem) (v : pmap) : Prop :=
  mem_pages s = v ∧ 0 < mem_next s ≤ 2 ^ 32 ∧
  ∀ id d, v !! id = Some d → 0 < id < mem_next s ∧ length d = DataSize.

#[export] Program Instance Mem_pages_spec : PageStoreSpec Mem :=
  {| ps_rep := mem_rep; ps_room s := 2 ^ 32 - mem_next s |}.
Next Obligation. intros s v id d (_ & Hn & H) Hl. apply H in Hl. split; [lia|tauto]. Qed.
Next Obligation.
  intros s v id d Hrep Hl. simpl. rewrite (proj1 Hrep), Hl. eexists _, _. by split_and!.
Qed.
Next Obligation.
  intros s v p (Hv & Hn & H) Hwf [d Hd]. simpl. rewrite Hv, Hd. eexists. split; [reflexivity|].
  split; [|done]. split; [done|]. split; [done|]. intros id d'. rewrite lookup_insert. simpl.
  case_decide as Hid; [|apply H]. intros [= <-]. rewrite <-Hid. split; [by eapply H|by apply wf_data].
Qed.
Next Obligation.
  intros s v (Hv & Hn & H) Hroom. simpl. rewrite decide_True by lia. eexists _, _.
  split; [reflexivity|]. split; [|split].
  - destruct (v !! mem_next s) eqn:E; [|done]. apply H in E. lia.
  - split; [by rewrite Hv|]. simpl. split; [lia|]. intros id d. rewrite lookup_insert.
    case_decide as Hid; [intros [= <-]; split; [lia|apply length_zeros]|].
    intros Hl. apply H in Hl. split; [lia|tauto].
  - simpl. lia.
Qed.

Lemma mem_new_rep : ps_rep mem_new ∅.
Proof. split; [done|]. split; [simpl; lia|]. intros id d. by rewrite lookup_empty. Qed.
