(* ===== verification/Pager.v ===== *)
(** * Pager: page identifiers to file offsets ([src/pager/pager.go])

    A [Pager] is the open file, the page count and the free list; page 0 is the
    meta page that stores the last two.  [Open], [Close], [AllocatePage],
    [FreePage], [ReadPage], [WritePage] are the exported operations,
    [flushMeta]/[loadMeta]/[bootstrapMeta] the internal ones. *)
From S2P Require Import Prelude Storage Disk Store.
From stdpp Require Import options.

Definition metaPageID : Z := 0.
Definition maxFreeListEntries : nat := (DataSize - 8) / 4.

Record Pager : Type := mkPager {
  file : File;
  totalPages : Z;
  freeList : list Z
}.

Definition set_file (f : File) (pg : Pager) : Pager := mkPager f (totalPages pg) (freeList pg).
Definition set_total (t : Z) (pg : Pager) : Pager := mkPager (file pg) t (freeList pg).
Definition set_free (l : list Z) (pg : Pager) : Pager := mkPager (file pg) (totalPages pg) l.

(** [int64(id) * PageSize] *)
Definition page_off (id : Z) : nat := Z.to_nat (id * 4096).

(** File access on behalf of a pager. *)
Definition pg_write (off : nat) (bs : list byte) : M Pager unit := λ pg,
  let '(r, f) := WriteAt off bs (file pg) in (r, set_file f pg).
Definition pg_read (off n : nat) : M Pager (list byte) := λ pg,
  (ReadAt off n (file pg), pg).

Definition WritePage (p : Page) : M Pager unit :=
  let raw := Encode p in
  let id := PageID (Header p) in
  wrap "write page %d at offset %d: %w" [GInt id] (pg_write (page_off id) raw).

Definition ReadPage (id : Z) : M Pager Page :=
  pg ← get_state;
  if decide (totalPages pg ≤ id) then
    fail (Errorf "page ID %d is out of range (total pages: %d)" [GInt id; GInt (totalPages pg)])
  else
    raw ← wrap "read page %d at offset %d: %w" [GInt id] (pg_read (page_off id) PageSize);
    lift (wrap_err "decode page %d: %w" [GInt id] (Decode raw)).

(** The loop of [flushMeta] over the free list. *)
Fixpoint put_free_ids (i : nat) (ids : list Z) (d : list byte) : res (list byte) :=
  match ids with
  | [] => Ok d
  | id :: ids =>
      let off := (8 + i * 4)%nat in
      if decide (off + 4 ≤ length d)%nat then put_free_ids (S i) ids (put_u32 off id d)
      else Panic
  end.

Definition flushMeta : M Pager unit :=
  pg ← get_state;
  let d := zeros DataSize in
  let d := put_u32 0 (totalPages pg) d in
  let d := put_u32 4 (u32 (Z.of_nat (length (freeList pg)))) d in
  d ← lift (put_free_ids 0 (freeList pg) d);
  WritePage (mkPage (Header (NewPage metaPageID PageTypeMeta)) d).

(** The loop of [loadMeta]: [n] more entries, the next one being number [i]. *)
Fixpoint load_free_ids (n i : nat) (d : list byte) : res (list Z) :=
  match n with
  | O => Ok []
  | S n =>
      raw ← slice_chk (8 + i * 4) 4 d;
      ids ← load_free_ids n (S i) d;
      Ok (le_dec raw :: ids)
  end.

Definition loadMeta : M Pager unit :=
  raw ← wrap "read meta page from disk: %w" [] (pg_read 0 PageSize);
  meta ← lift (wrap_err "decode meta page: %w" [] (Decode raw));
  _ ← modify (set_total (get_u32 0 (Data meta)));
  ids ← lift (load_free_ids (Z.to_nat (get_u32 4 (Data meta))) 0 (Data meta));
  modify (set_free ids).

Definition bootstrapMeta : M Pager unit :=
  _ ← modify (set_total 1);
  _ ← modify (set_free []);
  flushMeta.

(** [Open] on a file with the given content; [OpenFile] and [Stat] succeed. *)
Definition Open (b : list byte) : res Pager * File :=
  let pg := mkPager (OpenFile b) 0 [] in
  let '(r, pg') :=
    if decide (length b = 0%nat) then wrap "bootstrap meta page: %w" [] bootstrapMeta pg
    else wrap "load meta page: %w" [] loadMeta pg in
  (match r with Ok _ => Ok pg' | Err e => Err e | Panic => Panic | OutOfFuel => OutOfFuel end,
   match r with Err _ => CloseFile (file pg') | _ => file pg' end).

Definition Close : M Pager unit :=
  _ ← flushMeta;
  modify (λ pg, set_file (CloseFile (file pg)) pg).

Definition AllocatePage : M Pager Z :=
  pg ← get_state;
  match last (freeList pg) with
  | Some id =>
      _ ← modify (set_free (removelast (freeList pg)));
      _ ← WritePage (NewPage id PageTypeData);
      _ ← flushMeta;
      mret id
  | None =>
      let id := totalPages pg in
      _ ← modify (set_total (u32 (totalPages pg + 1)));
      _ ← (λ pg, match WritePage (NewPage id PageTypeData) pg with
             | (Err e, pg) => (Err e, set_total (u32 (totalPages pg - 1)) pg)
             | r => r
             end);
      _ ← flushMeta;
      mret id
  end.

Definition FreePage (id : Z) : M Pager unit :=
  pg ← get_state;
  if decide (id = metaPageID) then
    fail (Errorf "cannot free page 0: it is the permanent meta page" [])
  else if decide (totalPages pg ≤ id) then
    fail (Errorf "page ID %d is out of range (total pages: %d)" [GInt id; GInt (totalPages pg)])
  else if decide (maxFreeListEntries ≤ length (freeList pg))%nat then
    fail (Errorf "free list is full (%d entries); Phase 1 cap reached"
            [GInt (Z.of_nat maxFreeListEntries)])
  else
    _ ← WritePage (NewPage id PageTypeFree);
    _ ← modify (λ pg, set_free (freeList pg ++ [id]) pg);
    flushMeta.

Definition TotalPages (pg : Pager) : Z := totalPages pg.
Definition FreeList (pg : Pager) : list Z := freeList pg.

(** Projects the fields of a pager after updates. *)
Ltac pg_simpl :=
  unfold set_file, set_total, set_free, OpenFile;
  cbn [file totalPages freeList f_bytes f_open f_credit].

(** ** What a file represents *)

Definition block (b : list byte) (id : Z) : list byte := slice (page_off id) PageSize b.

(** The data of page [id] on disk, when it decodes to a page of that identifier. *)
Definition disk_data (b : list byte) (id : Z) : option (list byte) :=
  match Decode (block b id) with
  | Ok p => if decide (PageID (Header p) = id) then Some (Data p) else None
  | _ => None
  end.

(** The data area of the meta page for a page count and a free list. *)
Definition meta_data (t : Z) (fl : list Z) : list byte :=
  le_enc 4 t ++ le_enc 4 (Z.of_nat (length fl)) ++ concat (le_enc 4 <$> fl)
    ++ zeros (DataSize - 8 - 4 * length fl).

(** File [b] stores [t] pages, free list [fl], and the pages of [v] in use. *)
Record disk_rep (b : list byte) (t : Z) (fl : list Z) (v : gmap Z (list byte)) : Prop := {
  dr_total : 1 ≤ t < 2 ^ 32;
  dr_len : (page_off t ≤ length b)%nat;
  dr_nodup : NoDup fl;
  dr_free : ∀ id, id ∈ fl → 0 < id < t ∧ disk_data b id = Some (zeros DataSize);
  dr_cap : (length fl ≤ maxFreeListEntries)%nat;
  dr_meta : disk_data b 0 = Some (meta_data t fl);
  dr_pages : ∀ id, 0 < id < t → is_Some (disk_data b id);
  dr_view : ∀ id, v !! id = if decide (0 < id < t ∧ id ∉ fl) then disk_data b id else None
}.

Definition pager_rep (pg : Pager) (v : gmap Z (list byte)) : Prop :=
  file_ok (file pg) ∧ disk_rep (f_bytes (file pg)) (totalPages pg) (freeList pg) v.

(** Pages that can still be allocated before the 32-bit page count is full. *)
Definition pager_room (pg : Pager) : Z :=
  Z.of_nat (length (freeList pg)) + (2 ^ 32 - 1 - totalPages pg).
Definition pager_slots (pg : Pager) : Z :=
  Z.of_nat maxFreeListEntries - Z.of_nat (length (freeList pg)).

(** *** Reading a block after a page write *)

Lemma maxFreeListEntries_val : Z.of_nat maxFreeListEntries = 1016.
Proof.
  unfold maxFreeListEntries. page_consts.
  rewrite Nat2Z.inj_div. replace (Z.of_nat (DataSize - 8)) with 4064 by lia. done.
Qed.
#[global] Opaque maxFreeListEntries.

(** The file after [WritePage p]. *)
Definition write_page (p : Page) (b : list byte) : list byte :=
  write_bytes (page_off (PageID (Header p))) (Encode p) b.

Lemma WritePage_ok p pg :
  file_ok (file pg) →
  WritePage p pg = (Ok tt, set_file (OpenFile (write_page p (f_bytes (file pg)))) pg).
Proof.
  intros Hf. unfold WritePage. apply wrap_Ok. unfold pg_write.
  by rewrite WriteAt_ok.
Qed.

Lemma length_write_page p b :
  length (Data p) = DataSize → (length b ≤ length (write_page p b))%nat ∧
  (page_off (PageID (Header p)) + PageSize ≤ length (write_page p b))%nat.
Proof.
  intros Hd. unfold write_page. rewrite length_write_bytes, length_Encode by done. lia.
Qed.

Lemma disk_data_write_eq p b :
  page_wf p → disk_data (write_page p b) (PageID (Header p)) = Some (Data p).
Proof.
  intros Hwf. unfold disk_data, block, write_page.
  rewrite slice_write_bytes_eq by (by rewrite length_Encode by apply (wf_data p Hwf)).
  rewrite Decode_Encode_ok by done. simpl. by rewrite decide_True.
Qed.

Lemma disk_data_write_ne p b id :
  page_wf p → id ≠ PageID (Header p) → 0 ≤ id → (page_off id + PageSize ≤ length b)%nat →
  disk_data (write_page p b) id = disk_data b id.
Proof.
  intros Hwf Hne Hid Hlen. unfold disk_data, block, write_page.
  rewrite slice_write_bytes_ne; [done|done|].
  rewrite length_Encode by apply (wf_data p Hwf).
  pose proof (wf_id p Hwf). unfold page_off in *. page_lia.
Qed.

Lemma disk_data_inv b id d :
  disk_data b id = Some d → (page_off id + PageSize ≤ length b)%nat →
  ∃ p, Decode (block b id) = Ok p ∧ PageID (Header p) = id ∧ Data p = d ∧ page_wf p.
Proof.
  unfold disk_data. intros E Hlen. destruct (Decode (block b id)) as [p| | |] eqn:ED; try done.
  case_decide; [|done]. simplify_eq. exists p. split_and!; try done.
  eapply Decode_ok; [|done]. by apply length_slice.
Qed.

Lemma in_file b t fl v id :
  disk_rep b t fl v → 0 ≤ id < t → (page_off id + PageSize ≤ length b)%nat.
Proof. intros [_ Hlen _ _ _ _ _ _] ?. unfold page_off in *. page_lia. Qed.

(** *** The meta page *)

Lemma put_free_ids_ok i ids pre m :
  length pre = (8 + i * 4)%nat → (4 * length ids ≤ m)%nat →
  put_free_ids i ids (pre ++ zeros m) =
    Ok ((pre ++ concat (le_enc 4 <$> ids)) ++ zeros (m - 4 * length ids)).
Proof.
  revert i pre m. induction ids as [|id ids IH]; intros i pre m Hp Hm; cbn [put_free_ids].
  { cbn [fmap list_fmap concat length]. by rewrite app_nil_r, Nat.mul_0_r, Nat.sub_0_r. }
  cbn [length] in Hm. rewrite decide_True by arr_len.
  unfold put_u32. rewrite put_zeros_app by (rewrite ?length_le_enc; lia).
  rewrite IH by arr_len. rewrite length_le_enc. cbn [fmap list_fmap concat length].
  rewrite <-!app_assoc. do 5 f_equal. lia.
Qed.

Lemma length_concat_enc (fl : list Z) : length (concat (le_enc 4 <$> fl)) = (4 * length fl)%nat.
Proof.
  induction fl as [|x fl IH]; [done|]. cbn [fmap list_fmap concat].
  rewrite length_app, length_le_enc, IH. simpl. lia.
Qed.

Lemma length_meta_data t fl :
  (length fl ≤ maxFreeListEntries)%nat → length (meta_data t fl) = DataSize.
Proof.
  intros H. pose proof maxFreeListEntries_val. unfold meta_data.
  rewrite !length_app, !length_le_enc, length_concat_enc, length_zeros. page_lia.
Qed.

Definition meta_page (t : Z) (fl : list Z) : Page :=
  mkPage (Header (NewPage metaPageID PageTypeMeta)) (meta_data t fl).

Lemma meta_page_wf t fl : (length fl ≤ maxFreeListEntries)%nat → page_wf (meta_page t fl).
Proof. intros. split; simpl; unfold metaPageID, PageTypeMeta; try lia. by apply (length_meta_data t). Qed.

Lemma flushMeta_ok pg :
  (length (freeList pg) ≤ maxFreeListEntries)%nat →
  flushMeta pg = WritePage (meta_page (totalPages pg) (freeList pg)) pg.
Proof.
  intros H. pose proof maxFreeListEntries_val. unfold flushMeta, get_state, lift.
  assert (u32 (Z.of_nat (length (freeList pg))) = Z.of_nat (length (freeList pg))) as Hn.
  { apply Z.mod_small. lia. }
  unfold mbind at 1, M_bind at 1. unfold put_u32. rewrite Hn.
  rewrite put_zeros_0, put_zeros_app, put_free_ids_ok by arr_len.
  unfold mbind, M_bind, meta_page, meta_data. rewrite !length_le_enc, <-!app_assoc.
  repeat f_equal.
Qed.

Lemma load_free_ids_ok pre ids post :
  ∀ i, length pre = (8 + i * 4)%nat →
  load_free_ids (length ids) i (pre ++ concat (le_enc 4 <$> ids) ++ post) = Ok (u32 <$> ids).
Proof.
  revert pre. induction ids as [|id ids IH]; intros pre i Hp; [done|].
  cbn [length load_free_ids fmap list_fmap concat].
  unfold slice_chk. rewrite decide_True by arr_len. unfold mbind, res_bind.
  rewrite <-!app_assoc, app_assoc. rewrite IH by arr_len.
  do 2 f_equal. rewrite <-app_assoc. unfold slice.
  rewrite drop_app_length' by lia. rewrite take_app_length' by by rewrite length_le_enc.
  apply le_dec_enc.
Qed.

Lemma u32_ids (fl : list Z) : (∀ id, id ∈ fl → is_u32 id) → u32 <$> fl = fl.
Proof.
  intros H. rewrite <-(list_fmap_id fl) at 2. apply list_fmap_ext. intros i x Hx.
  apply Z.mod_small, H. by eapply list_elem_of_lookup_2.
Qed.

Lemma get_meta_data t (fl : list Z) :
  is_u32 t → (length fl ≤ maxFreeListEntries)%nat → (∀ id, id ∈ fl → is_u32 id) →
  get_u32 0 (meta_data t fl) = t ∧
  load_free_ids (Z.to_nat (get_u32 4 (meta_data t fl))) 0 (meta_data t fl) = Ok fl.
Proof.
  intros Ht Hl Hids. pose proof maxFreeListEntries_val. unfold meta_data. split.
  - unfold get_u32, slice. rewrite drop_0, take_app_length' by by rewrite length_le_enc.
    by apply le_dec_enc_small.
  - assert (get_u32 4 (le_enc 4 t ++ le_enc 4 (Z.of_nat (length fl)) ++
      concat (le_enc 4 <$> fl) ++ zeros (DataSize - 8 - 4 * length fl))
      = Z.of_nat (length fl)) as ->.
    { unfold get_u32, slice. rewrite drop_app_length' by by rewrite length_le_enc.
      rewrite take_app_length' by by rewrite length_le_enc. apply le_dec_enc_small. simpl. lia. }
    rewrite Nat2Z.id, app_assoc. rewrite load_free_ids_ok by arr_len.
    by rewrite u32_ids.
Qed.

(** *** Effect of the operations on the represented map *)

(** Writing the meta page of a new count and free list on top of a file whose
    pages already agree with them. *)
Lemma disk_rep_flush b t (fl : list Z) (v : gmap Z (list byte)) :
  1 ≤ t < 2 ^ 32 → (page_off t ≤ length b)%nat → NoDup fl →
  (∀ id, id ∈ fl → 0 < id < t ∧ disk_data b id = Some (zeros DataSize)) →
  (length fl ≤ maxFreeListEntries)%nat →
  (∀ id, 0 < id < t → is_Some (disk_data b id)) →
  (∀ id, v !! id = if decide (0 < id < t ∧ id ∉ fl) then disk_data b id else None) →
  disk_rep (write_page (meta_page t fl) b) t fl v.
Proof.
  intros Ht Hlen Hnd Hfree Hcap Hpages Hview.
  pose proof (meta_page_wf t fl Hcap) as Hwf.
  assert (∀ id, 0 < id < t → disk_data (write_page (meta_page t fl) b) id = disk_data b id) as Hne.
  { intros id Hid. apply disk_data_write_ne; simpl; unfold metaPageID; try done; try lia.
    unfold page_off in *. page_lia. }
  split; [exact Ht| |exact Hnd| |exact Hcap| | |].
  - pose proof (length_write_page (meta_page t fl) b (wf_data _ Hwf)). lia.
  - intros id Hid. destruct (Hfree id Hid). split; [done|]. by rewrite Hne.
  - apply (disk_data_write_eq _ _ Hwf).
  - intros id Hid. rewrite Hne by done. auto.
  - intros id. rewrite Hview. case_decide; [|done]. by rewrite Hne by tauto.
Qed.

(** Writing an in-use page. *)
Lemma disk_rep_write b t fl v p :
  disk_rep b t fl v → page_wf p → is_Some (v !! PageID (Header p)) →
  disk_rep (write_page p b) t fl (<[PageID (Header p) := Data p]> v).
Proof.
  intros Hrep Hwf [d Hd]. pose proof (in_file _ _ _ _ 0 Hrep) as H0.
  pose proof Hrep as [Ht Hlen Hnd Hfree Hcap Hmeta Hpages Hview].
  rewrite Hview in Hd. case_decide as Hin; [|done]. destruct Hin as [Hid Hnf].
  assert (∀ id, id ≠ PageID (Header p) → 0 ≤ id < t →
    disk_data (write_page p b) id = disk_data b id) as Hne.
  { intros id Hne Hr. apply disk_data_write_ne; try done; try lia.
    eapply in_file; [exact Hrep | done]. }
  split; [exact Ht| |exact Hnd| |exact Hcap| | |].
  - pose proof (length_write_page p b (wf_data p Hwf)). lia.
  - intros id Hin. destruct (Hfree id Hin). split; [done|]. rewrite Hne; try done; [|lia].
    intros ->. done.
  - rewrite Hne; [done|lia|lia].
  - intros id Hr. destruct (decide (id = PageID (Header p))) as [->|].
    + rewrite disk_data_write_eq by done. eauto.
    + rewrite Hne by (done || lia). auto.
  - intros id. destruct (decide (id = PageID (Header p))) as [->|Hi].
    + rewrite lookup_insert_eq, decide_True by done. by rewrite disk_data_write_eq.
    + rewrite lookup_insert_ne by done. rewrite Hview. case_decide as Hc; [|done].
      by rewrite Hne by (done || lia).
Qed.

(** Every page of the file after one page write at an identifier up to the page
    count. *)
Lemma disk_data_after_write b t fl v p j :
  disk_rep b t fl v → page_wf p → 0 ≤ PageID (Header p) → 0 ≤ j < t →
  disk_data (write_page p b) j =
    if decide (j = PageID (Header p)) then Some (Data p) else disk_data b j.
Proof.
  intros Hrep Hwf Hid Hj. case_decide as Hc.
  - rewrite Hc. by apply disk_data_write_eq.
  - apply disk_data_write_ne; [done|done|lia|]. eapply in_file; [exact Hrep|lia].
Qed.

Lemma last_removelast {A} (fl : list A) id : last fl = Some id → fl = removelast fl ++ [id].
Proof.
  intros H. apply last_Some in H as [l ->]. by rewrite removelast_last.
Qed.

(** Taking the last free page back into use. *)
Lemma disk_rep_reuse b t (fl : list Z) id v :
  disk_rep b t (fl ++ [id]) v →
  disk_rep (write_page (meta_page t fl) (write_page (NewPage id PageTypeData) b)) t fl
    (<[id := zeros DataSize]> v) ∧ v !! id = None.
Proof.
  intros Hrep. pose proof Hrep as [Ht Hlen Hnd Hfree Hcap Hmeta Hpages Hview].
  rewrite length_app in Hcap. apply NoDup_snoc in Hnd as [Hnd Hdis].
  destruct (Hfree id) as [Hid Hz]; [apply elem_of_snoc; by right|].
  assert (page_wf (NewPage id PageTypeData)) as Hwf by (apply NewPage_data_wf; lia).
  assert (∀ j, 0 < j < t → disk_data (write_page (NewPage id PageTypeData) b) j =
    if decide (j = id) then Some (zeros DataSize) else disk_data b j) as Hdd.
  { intros j Hj. rewrite (disk_data_after_write _ _ _ _ _ _ Hrep Hwf); [done|simpl; lia|lia]. }
  split.
  2: { rewrite Hview. apply decide_False. rewrite elem_of_snoc. tauto. }
  apply disk_rep_flush; [exact Ht| |exact Hnd| |lia| |].
  - pose proof (length_write_page _ b (wf_data _ Hwf)). lia.
  - intros j Hj. destruct (Hfree j) as [? Hjz]; [apply elem_of_snoc; by left|]. split; [done|].
    rewrite Hdd by done. by case_decide.
  - intros j Hj. rewrite Hdd by done. case_decide; eauto.
  - intros j. destruct (decide (j = id)) as [->|Hne].
    + rewrite lookup_insert_eq, decide_True by done. rewrite Hdd by done. by rewrite decide_True.
    + rewrite lookup_insert_ne, Hview by done.
      destruct (decide (0 < j < t)).
      * rewrite Hdd, (decide_False (P := j = id)) by done. apply decide_ext. rewrite elem_of_snoc. tauto.
      * by rewrite !decide_False by tauto.
Qed.

(** Appending a page to the file. *)
Lemma disk_rep_extend b t v :
  t + 1 < 2 ^ 32 → disk_rep b t [] v →
  disk_rep (write_page (meta_page (t + 1) []) (write_page (NewPage t PageTypeData) b)) (t + 1) []
    (<[t := zeros DataSize]> v) ∧ v !! t = None.
Proof.
  intros Hb Hrep. pose proof Hrep as [Ht Hlen Hnd Hfree Hcap Hmeta Hpages Hview].
  assert (page_wf (NewPage t PageTypeData)) as Hwf by (apply NewPage_data_wf; lia).
  assert (∀ j, 0 < j < t + 1 → disk_data (write_page (NewPage t PageTypeData) b) j =
    if decide (j = t) then Some (zeros DataSize) else disk_data b j) as Hdd.
  { intros j Hj. case_decide as Hc.
    - rewrite Hc. apply (disk_data_write_eq _ _ Hwf).
    - rewrite (disk_data_after_write _ _ _ _ _ _ Hrep Hwf) by (simpl; lia).
      by rewrite decide_False. }
  split.
  2: { rewrite Hview. apply decide_False. lia. }
  apply disk_rep_flush; [lia| |exact Hnd| |exact Hcap| |].
  - pose proof (length_write_page _ b (wf_data _ Hwf)) as [_ H]. simpl in H.
    unfold page_off in *. page_lia.
  - intros j Hj. by apply elem_of_nil in Hj.
  - intros j Hj. rewrite Hdd by done. case_decide; [eauto|]. apply Hpages. lia.
  - intros j. destruct (decide (j = t)) as [->|Hne].
    + rewrite lookup_insert_eq, decide_True by (split; [lia|apply not_elem_of_nil]).
      rewrite Hdd by lia.
      by rewrite decide_True.
    + rewrite lookup_insert_ne, Hview by done.
      destruct (decide (0 < j < t)).
      * rewrite Hdd, (decide_False (P := j = t)) by (done || lia).
        rewrite !decide_True by (split; [lia|apply not_elem_of_nil]). done.
      * rewrite !decide_False by (intros [? ?]; lia). done.
Qed.

(** Putting an in-use page on the free list. *)
Lemma disk_rep_free b t (fl : list Z) id v :
  disk_rep b t fl v → is_Some (v !! id) → (length fl < maxFreeListEntries)%nat →
  disk_rep (write_page (meta_page t (fl ++ [id])) (write_page (NewPage id PageTypeFree) b)) t
    (fl ++ [id]) (delete id v).
Proof.
  intros Hrep [d Hd] Hroom. pose proof Hrep as [Ht Hlen Hnd Hfree Hcap Hmeta Hpages Hview].
  rewrite Hview in Hd. case_decide as Hc; [|done]. destruct Hc as [Hid Hnf].
  assert (page_wf (NewPage id PageTypeFree)) as Hwf by (apply NewPage_wf; unfold PageTypeFree; lia).
  assert (∀ j, 0 < j < t → disk_data (write_page (NewPage id PageTypeFree) b) j =
    if decide (j = id) then Some (zeros DataSize) else disk_data b j) as Hdd.
  { intros j Hj. rewrite (disk_data_after_write _ _ _ _ _ _ Hrep Hwf); [done|simpl; lia|lia]. }
  apply disk_rep_flush; [exact Ht| | | | | |].
  - pose proof (length_write_page _ b (wf_data _ Hwf)). lia.
  - by apply NoDup_snoc.
  - intros j [Hj| ->]%elem_of_snoc.
    + destruct (Hfree j Hj). split; [done|]. rewrite Hdd by done. by case_decide.
    + split; [done|]. rewrite Hdd by done. by rewrite decide_True.
  - rewrite length_app. simpl. lia.
  - intros j Hj. rewrite Hdd by done. case_decide; eauto.
  - intros j. destruct (decide (j = id)) as [->|Hne].
    + rewrite lookup_delete_eq, decide_False; [done|]. rewrite elem_of_snoc. tauto.
    + rewrite lookup_delete_ne, Hview by done.
      destruct (decide (0 < j < t)).
      * rewrite Hdd, (decide_False (P := j = id)) by done. apply decide_ext. rewrite elem_of_snoc. tauto.
      * rewrite !decide_False by tauto. done.
Qed.

(** *** The operations *)

Definition pager_store (pg : Pager) (t : Z) (fl : list Z) (b : list byte) : Pager :=
  mkPager (OpenFile b) t fl.

Lemma set_file_OpenFile pg b : set_file (OpenFile b) pg = mkPager (OpenFile b) (totalPages pg) (freeList pg).
Proof. done. Qed.

Lemma ReadPage_ok pg v id d :
  pager_rep pg v → v !! id = Some d →
  ∃ p, ReadPage id pg = (Ok p, pg) ∧ PageID (Header p) = id ∧ Data p = d.
Proof.
  intros [Hf Hrep] Hd. pose proof (dr_view _ _ _ _ Hrep id) as Hv. rewrite Hd in Hv.
  case_decide as Hc; [|done]. destruct Hc as [Hid _]. symmetry in Hv.
  pose proof (in_file _ _ _ _ id Hrep ltac:(lia)) as Hin.
  destruct (disk_data_inv _ _ _ Hv Hin) as (p & HD & Hpid & Hpd & _).
  exists p. split; [|done]. unfold ReadPage. M_run.
  rewrite decide_False by lia. unfold pg_read. rewrite ReadAt_ok by done. simpl.
  fold (block (f_bytes (file pg)) id). by rewrite HD.
Qed.

Lemma WritePage_rep pg v p :
  pager_rep pg v → page_wf p → is_Some (v !! PageID (Header p)) →
  ∃ pg', WritePage p pg = (Ok tt, pg') ∧ pager_rep pg' (<[PageID (Header p) := Data p]> v) ∧
    totalPages pg' = totalPages pg ∧ freeList pg' = freeList pg.
Proof.
  intros [Hf Hrep] Hwf Hin. rewrite WritePage_ok by done. eexists; split; [reflexivity|].
  split; [|done]. split; [done|]. simpl. by apply disk_rep_write.
Qed.

Lemma AllocatePage_reuse pg fl id :
  file_ok (file pg) → freeList pg = fl ++ [id] → (length fl ≤ maxFreeListEntries)%nat →
  AllocatePage pg = (Ok id, mkPager (OpenFile
    (write_page (meta_page (totalPages pg) fl)
       (write_page (NewPage id PageTypeData) (f_bytes (file pg))))) (totalPages pg) fl).
Proof.
  intros Hf Hfl Hl. unfold AllocatePage. M_run.
  rewrite Hfl, last_snoc, removelast_last.
  rewrite WritePage_ok by done. rewrite flushMeta_ok by done. by rewrite WritePage_ok.
Qed.

Lemma AllocatePage_extend pg :
  file_ok (file pg) → freeList pg = [] → 0 ≤ totalPages pg → totalPages pg + 1 < 2 ^ 32 →
  AllocatePage pg = (Ok (totalPages pg), mkPager (OpenFile
    (write_page (meta_page (totalPages pg + 1) [])
       (write_page (NewPage (totalPages pg) PageTypeData) (f_bytes (file pg)))))
    (totalPages pg + 1) []).
Proof.
  intros Hf Hfl H0 Ht. unfold AllocatePage. M_run.
  rewrite Hfl. change (last []) with (@None Z). cbn beta iota. unfold u32. rewrite Z.mod_small by lia.
  rewrite WritePage_ok by exact Hf.
  rewrite flushMeta_ok by (cbn; rewrite Hfl; cbn; lia).
  rewrite WritePage_ok by exact (OpenFile_ok _). pg_simpl. by rewrite Hfl.
Qed.

Lemma AllocatePage_rep pg v :
  pager_rep pg v → 0 < pager_room pg →
  ∃ id pg', AllocatePage pg = (Ok id, pg') ∧ v !! id = None ∧
    pager_rep pg' (<[id := zeros DataSize]> v) ∧
    pager_room pg' = pager_room pg - 1 ∧ pager_slots pg ≤ pager_slots pg'.
Proof.
  intros [Hf Hrep] Hroom. unfold pager_room, pager_slots in *.
  pose proof (dr_cap _ _ _ _ Hrep) as Hcap.
  destruct (last (freeList pg)) as [id|] eqn:El.
  - apply last_removelast in El. set (fl := removelast (freeList pg)) in *.
    rewrite El in Hrep, Hcap. rewrite length_app in Hcap. simpl in Hcap.
    destruct (disk_rep_reuse _ _ _ _ _ Hrep) as [Hrep' Hnone].
    rewrite (AllocatePage_reuse pg fl id Hf El) by lia.
    eexists _, _. split; [reflexivity|]. rewrite El, length_app. simpl.
    split_and!; [done|split; [done|exact Hrep']|lia|lia].
  - apply last_None in El. rewrite El in Hrep, Hroom. simpl in Hroom.
    pose proof (dr_total _ _ _ _ Hrep).
    destruct (disk_rep_extend _ (totalPages pg) _ ltac:(lia) Hrep) as [Hrep' Hnone].
    rewrite AllocatePage_extend by first [exact Hf|exact El|lia].
    eexists _, _. split; [reflexivity|]. rewrite El. simpl.
    split_and!; [done|split; [done|exact Hrep']|lia|lia].
Qed.

Lemma FreePage_rep pg v id :
  pager_rep pg v → is_Some (v !! id) → 0 < pager_slots pg →
  ∃ pg', FreePage id pg = (Ok tt, pg') ∧ pager_rep pg' (delete id v) ∧
    pager_room pg' = pager_room pg + 1 ∧ pager_slots pg' = pager_slots pg - 1.
Proof.
  intros [Hf Hrep] Hin Hroom. unfold pager_room, pager_slots in *.
  pose proof (dr_view _ _ _ _ Hrep id) as Hv. destruct Hin as [d Hd]. rewrite Hd in Hv.
  case_decide as Hc; [|done]. destruct Hc as [Hid _].
  assert (FreePage id pg = (Ok tt, mkPager (OpenFile
    (write_page (meta_page (totalPages pg) (freeList pg ++ [id]))
       (write_page (NewPage id PageTypeFree) (f_bytes (file pg)))))
    (totalPages pg) (freeList pg ++ [id]))) as ->.
  { unfold FreePage. M_run.
    rewrite !decide_False by (unfold metaPageID; lia). rewrite WritePage_ok by done.
    rewrite flushMeta_ok by (simpl; rewrite length_app; simpl; lia). by rewrite WritePage_ok. }
  eexists. split; [reflexivity|]. simpl. rewrite length_app. simpl.
  split_and!; [split; [done|]|lia|lia].
  apply disk_rep_free; [exact Hrep|eauto|lia].
Qed.

(** Reopening a file restores the page count and the free list. *)
(** [Open] reads the page count and the free list from the meta page. *)
Lemma Open_meta b t fl :
  1 ≤ t < 2 ^ 32 → (page_off t ≤ length b)%nat → (∀ id, id ∈ fl → 0 < id < t) →
  (length fl ≤ maxFreeListEntries)%nat → disk_data b 0 = Some (meta_data t fl) →
  Open b = (Ok (mkPager (OpenFile b) t fl), OpenFile b).
Proof.
  intros Ht Hlen Hfree Hcap Hmeta.
  assert (page_off 0 + PageSize ≤ length b)%nat as Hin by (unfold page_off in *; page_lia).
  destruct (disk_data_inv _ _ _ Hmeta Hin) as (p & HD & _ & Hpd & _).
  destruct (get_meta_data t fl) as [Hg Hl]; [lia|done| |].
  { intros id Hid. destruct (Hfree id Hid). lia. }
  unfold Open. rewrite decide_False by (unfold page_off in *; page_lia).
  unfold loadMeta. M_run. unfold pg_read.
  rewrite ReadAt_ok by (done || (simpl; unfold page_off in *; page_lia)). simpl.
  change (slice 0 PageSize b) with (block b 0). rewrite HD. simpl. rewrite Hpd, Hl, Hg.
  done.
Qed.

Lemma Open_rep b t fl v :
  disk_rep b t fl v → Open b = (Ok (mkPager (OpenFile b) t fl), OpenFile b).
Proof. intros [Ht Hlen _ Hfree Hcap Hmeta _ _]. apply Open_meta; try done. intros id Hid. by destruct (Hfree id Hid). Qed.

Lemma disk_rep_unique b t fl v t' fl' v' : disk_rep b t fl v → disk_rep b t' fl' v' → t' = t ∧ fl' = fl ∧ v' = v.
Proof.
  intros H1 H2. pose proof (Open_rep _ _ _ _ H1) as E1. pose proof (Open_rep _ _ _ _ H2) as E2.
  rewrite E1 in E2. injection E2 as <- <-. split_and!; [done..|]. apply map_eq. intros id.
  by rewrite (dr_view _ _ _ _ H1), (dr_view _ _ _ _ H2).
Qed.

(** A new file. *)
Lemma disk_rep_new : disk_rep (write_page (meta_page 1 []) []) 1 [] ∅.
Proof.
  pose proof (meta_page_wf 1 [] ltac:(simpl; lia)) as Hwf.
  split; [lia| |constructor| |simpl; lia|apply (disk_data_write_eq _ _ Hwf)|lia|].
  - pose proof (length_write_page _ [] (wf_data _ Hwf)) as [_ H]. simpl in H.
    unfold page_off, metaPageID in *. page_lia.
  - intros id Hid. by apply elem_of_nil in Hid.
  - intros id. rewrite lookup_empty, decide_False; [done|lia].
Qed.

Lemma Open_new :
  Open [] = (Ok (mkPager (OpenFile (write_page (meta_page 1 []) [])) 1 []),
             OpenFile (write_page (meta_page 1 []) [])).
Proof.
  unfold Open. rewrite decide_True by done. unfold bootstrapMeta. M_run. rewrite flushMeta_ok by (simpl; lia). by rewrite WritePage_ok.
Qed.

(** ** The pager as a store *)
#[export] Instance Pager_pages : PageStore Pager :=
  {| ps_read := ReadPage; ps_write := WritePage; ps_alloc := AllocatePage |}.
#[export] Instance Pager_full : FullStore Pager := {| fs_free := FreePage |}.

#[export] Program Instance Pager_pages_spec : PageStoreSpec Pager :=
  {| ps_rep := pager_rep; ps_room := pager_room |}.
Next Obligation.
  intros pg v id d [_ Hrep] Hd. pose proof (dr_view _ _ _ _ Hrep id) as Hv. rewrite Hd in Hv.
  case_decide as Hc; [|done]. destruct Hc as [Hid _]. symmetry in Hv.
  pose proof (dr_total _ _ _ _ Hrep). split; [lia|].
  destruct (disk_data_inv _ _ _ Hv (in_file _ _ _ _ id Hrep ltac:(lia))) as (p & _ & _ & <- & Hwf).
  apply (wf_data _ Hwf).
Qed.
Next Obligation.
  intros pg v id d Hrep Hd. destruct (ReadPage_ok pg v id d Hrep Hd) as (p & E & ? & ?).
  exists p, pg. done.
Qed.
Next Obligation.
  intros pg v p Hrep Hwf Hin. destruct (WritePage_rep pg v p Hrep Hwf Hin) as (pg' & E & Hr & Ht & Hl).
  exists pg'. split_and!; [done..|]. unfold pager_room. by rewrite Ht, Hl.
Qed.
Next Obligation.
  intros pg v Hrep Hroom.
  destruct (AllocatePage_rep pg v Hrep Hroom) as (id & pg' & ? & ? & ? & ? & ?). eauto 10.
Qed.

Lemma WritePage_fields p pg :
  totalPages (WritePage p pg).2 = totalPages pg ∧ freeList (WritePage p pg).2 = freeList pg.
Proof.
  unfold WritePage, wrap, pg_write. by destruct (WriteAt _ _ _) as [[] ?].
Qed.

Lemma flushMeta_fields pg :
  totalPages (flushMeta pg).2 = totalPages pg ∧ freeList (flushMeta pg).2 = freeList pg.
Proof.
  unfold flushMeta. M_run. destruct (put_free_ids _ _ _); [|done..]. apply WritePage_fields.
Qed.

Lemma ReadPage_state id pg : (ReadPage id pg).2 = pg.
Proof.
  unfold ReadPage. M_run. case_decide; [done|]. unfold pg_read. by destruct (ReadAt _ _ _).
Qed.

Lemma AllocatePage_slots pg : pager_slots pg ≤ pager_slots (AllocatePage pg).2.
Proof.
  unfold AllocatePage, pager_slots. M_run. destruct (last (freeList pg)) as [id|] eqn:El.
  - apply last_removelast in El. set (pg1 := set_free _ _).
    assert (length (freeList pg) = S (length (freeList pg1))) as HL.
    { rewrite El, length_app. simpl. lia. }
    destruct (WritePage_fields (NewPage id PageTypeData) pg1) as [_ Hw].
    destruct (WritePage _ pg1) as [[] pg2]; cbn [snd] in *; try (rewrite Hw; lia).
    destruct (flushMeta_fields pg2) as [_ Hfl].
    destruct (flushMeta pg2) as [[] pg3]; cbn [snd] in *; rewrite Hfl, Hw; lia.
  - set (pg1 := set_total _ _).
    destruct (WritePage_fields (NewPage (totalPages pg) PageTypeData) pg1) as [_ Hw].
    destruct (WritePage _ pg1) as [[] pg2]; cbn [snd set_total freeList] in *;
      try (rewrite Hw; simpl; lia).
    destruct (flushMeta_fields pg2) as [_ Hfl].
    destruct (flushMeta pg2) as [[] pg3]; cbn [snd] in *; rewrite Hfl, Hw; simpl; lia.
Qed.

Lemma FreePage_refused pg id :
  id = 0 ∨ totalPages pg ≤ id ∨ pager_slots pg ≤ 0 → ∃ e, FreePage id pg = (Err e, pg).
Proof.
  intros H. unfold pager_slots in H. unfold FreePage. M_run.
  case_decide as H0; [eauto|]. case_decide as H1; [eauto|].
  rewrite decide_True; [eauto|]. unfold metaPageID in *. lia.
Qed.

#[export] Program Instance Pager_full_spec : FullStoreSpec Pager :=
  {| fs_slots := pager_slots |}.
Next Obligation. intros pg id. simpl. by rewrite ReadPage_state. Qed.
Next Obligation.
  intros pg p. simpl. unfold pager_slots. by destruct (WritePage_fields p pg) as [_ ->].
Qed.
Next Obligation. intros pg. apply AllocatePage_slots. Qed.
Next Obligation.
  intros pg v id Hrep Hin Hs.
  destruct (FreePage_rep pg v id Hrep Hin Hs) as (pg' & ? & ? & ? & ?). eauto 10.
Qed.
Next Obligation.
  intros pg v id Hrep Hin Hs. destruct (FreePage_refused pg id ltac:(auto)) as [e E]. by exists e, pg.
Qed.

(** ** Crashes in the middle of an operation *)

(** The pager of [pg] on a device that fails after [k] more writes. *)
Definition with_credit (k : nat) (pg : Pager) : Pager :=
  set_file (mkFile (f_bytes (file pg)) true (Some k)) pg.

Lemma WritePage_credit p b k t fl :
  WritePage p (mkPager (mkFile b true (Some k)) t fl) =
    match k with
    | O => (Err (Wrapf "write page %d at offset %d: %w" [GInt (PageID (Header p))] ErrIO),
            mkPager (mkFile b true (Some O)) t fl)
    | S k => (Ok tt, mkPager (mkFile (write_page p b) true (Some k)) t fl)
    end.
Proof. by destruct k. Qed.

Lemma flushMeta_credit b k t fl :
  (length fl ≤ maxFreeListEntries)%nat →
  flushMeta (mkPager (mkFile b true (Some k)) t fl) =
    WritePage (meta_page t fl) (mkPager (mkFile b true (Some k)) t fl).
Proof. intros. by apply flushMeta_ok. Qed.

(** The bytes left by [AllocatePage] when the device stops after [k] writes:
    none, the page alone, or the page and the meta page. *)
Lemma AllocatePage_credit k pg v :
  pager_rep pg v → 0 < pager_room pg →
  ∃ id t' fl',
    let b := f_bytes (file pg) in
    let b1 := write_page (NewPage id PageTypeData) b in
    let b2 := write_page (meta_page t' fl') b1 in
    v !! id = None ∧ disk_rep b2 t' fl' (<[id := zeros DataSize]> v) ∧
    (id = totalPages pg ∨ id ∈ freeList pg) ∧
    f_bytes (file (AllocatePage (with_credit k pg)).2) =
      match k with O => b | S O => b1 | _ => b2 end ∧
    ((2 ≤ k)%nat → (AllocatePage (with_credit k pg)).1 = Ok id).
Proof.
  intros [Hf Hrep] Hroom. unfold pager_room in Hroom.
  pose proof (dr_cap _ _ _ _ Hrep) as Hcap. pose proof (dr_total _ _ _ _ Hrep) as Ht.
  destruct pg as [f t fl]. unfold with_credit, set_file. cbn [file totalPages freeList] in *.
  destruct (last fl) as [id|] eqn:El.
  - pose proof (last_removelast _ _ El) as E. exists id, t, (removelast fl).
    rewrite E in Hrep, Hcap. rewrite length_app in Hcap. simpl in Hcap.
    destruct (disk_rep_reuse _ _ _ _ _ Hrep) as [Hrep' Hnone].
    split_and!; [done|exact Hrep'|right; rewrite E, elem_of_snoc; by right| |];
      unfold AllocatePage; M_run; cbn [freeList]; rewrite El; unfold set_free;
      cbn [file totalPages freeList]; rewrite WritePage_credit.
    + destruct k as [|k]; [done|]. rewrite flushMeta_credit, WritePage_credit by lia.
      by destruct k.
    + intros Hk. destruct k as [|[|k]]; [lia..|].
      by rewrite flushMeta_credit, WritePage_credit by lia.
  - apply last_None in El. subst fl. simpl in Hroom.
    destruct (disk_rep_extend _ t _ ltac:(lia) Hrep) as [Hrep' Hnone].
    exists t, (t + 1), [].
    split_and!; [done|exact Hrep'|by left| |];
      unfold AllocatePage; M_run; cbn [freeList totalPages];
      change (last []) with (@None Z); unfold set_total, u32;
      cbn [file totalPages freeList]; rewrite WritePage_credit, Z.mod_small by lia.
    + destruct k as [|k]; [done|]. rewrite flushMeta_credit, WritePage_credit by (simpl; lia).
      by destruct k.
    + intros Hk. destruct k as [|[|k]]; [lia..|].
      by rewrite flushMeta_credit, WritePage_credit by (simpl; lia).
Qed.

(** A page that is free, or past the page count, can be overwritten with a
    fresh page without changing what the file represents. *)
Lemma disk_rep_scratch b t (fl : list Z) v id :
  disk_rep b t fl v → id = t ∨ id ∈ fl → disk_rep (write_page (NewPage id PageTypeData) b) t fl v.
Proof.
  intros Hrep Hid. pose proof Hrep as [Ht Hlen Hnd Hfree Hcap Hmeta Hpages Hview].
  assert (0 < id ≤ t) as Hr by (destruct Hid as [->|Hi]; [lia|destruct (Hfree id Hi); lia]).
  assert (page_wf (NewPage id PageTypeData)) as Hwf by (apply NewPage_data_wf; lia).
  assert (∀ j, 0 ≤ j < t → disk_data (write_page (NewPage id PageTypeData) b) j =
    if decide (j = id) then Some (zeros DataSize) else disk_data b j) as Hdd.
  { intros j Hj. rewrite (disk_data_after_write _ _ _ _ _ _ Hrep Hwf); [done|simpl; lia|lia]. }
  split; [exact Ht| |exact Hnd| |exact Hcap| | |].
  - pose proof (length_write_page _ b (wf_data _ Hwf)). lia.
  - intros j Hj. destruct (Hfree j Hj). split; [done|]. rewrite Hdd by lia. by case_decide.
  - rewrite Hdd, decide_False by lia. exact Hmeta.
  - intros j Hj. rewrite Hdd by lia. case_decide; eauto.
  - intros j. rewrite Hview. case_decide as Hc; [|done]. destruct Hc as [Hj Hnf].
    rewrite Hdd, decide_False; [done| |lia]. intros ->. destruct Hid; [lia|done].
Qed.

(** *** What the operations leave alone on disk *)

Lemma WritePage_disk pg v p pg' j :
  pager_rep pg v → page_wf p → is_Some (v !! PageID (Header p)) →
  WritePage p pg = (Ok tt, pg') → 0 ≤ j < totalPages pg →
  disk_data (f_bytes (file pg')) j =
    if decide (j = PageID (Header p)) then Some (Data p) else disk_data (f_bytes (file pg)) j.
Proof.
  intros [Hf Hrep] Hwf Hin E Hj. rewrite WritePage_ok in E by done. injection E as <-.
  simpl. eapply disk_data_after_write; [exact Hrep|done| |done].
  pose proof (wf_id p Hwf). lia.
Qed.

Lemma AllocatePage_disk pg v id pg' j :
  pager_rep pg v → 0 < pager_room pg → AllocatePage pg = (Ok id, pg') → 0 < j < totalPages pg →
  totalPages pg ≤ totalPages pg' ∧
  disk_data (f_bytes (file pg')) j = disk_data (f_bytes (file pg)) j.
Proof.
  intros [Hf Hrep] Hroom E Hj. unfold pager_room in Hroom.
  pose proof (dr_cap _ _ _ _ Hrep) as Hcap. pose proof (dr_total _ _ _ _ Hrep) as Ht.
  destruct (last (freeList pg)) as [x|] eqn:El.
  - apply last_removelast in El. set (fl := removelast (freeList pg)) in *.
    rewrite El, length_app in Hcap. simpl in Hcap.
    rewrite (AllocatePage_reuse pg fl x Hf El) in E by lia. injection E as <- <-. simpl.
    split; [lia|].
    destruct (dr_free _ _ _ _ Hrep x) as [Hx Hz]; [rewrite El; apply elem_of_snoc; by right|].
    assert (disk_rep (write_page (NewPage x PageTypeData) (f_bytes (file pg)))
              (totalPages pg) (freeList pg) v) as Hs.
    { apply disk_rep_scratch; [done|]. right. rewrite El. apply elem_of_snoc. by right. }
    assert (page_wf (meta_page (totalPages pg) fl)) as Hm by (apply meta_page_wf; lia).
    rewrite (disk_data_after_write _ _ _ _ _ _ Hs Hm) by (simpl; unfold metaPageID; lia).
    rewrite decide_False by (simpl; unfold metaPageID; lia).
    rewrite (disk_data_after_write _ _ _ _ _ _ Hrep) by
      (first [apply NewPage_data_wf; lia | simpl; lia]).
    case_decide as Hjx; [|done]. simpl in Hjx. by rewrite Hjx, Hz.
  - apply last_None in El. rewrite El in Hroom. simpl in Hroom.
    rewrite AllocatePage_extend in E by first [exact Hf|exact El|lia]. injection E as <- <-. simpl.
    split; [lia|].
    assert (disk_rep (write_page (NewPage (totalPages pg) PageTypeData) (f_bytes (file pg)))
              (totalPages pg) (freeList pg) v) as Hs.
    { apply disk_rep_scratch; [done|]. by left. }
    rewrite (disk_data_after_write _ _ _ _ _ _ Hs) by
      (first [apply meta_page_wf; simpl; lia | simpl; unfold metaPageID; lia]).
    rewrite decide_False by (simpl; unfold metaPageID; lia).
    rewrite (disk_data_after_write _ _ _ _ _ _ Hrep) by
      (first [apply NewPage_data_wf; lia | simpl; lia]).
    rewrite decide_False by (simpl; lia). done.
Qed.

Lemma FreePage_disk pg v id pg' j :
  pager_rep pg v → is_Some (v !! id) → 0 < pager_slots pg → FreePage id pg = (Ok tt, pg') →
  0 < j < totalPages pg → j ≠ id →
  totalPages pg' = totalPages pg ∧
  disk_data (f_bytes (file pg')) j = disk_data (f_bytes (file pg)) j.
Proof.
  intros [Hf Hrep] Hin Hs E Hj Hne. unfold pager_slots in Hs.
  pose proof (dr_view _ _ _ _ Hrep id) as Hv. destruct Hin as [d Hd]. rewrite Hd in Hv.
  case_decide as Hc; [|done]. destruct Hc as [Hid _].
  pose proof (dr_total _ _ _ _ Hrep) as Ht.
  unfold FreePage in E. revert E. M_run.
  rewrite !decide_False by (unfold metaPageID; lia). rewrite WritePage_ok by done.
  rewrite flushMeta_ok by (simpl; rewrite length_app; simpl; lia). rewrite WritePage_ok by done.
  intros E. injection E as <-. simpl. split; [done|].
  pose proof (in_file _ _ _ _ j Hrep ltac:(lia)) as Hjin.
  assert (page_wf (NewPage id PageTypeFree)) as Hwf by (apply NewPage_wf; unfold PageTypeFree; lia).
  rewrite disk_data_write_ne.
  - apply disk_data_write_ne; simpl; [exact Hwf|done|lia|done].
  - apply meta_page_wf. rewrite length_app. simpl. lia.
  - simpl. unfold metaPageID. lia.
  - lia.
  - pose proof (length_write_page _ (f_bytes (file pg)) (wf_data _ Hwf)). lia.
Qed.

(** ** Reachable pagers *)

(** One call on a healthy device: any free, a second one of the same page
    included, any read, any write but one of the meta page, and allocations as
    long as the 32-bit page count lasts.  The call may return an error. *)
Inductive pager_step : Pager → Pager → Prop :=
  | step_alloc pg : 0 < pager_room pg → pager_step pg (AllocatePage pg).2
  | step_free pg id : 0 ≤ id → pager_step pg (FreePage id pg).2
  | step_read pg id : pager_step pg (ReadPage id pg).2
  | step_write pg p : page_wf p → PageID (Header p) ≠ metaPageID → pager_step pg (WritePage p pg).2.

(** The pagers reachable from a new, empty file. *)
Inductive pager_reachable : Pager → Prop :=
  | reach_new pg f : Open [] = (Ok pg, f) → pager_reachable pg
  | reach_step pg pg' : pager_reachable pg → pager_step pg pg' → pager_reachable pg'.

(** What every file has, whatever the clients do: [disk_rep] without what it
    says of the free list and of the pages on it. *)
Record file_sound (b : list byte) (t : Z) (fl : list Z) : Prop := {
  snd_total : 1 ≤ t < 2 ^ 32;
  snd_len : (page_off t ≤ length b)%nat;
  snd_free : ∀ id, id ∈ fl → 0 < id < t;
  snd_cap : (length fl ≤ maxFreeListEntries)%nat;
  snd_meta : disk_data b 0 = Some (meta_data t fl);
  snd_pages : ∀ id, 0 < id < t → is_Some (disk_data b id)
}.

Definition pager_sound (pg : Pager) : Prop :=
  file_ok (file pg) ∧ file_sound (f_bytes (file pg)) (totalPages pg) (freeList pg).

Lemma disk_rep_sound b t fl v : disk_rep b t fl v → file_sound b t fl.
Proof. intros [H1 H2 _ Hf H4 H5 H6 _]. split; [exact H1|exact H2| |exact H4|exact H5|exact H6]. intros id Hid. apply (Hf id Hid). Qed.

Lemma sound_write b t fl p :
  file_sound b t fl → page_wf p → PageID (Header p) ≠ metaPageID → file_sound (write_page p b) t fl.
Proof.
  intros [Ht Hlen Hfree Hcap Hmeta Hpages] Hwf Hid. unfold metaPageID in Hid.
  assert (∀ j, 0 ≤ j < t → j ≠ PageID (Header p) → disk_data (write_page p b) j = disk_data b j) as Hne.
  { intros j Hj Hne. apply disk_data_write_ne; [done|done|lia|]. unfold page_off in *. page_lia. }
  split; [done| |done|done| |].
  - pose proof (length_write_page p b (wf_data p Hwf)). lia.
  - rewrite Hne; [done|lia|done].
  - intros j Hj. destruct (decide (j = PageID (Header p))) as [->|Hx]; [|rewrite Hne by (done || lia); auto].
    rewrite disk_data_write_eq by done. eauto.
Qed.

Lemma sound_flush b t (fl : list Z) :
  1 ≤ t < 2 ^ 32 → (page_off t ≤ length b)%nat → (∀ id, id ∈ fl → 0 < id < t) →
  (length fl ≤ maxFreeListEntries)%nat → (∀ id, 0 < id < t → is_Some (disk_data b id)) →
  file_sound (write_page (meta_page t fl) b) t fl.
Proof.
  intros Ht Hlen Hfree Hcap Hpages. pose proof (meta_page_wf t fl Hcap) as Hwf.
  split; [done| |done|done|apply (disk_data_write_eq _ _ Hwf)|].
  - pose proof (length_write_page _ b (wf_data _ Hwf)). lia.
  - intros j Hj. rewrite disk_data_write_ne; [auto|done|simpl; unfold metaPageID; lia|lia|].
    unfold page_off in *. page_lia.
Qed.

(** Other pages, and the count of those before them, after a page write. *)
Lemma write_page_keeps b t p :
  page_wf p → 0 < PageID (Header p) ≤ t → (page_off t ≤ length b)%nat →
  (∀ id, 0 < id < t → is_Some (disk_data b id)) →
  (page_off (Z.max t (PageID (Header p) + 1)) ≤ length (write_page p b))%nat ∧
  ∀ id, 0 < id < Z.max t (PageID (Header p) + 1) → is_Some (disk_data (write_page p b) id).
Proof.
  intros Hwf Hid Hlen Hpages. pose proof (length_write_page p b (wf_data p Hwf)). split.
  { unfold page_off in *. page_lia. }
  intros j Hj. destruct (decide (j = PageID (Header p))) as [->|Hx]; [rewrite disk_data_write_eq by done; eauto|].
  rewrite disk_data_write_ne; [apply Hpages; lia|done|done|lia|]. unfold page_off in *. page_lia.
Qed.

Lemma alloc_sound pg : pager_sound pg → 0 < pager_room pg → pager_sound (AllocatePage pg).2.
Proof.
  intros [Hf [Ht Hlen Hfree Hcap _ Hpages]] Hroom. unfold pager_room in Hroom.
  destruct (last (freeList pg)) as [id|] eqn:El.
  - apply last_removelast in El. set (fl := removelast (freeList pg)) in *. rewrite El in Hfree, Hcap.
    rewrite length_app in Hcap. rewrite (AllocatePage_reuse pg fl id Hf El) by lia. split; [done|]. cbn.
    pose proof (Hfree id ltac:(apply elem_of_snoc; by right)) as Hid.
    destruct (write_page_keeps (f_bytes (file pg)) (totalPages pg) (NewPage id PageTypeData)) as [Hl Hp];
      [apply NewPage_data_wf; lia|simpl; lia|done|done|].
    simpl in Hl, Hp. rewrite Z.max_l in Hl, Hp by lia. apply sound_flush; [done|done| |lia|done].
    intros j Hj. apply Hfree, elem_of_snoc. by left.
  - apply last_None in El. rewrite El in Hroom. simpl in Hroom. rewrite AllocatePage_extend by (done || lia). split; [done|]. cbn.
    destruct (write_page_keeps (f_bytes (file pg)) (totalPages pg) (NewPage (totalPages pg) PageTypeData)) as [Hl Hp];
      [apply NewPage_data_wf; lia|simpl; lia|done|done|].
    simpl in Hl, Hp. rewrite Z.max_r in Hl, Hp by lia. apply sound_flush; [lia|done| |simpl; lia|done].
    intros j Hj. by apply elem_of_nil in Hj.
Qed.

(** A free that is accepted, whether or not the page is free already. *)
Lemma FreePage_accepted pg id : file_ok (file pg) → 0 < id < totalPages pg → 0 < pager_slots pg →
  FreePage id pg = (Ok tt, mkPager (OpenFile
    (write_page (meta_page (totalPages pg) (freeList pg ++ [id])) (write_page (NewPage id PageTypeFree) (f_bytes (file pg)))))
    (totalPages pg) (freeList pg ++ [id])).
Proof.
  intros Hf Hid Hs. unfold pager_slots in Hs. unfold FreePage. M_run. rewrite !decide_False by (unfold metaPageID; lia).
  rewrite WritePage_ok by done. rewrite flushMeta_ok by (simpl; rewrite length_app; simpl; lia). by rewrite WritePage_ok.
Qed.

Lemma free_sound pg id : pager_sound pg → 0 ≤ id → pager_sound (FreePage id pg).2.
Proof.
  intros Hs Hid. pose proof Hs as [Hf [Ht Hlen Hfree Hcap _ Hpages]].
  destruct (decide (id = 0 ∨ totalPages pg ≤ id ∨ pager_slots pg ≤ 0)) as [Hc|Hc].
  { destruct (FreePage_refused pg id Hc) as [e ->]. done. }
  rewrite FreePage_accepted by (done || lia). split; [done|]. cbn.
  destruct (write_page_keeps (f_bytes (file pg)) (totalPages pg) (NewPage id PageTypeFree)) as [Hl Hp];
    [apply NewPage_wf; unfold PageTypeFree; lia|simpl; lia|done|done|].
  simpl in Hl, Hp. rewrite Z.max_l in Hl, Hp by lia. apply sound_flush; [done|done| | |done].
  - intros j [Hj| ->]%elem_of_snoc; [auto|lia].
  - rewrite length_app. simpl. unfold pager_slots in Hc. lia.
Qed.

Lemma pager_reachable_sound pg : pager_reachable pg → pager_sound pg.
Proof.
  induction 1 as [pg f E|pg pg' _ IH Hst]; [|destruct Hst as [pg Hroom|pg id Hid|pg id|pg p Hwf Hid]].
  - rewrite Open_new in E. injection E as <- _. split; [done|]. exact (disk_rep_sound _ _ _ _ disk_rep_new).
  - by apply alloc_sound.
  - by apply free_sound.
  - by rewrite ReadPage_state.
  - destruct IH as [Hf IH]. rewrite WritePage_ok by done. split; [done|]. by apply sound_write.
Qed.

Lemma pager_view_in_use pg v id :
  pager_rep pg v → 0 < id < totalPages pg → id ∉ freeList pg → is_Some (v !! id).
Proof.
  intros [_ Hrep] Hid Hnf. rewrite (dr_view _ _ _ _ Hrep), decide_True by done.
  by apply (dr_pages _ _ _ _ Hrep).
Qed.

(** A free of a page that is not free keeps the pages in use. *)
Lemma FreePage_keeps pg id v : pager_rep pg v → id ∉ freeList pg → 0 ≤ id → ∃ v', pager_rep (FreePage id pg).2 v'.
Proof.
  intros Hrep Hnf Hid. destruct (decide (id = 0 ∨ totalPages pg ≤ id ∨ pager_slots pg ≤ 0)) as [Hc|Hc].
  - destruct (FreePage_refused pg id Hc) as [e E]. rewrite E. eauto.
  - destruct (FreePage_rep pg v id Hrep) as (pg' & E & Hr & _);
      [eapply pager_view_in_use; [done|lia|done]|lia|]. rewrite E. eauto.
Qed.

(** ** Properties *)

(** C26. Whatever sequence of allocations, frees, reads and writes is performed on a
    new database file, errors, double frees and writes of pages that are free
    or not allocated included, as long as the meta page is not written from
    outside and the 32-bit page count lasts: every page of the file decodes,
    the entries of the free list are pages of the file and within its cap, and
    reopening the file restores exactly the pager's page count and free list.
    A free of a page that is not the meta page succeeds while the list is not
    full and puts the page at its end, without a check that it is not there
    yet: after a double free the next allocation hands the page out while the
    list still has it. *)
Theorem pager_reopen pg :
  pager_reachable pg →
  Open (f_bytes (file pg)) =
    (Ok (mkPager (OpenFile (f_bytes (file pg))) (TotalPages pg) (FreeList pg)),
     OpenFile (f_bytes (file pg))) ∧
  (length (FreeList pg) ≤ maxFreeListEntries)%nat ∧
  (∀ id, id ∈ FreeList pg → 0 < id < TotalPages pg) ∧
  (∀ id, 0 < id < TotalPages pg → is_ok (ReadPage id pg).1 = true) ∧
  (∀ id, 0 < id < TotalPages pg → (length (FreeList pg) < maxFreeListEntries)%nat →
    ∃ pg1 pg2, FreePage id pg = (Ok tt, pg1) ∧ FreeList pg1 = FreeList pg ++ [id] ∧
      AllocatePage pg1 = (Ok id, pg2) ∧ FreeList pg2 = FreeList pg).
Proof.
  intros Hs%pager_reachable_sound. pose proof Hs as [Hf Hsound]. unfold TotalPages, FreeList.
  pose proof Hsound as [Ht Hlen Hfree Hcap Hmeta Hpages]. split; [by apply Open_meta|].
  split; [done|]. split; [done|]. split.
  - intros id Hid. destruct (Hpages id Hid) as [d Hd].
    assert (page_off id + PageSize ≤ length (f_bytes (file pg)))%nat as Hin by (unfold page_off in *; page_lia).
    destruct (disk_data_inv _ _ _ Hd Hin) as (p & HD & _).
    unfold ReadPage. M_run. rewrite decide_False by lia. unfold pg_read.
    rewrite ReadAt_ok by done. simpl. fold (block (f_bytes (file pg)) id). by rewrite HD.
  - intros id Hid Hl. eexists _, _. split; [apply FreePage_accepted; [done|done|unfold pager_slots; lia]|].
    split; [done|]. split; [|shelve].
    erewrite (AllocatePage_reuse _ (freeList pg) id) by (done || (cbn; lia)). reflexivity.
    Unshelve. done.
Qed.

(** C33. [AllocatePage] is crash-atomic: if the device stops after any number of its
    writes, reopening the file gives a consistent pager that holds the same
    pages as before, or those pages and the new one; it is the latter when the
    call returned. *)
Theorem AllocatePage_crash_atomic pg v k :
  pager_rep pg v → 0 < pager_room pg →
  ∃ id pg' f', Open (f_bytes (file (AllocatePage (with_credit k pg)).2)) = (Ok pg', f') ∧
    v !! id = None ∧
    (pager_rep pg' v ∨ pager_rep pg' (<[id := zeros DataSize]> v)) ∧
    (is_ok (AllocatePage (with_credit k pg)).1 = true →
     (AllocatePage (with_credit k pg)).1 = Ok id ∧ pager_rep pg' (<[id := zeros DataSize]> v)).
Proof.
  intros Hpg Hroom. pose proof Hpg as [Hf Hrep].
  destruct (AllocatePage_credit k pg v Hpg Hroom)
    as (id & t' & fl' & Hnone & Hrep2 & Hid & Hbytes & Hok).
  assert (k < 2 → is_ok (AllocatePage (with_credit k pg)).1 = false)%nat as Hlow.
  { clear -Hpg Hroom. intros Hk. destruct Hpg as [_ Hrep]. unfold pager_room in Hroom.
    pose proof (dr_cap _ _ _ _ Hrep) as Hcap. pose proof (dr_total _ _ _ _ Hrep) as Ht.
    destruct pg as [f t fl]. unfold with_credit, set_file in *. cbn [file totalPages freeList] in *.
    unfold AllocatePage; M_run; cbn [freeList].
    destruct (last fl) as [j|] eqn:El.
    - apply last_removelast in El. rewrite El, length_app in Hcap. simpl in Hcap.
      unfold set_free; cbn [file totalPages freeList]. rewrite WritePage_credit.
      destruct k as [|[|k]]; [done| |lia].
      by rewrite flushMeta_credit, WritePage_credit by lia.
    - apply last_None in El. subst fl.
      unfold set_total; cbn [file totalPages freeList]. rewrite WritePage_credit.
      destruct k as [|[|k]]; [done| |lia].
      by rewrite flushMeta_credit, WritePage_credit by (simpl; lia). }
  rewrite Hbytes. destruct k as [|[|k]].
  - eexists id, _, _. split; [by eapply Open_rep|]. split; [done|].
    rewrite Hlow by lia. split; [left; done|done].
  - eexists id, _, _. split; [by eapply Open_rep, disk_rep_scratch|]. split; [done|].
    rewrite Hlow by lia. split; [|done]. left. split; [done|]. by apply disk_rep_scratch.
  - eexists id, _, _. split; [by eapply Open_rep|]. split; [done|].
    rewrite Hok by lia. split; [by right|]. done.
Qed.

(** [FreePage] refuses the meta page, identifiers past the page count and a full
    free list, leaving the pager as it was; an in-use page is removed from the
    store, is the next page [AllocatePage] hands out, and comes back zeroed,
    with all other pages untouched. *)
Theorem FreePage_then_AllocatePage pg v id :
  pager_rep pg v →
  ((id = metaPageID ∨ TotalPages pg ≤ id ∨ (maxFreeListEntries ≤ length (FreeList pg))%nat) →
     ∃ e, FreePage id pg = (Err e, pg)) ∧
  (is_Some (v !! id) → (length (FreeList pg) < maxFreeListEntries)%nat →
     ∃ pg1 pg2, FreePage id pg = (Ok tt, pg1) ∧ pager_rep pg1 (delete id v) ∧
       FreeList pg1 = FreeList pg ++ [id] ∧
       AllocatePage pg1 = (Ok id, pg2) ∧ pager_rep pg2 (<[id := zeros DataSize]> v) ∧
       TotalPages pg2 = TotalPages pg ∧ FreeList pg2 = FreeList pg).
Proof.
  intros Hrep. unfold TotalPages, FreeList. split.
  { intros H. apply FreePage_refused. unfold pager_slots, metaPageID in *. lia. }
  intros Hin Hcap. pose proof Hrep as [Hf Hd]. pose proof (dr_view _ _ _ _ Hd id) as Hv.
  destruct Hin as [d Hin]. rewrite Hin in Hv. case_decide as Hc; [|done]. destruct Hc as [Hid _].
  pose proof (disk_rep_free _ _ _ id v Hd ltac:(eauto) Hcap) as Hd1.
  set (b1 := write_page (meta_page (totalPages pg) (freeList pg ++ [id])) _) in Hd1.
  set (pg1 := mkPager (OpenFile b1) (totalPages pg) (freeList pg ++ [id])).
  assert (FreePage id pg = (Ok tt, pg1)) as ->.
  { unfold FreePage. M_run. rewrite !decide_False by (unfold metaPageID; lia).
    rewrite WritePage_ok by done.
    rewrite flushMeta_ok by (simpl; rewrite length_app; simpl; lia). by rewrite WritePage_ok. }
  destruct (disk_rep_reuse _ _ _ _ _ Hd1) as [Hd2 _].
  pose proof (AllocatePage_reuse pg1 (freeList pg) id (OpenFile_ok _) eq_refl ltac:(lia)) as E.
  eexists pg1, _. split; [reflexivity|]. split; [by split|]. split; [reflexivity|].
  split; [exact E|].
  split; [|done]. split; [done|]. simpl. rewrite insert_delete_eq in Hd2. exact Hd2.
Qed.

(** ** Witnesses *)
Definition pager0 : Pager := mkPager (OpenFile (write_page (meta_page 1 []) [])) 1 [].

Lemma pager0_rep : pager_rep pager0 ∅.
Proof. split; [done|]. apply disk_rep_new. Qed.
Lemma pager0_room : 0 < pager_room pager0.
Proof. unfold pager_room, pager0. simpl. lia. Qed.
Lemma pager1_rep : ∃ id pg, AllocatePage pager0 = (Ok id, pg) ∧
  pager_rep pg (<[id := zeros DataSize]> ∅) ∧ freeList pg = [].
Proof.
  rewrite (AllocatePage_extend pager0) by (done || (unfold pager0; simpl; lia)).
  eexists _, _. split; [reflexivity|]. split; [|done]. split; [done|].
  apply disk_rep_extend; [simpl; lia|]. apply pager0_rep.
Qed.

(** One page, freed twice. *)
Definition freed_twice : Pager := (FreePage 1 (FreePage 1 (AllocatePage pager0).2).2).2.

Lemma freed_twice_fields : TotalPages freed_twice = 2 ∧ FreeList freed_twice = [1; 1].
Proof.
  pose proof maxFreeListEntries_val. unfold freed_twice. rewrite (AllocatePage_extend pager0) by (done || (unfold pager0; simpl; lia)).
  cbn [snd]. change (totalPages pager0) with 1.
  do 2 (rewrite FreePage_accepted by (done || (unfold pager_slots; simpl; lia)); cbn [snd totalPages freeList]). done.
Qed.

Lemma pager_reopen_witness :
  FreeList freed_twice = [1; 1] ∧ Open (f_bytes (file freed_twice)) =
    (Ok (mkPager (OpenFile (f_bytes (file freed_twice))) 2 [1; 1]), OpenFile (f_bytes (file freed_twice))).
Proof.
  destruct freed_twice_fields as [Et Ef]. split; [exact Ef|]. rewrite <-Et, <-Ef at 1. apply (pager_reopen freed_twice).
  unfold freed_twice. eapply reach_step; [|apply step_free; lia]. eapply reach_step; [|apply step_free; lia].
  eapply reach_step; [eapply reach_new, Open_new|]. apply step_alloc, pager0_room.
Defined.

Lemma AllocatePage_crash_atomic_witness :
  ∃ id pg' f', Open (f_bytes (file (AllocatePage (with_credit 1 pager0)).2)) = (Ok pg', f') ∧
    (pager_rep pg' ∅ ∨ pager_rep pg' (<[id := zeros DataSize]> ∅)).
Proof.
  destruct (AllocatePage_crash_atomic pager0 ∅ 1 pager0_rep pager0_room)
    as (id & pg' & f' & E & _ & H & _). eauto.
Defined.

Lemma FreePage_then_AllocatePage_witness :
  ∃ id pg pg1 pg2, AllocatePage pager0 = (Ok id, pg) ∧ FreePage id pg = (Ok tt, pg1) ∧
    AllocatePage pg1 = (Ok id, pg2).
Proof.
  destruct pager1_rep as (id & pg & E & Hrep & Hfl). exists id, pg.
  destruct (FreePage_then_AllocatePage pg _ id Hrep) as [_ H].
  destruct H as (pg1 & pg2 & E1 & _ & _ & E2 & _).
  - rewrite lookup_insert_eq. eauto.
  - unfold FreeList. rewrite Hfl. pose proof maxFreeListEntries_val. simpl. lia.
  - eauto.
Defined.
