(* ===== verification/Mvcc.v ===== *)
(** * Mvcc: snapshots and row visibility ([src/mvcc/mvcc.go])

    [TxManager] is the set of committed transaction identifiers; the mutex of
    the code makes each of its methods one atomic step, so they are pure
    functions of the state here.  The maps the code shares or copies are values
    here; [Snapshots] has them in a store and shows that the values describe it. *)
From S2P Require Import Prelude.
From stdpp Require Import options.

(** Bytes prepended to every row value. *)
Definition HeaderSize : nat := 8.
Definition XIDNone : Z := 0.

Record TxManager : Type := mkTxManager { committed : gset Z }.

Record Snapshot : Type := mkSnapshot {
  snap_committed : gset Z;
  ownXID : Z
}.

Definition New : TxManager := mkTxManager ∅.

Definition MarkCommitted (xid : Z) (m : TxManager) : TxManager :=
  mkTxManager ({[xid]} ∪ committed m).

(** The copy loop of [TakeSnapshot], over the committed set in some order. *)
Definition TakeSnapshot (own : Z) (m : TxManager) : Snapshot :=
  mkSnapshot (foldr (λ xid snap, {[xid]} ∪ snap) ∅ (elements (committed m))) own.

Definition IsVisible (s : Snapshot) (xmin xmax : Z) : bool :=
  if bool_decide (xmin ≠ ownXID s) && negb (bool_decide (xmin ∈ snap_committed s)) then false
  else if bool_decide (xmax ≠ XIDNone) then
    if bool_decide (xmax = ownXID s) then false
    else if bool_decide (xmax ∈ snap_committed s) then false
    else true
  else true.

(** ** Lemmas *)

Lemma TakeSnapshot_committed own m : snap_committed (TakeSnapshot own m) = committed m.
Proof.
  unfold TakeSnapshot. simpl. apply set_eq. intros x. rewrite <-(elem_of_elements (committed m)).
  induction (elements (committed m)) as [|y l IH]; simpl; [set_solver|].
  rewrite elem_of_union, elem_of_singleton, IH, elem_of_cons. done.
Qed.

Lemma IsVisible_iff s xmin xmax :
  IsVisible s xmin xmax = true ↔
  (xmin = ownXID s ∨ xmin ∈ snap_committed s) ∧
  (xmax = XIDNone ∨ (xmax ≠ ownXID s ∧ xmax ∉ snap_committed s)).
Proof.
  unfold IsVisible. repeat case_bool_decide; simpl; split; intros; try tauto; try done.
Qed.

(** ** Properties *)

(** A row is visible exactly when its inserter is the reader itself or was
    committed when the snapshot was taken, and it is either not deleted or
    deleted by a transaction that is neither the reader nor committed then. *)
Theorem IsVisible_spec m own xmin xmax :
  IsVisible (TakeSnapshot own m) xmin xmax = true ↔
  (xmin = own ∨ xmin ∈ committed m) ∧
  ¬ (xmax ≠ XIDNone ∧ (xmax = own ∨ xmax ∈ committed m)).
Proof.
  rewrite IsVisible_iff, TakeSnapshot_committed. simpl.
  destruct (decide (xmax = XIDNone)), (decide (xmax = own)),
    (decide (xmax ∈ committed m)); tauto.
Qed.

(** A transaction sees its own writes before it commits: rows it inserted are
    visible until it deletes them, and rows it deleted are gone, whatever else
    is committed. *)
Theorem read_your_own_writes m own xmin :
  own ≠ XIDNone →
  IsVisible (TakeSnapshot own m) own XIDNone = true ∧
  IsVisible (TakeSnapshot own m) xmin own = false ∧
  (xmin ≠ own → xmin ∉ committed m → IsVisible (TakeSnapshot own m) xmin XIDNone = false).
Proof.
  intros Hown. split_and!; [apply IsVisible_spec; tauto|..].
  - apply not_true_iff_false. rewrite IsVisible_spec. tauto.
  - intros ??. apply not_true_iff_false. rewrite IsVisible_spec. tauto.
Qed.

(** The zero snapshot is documented as one in which no row is visible, but its
    own identifier is 0, so a row stamped with [xmin = 0] is visible in it, as
    it is in every auto-commit snapshot ([TakeSnapshot(XIDNone)]). *)
Theorem zero_snapshot_sees_unstamped_rows m :
  IsVisible (mkSnapshot ∅ 0) 0 0 = true ∧
  IsVisible (TakeSnapshot XIDNone m) 0 0 = true ∧
  (∀ xmin xmax, xmin ≠ 0 → IsVisible (mkSnapshot ∅ 0) xmin xmax = false).
Proof.
  split_and!.
  - reflexivity.
  - apply IsVisible_spec. unfold XIDNone. tauto.
  - intros xmin xmax Hx. apply not_true_iff_false. rewrite IsVisible_iff. simpl. set_solver.
Qed.

(** ** Witnesses *)
Lemma read_your_own_writes_witness :
  IsVisible (TakeSnapshot 5 New) 5 0 = true.
Proof. apply (read_your_own_writes New 5 0). done. Defined.
