(* ===== verification/Snapshots.v ===== *)
(** * Snapshots: the maps behind a snapshot ([src/mvcc/mvcc.go])

    [Mvcc] has the transaction manager and its snapshots as values.  In the code
    both hold a reference to a Go map, [MarkCommitted] writes to the manager's
    map in place, and a snapshot is only stable because [TakeSnapshot] copies
    that map.  Here the maps are in a store, and the values of [Mvcc] are shown
    to be what the objects of the store stand for at any time. *)
From S2P Require Import Prelude Mvcc.
From stdpp Require Import options.

(** ** Maps in a store *)

(** A [map[uint32]struct{}] is its set of keys; a reference is its position. *)
Abbreviation mapref := nat.
Abbreviation maps := (list (gset Z)).

Definition make_map (h : maps) : mapref * maps := (length h, h ++ [∅]).
Definition map_put (r : mapref) (k : Z) (h : maps) : maps := alter (λ s, {[k]} ∪ s) r h.
Definition map_has (r : mapref) (k : Z) (h : maps) : bool :=
  match h !! r with Some s => bool_decide (k ∈ s) | None => false end.

(** The struct's field is the reference. *)
Record TxManager : Type := mkTxManager { committed : mapref }.
Record Snapshot : Type := mkSnapshot { snap_committed : mapref; ownXID : Z }.

Definition New (h : maps) : TxManager * maps :=
  let '(r, h) := make_map h in (mkTxManager r, h).

Definition MarkCommitted (m : TxManager) (xid : Z) (h : maps) : maps := map_put (committed m) xid h.

(** The new map is filled from the manager's, in some order of its keys. *)
Definition TakeSnapshot (m : TxManager) (own : Z) (h : maps) : Snapshot * maps :=
  let '(snap, h) := make_map h in
  (mkSnapshot snap own, foldr (map_put snap) h (elements (default ∅ (h !! committed m)))).

Definition IsVisible (s : Snapshot) (xmin xmax : Z) (h : maps) : bool :=
  if bool_decide (xmin ≠ ownXID s) && negb (map_has (snap_committed s) xmin h) then false
  else if bool_decide (xmax ≠ XIDNone) then
    if bool_decide (xmax = ownXID s) then false
    else if map_has (snap_committed s) xmax h then false
    else true
  else true.

(** ** The calls of a database *)

(** What the goroutines do with the manager, each call under its mutex. *)
Inductive call : Type := Mark (xid : Z) | Take (own : Z).

(** The store, the manager and the snapshots that were taken, which are all in
    use. *)
Record World : Type := mkWorld { heap : maps; mgr : TxManager; taken : list Snapshot }.

Definition do_call (w : World) (c : call) : World :=
  match c with
  | Mark xid => mkWorld (MarkCommitted (mgr w) xid (heap w)) (mgr w) (taken w)
  | Take own =>
      let '(s, h) := TakeSnapshot (mgr w) own (heap w) in mkWorld h (mgr w) (taken w ++ [s])
  end.

Definition boot : World := let '(m, h) := New [] in mkWorld h m [].

Definition run_calls : World → list call → World := foldl do_call.

(** The transactions marked as committed by the calls, and the number of snapshots. *)
Definition marked : list call → list Z := omap (λ c, match c with Mark xid => Some xid | Take _ => None end).
Definition takes : list call → nat := foldr (λ c n, match c with Take _ => S n | Mark _ => n end) 0%nat.

(** ** What the store stands for *)

(** The manager's map is the set [m] has, every snapshot has a map of its own,
    and these have the sets of [ss]. *)
Record world_rep (w : World) (m : Mvcc.TxManager) (ss : list Mvcc.Snapshot) : Prop := {
  wr_mgr : heap w !! committed (mgr w) = Some (Mvcc.committed m);
  wr_own : Forall (λ s, snap_committed s ≠ committed (mgr w)) (taken w);
  wr_snaps : Forall2 (λ s v, heap w !! snap_committed s = Some (Mvcc.snap_committed v) ∧ ownXID s = Mvcc.ownXID v) (taken w) ss
}.

Lemma map_put_ne r r' k h : r ≠ r' → map_put r k h !! r' = h !! r'.
Proof. intros. by apply list_lookup_alter_ne. Qed.

Lemma fill_map snap l h s : h !! snap = Some s →
  foldr (map_put snap) h l !! snap = Some (foldr (λ xid s, {[xid]} ∪ s) s l).
Proof. intros E. induction l as [|x l IH]; [done|]. simpl. unfold map_put at 1. by rewrite list_lookup_alter_eq, IH. Qed.

Lemma fill_map_ne snap r l h : snap ≠ r → foldr (map_put snap) h l !! r = h !! r.
Proof. intros Hne. induction l as [|x l IH]; [done|]. simpl. by rewrite map_put_ne. Qed.

(** [TakeSnapshot] makes a map no other reference points to. *)
Lemma TakeSnapshot_ok m own h s : h !! committed m = Some s →
  let '(t, h') := TakeSnapshot m own h in
  snap_committed t = length h ∧ ownXID t = own ∧ (∀ r, r ≠ length h → h' !! r = h !! r) ∧
  h' !! length h = Some (Mvcc.snap_committed (Mvcc.TakeSnapshot own (Mvcc.mkTxManager s))).
Proof.
  intros E. unfold TakeSnapshot, make_map. cbn [snap_committed ownXID]. split; [done|]. split; [done|].
  assert (∀ r, r ≠ length h → (h ++ [∅]) !! r = h !! r) as Happ.
  { intros r Hr. destruct (decide (r < length h)%nat); [by apply lookup_app_l|].
    rewrite (lookup_ge_None_2 h), lookup_ge_None_2 by (rewrite ?length_app; simpl; lia). done. }
  split.
  - intros r Hr. rewrite fill_map_ne by done. by apply Happ.
  - rewrite (fill_map _ _ _ ∅) by by apply list_lookup_middle. rewrite Happ, E; [done|].
    intros Hc. apply lookup_lt_Some in E. lia.
Qed.

Definition spec_call (st : Mvcc.TxManager * list Mvcc.Snapshot) (c : call) : Mvcc.TxManager * list Mvcc.Snapshot :=
  match c with
  | Mark xid => (Mvcc.MarkCommitted xid st.1, st.2)
  | Take own => (st.1, st.2 ++ [Mvcc.TakeSnapshot own st.1])
  end.

(** The values of [Mvcc] describe the store: nothing that is done later reaches
    the map of a snapshot. *)
Lemma do_call_rep w m ss c : world_rep w m ss →
  world_rep (do_call w c) (spec_call (m, ss) c).1 (spec_call (m, ss) c).2.
Proof.
  intros [Hm Ho Hs]. destruct c as [xid|own]; cbn [do_call spec_call fst snd].
  - split; cbn [heap mgr taken]; [|done|].
    + unfold MarkCommitted, map_put. by rewrite list_lookup_alter_eq, Hm.
    + rewrite Forall_lookup in Ho. apply Forall2_same_length_lookup_2; [by eapply Forall2_length|].
      intros i s v Hi Hv. destruct (Forall2_lookup_lr _ _ _ _ _ _ Hs Hi Hv) as [? ?].
      split; [|done]. unfold MarkCommitted. rewrite map_put_ne; [done|]. intros E. by apply (Ho i s).
  - pose proof (TakeSnapshot_ok (mgr w) own (heap w) _ Hm) as H. destruct (TakeSnapshot _ _ _) as [t h].
    destruct H as (Ht & Hown & Hkeep & Hnew). pose proof (lookup_lt_Some _ _ _ Hm) as Hlt.
    split; cbn [heap mgr taken].
    + rewrite Hkeep by lia. done.
    + apply Forall_app. split; [done|]. apply Forall_singleton. lia.
    + apply Forall2_app; [|constructor; [|constructor]].
      * eapply Forall2_impl; [exact Hs|]. intros s v [E ?]. split; [|done]. pose proof (lookup_lt_Some _ _ _ E).
        rewrite Hkeep by lia. done.
      * rewrite Ht, Hown. by destruct m.
Qed.

Lemma run_calls_rep cs w m ss : world_rep w m ss →
  world_rep (run_calls w cs) (foldl spec_call (m, ss) cs).1 (foldl spec_call (m, ss) cs).2.
Proof.
  revert w m ss. induction cs as [|c cs IH]; intros w m ss Hr; [done|]. cbn [run_calls foldl].
  destruct (spec_call (m, ss) c) as [m' ss'] eqn:E. apply IH. pose proof (do_call_rep w m ss c Hr) as H. by rewrite E in H.
Qed.

Lemma boot_rep : world_rep boot Mvcc.New [].
Proof. by split; [done|constructor|constructor]. Qed.

Lemma spec_calls_committed cs m ss x :
  x ∈ Mvcc.committed (foldl spec_call (m, ss) cs).1 ↔ x ∈ marked cs ∨ x ∈ Mvcc.committed m.
Proof.
  revert m ss. induction cs as [|[xid|own] cs IH]; intros m ss; cbn [foldl spec_call fst snd].
  - set_solver.
  - rewrite IH. cbn. set_solver.
  - rewrite IH. done.
Qed.

Lemma spec_calls_snaps cs m ss : ∃ new, (foldl spec_call (m, ss) cs).2 = ss ++ new ∧ length new = takes cs.
Proof.
  revert m ss. induction cs as [|[xid|own] cs IH]; intros m ss; cbn [foldl spec_call fst snd takes foldr].
  - exists []. by rewrite app_nil_r.
  - apply IH.
  - destruct (IH m (ss ++ [Mvcc.TakeSnapshot own m])) as (new & -> & Hl). exists (Mvcc.TakeSnapshot own m :: new).
    rewrite <-app_assoc. split; [done|]. cbn. by rewrite Hl.
Qed.

Lemma IsVisible_rep s v xmin xmax h :
  h !! snap_committed s = Some (Mvcc.snap_committed v) → ownXID s = Mvcc.ownXID v →
  IsVisible s xmin xmax h = Mvcc.IsVisible v xmin xmax.
Proof. intros E Ho. unfold IsVisible, Mvcc.IsVisible, map_has. by rewrite E, Ho. Qed.

(** ** Properties *)

(** C30. Snapshot isolation.  Take a snapshot at any point of any sequence of commits
    and snapshots of a database, and use it at any later point: whatever has
    been committed in between, into the map from which it was made, it shows a
    row exactly when its inserter is the reader or had committed before the
    snapshot, and its deleter, if it has one, neither is the reader nor had
    committed before. *)
Theorem snapshot_isolation before own after xmin xmax :
  let w := run_calls boot (before ++ Take own :: after) in
  ∃ s, taken w !! takes before = Some s ∧
    (IsVisible s xmin xmax (heap w) = true ↔
     (xmin = own ∨ xmin ∈ marked before) ∧ ¬ (xmax ≠ XIDNone ∧ (xmax = own ∨ xmax ∈ marked before))).
Proof.
  intros w. pose proof (run_calls_rep (before ++ Take own :: after) _ _ _ boot_rep) as [_ _ Hs]. fold w in Hs.
  rewrite foldl_app in Hs. cbn [foldl] in Hs. pose proof (spec_calls_committed before Mvcc.New []) as Hc.
  destruct (spec_calls_snaps before Mvcc.New []) as (old & Eold & Hlen).
  destruct (foldl spec_call (Mvcc.New, []) before) as [m ss]. cbn [spec_call fst snd app] in *. subst ss.
  destruct (spec_calls_snaps after m (old ++ [Mvcc.TakeSnapshot own m])) as (new & E & _). rewrite E, <-app_assoc in Hs.
  destruct (Forall2_lookup_r _ _ _ (takes before) (Mvcc.TakeSnapshot own m) Hs) as (s & Hi & Hr & Ho).
  { rewrite <-Hlen. by apply list_lookup_middle. }
  exists s. split; [exact Hi|]. rewrite (IsVisible_rep s _ xmin xmax (heap w) Hr Ho), IsVisible_spec, !Hc.
  cbn. set_solver.
Qed.

(** ** A concrete run *)

(** Transaction 1 commits, 2 takes a snapshot, 3 commits, 4 takes one: only 4
    sees what 3 inserted, and no longer what 3 deleted. *)
Example two_readers :
  let w := run_calls boot [Mark 1; Take 2; Mark 3; Take 4] in
  (λ s, (IsVisible s 1 0 (heap w), IsVisible s 3 0 (heap w), IsVisible s 1 3 (heap w))) <$> taken w =
    [(true, false, true); (true, true, false)].
Proof. vm_compute. reflexivity. Qed.
