(* ===== verification/TxPager.v ===== *)
(** * TxPager: the no-steal write buffer of a transaction ([src/pager/txpager.go])

    A [TxPager] wraps any [FullStore] and keeps page writes in memory until
    [Flush].  Iterating over a Go map visits the keys in an unspecified order,
    so [Flush] takes the order as an argument and the theorems quantify over
    it. *)
From S2P Require Import Prelude Storage Store Pager.
From stdpp Require Import options.

Record TxPager (S : Type) : Type := mkTxPager {
  base : S;
  dirty : gmap Z Page;
  allocated : list Z
}.
Arguments mkTxPager {S} _ _ _.
Arguments base {S} _. Arguments dirty {S} _. Arguments allocated {S} _.

Section txpager.
Context {S : Type} {FS : FullStore S}.
Implicit Types (tp : TxPager S).

Definition NewTxPager (b : S) : TxPager S := mkTxPager b ∅ [].

(** A call on the base store. *)
Definition on_base {A} (m : M S A) : M (TxPager S) A := λ tp,
  let '(r, b) := m (base tp) in (r, mkTxPager b (dirty tp) (allocated tp)).

Definition ReadPage (id : Z) : M (TxPager S) Page :=
  tp ← get_state;
  match dirty tp !! id with
  | Some p => mret p
  | None => on_base (ps_read id)
  end.

Definition WritePage (p : Page) : M (TxPager S) unit :=
  modify (λ tp, mkTxPager (base tp) (<[PageID (Header p) := p]> (dirty tp)) (allocated tp)).

Definition AllocatePage : M (TxPager S) Z :=
  id ← on_base ps_alloc;
  _ ← modify (λ tp, mkTxPager (base tp) (dirty tp) (allocated tp ++ [id]));
  mret id.

Definition DirtyPages (tp : TxPager S) : list Page := (map_to_list (dirty tp)).*2.

(** The loop of [Flush] over the buffered pages. *)
Fixpoint flush_pages (ps : list Page) : M (TxPager S) unit :=
  match ps with
  | [] => mret tt
  | p :: ps => _ ← on_base (ps_write p); flush_pages ps
  end.

Definition Flush (order : list Page) : M (TxPager S) unit :=
  _ ← flush_pages order;
  modify (λ tp, mkTxPager (base tp) ∅ []).

(** The loop of [Rollback] over the pages allocated in the transaction. *)
Fixpoint free_pages (ids : list Z) : M (TxPager S) unit :=
  match ids with
  | [] => mret tt
  | id :: ids => _ ← on_base (fs_free id); free_pages ids
  end.

Definition Rollback : M (TxPager S) unit :=
  _ ← modify (λ tp, mkTxPager (base tp) ∅ (allocated tp));
  tp ← get_state;
  _ ← free_pages (allocated tp);
  modify (λ tp, mkTxPager (base tp) (dirty tp) []).

End txpager.

#[export] Instance TxPager_pages {S} `{FullStore S} : PageStore (TxPager S) :=
  {| ps_read := ReadPage; ps_write := WritePage; ps_alloc := AllocatePage |}.

Section spec.
Context {S : Type} {FS : FullStore S} {FSS : FullStoreSpec S}.
Implicit Types (tp : TxPager S) (v : pmap).

(** The freshly allocated, still zeroed pages. *)
Definition fresh_pages (ids : list Z) : pmap := gset_to_gmap (zeros DataSize) (list_to_set ids).

(** Transaction [tp], begun on a store holding [v0], holds [v]: the base store
    holds [v0] and the zeroed pages allocated since, and the buffered pages
    override it. *)
Record tx_rep (tp : TxPager S) (v0 v : pmap) : Prop := {
  tr_base : ps_rep (base tp) (fresh_pages (allocated tp) ∪ v0);
  tr_nodup : NoDup (allocated tp);
  tr_fresh : ∀ id, id ∈ allocated tp → v0 !! id = None;
  tr_dirty : ∀ id p, dirty tp !! id = Some p →
    PageID (Header p) = id ∧ page_wf p ∧ is_Some ((fresh_pages (allocated tp) ∪ v0) !! id);
  tr_view : v = (Data <$> dirty tp) ∪ (fresh_pages (allocated tp) ∪ v0)
}.

Definition tx_room tp : Z := ps_room (base tp).

Lemma fresh_pages_nil : fresh_pages [] = ∅.
Proof. apply gset_to_gmap_empty. Qed.

Lemma fresh_pages_snoc ids id :
  fresh_pages (ids ++ [id]) = <[id := zeros DataSize]> (fresh_pages ids).
Proof.
  unfold fresh_pages. rewrite list_to_set_app_L. simpl.
  rewrite union_empty_r_L, (union_comm_L _ {[id]}). apply gset_to_gmap_union_singleton.
Qed.

Lemma fresh_pages_lookup_None ids id : id ∉ ids → fresh_pages ids !! id = None.
Proof. intros. apply lookup_gset_to_gmap_None. by rewrite elem_of_list_to_set. Qed.

Lemma NewTxPager_rep b v : ps_rep b v → tx_rep (NewTxPager b) v v.
Proof.
  intros Hb. unfold NewTxPager.
  assert (fresh_pages [] ∪ v = v) as E by by rewrite fresh_pages_nil, (left_id_L ∅ (∪)).
  split; cbn [base dirty allocated].
  - by rewrite E.
  - constructor.
  - intros id H. by apply elem_of_nil in H.
  - intros id p H. by rewrite lookup_empty in H.
  - by rewrite E, fmap_empty, (left_id_L ∅ (∪)).
Qed.

Lemma tx_ReadPage_rep tp v0 v id d :
  tx_rep tp v0 v → v !! id = Some d →
  ∃ p tp', ReadPage id tp = (Ok p, tp') ∧ tx_rep tp' v0 v ∧ tx_room tp' = tx_room tp ∧
    PageID (Header p) = id ∧ Data p = d.
Proof.
  intros [Hb Hnd Hfr Hd Hv] Hl. unfold ReadPage. M_run. subst v.
  destruct (dirty tp !! id) as [p|] eqn:Ed.
  - destruct (Hd id p Ed) as (Hid & Hwf & _). exists p, tp. split; [done|].
    split; [by split|]. split; [done|]. split; [done|].
    rewrite lookup_union, lookup_fmap, Ed in Hl. simpl in Hl.
    rewrite union_Some_l in Hl. by simplify_eq.
  - rewrite lookup_union_r in Hl by (by rewrite lookup_fmap, Ed).
    destruct (ps_read_spec _ _ _ _ Hb Hl) as (p & b' & E & Hb' & Hroom & Hid & Hp).
    unfold on_base. rewrite E. exists p. eexists. split; [reflexivity|].
    split; [by split|]. done.
Qed.

Lemma tx_WritePage_rep tp v0 v p :
  tx_rep tp v0 v → page_wf p → is_Some (v !! PageID (Header p)) →
  ∃ tp', WritePage p tp = (Ok tt, tp') ∧ tx_rep tp' v0 (<[PageID (Header p) := Data p]> v) ∧
    tx_room tp' = tx_room tp.
Proof.
  intros [Hb Hnd Hfr Hd Hv] Hwf Hl. unfold WritePage. M_run. eexists. split; [reflexivity|].
  split; [|done]. split; cbn [base dirty allocated]; try done.
  - intros id q Hq. apply lookup_insert_Some in Hq as [[<- <-]|[Hne Hq]]; [|by apply Hd].
    split_and!; [done|done|]. subst v.
    destruct (dirty tp !! PageID (Header p)) as [q|] eqn:Eq; [by apply (Hd _ q)|].
    by rewrite lookup_union_r in Hl by (by rewrite lookup_fmap, Eq).
  - subst v. by rewrite fmap_insert, insert_union_l.
Qed.

Lemma tx_AllocatePage_rep tp v0 v :
  tx_rep tp v0 v → 0 < tx_room tp →
  ∃ id tp', AllocatePage tp = (Ok id, tp') ∧ v !! id = None ∧
    tx_rep tp' v0 (<[id := zeros DataSize]> v) ∧ tx_room tp' = tx_room tp - 1 ∧
    allocated tp' = allocated tp ++ [id].
Proof.
  intros [Hb Hnd Hfr Hd Hv] Hroom.
  destruct (ps_alloc_spec _ _ Hb Hroom) as (id & b' & E & Hnone & Hb' & Hroom').
  apply lookup_union_None in Hnone as [Hn1 Hn2].
  assert (id ∉ allocated tp) as Hni.
  { unfold fresh_pages in Hn1. apply lookup_gset_to_gmap_None in Hn1.
    by rewrite elem_of_list_to_set in Hn1. }
  assert (dirty tp !! id = None) as Hdn.
  { destruct (dirty tp !! id) as [q|] eqn:Eq; [|done]. destruct (Hd _ _ Eq) as (_ & _ & [x Hx]).
    apply lookup_union_Some_raw in Hx as [|[_ ?]]; congruence. }
  unfold AllocatePage, on_base. M_run. rewrite E. cbn [base dirty allocated].
  exists id. eexists. split; [reflexivity|]. split_and!; [|split|done|done]; cbn [base dirty allocated].
  - subst v. rewrite !lookup_union_None, lookup_fmap, Hdn. done.
  - by rewrite fresh_pages_snoc, <-insert_union_l.
  - by apply NoDup_snoc.
  - intros j [Hj| ->]%elem_of_snoc; [by apply Hfr|done].
  - intros j q Hq. destruct (Hd j q Hq) as (? & ? & Hs). split_and!; [done..|].
    rewrite fresh_pages_snoc, <-insert_union_l. rewrite lookup_insert.
    case_decide; eauto.
  - subst v. rewrite fresh_pages_snoc, <-insert_union_l, insert_union_r; [done|].
    by rewrite lookup_fmap, Hdn.
Qed.

(** The contract of a transaction that began when the base store held [v0]. *)
Program Definition TxPager_spec_from (v0 : pmap) : PageStoreSpec (TxPager S) :=
  {| ps_rep tp v := tx_rep tp v0 v; ps_room := tx_room |}.
Next Obligation.
  intros v0 tp v id d [Hb Hnd Hfr Hd Hv] Hl. subst v.
  apply lookup_union_Some_raw in Hl as [Hl|[_ Hl]].
  - rewrite lookup_fmap in Hl. destruct (dirty tp !! id) as [p|] eqn:E; [|done].
    simpl in Hl. simplify_eq. destruct (Hd _ _ E) as (_ & Hwf & [x Hx]).
    split; [by destruct (ps_rep_wf _ _ _ _ Hb Hx)|apply (wf_data _ Hwf)].
  - exact (ps_rep_wf _ _ _ _ Hb Hl).
Qed.
Next Obligation.
  intros v0 tp v id d Hr Hl.
  destruct (tx_ReadPage_rep _ _ _ _ _ Hr Hl) as (p & tp' & ? & ? & ? & ? & ?). eauto 10.
Qed.
Next Obligation.
  intros v0 tp v p Hr Hwf Hl.
  destruct (tx_WritePage_rep _ _ _ _ Hr Hwf Hl) as (tp' & ? & ? & ?). eauto 10.
Qed.
Next Obligation.
  intros v0 tp v Hr Hroom.
  destruct (tx_AllocatePage_rep _ _ _ Hr Hroom) as (id & tp' & ? & ? & ? & ? & _). eauto 10.
Qed.

#[export] Program Instance TxPager_pages_spec : PageStoreSpec (TxPager S) :=
  {| ps_rep tp v := ∃ v0, tx_rep tp v0 v; ps_room := tx_room |}.
Next Obligation. intros tp v id d [v0 Hr]. exact ((TxPager_spec_from v0).(ps_rep_wf) _ _ _ _ Hr). Qed.
Next Obligation.
  intros tp v id d [v0 Hr] Hl.
  destruct ((TxPager_spec_from v0).(ps_read_spec) _ _ _ _ Hr Hl) as (p & tp' & E & Hr' & ?).
  exists p, tp'. split; [exact E|]. split; [by exists v0|done].
Qed.
Next Obligation.
  intros tp v p [v0 Hr] Hwf Hl.
  destruct ((TxPager_spec_from v0).(ps_write_spec) _ _ _ Hr Hwf Hl) as (tp' & E & Hr' & ?).
  exists tp'. split; [exact E|]. split; [by exists v0|done].
Qed.
Next Obligation.
  intros tp v [v0 Hr] Hroom.
  destruct ((TxPager_spec_from v0).(ps_alloc_spec) _ _ Hr Hroom) as (id & tp' & E & Hn & Hr' & ?).
  exists id, tp'. split; [exact E|]. split; [exact Hn|]. split; [by exists v0|done].
Qed.

(** *** Flush *)

Definition page_kv (p : Page) : Z * list byte := (PageID (Header p), Data p).

Lemma flush_pages_ok ps tp vb :
  ps_rep (base tp) vb → NoDup (page_kv <$> ps).*1 →
  (∀ p, p ∈ ps → page_wf p ∧ is_Some (vb !! PageID (Header p))) →
  ∃ b', flush_pages ps tp = (Ok tt, mkTxPager b' (dirty tp) (allocated tp)) ∧
    ps_rep b' (list_to_map (page_kv <$> ps) ∪ vb) ∧ ps_room b' = ps_room (base tp).
Proof.
  revert tp vb. induction ps as [|p ps IH]; intros tp vb Hb Hnd Hps.
  { exists (base tp). simpl. rewrite (left_id_L ∅ (∪)). by destruct tp. }
  cbn [flush_pages]. M_run. unfold on_base.
  destruct (Hps p) as [Hwf Hin]; [apply list_elem_of_here|].
  destruct (ps_write_spec _ _ _ Hb Hwf Hin) as (b1 & E & Hb1 & Hr1). rewrite E.
  rewrite !fmap_cons in Hnd. apply NoDup_cons in Hnd as [Hni Hnd].
  destruct (IH (mkTxPager b1 (dirty tp) (allocated tp)) _ Hb1 Hnd) as (b2 & E2 & Hb2 & Hr2).
  { intros q Hq. destruct (Hps q) as [? Hqi]; [by apply list_elem_of_further|].
    split; [done|]. rewrite lookup_insert. case_decide; eauto. }
  exists b2. split; [exact E2|]. split; [|cbn [base] in Hr2; congruence]. rewrite fmap_cons.
  change (page_kv p) with (PageID (Header p), Data p). rewrite list_to_map_cons.
  cbn [base dirty allocated] in Hb2.
  rewrite <-insert_union_r in Hb2 by (by apply not_elem_of_list_to_map_1).
  by rewrite <-insert_union_l.
Qed.

Lemma dirty_kv tp v0 v :
  tx_rep tp v0 v →
  page_kv <$> DirtyPages tp = prod_map id Data <$> map_to_list (dirty tp) .
Proof.
  intros Hr. unfold DirtyPages. rewrite <-list_fmap_compose. apply list_fmap_ext.
  intros i [k p] Hk. apply list_elem_of_lookup_2, elem_of_map_to_list in Hk.
  destruct (tr_dirty _ _ _ Hr _ _ Hk) as (Hid & _). unfold page_kv, prod_map. simpl. by rewrite Hid.
Qed.

Lemma dirty_kv_map tp v0 v :
  tx_rep tp v0 v → list_to_map (page_kv <$> DirtyPages tp) = Data <$> dirty tp.
Proof.
  intros Hr. rewrite (dirty_kv _ _ _ Hr), list_to_map_fmap.
  by rewrite list_to_map_to_list.
Qed.

Lemma dirty_kv_NoDup tp v0 v : tx_rep tp v0 v → NoDup (page_kv <$> DirtyPages tp).*1.
Proof.
  intros Hr. rewrite (dirty_kv _ _ _ Hr), <-list_fmap_compose.
  apply (NoDup_fst_map_to_list (dirty tp)).
Qed.

Lemma Flush_ok order tp v0 v :
  tx_rep tp v0 v → order ≡ₚ DirtyPages tp →
  ∃ tp', Flush order tp = (Ok tt, tp') ∧ ps_rep (base tp') v ∧ dirty tp' = ∅ ∧ allocated tp' = [] ∧
    ps_room (base tp') = ps_room (base tp).
Proof.
  intros Hr Ho. pose proof Hr as [Hb Hnd Hfr Hd Hv].
  destruct (flush_pages_ok order tp _ Hb) as (b' & E & Hb' & Hroom).
  - rewrite Ho. by eapply dirty_kv_NoDup.
  - intros p Hp. rewrite Ho in Hp. unfold DirtyPages in Hp.
    apply list_elem_of_fmap in Hp as ([k q] & -> & Hk%elem_of_map_to_list).
    destruct (Hd _ _ Hk) as (<- & ? & ?). done.
  - unfold Flush. M_run. rewrite E. eexists. split; [reflexivity|]. cbn [base dirty allocated].
    split; [|done]. subst v. rewrite <-(dirty_kv_map _ _ _ Hr).
    rewrite (list_to_map_proper (page_kv <$> DirtyPages tp) (page_kv <$> order)); [done| |by rewrite Ho].
    by eapply dirty_kv_NoDup.
Qed.

(** *** Rollback *)

Lemma free_pages_ok ids tp vb :
  ps_rep (base tp) vb → NoDup ids → (∀ id, id ∈ ids → is_Some (vb !! id)) →
  Z.of_nat (length ids) ≤ fs_slots (base tp) →
  ∃ b', free_pages ids tp = (Ok tt, mkTxPager b' (dirty tp) (allocated tp)) ∧
    ps_rep b' (foldl (λ v id, delete id v) vb ids) ∧ ps_room (base tp) ≤ ps_room b'.
Proof.
  revert tp vb. induction ids as [|id ids IH]; intros tp vb Hb Hnd Hin Hs.
  { exists (base tp). destruct tp. split_and!; [done|done|lia]. }
  apply NoDup_cons in Hnd as [Hni Hnd]. cbn [free_pages length] in *. M_run. unfold on_base.
  destruct (fs_free_spec (base tp) vb id Hb) as (b1 & E & Hb1 & Hr1 & Hs1);
    [apply Hin, list_elem_of_here|lia|]. rewrite E.
  destruct (IH (mkTxPager b1 (dirty tp) (allocated tp)) _ Hb1 Hnd) as (b2 & E2 & Hb2 & Hr2).
  { intros j Hj. rewrite lookup_delete_ne by (by intros ->).
    apply Hin. by apply list_elem_of_further. }
  { cbn [base]. lia. }
  exists b2. split; [exact E2|]. split; [exact Hb2|]. cbn [base] in Hr2. lia.
Qed.

Lemma delete_fresh_pages ids v0 :
  (∀ id, id ∈ ids → v0 !! id = None) → NoDup ids →
  foldl (λ v id, delete id v) (fresh_pages ids ∪ v0) ids = v0.
Proof.
  intros Hfr _. apply map_eq. intros j.
  assert (∀ l (m : pmap), foldl (λ v id, delete id v) m l !! j = if decide (j ∈ l) then None else m !! j) as H.
  { induction l as [|x l IH]; intros m; simpl; [done|]. rewrite IH.
    rewrite lookup_delete. destruct (decide (x = j)) as [->|];
      repeat case_decide; try done; set_solver. }
  rewrite H. case_decide as Hj; [by rewrite Hfr|].
  by rewrite lookup_union_r by (by apply fresh_pages_lookup_None).
Qed.

Lemma Rollback_ok tp v0 v :
  tx_rep tp v0 v → Z.of_nat (length (allocated tp)) ≤ fs_slots (base tp) →
  ∃ tp', Rollback tp = (Ok tt, tp') ∧ ps_rep (base tp') v0 ∧ dirty tp' = ∅ ∧ allocated tp' = [] ∧
    ps_room (base tp) ≤ ps_room (base tp').
Proof.
  intros [Hb Hnd Hfr Hd Hv] Hs. unfold Rollback. M_run.
  destruct (free_pages_ok (allocated tp) (mkTxPager (base tp) ∅ (allocated tp)) _ Hb Hnd)
    as (b' & E & Hb' & Hr').
  { intros id Hid. unfold fresh_pages. rewrite lookup_union_Some_l with (x := zeros DataSize); [eauto|].
    apply lookup_gset_to_gmap_Some. by rewrite elem_of_list_to_set. }
  { done. }
  cbn [base dirty allocated] in *. rewrite E. eexists. split; [reflexivity|].
  cbn [base dirty allocated]. split; [|done]. by rewrite delete_fresh_pages in Hb'.
Qed.

(** A free list without room for all of them stops it: the base store keeps
    some of the fresh pages, and nothing else of the transaction. *)
Lemma fresh_pages_delete ids id v0 : id ∉ ids → v0 !! id = None → delete id (fresh_pages (id :: ids) ∪ v0) = fresh_pages ids ∪ v0.
Proof.
  intros Hn Hv. apply map_eq. intros j. rewrite lookup_delete. case_decide as Hj.
  - subst j. symmetry. apply lookup_union_None. split; [by apply fresh_pages_lookup_None|done].
  - unfold fresh_pages. rewrite !lookup_union, !lookup_gset_to_gmap. f_equal.
    assert (j ∈ (list_to_set (id :: ids) : gset Z) ↔ j ∈ (list_to_set ids : gset Z)) as Hiff by set_solver.
    by destruct (decide (j ∈ (list_to_set ids : gset Z))); repeat case_guard; try done; tauto.
Qed.

Lemma free_pages_any ids tp v0 :
  ps_rep (base tp) (fresh_pages ids ∪ v0) → NoDup ids → (∀ id, id ∈ ids → v0 !! id = None) →
  ∃ r tp' ids', free_pages ids tp = (r, tp') ∧ (r = Ok tt ∨ ∃ e, r = Err e) ∧ dirty tp' = dirty tp ∧
    ps_rep (base tp') (fresh_pages ids' ∪ v0) ∧ (∀ id, id ∈ ids' → v0 !! id = None) ∧ ps_room (base tp) ≤ ps_room (base tp').
Proof.
  revert tp. induction ids as [|id ids IH]; intros tp Hb Hnd Hfr.
  { exists (Ok tt), tp, []. split_and!; [done|by left|done|done|done|lia]. }
  pose proof Hnd as [Hni Hnd']%NoDup_cons. cbn [free_pages]. M_run. unfold on_base.
  assert (is_Some ((fresh_pages (id :: ids) ∪ v0) !! id)) as Hin.
  { exists (zeros DataSize). apply lookup_union_Some_l, lookup_gset_to_gmap_Some. split; [set_solver|done]. }
  destruct (decide (0 < fs_slots (base tp))) as [Hs|Hs].
  - destruct (fs_free_spec _ _ _ Hb Hin Hs) as (b1 & E & Hb1 & Hr1 & _). rewrite E.
    rewrite fresh_pages_delete in Hb1 by (done || apply Hfr, list_elem_of_here).
    destruct (IH (mkTxPager b1 (dirty tp) (allocated tp)) Hb1 Hnd') as (r & tp' & ids' & E' & Hr & Hd & Hb' & Hf' & Hroom).
    { intros j Hj. by apply Hfr, list_elem_of_further. }
    exists r, tp', ids'. cbn [base] in Hroom. split_and!; [exact E'|exact Hr|exact Hd|exact Hb'|exact Hf'|lia].
  - destruct (fs_full_spec _ _ _ Hb Hin ltac:(lia)) as (e & b1 & E & Hb1 & Hr1). rewrite E.
    eexists _, _, (id :: ids). split; [reflexivity|]. cbn [base dirty]. split_and!; [right; eauto|done|exact Hb1|exact Hfr|lia].
Qed.

Lemma Rollback_any tp v0 v : tx_rep tp v0 v →
  ∃ r tp' ids, Rollback tp = (r, tp') ∧ (r = Ok tt ∨ ∃ e, r = Err e) ∧ dirty tp' = ∅ ∧
    ps_rep (base tp') (fresh_pages ids ∪ v0) ∧ (∀ id, id ∈ ids → v0 !! id = None) ∧ ps_room (base tp) ≤ ps_room (base tp').
Proof.
  intros [Hb Hnd Hfr Hd Hv]. unfold Rollback. M_run. cbn [base dirty allocated].
  destruct (free_pages_any (allocated tp) (mkTxPager (base tp) ∅ (allocated tp)) v0 Hb Hnd Hfr)
    as (r & tp' & ids & E & Hr & Hd' & Hb' & Hf' & Hroom). rewrite E. cbn [base dirty] in Hd', Hroom.
  destruct Hr as [->|[e ->]]; eexists _, _, ids; (split; [reflexivity|]); cbn [base dirty]; split_and!; eauto.
Qed.

(** ** Runs of a transaction *)

(** The calls a client makes inside a transaction: reads and writes of pages it
    can see, and allocations while there is room; [v] is what it sees. *)
Inductive tx_step : TxPager S * pmap → TxPager S * pmap → Prop :=
  | tx_read tp v id tp' p :
      is_Some (v !! id) → ReadPage id tp = (Ok p, tp') → tx_step (tp, v) (tp', v)
  | tx_write tp v p tp' :
      page_wf p → is_Some (v !! PageID (Header p)) → WritePage p tp = (Ok tt, tp') →
      tx_step (tp, v) (tp', <[PageID (Header p) := Data p]> v)
  | tx_alloc tp v id tp' :
      0 < tx_room tp → AllocatePage tp = (Ok id, tp') →
      tx_step (tp, v) (tp', <[id := zeros DataSize]> v).

Lemma tx_step_rep tp v tp' v' v0 :
  tx_step (tp, v) (tp', v') → tx_rep tp v0 v → tx_rep tp' v0 v'.
Proof.
  intros Hs Hr. inversion Hs as [? ? id ? p [d Hin] E|? ? p ? Hwf Hin E|? ? id ? Hroom E]; simplify_eq.
  - destruct (tx_ReadPage_rep _ _ _ _ _ Hr Hin) as (q & tp2 & E2 & Hr2 & _). congruence.
  - destruct (tx_WritePage_rep _ _ _ _ Hr Hwf Hin) as (tp2 & E2 & Hr2 & _). congruence.
  - destruct (tx_AllocatePage_rep _ _ _ Hr Hroom) as (j & tp2 & E2 & _ & Hr2 & _). congruence.
Qed.

Lemma tx_steps_rep x y v0 :
  rtc tx_step x y → tx_rep x.1 v0 x.2 → tx_rep y.1 v0 y.2.
Proof.
  induction 1 as [|[tp1 v1] [tp2 v2] z Hs _ IH]; [done|]. intros Hr. apply IH.
  by eapply tx_step_rep.
Qed.

(** ** Properties *)

(** C15. No-steal and atomicity of a transaction, over any base store that satisfies
    the [FullStore] contract.  After any run of reads, writes and allocations
    from a fresh transaction on a store holding [v0]:
    the base still holds [v0] plus zeroed fresh pages only;
    every read returns the transaction's own view;
    [Flush], in whatever order the dirty map is visited, makes the base hold
    exactly that view; [Rollback] makes it hold [v0] again, or, when the free
    list has no room for the pages allocated, [v0] and zeroed pages. *)
Theorem transaction_atomic b v0 tp v :
  ps_rep b v0 → rtc tx_step (NewTxPager b, v0) (tp, v) →
  (∃ ids, ps_rep (base tp) (fresh_pages ids ∪ v0) ∧ ∀ id, id ∈ ids → v0 !! id = None) ∧
  (∀ id d, v !! id = Some d → ∃ p tp', ReadPage id tp = (Ok p, tp') ∧ Data p = d) ∧
  (∀ order, order ≡ₚ DirtyPages tp →
     ∃ tp', Flush order tp = (Ok tt, tp') ∧ ps_rep (base tp') v ∧ DirtyPages tp' = []) ∧
  (Z.of_nat (length (allocated tp)) ≤ fs_slots (base tp) →
     ∃ tp', Rollback tp = (Ok tt, tp') ∧ ps_rep (base tp') v0 ∧ DirtyPages tp' = []) ∧
  (∃ r tp' ids, Rollback tp = (r, tp') ∧ (r = Ok tt ∨ ∃ e, r = Err e) ∧ DirtyPages tp' = [] ∧
     ps_rep (base tp') (fresh_pages ids ∪ v0) ∧ ∀ id, id ∈ ids → v0 !! id = None).
Proof.
  intros Hb Hrun. apply (tx_steps_rep _ _ v0) in Hrun as Hr; [|by apply NewTxPager_rep].
  simpl in Hr. split_and!.
  - exists (allocated tp). destruct Hr; eauto.
  - intros id d Hd. destruct (tx_ReadPage_rep _ _ _ _ _ Hr Hd) as (p & tp' & ? & _ & _ & _ & ?). eauto.
  - intros order Ho. destruct (Flush_ok order _ _ _ Hr Ho) as (tp' & ? & ? & Hd & _).
    exists tp'. unfold DirtyPages. rewrite Hd. by rewrite map_to_list_empty.
  - intros Hs. destruct (Rollback_ok _ _ _ Hr Hs) as (tp' & ? & ? & Hd & _).
    exists tp'. unfold DirtyPages. rewrite Hd. by rewrite map_to_list_empty.
  - destruct (Rollback_any _ _ _ Hr) as (r & tp' & ids & E & Hres & Hd & Hb' & Hf & _). exists r, tp', ids.
    unfold DirtyPages. rewrite Hd, map_to_list_empty. by split_and!.
Qed.

End spec.

(** ** Witnesses *)
Lemma transaction_atomic_witness :
  ∃ tp v, rtc tx_step (NewTxPager pager0, ∅) (tp, v) ∧ v ≠ ∅ ∧
    ∃ tp', Flush (DirtyPages tp) tp = (Ok tt, tp') ∧ ps_rep (base tp') v.
Proof.
  pose proof (NewTxPager_rep (FS:=Pager_full) (FSS:=Pager_full_spec) pager0 ∅ pager0_rep) as Hr0.
  destruct (tx_AllocatePage_rep (FSS:=Pager_full_spec) _ _ _ Hr0 pager0_room)
    as (id & tp & E & _).
  assert (rtc tx_step (NewTxPager pager0, ∅) (tp, <[id := zeros DataSize]> ∅)) as Hrun.
  { apply rtc_once. apply tx_alloc; [apply pager0_room | exact E]. }
  exists tp, (<[id := zeros DataSize]> ∅). split; [exact Hrun|]. split; [apply insert_non_empty|].
  destruct (transaction_atomic (FSS:=Pager_full_spec) pager0 ∅ tp _ pager0_rep Hrun) as (_ & _ & Hfl & _).
  destruct (Hfl (DirtyPages tp) ltac:(reflexivity)) as (tp' & E' & Hr & _). eauto.
Defined.
