(* ===== verification/BufferPool.v ===== *)
(** * BufferPool: the shared LRU page cache ([src/bufferpool/pool.go])

    A [Pool] is one object shared by all open tables: its frames are keyed by
    (file, page), the LRU list holds the keys of the frames from most to least
    recently used (a frame is in the list exactly while [lruElem] is non-nil),
    and [files] holds the pagers.  A [BufPager] is a handle on the pool for one
    file: its [pg] is the very pager registered under its file identifier, so
    both are read and updated through [files].  A handle outlives [Unregister]:
    [strays] holds the pagers that only handles refer to any more.  The pool's mutex makes each
    method atomic. *)
From S2P Require Import Prelude Storage Disk Store Pager.
From stdpp Require Import options.

Definition DefaultCapacity : Z := 64.

(** [pageKey]: file identifier and page identifier. *)
Abbreviation pageKey := (Z * Z)%type.

Record Pool : Type := mkPool {
  capacity : Z;
  frames : gmap pageKey Page;
  lru : list pageKey;
  files : gmap Z Pager;
  nextFID : Z;
  Hits : Z;
  Misses : Z;
  Evictions : Z;
  strays : gmap Z Pager
}.

Definition New (cap : Z) : Pool :=
  mkPool (if decide (cap ≤ 0) then DefaultCapacity else cap) ∅ [] ∅ 0 0 0 0 ∅.

Definition set_frames (f : gmap pageKey Page) (l : list pageKey) (p : Pool) : Pool :=
  mkPool (capacity p) f l (files p) (nextFID p) (Hits p) (Misses p) (Evictions p) (strays p).
Definition set_files (f : gmap Z Pager) (p : Pool) : Pool :=
  mkPool (capacity p) (frames p) (lru p) f (nextFID p) (Hits p) (Misses p) (Evictions p) (strays p).
Definition set_strays (s : gmap Z Pager) (p : Pool) : Pool :=
  mkPool (capacity p) (frames p) (lru p) (files p) (nextFID p) (Hits p) (Misses p) (Evictions p) s.

(** [l.Remove(e)] *)
Definition lru_remove (k : pageKey) (l : list pageKey) : list pageKey := filter (λ k', k' ≠ k) l.

Definition Register (pg : Pager) (p : Pool) : Z * Pool :=
  let fid := nextFID p in
  (fid, mkPool (capacity p) (frames p) (lru p) (<[fid := pg]> (files p))
          (u16 (nextFID p + 1)) (Hits p) (Misses p) (Evictions p) (strays p)).

Definition Unregister (fid : Z) (p : Pool) : Pool :=
  mkPool (capacity p)
    (filter (λ kf, kf.1.1 ≠ fid) (frames p))
    (filter (λ k, k.1 ≠ fid) (lru p))
    (delete fid (files p)) (nextFID p) (Hits p) (Misses p) (Evictions p)
    (match files p !! fid with Some pg => <[fid := pg]> (strays p) | None => strays p end).

(** Moves a frame to the front, or puts it there. *)
Definition promote (k : pageKey) (p : Pool) : Pool :=
  set_frames (frames p) (k :: lru_remove k (lru p)) p.

Definition evictOne : M Pool unit := λ p,
  match last (lru p) with
  | None => (Err (Errorf "buffer pool full (%d frames) with no evictable page" [GInt (capacity p)]), p)
  | Some k =>
      (Ok tt, mkPool (capacity p) (delete k (frames p)) (removelast (lru p)) (files p)
                (nextFID p) (Hits p) (Misses p) (u64 (Evictions p + 1)) (strays p))
  end.

(** A new frame at the front of the list. *)
Definition add_frame (k : pageKey) (pg : Page) (p : Pool) : Pool :=
  set_frames (<[k := pg]> (frames p)) (k :: lru p) p.

Definition count_hit (p : Pool) : Pool :=
  mkPool (capacity p) (frames p) (lru p) (files p) (nextFID p) (u64 (Hits p + 1)) (Misses p) (Evictions p) (strays p).
Definition count_miss (p : Pool) : Pool :=
  mkPool (capacity p) (frames p) (lru p) (files p) (nextFID p) (Hits p) (u64 (Misses p + 1)) (Evictions p) (strays p).

(** A call on the pager registered under [fid]; [None] when there is none. *)
Definition on_file {A} (fid : Z) (m : M Pager A) (none : M Pool A) : M Pool A := λ p,
  match files p !! fid with
  | None => none p
  | Some pg => let '(r, pg') := m pg in (r, set_files (<[fid := pg']> (files p)) p)
  end.

Definition FetchPage (fid pageID : Z) : M Pool Page :=
  p ← get_state;
  let key := (fid, pageID) in
  match frames p !! key with
  | Some fr =>
      _ ← modify (λ p, promote key (count_hit p));
      mret fr
  | None =>
      _ ← modify count_miss;
      _ ← (if decide (capacity p ≤ Z.of_nat (size (frames p))) then evictOne else mret tt);
      page ← on_file fid (ReadPage pageID)
               (fail (Errorf "buffer pool: file ID %d not registered" [GInt fid]));
      _ ← modify (add_frame key page);
      mret page
  end.

Definition UpdatePage (fid : Z) (page : Page) (p : Pool) : Pool :=
  let key := (fid, PageID (Header page)) in
  match frames p !! key with
  | Some _ => promote key (set_frames (<[key := page]> (frames p)) (lru p) p)
  | None =>
      if decide (Z.of_nat (size (frames p)) < capacity p) then add_frame key page p else p
  end.

Definition EvictPage (fid pageID : Z) (p : Pool) : Pool :=
  let key := (fid, pageID) in
  match frames p !! key with
  | Some _ => set_frames (delete key (frames p)) (lru_remove key (lru p)) p
  | None => p
  end.

Record PoolStats : Type := mkPoolStats {
  st_hits : Z; st_misses : Z; st_evictions : Z; st_cached : nat; st_capacity : Z
}.
Definition Stats (p : Pool) : PoolStats :=
  mkPoolStats (Hits p) (Misses p) (Evictions p) (size (frames p)) (capacity p).

(** ** BufPager *)
Record BufPager : Type := mkBufPager { bp_pool : Pool; bp_fid : Z }.

Definition on_pool {A} (m : Z → M Pool A) : M BufPager A := λ bp,
  let '(r, p) := m (bp_fid bp) (bp_pool bp) in (r, mkBufPager p (bp_fid bp)).

(** A call on a pager that is not registered any more.  [NewBufPager] takes a
    pager, so a handle always has one. *)
Definition on_stray {A} (fid : Z) (m : M Pager A) : M Pool A := λ p,
  match strays p !! fid with
  | None => (Panic, p)
  | Some pg => let '(r, pg') := m pg in (r, set_strays (<[fid := pg']> (strays p)) p)
  end.

(** A call on the handle's own pager, registered or not. *)
Definition own_pager {A} (m : M Pager A) : M BufPager A :=
  on_pool (λ fid, on_file fid m (on_stray fid m)).

Definition BufReadPage (id : Z) : M BufPager Page := on_pool (λ fid, FetchPage fid id).

Definition BufWritePage (pg : Page) : M BufPager unit :=
  _ ← own_pager (WritePage pg);
  on_pool (λ fid, modify (UpdatePage fid pg)).

Definition BufAllocatePage : M BufPager Z := own_pager AllocatePage.

Definition BufFreePage (id : Z) : M BufPager unit :=
  _ ← on_pool (λ fid, modify (EvictPage fid id));
  own_pager (FreePage id).

(** ** Invariant of the pool *)

Record pool_inv (p : Pool) : Prop := {
  pi_cap : 0 < capacity p;
  pi_nodup : NoDup (lru p);
  pi_lru : ∀ k, k ∈ lru p ↔ is_Some (frames p !! k);
  pi_size : Z.of_nat (size (frames p)) ≤ capacity p
}.

Lemma lru_size p :
  NoDup (lru p) → (∀ k, k ∈ lru p ↔ is_Some (frames p !! k)) → size (frames p) = length (lru p).
Proof.
  intros Hnd Hl. rewrite <-size_dom, <-(size_list_to_set (C := gset pageKey)) by done.
  f_equal. apply set_eq. intros k. by rewrite elem_of_dom, elem_of_list_to_set, Hl.
Qed.

Lemma elem_of_lru_remove k k' l : k ∈ lru_remove k' l ↔ k ≠ k' ∧ k ∈ l.
Proof. unfold lru_remove. by rewrite list_elem_of_filter. Qed.

Lemma lru_remove_NoDup k l : NoDup l → NoDup (lru_remove k l).
Proof. apply NoDup_filter. Qed.

Lemma New_inv cap : pool_inv (New cap).
Proof.
  unfold New. split; simpl; try lia.
  - case_decide; unfold DefaultCapacity; lia.
  - constructor.
  - intros k. rewrite lookup_empty, elem_of_nil, is_Some_alt. done.
  - rewrite map_size_empty. case_decide; unfold DefaultCapacity; lia.
Qed.

Lemma Register_inv pg p : pool_inv p → pool_inv (Register pg p).2.
Proof. intros [? ? ? ?]. by split. Qed.

Lemma Unregister_inv fid p : pool_inv p → pool_inv (Unregister fid p).
Proof.
  intros [Hc Hn Hl Hs]. split; simpl; [done|by apply NoDup_filter| |].
  - intros k. rewrite list_elem_of_filter, Hl, map_lookup_filter.
    destruct (frames p !! k) as [q|] eqn:E; simpl.
    + rewrite option_guard_decide. case_decide; simpl; rewrite !is_Some_alt; tauto.
    + rewrite is_Some_alt. tauto.
  - pose proof (map_size_filter (λ kf : pageKey * Page, kf.1.1 ≠ fid) (frames p)).
    etrans; [|exact Hs]. by apply inj_le.
Qed.

Lemma promote_inv k p : pool_inv p → is_Some (frames p !! k) → pool_inv (promote k p).
Proof.
  intros [Hc Hn Hl Hs] Hk. split; simpl; [done| | |done].
  - apply NoDup_cons. split; [rewrite elem_of_lru_remove; tauto|by apply lru_remove_NoDup].
  - intros k'. rewrite elem_of_cons, elem_of_lru_remove, Hl.
    destruct (decide (k' = k)) as [->|]; tauto.
Qed.

Lemma add_frame_inv k q p :
  pool_inv p → frames p !! k = None → Z.of_nat (size (frames p)) < capacity p →
  pool_inv (add_frame k q p).
Proof.
  intros [Hc Hn Hl Hs] Hk Hlt. split; simpl; [done| | |].
  - apply NoDup_cons. split; [|done]. rewrite Hl, Hk. by intros [? ?].
  - intros k'. rewrite elem_of_cons, lookup_insert, Hl. case_decide; subst.
    + split; eauto.
    + split; [intros [->|]; done|tauto].
  - rewrite map_size_insert_None by done. lia.
Qed.

Lemma evictOne_spec p :
  pool_inv p → capacity p ≤ Z.of_nat (size (frames p)) →
  ∃ k p', evictOne p = (Ok tt, p') ∧ last (lru p) = Some k ∧
    frames p' = delete k (frames p) ∧ lru p = lru p' ++ [k] ∧ files p' = files p ∧
    capacity p' = capacity p ∧ pool_inv p' ∧ Z.of_nat (size (frames p')) < capacity p'.
Proof.
  intros [Hc Hn Hl Hs] Hfull. pose proof (lru_size p Hn Hl) as Hsz. unfold evictOne.
  destruct (last (lru p)) as [k|] eqn:El.
  2: { apply last_None in El. rewrite El in Hsz. simpl in Hsz. lia. }
  exists k. eexists. split; [reflexivity|]. cbn [frames lru files capacity].
  pose proof (last_removelast (lru p) k El) as E.
  assert (is_Some (frames p !! k)) as [q Hq] by (apply Hl; rewrite E; apply elem_of_snoc; by right).
  assert (size (frames p) = S (size (delete k (frames p)))) as Hsd.
  { rewrite <-(insert_delete_id _ _ _ Hq) at 1. by rewrite map_size_insert_None by apply lookup_delete_eq. }
  split_and!; try done; [|lia].
  rewrite E in Hn. apply NoDup_snoc in Hn as [Hn Hnk].
  split; cbn [frames lru files capacity]; [done|done| |lia].
  intros k'. rewrite lookup_delete. rewrite E in Hl. specialize (Hl k'). rewrite elem_of_snoc in Hl.
  case_decide as Hk; [subst k'|].
  - rewrite is_Some_alt. tauto.
  - rewrite <-Hl. split; [tauto|]. intros [|]; [done|congruence].
Qed.

Lemma UpdatePage_inv fid q p : pool_inv p → pool_inv (UpdatePage fid q p).
Proof.
  intros Hp. unfold UpdatePage. destruct (frames p !! (fid, PageID (Header q))) as [fr|] eqn:E.
  - apply promote_inv; [|simpl; rewrite lookup_insert_eq; eauto].
    destruct Hp as [Hc Hn Hl Hs]. split; simpl; [done|done| |].
    + intros k. rewrite lookup_insert, Hl. case_decide as Hk; [|done]. rewrite <-Hk. rewrite E. split; eauto.
    + by rewrite map_size_insert_Some by eauto.
  - case_decide; [|done]. by apply add_frame_inv.
Qed.

Lemma EvictPage_inv fid id p : pool_inv p → pool_inv (EvictPage fid id p).
Proof.
  intros Hp. unfold EvictPage. destruct (frames p !! (fid, id)) as [fr|] eqn:E; [|done].
  destruct Hp as [Hc Hn Hl Hs]. split; simpl; [done|by apply lru_remove_NoDup| |].
  - intros k. rewrite elem_of_lru_remove, lookup_delete, Hl.
    case_decide as Hk; rewrite ?is_Some_alt; [split; [intros [? _]; congruence|done]|].
    split; [tauto|]. intros ?. split; [congruence|done].
  - pose proof (map_size_delete_Some _ _ (mk_is_Some _ _ E)). lia.
Qed.

(** ** [FetchPage] *)

Lemma FetchPage_hit fid id p fr :
  frames p !! (fid, id) = Some fr →
  FetchPage fid id p = (Ok fr, promote (fid, id) (count_hit p)).
Proof. intros H. unfold FetchPage. M_run. by rewrite H. Qed.

(** A miss makes room if the pool is full, then reads through the file's pager. *)
Lemma FetchPage_miss fid id p pg :
  pool_inv p → frames p !! (fid, id) = None → files p !! fid = Some pg →
  ∃ p1, pool_inv p1 ∧ Z.of_nat (size (frames p1)) < capacity p1 ∧ capacity p1 = capacity p ∧
    frames p1 ⊆ frames p ∧ files p1 = files p ∧
    lru p1 = take (Z.to_nat (capacity p) - 1) (lru p) ∧
    FetchPage fid id p =
      match ReadPage id pg with
      | (Ok q, pg') => (Ok q, add_frame (fid, id) q (set_files (<[fid := pg']> (files p)) p1))
      | (Err e, pg') => (Err e, set_files (<[fid := pg']> (files p)) p1)
      | (Panic, pg') => (Panic, set_files (<[fid := pg']> (files p)) p1)
      | (OutOfFuel, pg') => (OutOfFuel, set_files (<[fid := pg']> (files p)) p1)
      end.
Proof.
  intros Hp Hk Hpg. unfold FetchPage. M_run. rewrite Hk.
  assert (pool_inv (count_miss p)) as Hm by (destruct Hp; by split).
  pose proof (lru_size p (pi_nodup p Hp) (pi_lru p Hp)) as Hsz. pose proof (pi_size p Hp) as Hps.
  simpl. case_decide as Hfull.
  - destruct (evictOne_spec _ Hm Hfull) as (k & p1 & -> & Hlast & Hfr & Hl & Hfi & Hc & Hi & Hlt).
    simpl in *. exists p1. split_and!; try done.
    + rewrite Hfr. apply delete_subseteq.
    + assert (length (lru p) = S (length (lru p1))) as HL by (rewrite Hl, length_app; simpl; lia).
      replace (Z.to_nat (capacity p) - 1)%nat with (length (lru p1)) by lia.
      by rewrite Hl, take_app_length.
    + unfold on_file. rewrite Hfi, Hpg. by destruct (ReadPage id pg) as [[] ?].
  - exists (count_miss p). simpl. split_and!; try done; [lia|rewrite take_ge by lia; done|].
    unfold on_file. simpl. rewrite Hpg. by destruct (ReadPage id pg) as [[] ?].
Qed.

Lemma FetchPage_inv fid id p : pool_inv p → pool_inv (FetchPage fid id p).2.
Proof.
  intros Hp. destruct (frames p !! (fid, id)) as [fr|] eqn:Hk.
  - rewrite (FetchPage_hit _ _ _ _ Hk). apply promote_inv; [by destruct Hp; split|simpl; eauto].
  - destruct (files p !! fid) as [pg|] eqn:Hpg.
    + destruct (FetchPage_miss fid id p pg Hp Hk Hpg) as (p1 & Hi & Hlt & _ & Hsub & Hf & _ & ->).
      assert (∀ fs, pool_inv (set_files fs p1)) as Hset by (intros fs; destruct Hi; by split).
      destruct (ReadPage id pg) as [[q|e| |] pg']; simpl; try apply Hset.
      apply add_frame_inv; [apply Hset| |done].
      simpl. destruct (frames p1 !! (fid, id)) eqn:E; [|done].
      by rewrite (lookup_weaken _ _ _ _ E Hsub) in Hk.
    + unfold FetchPage. M_run. rewrite Hk. assert (pool_inv (count_miss p)) as Hm by (destruct Hp; by split).
      simpl. case_decide as Hfull.
      * destruct (evictOne_spec _ Hm Hfull) as (k & p1 & -> & _ & _ & _ & Hfi & _ & Hi & _).
        unfold on_file. rewrite Hfi. simpl. by rewrite Hpg.
      * unfold on_file. simpl. by rewrite Hpg.
Qed.

(** ** Recency *)

(** The keys of a trace of accesses, most recent first, each once. *)
Definition recency (ks : list pageKey) : list pageKey :=
  fold_left (λ r k, k :: lru_remove k r) ks [].

Lemma recency_snoc ks k : recency (ks ++ [k]) = k :: lru_remove k (recency ks).
Proof. unfold recency. by rewrite fold_left_app. Qed.

Lemma recency_NoDup ks : NoDup (recency ks).
Proof.
  induction ks as [|k ks IH] using rev_ind; [constructor|]. rewrite recency_snoc.
  apply NoDup_cons. split; [rewrite elem_of_lru_remove; tauto|by apply lru_remove_NoDup].
Qed.

Lemma lru_remove_notin k l : k ∉ l → lru_remove k l = l.
Proof.
  induction l as [|x l IH]; [done|]. intros [Hx Hl]%not_elem_of_cons. unfold lru_remove.
  rewrite filter_cons_True by congruence. f_equal. by apply IH.
Qed.


Lemma lru_remove_take_notin n k l :
  k ∉ take (S n) l → take n (lru_remove k l) = take n l.
Proof.
  revert n. induction l as [|x l IH]; [done|]. intros n Hn. simpl in Hn.
  apply not_elem_of_cons in Hn as [Hx Hn]. unfold lru_remove.
  rewrite filter_cons_True by congruence. destruct n as [|n]; [done|]. simpl. f_equal. by apply IH.
Qed.

Lemma lru_remove_take_in n k l :
  NoDup l → k ∈ take (S n) l → lru_remove k (take (S n) l) = take n (lru_remove k l).
Proof.
  revert n. induction l as [|x l IH]; [inversion 2|].
  intros n [Hx Hnd]%NoDup_cons Hin. simpl in Hin. unfold lru_remove. simpl take at 1.
  rewrite !filter_cons. case_decide as Hxk; [|].
  - apply elem_of_cons in Hin as [->|Hin]; [done|]. destruct n as [|n]; [by apply elem_of_nil in Hin|].
    simpl. f_equal. by apply (IH n).
  - subst x. fold (lru_remove k (take n l)) (lru_remove k l).
    rewrite !lru_remove_notin; [done|done|].
    intros (i & Hi & _)%elem_of_take. apply Hx. by apply list_elem_of_lookup_2 in Hi.
Qed.

(** ** A handle on the pool behaves as its pager *)

Record buf_rep (bp : BufPager) (pg : Pager) : Prop := {
  br_inv : pool_inv (bp_pool bp);
  br_file : files (bp_pool bp) !! bp_fid bp = Some pg;
  br_coh : ∀ id q, 0 < id → frames (bp_pool bp) !! (bp_fid bp, id) = Some q →
    PageID (Header q) = id ∧ id < totalPages pg ∧ disk_data (f_bytes (file pg)) id = Some (Data q)
}.

Lemma ReadPage_total pg v id :
  pager_rep pg v → 0 < id < totalPages pg →
  ∃ q, ReadPage id pg = (Ok q, pg) ∧ PageID (Header q) = id ∧
    disk_data (f_bytes (file pg)) id = Some (Data q).
Proof.
  intros [Hf Hrep] Hid. destruct (dr_pages _ _ _ _ Hrep id Hid) as [d Hd].
  pose proof (in_file _ _ _ _ id Hrep ltac:(lia)) as Hin.
  destruct (disk_data_inv _ _ _ Hd Hin) as (q & HD & Hpid & Hpd & _).
  exists q. split; [|split; [exact Hpid|by rewrite Hpd]].
  unfold ReadPage. M_run. rewrite decide_False by lia. unfold pg_read. rewrite ReadAt_ok by done.
  simpl. fold (block (f_bytes (file pg)) id). by rewrite HD.
Qed.

Lemma BufReadPage_sim bp pg v id :
  buf_rep bp pg → pager_rep pg v → id ≠ 0 → 0 ≤ id →
  ∃ bp', buf_rep bp' pg ∧
    (id < totalPages pg → ∃ q q', BufReadPage id bp = (Ok q, bp') ∧ ReadPage id pg = (Ok q', pg) ∧
       PageID (Header q) = id ∧ Data q = Data q') ∧
    (totalPages pg ≤ id → ∃ e, BufReadPage id bp = (Err e, bp') ∧ ReadPage id pg = (Err e, pg)).
Proof.
  destruct bp as [p fid]. intros [Hi Hfile Hcoh] Hrep Hid Hid'. simpl in *.
  unfold BufReadPage, on_pool. simpl. destruct (frames p !! (fid, id)) as [q|] eqn:Hk.
  - rewrite (FetchPage_hit _ _ _ _ Hk). exists (mkBufPager (promote (fid, id) (count_hit p)) fid). destruct (Hcoh id q ltac:(lia) Hk) as (Hq & Hr & Hd).
    split_and!.
    + split; simpl; [|exact Hfile|exact Hcoh]. apply promote_inv; [by destruct Hi; split|simpl; eauto].
    + intros _. destruct (ReadPage_total pg v id Hrep ltac:(lia)) as (q' & E & _ & Hd').
      exists q, q'. split_and!; [done|done|done|]. rewrite Hd in Hd'. by injection Hd' as ->.
    + intros ?. lia.
  - destruct (FetchPage_miss fid id p pg Hi Hk Hfile) as (p1 & Hi1 & Hlt & _ & Hsub & Hf & _ & ->).
    assert (pool_inv (set_files (<[fid := pg]> (files p)) p1)) as Hset by (destruct Hi1; by split).
    destruct (decide (id < totalPages pg)) as [Hr|Hr].
    + destruct (ReadPage_total pg v id Hrep ltac:(lia)) as (q & E & Hq & Hd). rewrite E.
      exists (mkBufPager (add_frame (fid, id) q (set_files (<[fid := pg]> (files p)) p1)) fid).
      split_and!; [|intros _; by exists q, q|lia]. split; simpl.
      * apply add_frame_inv; [done| |done]. simpl.
        destruct (frames p1 !! (fid, id)) eqn:E1; [|done].
        by rewrite (lookup_weaken _ _ _ _ E1 Hsub) in Hk.
      * by rewrite lookup_insert_eq.
      * intros j q' Hj0. rewrite lookup_insert. case_decide as Hj.
        -- injection Hj as <-. intros [= <-]. split; [done|]. split; [lia|done].
        -- intros Hl. apply Hcoh; [done|]. by eapply lookup_weaken.
    + assert (∃ e, ReadPage id pg = (Err e, pg)) as [e E].
      { unfold ReadPage. M_run. rewrite decide_True by lia. eauto. }
      rewrite E. exists (mkBufPager (set_files (<[fid := pg]> (files p)) p1) fid).
      split_and!; [|lia|intros _; by exists e]. split; simpl; [done|by rewrite lookup_insert_eq|].
      intros j q' Hj0 Hl. apply Hcoh; [done|]. by eapply lookup_weaken.
Qed.

Lemma UpdatePage_fields fid q p :
  files (UpdatePage fid q p) = files p ∧
  ∀ k fr, frames (UpdatePage fid q p) !! k = Some fr →
    (k = (fid, PageID (Header q)) ∧ fr = q) ∨ (k ≠ (fid, PageID (Header q)) ∧ frames p !! k = Some fr).
Proof.
  unfold UpdatePage. destruct (frames p !! _) as [fr0|] eqn:E; [|case_decide]; (split; [reflexivity|]);
    intros k fr; simpl; try (rewrite lookup_insert; case_decide as Hk; [intros [= <-]; by left|by right]).
  intros Hl. right. split; [intros ->|exact Hl]. rewrite Hl in E. discriminate.
Qed.

Lemma BufWritePage_sim bp pg v q :
  buf_rep bp pg → pager_rep pg v → page_wf q → is_Some (v !! PageID (Header q)) →
  ∃ bp' pg', BufWritePage q bp = (Ok tt, bp') ∧ WritePage q pg = (Ok tt, pg') ∧ buf_rep bp' pg'.
Proof.
  destruct bp as [p fid]. intros [Hi Hfile Hcoh] Hrep Hwf Hin. simpl in *.
  destruct (WritePage_rep pg v q Hrep Hwf Hin) as (pg' & E & Hrep' & Ht & _).
  unfold BufWritePage, own_pager, on_pool, on_file. M_run. cbn [bp_pool bp_fid]. rewrite Hfile, E.
  set (p1 := set_files (<[fid := pg']> (files p)) p).
  destruct (UpdatePage_fields fid q p1) as [Hff Hfr].
  exists (mkBufPager (UpdatePage fid q p1) fid), pg'. split; [reflexivity|]. split; [reflexivity|].
  split; cbn [bp_pool bp_fid].
  - apply UpdatePage_inv. destruct Hi; by split.
  - rewrite Hff. apply lookup_insert_eq.
  - assert (∀ j, 0 < j < totalPages pg → disk_data (f_bytes (file pg')) j =
      if decide (j = PageID (Header q)) then Some (Data q) else disk_data (f_bytes (file pg)) j) as Hd.
    { intros j Hj. eapply WritePage_disk; [exact Hrep|exact Hwf|exact Hin|exact E|lia]. }
    intros j fr Hj0 [[Hk ->]|[Hk Hl]]%Hfr.
    + injection Hk as ->. split; [reflexivity|].
      pose proof (dr_view _ _ _ _ (proj2 Hrep) (PageID (Header q))) as Hv. destruct Hin as [d Hdv].
      rewrite Hdv in Hv. case_decide as Hc; [|discriminate]. destruct Hc as [Hc _].
      split; [lia|]. rewrite Hd by lia. by rewrite decide_True.
    + destruct (Hcoh j fr Hj0 Hl) as (Hj & Hr & Hdj). split; [exact Hj|]. rewrite Ht.
      split; [exact Hr|]. rewrite Hd by lia. rewrite decide_False by congruence. exact Hdj.
Qed.

Lemma BufAllocatePage_sim bp pg v :
  buf_rep bp pg → pager_rep pg v → 0 < pager_room pg →
  ∃ id bp' pg', BufAllocatePage bp = (Ok id, bp') ∧ AllocatePage pg = (Ok id, pg') ∧ buf_rep bp' pg'.
Proof.
  destruct bp as [p fid]. intros [Hi Hfile Hcoh] Hrep Hroom. simpl in *.
  destruct (AllocatePage_rep pg v Hrep Hroom) as (id & pg' & E & _).
  unfold BufAllocatePage, own_pager, on_pool, on_file. cbn [bp_pool bp_fid]. rewrite Hfile, E.
  exists id. eexists. exists pg'. split; [reflexivity|]. split; [reflexivity|].
  split; cbn [bp_pool bp_fid].
  - destruct Hi; by split.
  - apply lookup_insert_eq.
  - intros j fr Hj0 Hl. destruct (Hcoh j fr Hj0 Hl) as (Hj & Hr & Hdj). split; [exact Hj|].
    destruct (AllocatePage_disk pg v id pg' j Hrep Hroom E ltac:(lia)) as [Ht Hd].
    split; [lia|]. rewrite Hd. exact Hdj.
Qed.

Lemma EvictPage_fields fid id p :
  files (EvictPage fid id p) = files p ∧
  ∀ k fr, frames (EvictPage fid id p) !! k = Some fr → k ≠ (fid, id) ∧ frames p !! k = Some fr.
Proof.
  unfold EvictPage. destruct (frames p !! _) as [fr0|] eqn:E; (split; [reflexivity|]); intros k fr; simpl.
  - rewrite lookup_delete. case_decide; [discriminate|]. split; congruence.
  - intros Hl. split; congruence.
Qed.

Lemma BufFreePage_sim bp pg v id :
  buf_rep bp pg → pager_rep pg v → id ∉ freeList pg → 0 ≤ id →
  ∃ r bp' pg', BufFreePage id bp = (r, bp') ∧ FreePage id pg = (r, pg') ∧ buf_rep bp' pg'.
Proof.
  destruct bp as [p fid]. intros [Hi Hfile Hcoh] Hrep Hnf Hid. simpl in *.
  destruct (EvictPage_fields fid id p) as [Hff Hfr].
  unfold BufFreePage, own_pager, on_pool, on_file. M_run. cbn [bp_pool bp_fid].
  rewrite Hff, Hfile. destruct (FreePage id pg) as [r pg'] eqn:E.
  exists r. eexists. exists pg'. split; [reflexivity|]. split; [reflexivity|].
  split; cbn [bp_pool bp_fid].
  - destruct (EvictPage_inv fid id p Hi); by split.
  - apply lookup_insert_eq.
  - intros j fr Hj0 [Hk Hl]%Hfr. destruct (Hcoh j fr Hj0 Hl) as (Hj & Hr & Hdj). split; [exact Hj|].
    destruct (decide (id = 0 ∨ totalPages pg ≤ id ∨ pager_slots pg ≤ 0)) as [Hc|Hc].
    + destruct (FreePage_refused pg id Hc) as [e E']. rewrite E' in E. injection E as <- <-. done.
    + assert (0 < id < totalPages pg ∧ 0 < pager_slots pg) as [Hid' Hs] by lia.
      destruct (FreePage_rep pg v id Hrep) as (pg2 & E2 & _);
        [by eapply pager_view_in_use|exact Hs|]. rewrite E2 in E. injection E as <- <-.
      destruct (FreePage_disk pg v id pg2 j Hrep) as [Ht Hd];
        [by eapply pager_view_in_use|exact Hs|exact E2|lia|congruence|].
      rewrite Ht, Hd. exact (conj Hr Hdj).
Qed.

#[export] Instance BufPager_pages : PageStore BufPager :=
  {| ps_read := BufReadPage; ps_write := BufWritePage; ps_alloc := BufAllocatePage |}.
#[export] Instance BufPager_full : FullStore BufPager := {| fs_free := BufFreePage |}.

(** The pager behind a handle. *)
Definition bp_pager (bp : BufPager) : option Pager := files (bp_pool bp) !! bp_fid bp.

Definition bp_rep (bp : BufPager) (v : pmap) : Prop :=
  ∃ pg, buf_rep bp pg ∧ pager_rep pg v.

#[export] Program Instance BufPager_pages_spec : PageStoreSpec BufPager :=
  {| ps_rep := bp_rep; ps_room bp := default 0 (pager_room <$> bp_pager bp) |}.
Next Obligation. intros bp v id d (pg & _ & Hrep) Hd. by eapply (ps_rep_wf (S := Pager)). Qed.
Next Obligation.
  intros bp v id d (pg & Hb & Hrep) Hd.
  destruct (Pager_pages_spec.(ps_rep_wf) pg v id d Hrep Hd) as [Hid _].
  destruct (ReadPage_ok pg v id d Hrep Hd) as (q' & E & Hq' & Hd').
  destruct (BufReadPage_sim bp pg v id Hb Hrep ltac:(lia) ltac:(lia)) as (bp' & Hb' & Hok & _).
  destruct (decide (id < totalPages pg)) as [Hr|Hr].
  - destruct (Hok Hr) as (q & q2 & E1 & E2 & Hq & Hqq). rewrite E2 in E. injection E as ->.
    exists q, bp'. split; [exact E1|]. split; [by exists pg|].
    unfold bp_pager. rewrite (br_file _ _ Hb), (br_file _ _ Hb'). split_and!; [done|exact Hq|congruence].
  - exfalso. pose proof (dr_view _ _ _ _ (proj2 Hrep) id) as Hv. rewrite Hd in Hv.
    case_decide; [lia|discriminate].
Qed.
Next Obligation.
  intros bp v q (pg & Hb & Hrep) Hwf Hin.
  destruct (BufWritePage_sim bp pg v q Hb Hrep Hwf Hin) as (bp' & pg' & E & E' & Hb').
  destruct (WritePage_rep pg v q Hrep Hwf Hin) as (pg2 & E2 & Hrep' & Ht & Hl).
  rewrite E2 in E'. injection E' as ->.
  exists bp'. split; [exact E|]. split; [by exists pg'|].
  unfold bp_pager. rewrite (br_file _ _ Hb), (br_file _ _ Hb'). simpl. unfold pager_room. by rewrite Ht, Hl.
Qed.
Next Obligation.
  intros bp v (pg & Hb & Hrep). unfold bp_pager. rewrite (br_file _ _ Hb). simpl. intros Hroom.
  destruct (BufAllocatePage_sim bp pg v Hb Hrep Hroom) as (id & bp' & pg' & E & E' & Hb').
  destruct (AllocatePage_rep pg v Hrep Hroom) as (id2 & pg2 & E2 & Hnew & Hrep' & Hroom' & _).
  rewrite E2 in E'. injection E' as -> ->.
  exists id, bp'. split; [exact E|]. split; [exact Hnew|]. split; [by exists pg'|].
  rewrite (br_file _ _ Hb'). simpl. exact Hroom'.
Qed.

Lemma FetchPage_files fid id p : files (FetchPage fid id p).2 = files p.
Proof.
  assert (∀ p0 : Pool, files (evictOne p0).2 = files p0) as Hev.
  { intros p0. unfold evictOne. by destruct (last (lru p0)). }
  assert (∀ p0 : Pool, files (on_file fid (ReadPage id)
    (fail (Errorf "buffer pool: file ID %d not registered" [GInt fid])) p0).2 = files p0) as Hon.
  { intros p0. unfold on_file. destruct (files p0 !! fid) as [pg|] eqn:E; [|done].
    pose proof (ReadPage_state id pg) as Hs. destruct (ReadPage id pg) as [r pg']. simpl in *.
    subst pg'. by apply insert_id. }
  unfold FetchPage. M_run. destruct (frames p !! (fid, id)); [done|].
  case_decide.
  - specialize (Hev (count_miss p)). destruct (evictOne (count_miss p)) as [[] p1]; try exact Hev.
    specialize (Hon p1). destruct (on_file fid _ _ p1) as [[] p2]; simpl in *; congruence.
  - specialize (Hon (count_miss p)). destruct (on_file fid _ _ (count_miss p)) as [[] p2]; simpl in *; congruence.
Qed.

Lemma own_pager_run {A} (m : M Pager A) bp :
  match bp_pager bp with
  | None => bp_pager (own_pager m bp).2 = None
  | Some pg => (own_pager m bp).1 = (m pg).1 ∧ bp_pager (own_pager m bp).2 = Some (m pg).2
  end.
Proof.
  destruct bp as [p fid]. unfold bp_pager, own_pager, on_pool, on_file, on_stray. simpl.
  destruct (files p !! fid) as [pg|] eqn:Hpg; [|destruct (strays p !! fid); [destruct (m _)|]; done]. destruct (m pg) as [r pg']. simpl.
  by rewrite lookup_insert_eq.
Qed.

Lemma view_in_file pg v id : pager_rep pg v → is_Some (v !! id) → 0 < id < totalPages pg ∧ id ∉ freeList pg.
Proof.
  intros [_ Hrep] [d Hd]. pose proof (dr_view _ _ _ _ Hrep id) as Hv. rewrite Hd in Hv.
  case_decide as Hc; [exact Hc|discriminate].
Qed.

#[export] Program Instance BufPager_full_spec : FullStoreSpec BufPager :=
  {| fs_spec := BufPager_pages_spec; fs_slots bp := default 0 (pager_slots <$> bp_pager bp) |}.
Next Obligation.
  intros [p fid] id. simpl. unfold BufReadPage, on_pool, bp_pager. simpl.
  pose proof (FetchPage_files fid id p) as H. destruct (FetchPage fid id p) as [r p']. simpl in *. by rewrite H.
Qed.
Next Obligation.
  intros bp q. simpl. unfold BufWritePage. M_run. pose proof (own_pager_run (WritePage q) bp) as H.
  destruct (bp_pager bp) as [pg|] eqn:Hpg.
  2: { destruct (own_pager (WritePage q) bp) as [[] [p fid]]; simpl in *; try by rewrite H.
       unfold on_pool, bp_pager in *. simpl in *. by rewrite (proj1 (UpdatePage_fields fid q p)), H. }
  destruct H as [H1 H2]. destruct (WritePage_fields q pg) as [_ Hf].
  destruct (own_pager (WritePage q) bp) as [[] [p fid]]; simpl in *;
    try (rewrite H2; simpl; unfold pager_slots; by rewrite Hf).
  unfold on_pool, bp_pager in *. simpl in *. rewrite (proj1 (UpdatePage_fields fid q p)), H2. simpl.
  unfold pager_slots. by rewrite Hf.
Qed.
Next Obligation.
  intros bp. simpl. unfold BufAllocatePage. pose proof (own_pager_run AllocatePage bp) as H.
  destruct (bp_pager bp) as [pg|] eqn:Hpg; [|by rewrite H].
  destruct H as [H1 H2]. rewrite H2. simpl. apply AllocatePage_slots.
Qed.
Next Obligation.
  intros bp v id (pg & Hb & Hrep) Hin. simpl. unfold bp_pager. rewrite (br_file _ _ Hb). simpl. intros Hs.
  destruct (view_in_file pg v id Hrep Hin) as [Hr Hnf].
  destruct (BufFreePage_sim bp pg v id Hb Hrep Hnf ltac:(lia)) as (r & bp' & pg' & E & E' & Hb').
  destruct (FreePage_rep pg v id Hrep Hin Hs) as (pg2 & E2 & Hrep' & Hroom & Hslots).
  rewrite E2 in E'. injection E' as <- ->.
  exists bp'. split; [exact E|]. split; [by exists pg'|]. rewrite (br_file _ _ Hb'). done.
Qed.
Next Obligation.
  intros bp v id (pg & Hb & Hrep) Hin. simpl. unfold bp_pager. rewrite (br_file _ _ Hb). simpl. intros Hs.
  destruct (view_in_file pg v id Hrep Hin) as [Hr Hnf].
  destruct (BufFreePage_sim bp pg v id Hb Hrep Hnf ltac:(lia)) as (r & bp' & pg' & E & E' & Hb').
  destruct (FreePage_refused pg id ltac:(auto)) as [e E2]. rewrite E2 in E'. injection E' as <- <-.
  exists e, bp'. split; [exact E|]. split; [by exists pg|]. by rewrite (br_file _ _ Hb').
Qed.

(** ** Properties *)

(** The pool's operations, as its clients interleave them. *)
Inductive pool_op : Type :=
  | PRegister (pg : Pager) | PUnregister (fid : Z) | PFetch (fid id : Z)
  | PUpdate (fid : Z) (q : Page) | PEvict (fid id : Z).

Definition pool_step (o : pool_op) (p : Pool) : Pool :=
  match o with
  | PRegister pg => (Register pg p).2
  | PUnregister fid => Unregister fid p
  | PFetch fid id => (FetchPage fid id p).2
  | PUpdate fid q => UpdatePage fid q p
  | PEvict fid id => EvictPage fid id p
  end.

(** Whatever operations are performed on a new pool, failing ones included,
    the number of cached pages never exceeds the capacity, and the LRU list
    holds exactly the keys of the cached pages, each once. *)
Theorem pool_never_overflows cap ops :
  let p := fold_left (λ p o, pool_step o p) ops (New cap) in
  0 < st_capacity (Stats p) ∧ Z.of_nat (st_cached (Stats p)) ≤ st_capacity (Stats p) ∧
  NoDup (lru p) ∧ (∀ k, k ∈ lru p ↔ is_Some (frames p !! k)).
Proof.
  intros p. assert (pool_inv p) as [? ? ? ?]; [|simpl; done].
  subst p. induction ops as [|o ops IH] using rev_ind; [apply New_inv|].
  rewrite fold_left_app. simpl. set (p := fold_left _ ops _) in *. destruct o; simpl.
  - by apply Register_inv.
  - by apply Unregister_inv.
  - by apply FetchPage_inv.
  - by apply UpdatePage_inv.
  - by apply EvictPage_inv.
Qed.

(** Fetches a list of pages; stops at the first error. *)
Fixpoint fetch_all (ks : list pageKey) : M Pool unit :=
  match ks with
  | [] => mret tt
  | k :: ks => _ ← FetchPage k.1 k.2; fetch_all ks
  end.

Lemma FetchPage_lru fid id p q p' r :
  pool_inv p → FetchPage fid id p = (Ok q, p') → NoDup r →
  lru p = take (Z.to_nat (capacity p)) r →
  pool_inv p' ∧ capacity p' = capacity p ∧
  lru p' = take (Z.to_nat (capacity p)) ((fid, id) :: lru_remove (fid, id) r).
Proof.
  intros Hi E Hr Hl. split; [pose proof (FetchPage_inv fid id p Hi) as H; by rewrite E in H|].
  pose proof (pi_cap _ Hi) as Hc. destruct (Z.to_nat (capacity p)) as [|n] eqn:Hn; [lia|].
  destruct (frames p !! (fid, id)) as [fr|] eqn:Hk.
  - rewrite (FetchPage_hit _ _ _ _ Hk) in E. injection E as _ <-. simpl. split; [done|]. f_equal.
    rewrite Hl. apply lru_remove_take_in; [done|]. rewrite <-Hl. apply (pi_lru _ Hi). eauto.
  - assert ((fid, id) ∉ take (S n) r) as Hnin.
    { rewrite <-Hl, (pi_lru _ Hi), Hk. by intros [? ?]. }
    destruct (files p !! fid) as [pg|] eqn:Hpg.
    2: { exfalso. revert E. unfold FetchPage. M_run. rewrite Hk. pose proof (FetchPage_files fid id p).
         unfold evictOne. case_decide; [destruct (last _)|]; unfold on_file; simpl; rewrite ?Hpg; done. }
    destruct (FetchPage_miss fid id p pg Hi Hk Hpg) as (p1 & _ & _ & Hc1 & _ & _ & Hl1 & HF).
    rewrite HF in E. destruct (ReadPage id pg) as [[] pg']; try discriminate. injection E as _ <-.
    simpl. split; [done|]. f_equal. rewrite Hl1, Hl, Hn, take_take.
    replace ((S n - 1) `min` S n)%nat with n by lia. symmetry. by apply lru_remove_take_notin.
Qed.

(** The pool is an LRU cache: after any sequence of successful fetches through
    an empty pool, the cached pages are the [capacity] most recently used
    distinct pages of the sequence, kept in order of recency. *)
Theorem FetchPage_caches_most_recent ks p p' :
  0 < capacity p → frames p = ∅ → lru p = [] → fetch_all ks p = (Ok tt, p') →
  lru p' = take (Z.to_nat (capacity p)) (recency ks) ∧
  ∀ k, is_Some (frames p' !! k) ↔ k ∈ take (Z.to_nat (capacity p)) (recency ks).
Proof.
  intros Hc Hfr Hlru E.
  assert (∀ ks r p, pool_inv p → NoDup r → lru p = take (Z.to_nat (capacity p)) r →
    fetch_all ks p = (Ok tt, p') →
    pool_inv p' ∧ lru p' = take (Z.to_nat (capacity p))
      (fold_left (λ r k, k :: lru_remove k r) ks r)) as H.
  { clear. intros ks. induction ks as [|[fid id] ks IH]; intros r p Hi Hr Hl; simpl; M_run.
    - intros [= <-]. done.
    - destruct (FetchPage fid id p) as [[q|e| |] p1] eqn:E; try done. intros E'.
      destruct (FetchPage_lru _ _ _ _ _ _ Hi E Hr Hl) as (Hi1 & Hc1 & Hl1). rewrite <-Hc1.
      apply IH; [done| |by rewrite Hc1|done].
      apply NoDup_cons. split; [rewrite elem_of_lru_remove; tauto|by apply lru_remove_NoDup]. }
  destruct (H ks [] p) as [Hi Hl]; [|constructor|by rewrite take_nil|done|].
  { split; rewrite ?Hlru, ?Hfr; [done|constructor| |rewrite map_size_empty; lia].
    intros k. rewrite lookup_empty, elem_of_nil, is_Some_alt. done. }
  split; [done|]. intros k. by rewrite <-(pi_lru _ Hi), Hl.
Qed.

(** The requests a client makes of a store, and what it observes of the answer. *)
Inductive store_op : Type := OpRead (id : Z) | OpWrite (q : Page) | OpAlloc | OpFree (id : Z).
Inductive answer : Type := AData (d : list byte) | AId (id : Z) | ADone | AError | ACrash.

Definition answer_of {A} (f : A → answer) (r : res A) : answer :=
  match r with Ok a => f a | Err _ => AError | _ => ACrash end.

Definition run_op {S} `{FullStore S} (o : store_op) (s : S) : answer * S :=
  match o with
  | OpRead id => let '(r, s) := ps_read id s in (answer_of (λ q, AData (Data q)) r, s)
  | OpWrite q => let '(r, s) := ps_write q s in (answer_of (λ _, ADone) r, s)
  | OpAlloc => let '(r, s) := ps_alloc s in (answer_of AId r, s)
  | OpFree id => let '(r, s) := fs_free id s in (answer_of (λ _, ADone) r, s)
  end.

Fixpoint run_ops {S} `{FullStore S} (os : list store_op) (s : S) : list answer :=
  match os with
  | [] => []
  | o :: os => let '(a, s) := run_op o s in a :: run_ops os s
  end.

(** A client writes only pages in use, never touches the meta page, does not
    free a page twice and stops allocating when the page count is exhausted. *)
Definition op_ok (pg : Pager) (o : store_op) : Prop :=
  match o with
  | OpRead id => 0 < id
  | OpWrite q => page_wf q ∧ 0 < PageID (Header q) < totalPages pg ∧ PageID (Header q) ∉ freeList pg
  | OpAlloc => 0 < pager_room pg
  | OpFree id => 0 < id ∧ id ∉ freeList pg
  end.

Fixpoint ops_ok (pg : Pager) (os : list store_op) : Prop :=
  match os with [] => True | o :: os => op_ok pg o ∧ ops_ok (run_op o pg).2 os end.

Lemma run_op_sim bp pg v o :
  buf_rep bp pg → pager_rep pg v → op_ok pg o →
  (run_op o bp).1 = (run_op o pg).1 ∧ buf_rep (run_op o bp).2 (run_op o pg).2 ∧
  ∃ v', pager_rep (run_op o pg).2 v'.
Proof.
  intros Hb Hrep Hok. destruct o as [id|q| |id]; simpl in *.
  - destruct (BufReadPage_sim bp pg v id Hb Hrep ltac:(lia) ltac:(lia)) as (bp' & Hb' & H1 & H2).
    destruct (decide (id < totalPages pg)) as [Hr|Hr].
    + destruct (H1 Hr) as (q & q' & -> & -> & _ & Hd). simpl. rewrite Hd. eauto.
    + destruct (H2 ltac:(lia)) as (e & -> & ->). simpl. eauto.
  - destruct Hok as (Hwf & Hr & Hnf).
    assert (is_Some (v !! PageID (Header q))) as Hin by (by eapply pager_view_in_use).
    destruct (BufWritePage_sim bp pg v q Hb Hrep Hwf Hin) as (bp' & pg' & E1 & E2 & Hb').
    destruct (WritePage_rep pg v q Hrep Hwf Hin) as (pg2 & E3 & Hrep' & _).
    rewrite E2 in E3. injection E3 as ->. rewrite E1, E2. simpl. eauto.
  - destruct (BufAllocatePage_sim bp pg v Hb Hrep Hok) as (id & bp' & pg' & E1 & E2 & Hb').
    destruct (AllocatePage_rep pg v Hrep Hok) as (id2 & pg2 & E3 & _ & Hrep' & _).
    rewrite E2 in E3. injection E3 as -> ->. rewrite E1, E2. simpl. eauto.
  - destruct Hok as [Hid Hnf].
    destruct (BufFreePage_sim bp pg v id Hb Hrep Hnf ltac:(lia)) as (r & bp' & pg' & E1 & E2 & Hb').
    assert (∃ v', pager_rep pg' v') as Hex.
    { replace pg' with (FreePage id pg).2 by (by rewrite E2). apply (FreePage_keeps pg id v Hrep Hnf). lia. }
    rewrite E1, E2. simpl. done.
Qed.

(** C18. The cache is transparent: a client of a [BufPager] receives exactly the
    answers the underlying pager would have given it, page contents, identifiers
    and errors alike, for every sequence of requests that keeps to the contract
    of the store ([ops_ok]): it writes well-formed pages that are in use, does
    not free a page that is free, leaves the meta page alone, and stops
    allocating when the 32-bit page count is used up. Reads and frees of pages
    that do not exist, and frees that find the free list full, are included.
    (The meta page is written past the pool, so a client that reads it can get a
    stale copy.) *)
Theorem BufPager_refines_Pager p fid pg v os :
  buf_rep (mkBufPager p fid) pg → pager_rep pg v → ops_ok pg os →
  run_ops os (mkBufPager p fid) = run_ops os pg.
Proof.
  generalize (mkBufPager p fid). clear p fid. revert pg v.
  induction os as [|o os IH]; [done|]. intros pg v bp Hb Hrep [Ho Hos]. simpl in *.
  destruct (run_op_sim bp pg v o Hb Hrep Ho) as (Ha & Hb' & v' & Hrep').
  destruct (run_op o bp) as [a bp'], (run_op o pg) as [a' pg']. simpl in *. subst a'.
  f_equal. by eapply IH.
Qed.

(** ** Concrete instances *)
Lemma Register_rep pg v cap :
  pager_rep pg v → buf_rep (mkBufPager (Register pg (New cap)).2 (Register pg (New cap)).1) pg.
Proof.
  intros _. split; [exact (Register_inv pg _ (New_inv cap))|apply lookup_insert_eq|].
  intros id q. simpl. rewrite lookup_empty. discriminate.
Qed.

(** The meta page is not for clients: the pager writes it past the pool, so a
    copy that was read through the pool goes stale. *)
Example meta_page_goes_stale :
  let os := [OpRead 0; OpAlloc; OpRead 0] in
  let total a := match a with Some (AData d) => get_u32 0 d | _ => 0 end in
  total (run_ops os (mkBufPager (Register pager0 (New 2)).2 0) !! 2%nat) = 1 ∧ total (run_ops os pager0 !! 2%nat) = 2.
Proof. split; vm_compute; reflexivity. Qed.

(** Fetching the only page of a database twice. *)
Lemma two_fetches : ∃ id pg p', fetch_all [(0, id); (0, id)] (Register pg (New 2)).2 = (Ok tt, p').
Proof.
  destruct pager1_rep as (id & pg & _ & Hrep & _).
  destruct (ReadPage_ok pg _ id _ Hrep (lookup_insert_eq _ _ _)) as (q & E & _).
  exists id, pg. set (p := (Register pg (New 2)).2).
  assert (pool_inv p) as Hi by exact (Register_inv pg _ (New_inv 2)).
  destruct (FetchPage_miss 0 id p pg Hi (lookup_empty _) (lookup_insert_eq _ _ _))
    as (p1 & _ & _ & _ & _ & _ & _ & H1).
  rewrite E in H1. unfold fetch_all. M_run. cbn [fst snd]. rewrite H1.
  erewrite FetchPage_hit by (simpl; apply lookup_insert_eq). eauto.
Qed.

Lemma FetchPage_caches_most_recent_witness :
  ∃ id pg p', fetch_all [(0, id); (0, id)] (Register pg (New 2)).2 = (Ok tt, p') ∧ lru p' = [(0, id)].
Proof.
  destruct two_fetches as (id & pg & p' & E). exists id, pg, p'. split; [exact E|].
  destruct (FetchPage_caches_most_recent [(0, id); (0, id)] (Register pg (New 2)).2 p'
    ltac:(vm_compute; reflexivity) eq_refl eq_refl E) as [Hl _].
  rewrite Hl. change (recency [(0, id); (0, id)]) with ((0, id) :: lru_remove (0, id) [(0, id)]).
  unfold lru_remove. by rewrite filter_cons_False by tauto.
Defined.

Lemma BufPager_refines_Pager_witness :
  let p := (Register pager0 (New 1)).2 in
  run_ops [OpAlloc; OpRead 1; OpRead 7; OpRead 1] (mkBufPager p 0) =
  run_ops [OpAlloc; OpRead 1; OpRead 7; OpRead 1] pager0.
Proof.
  intros p. apply (BufPager_refines_Pager p 0 pager0 ∅).
  - exact (Register_rep pager0 ∅ 1 pager0_rep).
  - exact pager0_rep.
  - split; [exact pager0_room|repeat split; reflexivity].
Defined.
