(* ===== verification/Node.v ===== *)
(** * Node: B+ tree nodes and their page layout ([src/btree/node.go])

    Entries, leaf and internal nodes, their encoding into the data area of a
    page, and the two binary searches.  Decoding trusts the entry count stored
    in the page: a count that runs past the data area is a slice out of range,
    hence [Panic]. *)
From S2P Require Import Prelude Storage.
From stdpp Require Import options.

Definition ValueSize : nat := Z.to_nat 256.
Definition nodeHeaderSize : nat := 8.
Definition InternalOrder : nat := Z.to_nat 338.
Definition leafEntrySize : nat := 8 + ValueSize.
Definition LeafOrder : nat := (Z.to_nat 4072 - nodeHeaderSize) / leafEntrySize.

Definition NodeTypeInternal : Z := 0.
Definition NodeTypeLeaf : Z := 1.

Record Entry : Type := mkEntry { Key : Z; Value : list byte }.
Record LeafNode : Type := mkLeaf { lf_PageID : Z; Entries : list Entry; NextLeaf : Z }.
Record InternalNode : Type := mkInternal { in_PageID : Z; Keys : list Z; Children : list Z }.

#[export] Instance Entry_eq_dec : EqDecision Entry.
Proof. solve_decision. Defined.

(** The entry loop of [EncodeLeaf]: writes the entries from [off] on. *)
Fixpoint put_entries (es : list Entry) (off : nat) (d : list byte) : nat * list byte :=
  match es with
  | [] => (off, d)
  | e :: es =>
      put_entries es (off + leafEntrySize) (put (off + 8) (Value e) (put_u64 off (Key e) d))
  end.

(** [h] with its [FreeSpaceOffset] replaced. *)
Definition set_offset (off : Z) (h : PageHeader) : PageHeader :=
  mkPageHeader (PageID h) (PageType h) (Flags h) off (NumCells h) (Checksum h) (LSN h).

Definition EncodeLeaf (n : LeafNode) : res Page :=
  if decide (LeafOrder < length (Entries n))%nat then
    Err (Errorf "leaf %d: %d entries exceeds LeafOrder %d"
      [GInt (lf_PageID n); GInt (Z.of_nat (length (Entries n))); GInt (Z.of_nat LeafOrder)])
  else
    let p := NewPage (lf_PageID n) PageTypeData in
    let d := put_u8 0 NodeTypeLeaf (Data p) in
    let d := put_u8 1 0 d in
    let d := put_u16 2 (u16 (Z.of_nat (length (Entries n)))) d in
    let d := put_u32 4 (NextLeaf n) d in
    let '(off, d) := put_entries (Entries n) nodeHeaderSize d in
    Ok (mkPage (set_offset (u16 (Z.of_nat off)) (Header p)) d).

(** The entry loop of [DecodeLeaf]: [n] more entries from [off] on. *)
Fixpoint get_entries (n off : nat) (d : list byte) : res (list Entry) :=
  match n with
  | O => Ok []
  | S n =>
      k ← slice_chk off 8 d;
      val ← slice_chk (off + 8) ValueSize d;
      es ← get_entries n (off + leafEntrySize) d;
      Ok (mkEntry (le_dec k) val :: es)
  end.

Definition DecodeLeaf (p : Page) : res LeafNode :=
  let d := Data p in
  if decide (get_u8 0 d ≠ NodeTypeLeaf) then
    Err (Errorf "page %d: expected leaf (1), got node type %d" [GInt (PageID (Header p)); GInt (get_u8 0 d)])
  else
    es ← get_entries (Z.to_nat (get_u16 2 d)) nodeHeaderSize d;
    Ok (mkLeaf (PageID (Header p)) es (get_u32 4 d)).

(** The key loop and the child loop of [EncodeInternal]. *)
Fixpoint put_keys (ks : list Z) (off : nat) (d : list byte) : nat * list byte :=
  match ks with
  | [] => (off, d)
  | k :: ks => put_keys ks (off + 8) (put_u64 off k d)
  end.
Fixpoint put_children (cs : list Z) (off : nat) (d : list byte) : nat * list byte :=
  match cs with
  | [] => (off, d)
  | c :: cs => put_children cs (off + 4) (put_u32 off c d)
  end.

Definition EncodeInternal (n : InternalNode) : res Page :=
  if decide (InternalOrder < length (Keys n))%nat then
    Err (Errorf "internal %d: %d keys exceeds InternalOrder %d"
      [GInt (in_PageID n); GInt (Z.of_nat (length (Keys n))); GInt (Z.of_nat InternalOrder)])
  else if decide (length (Children n) ≠ (length (Keys n) + 1)%nat) then
    Err (Errorf "internal %d: %d keys but %d children (want %d)"
      [GInt (in_PageID n); GInt (Z.of_nat (length (Keys n)));
       GInt (Z.of_nat (length (Children n))); GInt (Z.of_nat (length (Keys n)) + 1)])
  else
    let p := NewPage (in_PageID n) PageTypeData in
    let d := put_u8 0 NodeTypeInternal (Data p) in
    let d := put_u8 1 0 d in
    let d := put_u16 2 (u16 (Z.of_nat (length (Keys n)))) d in
    let d := put_u32 4 0 d in
    let '(off, d) := put_keys (Keys n) nodeHeaderSize d in
    let '(off, d) := put_children (Children n) off d in
    Ok (mkPage (set_offset (u16 (Z.of_nat off)) (Header p)) d).

(** The loops of [DecodeInternal]: [n] integers of [w] bytes from [off] on. *)
Fixpoint get_uints (w n off : nat) (d : list byte) : res (list Z) :=
  match n with
  | O => Ok []
  | S n =>
      raw ← slice_chk off w d;
      zs ← get_uints w n (off + w) d;
      Ok (le_dec raw :: zs)
  end.

Definition DecodeInternal (p : Page) : res InternalNode :=
  let d := Data p in
  if decide (get_u8 0 d ≠ NodeTypeInternal) then
    Err (Errorf "page %d: expected internal (0), got node type %d" [GInt (PageID (Header p)); GInt (get_u8 0 d)])
  else
    let nKeys := Z.to_nat (get_u16 2 d) in
    ks ← get_uints 8 nKeys nodeHeaderSize d;
    cs ← get_uints 4 (nKeys + 1) (nodeHeaderSize + 8 * nKeys) d;
    Ok (mkInternal (PageID (Header p)) ks cs).

Definition PageNodeType (p : Page) : Z := get_u8 0 (Data p).

(** The loop of [FindChildIndex] on the window [lo, hi). *)
Fixpoint find_child (fuel lo hi : nat) (keys : list Z) (key : Z) : res nat :=
  if decide (lo < hi)%nat then
    match fuel with
    | O => OutOfFuel
    | S fuel =>
        let mid := ((lo + hi) / 2)%nat in
        match keys !! mid with
        | None => Panic
        | Some k => if decide (key < k) then find_child fuel lo mid keys key
                    else find_child fuel (mid + 1) hi keys key
        end
    end
  else Ok lo.

Definition FindChildIndex (keys : list Z) (key : Z) : res nat :=
  find_child (length keys) 0 (length keys) keys key.

(** The loop of [LeafSearchKey] on the window [lo, hi). *)
Fixpoint leaf_search (fuel lo hi : nat) (es : list Entry) (key : Z) : res (nat * bool) :=
  if decide (lo < hi)%nat then
    match fuel with
    | O => OutOfFuel
    | S fuel =>
        let mid := ((lo + hi) / 2)%nat in
        match es !! mid with
        | None => Panic
        | Some e => if decide (Key e = key) then Ok (mid, true)
                    else if decide (Key e < key) then leaf_search fuel (mid + 1) hi es key
                    else leaf_search fuel lo mid es key
        end
    end
  else Ok (lo, false).

Definition LeafSearchKey (es : list Entry) (key : Z) : res (nat * bool) :=
  leaf_search (length es) 0 (length es) es key.

(** ** Sizes *)
Lemma ValueSize_val : Z.of_nat ValueSize = 256.
Proof. reflexivity. Qed.
Lemma InternalOrder_val : Z.of_nat InternalOrder = 338.
Proof. reflexivity. Qed.
Lemma LeafOrder_val : LeafOrder = 15%nat.
Proof. vm_compute. reflexivity. Qed.
#[global] Opaque ValueSize InternalOrder LeafOrder.

Ltac node_consts :=
  pose proof ValueSize_val; pose proof InternalOrder_val; pose proof LeafOrder_val;
  pose proof DataSize_val; unfold leafEntrySize, nodeHeaderSize in *.
Ltac node_lia := node_consts; lia.

(** ** Node layout *)

Definition entry_wf (e : Entry) : Prop := is_u64 (Key e) ∧ length (Value e) = ValueSize.

Record leaf_wf (n : LeafNode) : Prop := {
  lw_id : is_u32 (lf_PageID n);
  lw_entries : Forall entry_wf (Entries n);
  lw_order : (length (Entries n) ≤ LeafOrder)%nat;
  lw_next : is_u32 (NextLeaf n)
}.

Record internal_wf (n : InternalNode) : Prop := {
  iw_id : is_u32 (in_PageID n);
  iw_keys : Forall (λ k, is_u64 k) (Keys n);
  iw_children : Forall (λ c, is_u32 c) (Children n);
  iw_order : (length (Keys n) ≤ InternalOrder)%nat;
  iw_len : length (Children n) = (length (Keys n) + 1)%nat
}.

Definition entry_bytes (e : Entry) : list byte := le_enc 8 (Key e) ++ Value e.

Definition node_header (type count next : Z) : list byte :=
  le_enc 1 type ++ le_enc 1 0 ++ le_enc 2 count ++ le_enc 4 next.

Definition leaf_data (n : LeafNode) : list byte :=
  node_header NodeTypeLeaf (Z.of_nat (length (Entries n))) (NextLeaf n)
  ++ concat (entry_bytes <$> Entries n)
  ++ zeros (DataSize - 8 - leafEntrySize * length (Entries n)).

Definition internal_data (n : InternalNode) : list byte :=
  node_header NodeTypeInternal (Z.of_nat (length (Keys n))) 0
  ++ concat (le_enc 8 <$> Keys n) ++ concat (le_enc 4 <$> Children n)
  ++ zeros (DataSize - 8 - 8 * length (Keys n) - 4 * length (Children n)).

Lemma length_concat_entries es :
  Forall entry_wf es → length (concat (entry_bytes <$> es)) = (leafEntrySize * length es)%nat.
Proof.
  induction 1 as [|e es [_ He] _ IH]; cbn [fmap list_fmap concat length]; [lia|].
  rewrite length_app, IH. unfold entry_bytes. rewrite length_app, length_le_enc, He. node_lia.
Qed.

Lemma length_concat_le_enc w (zs : list Z) : length (concat (le_enc w <$> zs)) = (w * length zs)%nat.
Proof.
  induction zs as [|z zs IH]; cbn [fmap list_fmap concat length]; [lia|].
  rewrite length_app, length_le_enc, IH. lia.
Qed.

Lemma length_node_header t c n : length (node_header t c n) = 8%nat.
Proof. unfold node_header. by rewrite !length_app, !length_le_enc. Qed.

Lemma length_leaf_data n : leaf_wf n → length (leaf_data n) = DataSize.
Proof.
  intros [_ He Ho _]. unfold leaf_data.
  rewrite !length_app, length_node_header, length_concat_entries, length_zeros by done. node_lia.
Qed.

Lemma length_internal_data n : internal_wf n → length (internal_data n) = DataSize.
Proof.
  intros [_ _ _ Ho Hl]. unfold internal_data.
  rewrite !length_app, length_node_header, !length_concat_le_enc, length_zeros. node_lia.
Qed.

(** The header fields, written one after the other into a zeroed page. *)
Lemma put_node_header t c n m :
  (8 ≤ m)%nat →
  put_u32 4 n (put_u16 2 c (put_u8 1 0 (put_u8 0 t (zeros m)))) = node_header t c n ++ zeros (m - 8).
Proof.
  intros Hm. unfold put_u32, put_u16, put_u8.
  rewrite put_zeros_0, !put_zeros_app by arr_len. unfold node_header. rewrite <-!app_assoc, !length_le_enc.
  do 5 f_equal. lia.
Qed.

Lemma put_entries_ok es pre m :
  Forall entry_wf es → (leafEntrySize * length es ≤ m)%nat →
  put_entries es (length pre) (pre ++ zeros m) =
    ((length pre + leafEntrySize * length es)%nat,
     pre ++ concat (entry_bytes <$> es) ++ zeros (m - leafEntrySize * length es)).
Proof.
  intros He. revert pre m. induction He as [|e es [_ Hv] He IH]; intros pre m Hm; cbn [put_entries length].
  { cbn. f_equal; [lia|]. do 2 f_equal. lia. }
  unfold put_u64. rewrite put_zeros_app by (rewrite ?length_le_enc; simpl in Hm; node_lia).
  rewrite put_zeros_app by (rewrite ?length_app, ?length_le_enc; simpl in Hm; node_lia).
  replace (length pre + leafEntrySize)%nat with (length ((pre ++ le_enc 8 (Key e)) ++ Value e)).
  2: { rewrite !length_app, length_le_enc. node_lia. }
  rewrite IH by (rewrite length_le_enc; simpl in Hm; node_lia).
  cbn [fmap list_fmap concat]. f_equal.
  - rewrite !length_app, length_le_enc. node_lia.
  - unfold entry_bytes. rewrite <-!app_assoc, length_le_enc. do 5 f_equal. node_lia.
Qed.

Lemma get_entries_ok es pre post :
  Forall entry_wf es →
  get_entries (length es) (length pre) (pre ++ concat (entry_bytes <$> es) ++ post) = Ok es.
Proof.
  intros He. revert pre. induction He as [|e es [Hk Hv] He IH]; intros pre; [done|].
  cbn [get_entries length fmap list_fmap concat]. change (entry_bytes e) with (le_enc 8 (Key e) ++ Value e). rewrite <-!app_assoc.
  rewrite !slice_chk_ok by (rewrite !length_app, !length_le_enc; lia).
  rewrite (slice_app_mid (length pre)) by (rewrite ?length_le_enc; done).
  rewrite (app_assoc pre), (slice_app_mid (length pre + 8)) by (rewrite ?length_app, ?length_le_enc; done).
  rewrite app_assoc.
  replace (length pre + leafEntrySize)%nat with (length ((pre ++ le_enc 8 (Key e)) ++ Value e)).
  2: { rewrite !length_app, length_le_enc. node_lia. }
  rewrite IH. unfold mbind, res_bind. rewrite le_dec_enc_small by done. by destruct e.
Qed.

(** The page [EncodeLeaf] makes of a well-formed leaf. *)
Definition leaf_page (n : LeafNode) : Page :=
  mkPage (set_offset (Z.of_nat (nodeHeaderSize + leafEntrySize * length (Entries n)))
            (Header (NewPage (lf_PageID n) PageTypeData))) (leaf_data n).

Lemma EncodeLeaf_ok n : leaf_wf n → EncodeLeaf n = Ok (leaf_page n).
Proof.
  intros [Hid He Ho Hnx]. unfold EncodeLeaf. rewrite decide_False by lia. cbv zeta.
  assert (length (Entries n) ≤ 15)%nat as Hl by node_lia.
  assert (u16 (Z.of_nat (length (Entries n))) = Z.of_nat (length (Entries n))) as ->.
  { apply Z.mod_small. lia. }
  change (Data (NewPage (lf_PageID n) PageTypeData)) with (zeros DataSize).
  rewrite put_node_header by node_lia.
  change nodeHeaderSize with (length (node_header NodeTypeLeaf (Z.of_nat (length (Entries n))) (NextLeaf n))) at 1.
  rewrite put_entries_ok by (done || node_lia). unfold leaf_page, leaf_data. do 4 f_equal.
  rewrite length_node_header. apply Z.mod_small. node_lia.
Qed.

Lemma leaf_page_wf n : leaf_wf n → page_wf (leaf_page n).
Proof.
  intros Hn. pose proof (length_leaf_data n Hn). destruct Hn as [Hid He Ho Hnx].
  split; first [done | simpl; lia | simpl; node_lia].
Qed.

Lemma node_header_fields t c nx post :
  is_u8 t → is_u16 c → is_u32 nx →
  get_u8 0 (node_header t c nx ++ post) = t ∧ get_u16 2 (node_header t c nx ++ post) = c ∧
  get_u32 4 (node_header t c nx ++ post) = nx.
Proof.
  intros. unfold get_u8, get_u16, get_u32, node_header. split_and!.
  - rewrite <-app_assoc. unfold slice. rewrite drop_0, take_app_length' by (by rewrite length_le_enc).
    by apply le_dec_enc_small.
  - rewrite <-!app_assoc, (app_assoc (le_enc 1 t)), (slice_app_mid 2 2)
      by (rewrite ?length_app, ?length_le_enc; done). by apply le_dec_enc_small.
  - rewrite <-!app_assoc, (app_assoc (le_enc 1 t)), (app_assoc _ (le_enc 2 c)), (slice_app_mid 4 4)
      by (rewrite ?length_app, ?length_le_enc; done). by apply le_dec_enc_small.
Qed.

Lemma leaf_data_type n : leaf_wf n → get_u8 0 (leaf_data n) = NodeTypeLeaf.
Proof.
  intros [Hid He Ho Hnx]. unfold leaf_data. apply node_header_fields; unfold NodeTypeLeaf; node_lia.
Qed.

Lemma DecodeLeaf_ok n p :
  leaf_wf n → PageID (Header p) = lf_PageID n → Data p = leaf_data n → DecodeLeaf p = Ok n.
Proof.
  intros Hn Hid Hd. unfold DecodeLeaf. rewrite Hd. rewrite leaf_data_type by done.
  rewrite decide_False by tauto. destruct Hn as [Hi He Ho Hnx].
  destruct (node_header_fields NodeTypeLeaf (Z.of_nat (length (Entries n))) (NextLeaf n)
    (concat (entry_bytes <$> Entries n) ++ zeros (DataSize - 8 - leafEntrySize * length (Entries n))))
    as (_ & H2 & H3); [unfold NodeTypeLeaf; lia|node_lia|done|].
  fold (leaf_data n) in H2, H3. rewrite H2, H3, Nat2Z.id, Hid. unfold leaf_data.
  rewrite (get_entries_ok (Entries n) (node_header _ _ _)) by done. by destruct n.
Qed.

Lemma put_keys_ok ks pre m :
  (8 * length ks ≤ m)%nat →
  put_keys ks (length pre) (pre ++ zeros m) =
    ((length pre + 8 * length ks)%nat, pre ++ concat (le_enc 8 <$> ks) ++ zeros (m - 8 * length ks)).
Proof.
  revert pre m. induction ks as [|k ks IH]; intros pre m Hm; cbn [put_keys length].
  { cbn. f_equal; [lia|]. do 2 f_equal. lia. }
  simpl in Hm. unfold put_u64. rewrite put_zeros_app by (rewrite ?length_le_enc; lia).
  replace (length pre + 8)%nat with (length (pre ++ le_enc 8 k)) by (by rewrite length_app, length_le_enc).
  rewrite IH by (rewrite length_le_enc; lia). cbn [fmap list_fmap concat]. f_equal.
  - rewrite length_app, length_le_enc. lia.
  - rewrite <-!app_assoc, length_le_enc. do 4 f_equal. lia.
Qed.

Lemma put_children_ok cs pre m :
  (4 * length cs ≤ m)%nat →
  put_children cs (length pre) (pre ++ zeros m) =
    ((length pre + 4 * length cs)%nat, pre ++ concat (le_enc 4 <$> cs) ++ zeros (m - 4 * length cs)).
Proof.
  revert pre m. induction cs as [|k cs IH]; intros pre m Hm; cbn [put_children length].
  { cbn. f_equal; [lia|]. do 2 f_equal. lia. }
  simpl in Hm. unfold put_u32. rewrite put_zeros_app by (rewrite ?length_le_enc; lia).
  replace (length pre + 4)%nat with (length (pre ++ le_enc 4 k)) by (by rewrite length_app, length_le_enc).
  rewrite IH by (rewrite length_le_enc; lia). cbn [fmap list_fmap concat]. f_equal.
  - rewrite length_app, length_le_enc. lia.
  - rewrite <-!app_assoc, length_le_enc. do 4 f_equal. lia.
Qed.

Lemma get_uints_ok w (zs : list Z) pre post :
  Forall (λ z, 0 ≤ z < 2 ^ (8 * Z.of_nat w)) zs →
  get_uints w (length zs) (length pre) (pre ++ concat (le_enc w <$> zs) ++ post) = Ok zs.
Proof.
  intros Hz. revert pre. induction Hz as [|z zs Hz Hzs IH]; intros pre; [done|].
  cbn [get_uints length fmap list_fmap concat]. rewrite <-!app_assoc.
  rewrite slice_chk_ok by (rewrite !length_app, !length_le_enc; lia).
  rewrite (slice_app_mid (length pre)) by (rewrite ?length_le_enc; done).
  rewrite app_assoc.
  replace (length pre + w)%nat with (length (pre ++ le_enc w z)) by (by rewrite length_app, length_le_enc).
  rewrite IH. unfold mbind, res_bind. by rewrite le_dec_enc_small.
Qed.

Definition internal_page (n : InternalNode) : Page :=
  mkPage (set_offset (Z.of_nat (nodeHeaderSize + 8 * length (Keys n) + 4 * length (Children n)))
            (Header (NewPage (in_PageID n) PageTypeData))) (internal_data n).

Lemma EncodeInternal_ok n : internal_wf n → EncodeInternal n = Ok (internal_page n).
Proof.
  intros [Hid Hk Hc Ho Hl]. unfold EncodeInternal. rewrite decide_False by lia.
  rewrite decide_False by tauto. cbv zeta.
  assert (u16 (Z.of_nat (length (Keys n))) = Z.of_nat (length (Keys n))) as ->.
  { apply Z.mod_small. node_lia. }
  change (Data (NewPage (in_PageID n) PageTypeData)) with (zeros DataSize).
  rewrite put_node_header by node_lia.
  change nodeHeaderSize with (length (node_header NodeTypeInternal (Z.of_nat (length (Keys n))) 0)) at 1.
  rewrite put_keys_ok by node_lia.
  set (h := node_header NodeTypeInternal (Z.of_nat (length (Keys n))) 0).
  replace (length h + 8 * length (Keys n))%nat with (length (h ++ concat (le_enc 8 <$> Keys n)))
    by (by rewrite length_app, length_concat_le_enc).
  rewrite app_assoc. rewrite put_children_ok by (node_consts; lia).
  unfold internal_page, internal_data. rewrite <-!app_assoc. do 3 f_equal.
  - unfold set_offset. f_equal. rewrite length_app, length_concat_le_enc.
    replace (length h) with 8%nat by (by unfold h; rewrite length_node_header).
    apply Z.mod_small. node_lia.
Qed.

Lemma internal_page_wf n : internal_wf n → page_wf (internal_page n).
Proof.
  intros Hn. pose proof (length_internal_data n Hn). destruct Hn as [Hid Hk Hc Ho Hl].
  split; first [done | simpl; lia | simpl; node_lia].
Qed.

Lemma internal_data_type n : internal_wf n → get_u8 0 (internal_data n) = NodeTypeInternal.
Proof.
  intros [Hid Hk Hc Ho Hl]. unfold internal_data. apply node_header_fields; unfold NodeTypeInternal; node_lia.
Qed.

Lemma DecodeInternal_ok n p :
  internal_wf n → PageID (Header p) = in_PageID n → Data p = internal_data n → DecodeInternal p = Ok n.
Proof.
  intros Hn Hid Hd. unfold DecodeInternal. rewrite Hd. rewrite internal_data_type by done.
  rewrite decide_False by tauto. destruct Hn as [Hi Hk Hc Ho Hl].
  destruct (node_header_fields NodeTypeInternal (Z.of_nat (length (Keys n))) 0
    (concat (le_enc 8 <$> Keys n) ++ concat (le_enc 4 <$> Children n)
      ++ zeros (DataSize - 8 - 8 * length (Keys n) - 4 * length (Children n))))
    as (_ & H2 & _); [unfold NodeTypeInternal; lia|node_lia|done|].
  fold (internal_data n) in H2. rewrite H2, Nat2Z.id, Hid. unfold internal_data.
  rewrite (get_uints_ok 8 (Keys n) (node_header _ _ _)) by done.
  rewrite (app_assoc (node_header _ _ _)).
  replace (nodeHeaderSize + 8 * length (Keys n))%nat
    with (length (node_header NodeTypeInternal (Z.of_nat (length (Keys n))) 0 ++ concat (le_enc 8 <$> Keys n)))
    by (by rewrite length_app, length_concat_le_enc, length_node_header).
  rewrite <-Hl, get_uints_ok by done. by destruct n.
Qed.

(** ** The binary searches *)

Lemma find_child_ok fuel lo hi ks key :
  StronglySorted Z.lt ks → (hi ≤ length ks)%nat → (lo ≤ hi)%nat → (hi - lo ≤ fuel)%nat →
  (∀ j k, ks !! j = Some k → (j < lo)%nat → k ≤ key) →
  (∀ j k, ks !! j = Some k → (hi ≤ j)%nat → key < k) →
  ∃ i, find_child fuel lo hi ks key = Ok i ∧ (i ≤ length ks)%nat ∧
    ∀ j k, ks !! j = Some k → (j < i)%nat ↔ k ≤ key.
Proof.
  intros Hs. revert lo hi. induction fuel as [|fuel IH]; intros lo hi Hhi Hle Hf Hlo Hup;
    (destruct (decide (lo < hi)%nat) as [Hlt|Hge]; [try lia|]).
  1,3: exists lo; cbn [find_child]; rewrite decide_False by done; split; [done|]; split; [lia|];
       intros j k Hj; split; [intros; eapply Hlo; eauto; lia|];
       intros Hk; destruct (decide (lo ≤ j)%nat); [|lia];
       assert (key < k) by (eapply Hup; eauto; lia); lia.
  assert (lo ≤ (lo + hi) / 2 < hi)%nat as Hmid.
  { split; [apply Nat.div_le_lower_bound|apply Nat.Div0.div_lt_upper_bound]; lia. }
  destruct (lookup_lt_is_Some_2 ks ((lo + hi) / 2)) as [m Hm]; [lia|].
  cbn [find_child]. rewrite decide_True by done. cbv zeta. rewrite Hm.
  case_decide as Hc.
  - apply IH; [lia..|done|]. intros j k Hj Hge. destruct (decide (j = (lo + hi) / 2)%nat) as [->|].
    + congruence.
    + assert (m < k); [|lia]. eapply (StronglySorted_lookup_lt Z.lt ks); eauto. lia.
  - apply IH; [lia..| |done]. intros j k Hj Hlt'. destruct (decide (j = (lo + hi) / 2)%nat) as [->|].
    + simplify_eq. lia.
    + assert (k < m); [|lia]. eapply (StronglySorted_lookup_lt Z.lt ks); eauto. lia.
Qed.

Lemma FindChildIndex_ok ks key :
  StronglySorted Z.lt ks →
  ∃ i, FindChildIndex ks key = Ok i ∧ (i ≤ length ks)%nat ∧
    ∀ j k, ks !! j = Some k → (j < i)%nat ↔ k ≤ key.
Proof.
  intros Hs. apply find_child_ok; [done|lia..|]. intros j k Hj Hge.
  apply lookup_lt_Some in Hj. lia.
Qed.

Lemma leaf_search_ok fuel lo hi es key :
  StronglySorted Z.lt (Key <$> es) → (hi ≤ length es)%nat → (lo ≤ hi)%nat → (hi - lo ≤ fuel)%nat →
  (∀ j e, es !! j = Some e → (j < lo)%nat → Key e < key) →
  (∀ j e, es !! j = Some e → (hi ≤ j)%nat → key < Key e) →
  (∃ i e, leaf_search fuel lo hi es key = Ok (i, true) ∧ es !! i = Some e ∧ Key e = key) ∨
  (∃ i, leaf_search fuel lo hi es key = Ok (i, false) ∧ (i ≤ length es)%nat ∧
    ∀ j e, es !! j = Some e → Key e ≠ key ∧ ((j < i)%nat ↔ Key e < key)).
Proof.
  intros Hs. revert lo hi. induction fuel as [|fuel IH]; intros lo hi Hhi Hle Hf Hlo Hup;
    (destruct (decide (lo < hi)%nat) as [Hlt|Hge]; [try lia|]).
  1,3: right; exists lo; cbn [leaf_search]; rewrite decide_False by done;
       split; [done|]; split; [lia|]; intros j e Hj;
       destruct (decide (j < lo)%nat) as [Hj'|Hj'];
       [pose proof (Hlo j e Hj Hj'); lia|pose proof (Hup j e Hj ltac:(lia)); lia].
  assert (lo ≤ (lo + hi) / 2 < hi)%nat as Hmid.
  { split; [apply Nat.div_le_lower_bound|apply Nat.Div0.div_lt_upper_bound]; lia. }
  destruct (lookup_lt_is_Some_2 es ((lo + hi) / 2)) as [m Hm]; [lia|].
  assert (∀ j e j' e', es !! j = Some e → es !! j' = Some e' → (j < j')%nat → Key e < Key e') as Hlk.
  { intros j e j' e' Hj Hj' ?.
    eapply (StronglySorted_lookup_lt Z.lt (Key <$> es) j j'); rewrite ?list_lookup_fmap, ?Hj, ?Hj'; done. }
  cbn [leaf_search]. rewrite decide_True by done. cbv zeta. rewrite Hm.
  case_decide as He; [left; eauto|]. case_decide as Hc.
  - apply IH; [lia..| |done]. intros j e Hj Hlt'. destruct (decide (j = (lo + hi) / 2)%nat) as [->|].
    + by simplify_eq.
    + pose proof (Hlk _ _ _ _ Hj Hm). lia.
  - apply IH; [lia..|done|]. intros j e Hj Hge. destruct (decide (j = (lo + hi) / 2)%nat) as [->|].
    + simplify_eq. lia.
    + pose proof (Hlk _ _ _ _ Hm Hj). lia.
Qed.

Lemma LeafSearchKey_ok es key :
  StronglySorted Z.lt (Key <$> es) →
  (∃ i e, LeafSearchKey es key = Ok (i, true) ∧ es !! i = Some e ∧ Key e = key) ∨
  (∃ i, LeafSearchKey es key = Ok (i, false) ∧ (i ≤ length es)%nat ∧
    ∀ j e, es !! j = Some e → Key e ≠ key ∧ ((j < i)%nat ↔ Key e < key)).
Proof.
  intros Hs. apply leaf_search_ok; [done|lia..|]. intros j e Hj Hge. apply lookup_lt_Some in Hj. lia.
Qed.

(** ** Properties *)

(** The page form of a node loses nothing: a well-formed leaf or internal node
    encodes without error into a well-formed page of the right type, and
    decoding any page with that identifier and data gives the node back. *)
Theorem node_roundtrip l n :
  leaf_wf l → internal_wf n →
  (∃ p, EncodeLeaf l = Ok p ∧ page_wf p ∧ PageNodeType p = NodeTypeLeaf ∧ DecodeLeaf p = Ok l) ∧
  (∃ p, EncodeInternal n = Ok p ∧ page_wf p ∧ PageNodeType p = NodeTypeInternal ∧
     DecodeInternal p = Ok n).
Proof.
  intros Hl Hn. split.
  - exists (leaf_page l). split_and!; [by apply EncodeLeaf_ok|by apply leaf_page_wf| |].
    + by apply leaf_data_type.
    + by apply DecodeLeaf_ok.
  - exists (internal_page n). split_and!; [by apply EncodeInternal_ok|by apply internal_page_wf| |].
    + by apply internal_data_type.
    + by apply DecodeInternal_ok.
Qed.

(** Both binary searches terminate without a panic and agree with the linear
    search they replace: [FindChildIndex] counts the keys not greater than the
    one sought, [LeafSearchKey] finds the key when it is present and otherwise
    the number of smaller keys. *)
Theorem binary_searches_correct ks es key :
  StronglySorted Z.lt ks → StronglySorted Z.lt (Key <$> es) →
  FindChildIndex ks key = Ok (length (filter (λ k, k ≤ key) ks)) ∧
  match LeafSearchKey es key with
  | Ok (i, true) => ∃ v, es !! i = Some (mkEntry key v)
  | Ok (i, false) => key ∉ Key <$> es ∧ i = length (filter (λ e, Key e < key) es)
  | _ => False
  end.
Proof.
  assert (∀ {A} (P : A → Prop) `{∀ x, Decision (P x)} (l : list A) i,
    (i ≤ length l)%nat → (∀ j a, l !! j = Some a → (j < i)%nat ↔ P a) → length (filter P l) = i) as Hcount.
  { intros A P ? l. induction l as [|a l IH]; intros i Hi Hl; simpl in Hi.
    - simpl. lia.
    - destruct i as [|i].
      + rewrite filter_cons_False by (intros Ha; apply (Hl 0%nat a eq_refl) in Ha; lia).
        apply (IH 0%nat); [lia|]. intros j b Hj. rewrite <-(Hl (S j) b Hj). lia.
      + rewrite filter_cons_True by (apply (Hl 0%nat a eq_refl); lia). simpl. f_equal.
        apply IH; [lia|]. intros j b Hj. rewrite <-(Hl (S j) b Hj). lia. }
  intros Hks Hes. split.
  - destruct (FindChildIndex_ok ks key Hks) as (i & -> & Hi & Hp). f_equal. symmetry. by apply Hcount.
  - destruct (LeafSearchKey_ok es key Hes) as [(i & [k v] & -> & He & <-)|(i & -> & Hi & Hp)]; [eauto|].
    split.
    + intros (e & -> & [j Hj]%list_elem_of_lookup_1)%list_elem_of_fmap. by destruct (Hp j e Hj).
    + symmetry. apply Hcount; [done|]. intros j e Hj. apply (Hp j e Hj).
Qed.

Lemma node_roundtrip_witness :
  ∃ p, EncodeLeaf (mkLeaf 2 [mkEntry 7 (zeros ValueSize)] 3) = Ok p ∧
    DecodeLeaf p = Ok (mkLeaf 2 [mkEntry 7 (zeros ValueSize)] 3).
Proof.
  destruct (node_roundtrip (mkLeaf 2 [mkEntry 7 (zeros ValueSize)] 3) (mkInternal 4 [7] [2; 3]))
    as [(p & E & _ & _ & D) _].
  - split; [simpl; lia| |simpl; node_lia|simpl; lia].
    apply Forall_singleton. split; [simpl; lia|apply length_zeros].
  - split; [simpl; lia|apply Forall_singleton; lia|repeat constructor; lia|simpl; node_lia|done].
  - eauto.
Defined.

Lemma binary_searches_correct_witness :
  FindChildIndex [10; 20; 30] 25 = Ok 2%nat ∧ LeafSearchKey [mkEntry 10 []; mkEntry 20 []] 20 = Ok (1%nat, true).
Proof.
  destruct (binary_searches_correct [10; 20; 30] [mkEntry 10 []; mkEntry 20 []] 25) as [H _].
  - repeat constructor.
  - repeat constructor.
  - split; [exact H|reflexivity].
Defined.
