(* ===== verification/BTree.v ===== *)
(** * BTree: the B+ tree ([src/btree/btree.go])

    The tree is written against [PageStore]; its proofs use only the
    [PageStoreSpec] interface.  [mkBTree] holds the store ([pg]), the header
    page and the root.  Recursion over the levels of the tree, and the walk
    along the leaf chain, take fuel; the theorems show that more fuel than the
    store has pages is enough. *)
From S2P Require Import Prelude Storage Store Node.
From stdpp Require Import options.

Definition headerMagic : Z := 0xB7EE0001.

Record BTree (S : Type) : Type := mkBTree { pg : S; headerPage : Z; rootID : Z }.
Arguments mkBTree {S} _ _ _. Arguments pg {S} _. Arguments headerPage {S} _. Arguments rootID {S} _.

Record splitResult : Type := mkSplit { separatorKey : Z; rightChildID : Z }.

(** The shift loop [for i := n; i > pos; i-- { l[i] = l[i-1] }]. *)
Fixpoint shift_right {A} (n pos : nat) (l : list A) : res (list A) :=
  match n with
  | O => Ok l
  | S i =>
      if decide (pos < n)%nat then
        match l !! i with
        | None => Panic
        | Some x => if decide (n < length l)%nat then shift_right i pos (<[n := x]> l) else Panic
        end
      else Ok l
  end.

(** [l = append(l, zero)], the shift, then [l[pos] = x]. *)
Definition go_insert {A} (pos : nat) (zero x : A) (l : list A) : res (list A) :=
  let l := l ++ [zero] in
  l ← shift_right (length l - 1) pos l;
  if decide (pos < length l)%nat then Ok (<[pos := x]> l) else Panic.

(** [l[i]] *)
Definition go_index {A} (l : list A) (i : nat) : res A :=
  match l !! i with Some x => Ok x | None => Panic end.

Section btree.
Context {S : Type} {PS : PageStore S}.

(** [flushHeader] on a tree with this header page and root. *)
Definition flushHeader (header root : Z) : M S unit :=
  let p := NewPage header PageTypeData in
  let d := put_u32 4 root (put_u32 0 headerMagic (Data p)) in
  ps_write (mkPage (Header p) d).

Definition Create : M S (Z * Z) :=
  headerID ← wrap "alloc btree header page: %w" [] ps_alloc;
  rootID ← wrap "alloc root page: %w" [] ps_alloc;
  emptyRoot ← lift (EncodeLeaf (mkLeaf rootID [] 0));
  _ ← wrap "write initial root: %w" [] (ps_write emptyRoot);
  _ ← flushHeader headerID rootID;
  mret (headerID, rootID).

Definition Open (headerID : Z) : M S (Z * Z) :=
  p ← wrap "read btree header (page %d): %w" [GInt headerID] (ps_read headerID);
  let magic := get_u32 0 (Data p) in
  if decide (magic ≠ headerMagic) then
    fail (Errorf "page %d is not a btree header (magic 0x%08X, want 0x%08X) — did you run btree-init?"
            [GInt headerID; GInt magic; GInt headerMagic])
  else mret (headerID, get_u32 4 (Data p)).

Definition splitLeaf (leaf : LeafNode) : M S (option splitResult) :=
  let mid := (length (Entries leaf) / 2)%nat in
  rightID ← wrap "alloc right leaf: %w" [] ps_alloc;
  let right := mkLeaf rightID (drop mid (Entries leaf)) (NextLeaf leaf) in
  let leaf := mkLeaf (lf_PageID leaf) (take mid (Entries leaf)) rightID in
  rp ← lift (EncodeLeaf right);
  _ ← wrap "write right leaf: %w" [] (ps_write rp);
  lp ← lift (EncodeLeaf leaf);
  _ ← wrap "write left leaf: %w" [] (ps_write lp);
  e ← lift (go_index (Entries right) 0);
  mret (Some (mkSplit (Key e) rightID)).

Definition splitInternal (node : InternalNode) : M S (option splitResult) :=
  let mid := (length (Keys node) / 2)%nat in
  promotedKey ← lift (go_index (Keys node) mid);
  rightID ← wrap "alloc right internal: %w" [] ps_alloc;
  let right := mkInternal rightID (drop (mid + 1) (Keys node)) (drop (mid + 1) (Children node)) in
  let node := mkInternal (in_PageID node) (take mid (Keys node)) (take (mid + 1) (Children node)) in
  rp ← lift (EncodeInternal right);
  _ ← wrap "write right internal: %w" [] (ps_write rp);
  lp ← lift (EncodeInternal node);
  _ ← wrap "write left internal: %w" [] (ps_write lp);
  mret (Some (mkSplit promotedKey rightID)).

Definition insertLeaf (p : Page) (key : Z) (value : list byte) : M S (option splitResult) :=
  leaf ← lift (DecodeLeaf p);
  '(pos, found) ← lift (LeafSearchKey (Entries leaf) key);
  if found : bool then
    e ← lift (go_index (Entries leaf) pos);
    lp ← lift (EncodeLeaf (mkLeaf (lf_PageID leaf) (<[pos := mkEntry (Key e) value]> (Entries leaf))
                             (NextLeaf leaf)));
    _ ← ps_write lp;
    mret None
  else
    es ← lift (go_insert pos (mkEntry 0 (zeros ValueSize)) (mkEntry key value) (Entries leaf));
    let leaf := mkLeaf (lf_PageID leaf) es (NextLeaf leaf) in
    if decide (length es ≤ LeafOrder)%nat then
      lp ← lift (EncodeLeaf leaf);
      _ ← ps_write lp;
      mret None
    else splitLeaf leaf.

(** What [insertInternal] does after the recursive call returned [split]. *)
Definition insertInternal (insertNode : Z → M S (option splitResult)) (p : Page) (key : Z)
    : M S (option splitResult) :=
  node ← lift (DecodeInternal p);
  childIdx ← lift (FindChildIndex (Keys node) key);
  child ← lift (go_index (Children node) childIdx);
  split ← insertNode child;
  match split with
  | None => mret None
  | Some split =>
      ks ← lift (go_insert childIdx 0 (separatorKey split) (Keys node));
      cs ← lift (go_insert (childIdx + 1) 0 (rightChildID split) (Children node));
      let node := mkInternal (in_PageID node) ks cs in
      if decide (length ks ≤ InternalOrder)%nat then
        np ← lift (EncodeInternal node);
        _ ← ps_write np;
        mret None
      else splitInternal node
  end.

Fixpoint insertNode (fuel : nat) (nodeID key : Z) (value : list byte) : M S (option splitResult) :=
  match fuel with
  | O => lift OutOfFuel
  | Datatypes.S fuel =>
      p ← wrap "read node %d: %w" [GInt nodeID] (ps_read nodeID);
      if decide (PageNodeType p = NodeTypeLeaf) then insertLeaf p key value
      else if decide (PageNodeType p = NodeTypeInternal) then
        insertInternal (λ child, insertNode fuel child key value) p key
      else fail (Errorf "page %d: unknown node type %d" [GInt nodeID; GInt (get_u8 0 (Data p))])
  end.

Fixpoint deleteInNode (fuel : nat) (nodeID key : Z) : M S bool :=
  match fuel with
  | O => lift OutOfFuel
  | Datatypes.S fuel =>
      p ← wrap "btree delete: read page %d: %w" [GInt nodeID] (ps_read nodeID);
      if decide (PageNodeType p = NodeTypeLeaf) then
        leaf ← lift (wrap_err "btree delete: decode leaf %d: %w" [GInt nodeID] (DecodeLeaf p));
        '(idx, found) ← lift (LeafSearchKey (Entries leaf) key);
        if found : bool then
          let es := take idx (Entries leaf) ++ drop (idx + 1) (Entries leaf) in
          encoded ← lift (wrap_err "btree delete: encode leaf %d: %w" [GInt nodeID]
                            (EncodeLeaf (mkLeaf (lf_PageID leaf) es (NextLeaf leaf))));
          _ ← ps_write encoded;
          mret true
        else mret false
      else if decide (PageNodeType p = NodeTypeInternal) then
        internal ← lift (wrap_err "btree delete: decode internal %d: %w" [GInt nodeID] (DecodeInternal p));
        idx ← lift (FindChildIndex (Keys internal) key);
        childID ← lift (go_index (Children internal) idx);
        deleteInNode fuel childID key
      else fail (Errorf "btree delete: unknown node type in page %d" [GInt nodeID])
  end.

(** The descent of [Search]; a page of another type is read again for ever. *)
Fixpoint search_loop (fuel : nat) (nodeID key : Z) : M S (option (list byte)) :=
  match fuel with
  | O => lift OutOfFuel
  | Datatypes.S fuel =>
      p ← wrap "read node %d: %w" [GInt nodeID] (ps_read nodeID);
      if decide (PageNodeType p = NodeTypeLeaf) then
        leaf ← lift (DecodeLeaf p);
        '(idx, found) ← lift (LeafSearchKey (Entries leaf) key);
        if found : bool then
          e ← lift (go_index (Entries leaf) idx);
          mret (Some (Value e))
        else mret None
      else if decide (PageNodeType p = NodeTypeInternal) then
        internal ← lift (DecodeInternal p);
        idx ← lift (FindChildIndex (Keys internal) key);
        child ← lift (go_index (Children internal) idx);
        search_loop fuel child key
      else search_loop fuel nodeID key
  end.

(** Step 1 of [RangeScan]: down to the first leaf that could contain the key. *)
Fixpoint scan_descend (fuel : nat) (nodeID minKey : Z) : M S Z :=
  match fuel with
  | O => lift OutOfFuel
  | Datatypes.S fuel =>
      p ← wrap "read node %d: %w" [GInt nodeID] (ps_read nodeID);
      if decide (PageNodeType p = NodeTypeLeaf) then mret nodeID
      else
        internal ← lift (DecodeInternal p);
        idx ← lift (FindChildIndex (Keys internal) minKey);
        child ← lift (go_index (Children internal) idx);
        scan_descend fuel child minKey
  end.

(** The entry loop of step 2: the entries collected and whether it is done. *)
Fixpoint scan_entries (es : list Entry) (minKey maxKey : Z) : list Entry * bool :=
  match es with
  | [] => ([], false)
  | e :: es =>
      if decide (maxKey < Key e) then ([], true)
      else
        let '(r, done) := scan_entries es minKey maxKey in
        (if decide (minKey ≤ Key e) then e :: r else r, done)
  end.

(** Step 2 of [RangeScan]: along the leaf chain. *)
Fixpoint scan_chain (fuel : nat) (nodeID minKey maxKey : Z) : M S (list Entry) :=
  if decide (nodeID = 0) then mret []
  else
    match fuel with
    | O => lift OutOfFuel
    | Datatypes.S fuel =>
        p ← wrap "read leaf %d: %w" [GInt nodeID] (ps_read nodeID);
        leaf ← lift (DecodeLeaf p);
        let '(r, done) := scan_entries (Entries leaf) minKey maxKey in
        if done : bool then mret r
        else
          rs ← scan_chain fuel (NextLeaf leaf) minKey maxKey;
          mret (r ++ rs)
    end.
End btree.

Section methods.
Context {S : Type} {PS : PageStore S}.

(** A call on the tree's store. *)
Definition on_pg {A} (m : M S A) : M (BTree S) A := λ bt,
  let '(r, s) := m (pg bt) in (r, mkBTree s (headerPage bt) (rootID bt)).

Definition RootID (bt : BTree S) : Z := rootID bt.

Definition Insert (fuel : nat) (key : Z) (value : list byte) : M (BTree S) unit :=
  bt ← get_state;
  split ← on_pg (insertNode fuel (rootID bt) key value);
  match split with
  | None => mret tt
  | Some split =>
      newRootID ← on_pg (wrap "alloc new root: %w" [] ps_alloc);
      np ← lift (EncodeInternal (mkInternal newRootID [separatorKey split] [rootID bt; rightChildID split]));
      _ ← on_pg (wrap "write new root: %w" [] (ps_write np));
      _ ← modify (λ bt, mkBTree (pg bt) (headerPage bt) newRootID);
      on_pg (flushHeader (headerPage bt) newRootID)
  end.

Definition Search (fuel : nat) (key : Z) : M (BTree S) (option (list byte)) :=
  bt ← get_state;
  on_pg (search_loop fuel (rootID bt) key).

Definition RangeScan (fuel : nat) (minKey maxKey : Z) : M (BTree S) (list Entry) :=
  bt ← get_state;
  if decide (maxKey < minKey) then mret []
  else
    leaf ← on_pg (scan_descend fuel (rootID bt) minKey);
    on_pg (scan_chain fuel leaf minKey maxKey).

Definition Delete (fuel : nat) (key : Z) : M (BTree S) bool :=
  bt ← get_state;
  on_pg (deleteInNode fuel (rootID bt) key).
End methods.

(** ** List surgery *)

Lemma shift_right_ok {A} n pos (l : list A) :
  (n < length l)%nat →
  ∃ r, shift_right n pos l = Ok r ∧ length r = length l ∧
    ∀ j, r !! j = if decide (pos < j ≤ n)%nat then l !! (j - 1)%nat else l !! j.
Proof.
  revert l. induction n as [|n IH]; intros l Hn; cbn [shift_right].
  { exists l. split_and!; [done..|]. intros j. by rewrite decide_False by lia. }
  case_decide as Hc.
  - destruct (lookup_lt_is_Some_2 l n) as [x Hx]; [lia|]. rewrite Hx, decide_True by lia.
    destruct (IH (<[S n := x]> l)) as (r & -> & Hr & Hl); [rewrite length_insert; lia|].
    exists r. split; [done|]. rewrite length_insert in Hr. split; [done|]. intros j. rewrite Hl.
    repeat case_decide; try lia.
    + rewrite list_lookup_insert_ne by lia. done.
    + assert (j = S n) as -> by lia. rewrite list_lookup_insert_eq by lia.
      by rewrite Nat.sub_1_r.
    + by rewrite list_lookup_insert_ne by lia.
  - exists l. split_and!; [done..|]. intros j. by rewrite decide_False by lia.
Qed.

Lemma lookup_insert_at {A} i j (x : A) l :
  (i ≤ length l)%nat →
  insert_at i x l !! j = if decide (j < i)%nat then l !! j
    else if decide (j = i) then Some x else l !! (j - 1)%nat.
Proof.
  intros Hi. unfold insert_at. repeat case_decide.
  - rewrite lookup_app_l by (rewrite length_take; lia). by rewrite lookup_take_lt.
  - subst j. rewrite lookup_app_r by (rewrite length_take; lia).
    rewrite length_take. by replace (i - i `min` length l)%nat with 0%nat by lia.
  - rewrite lookup_app_r by (rewrite length_take; lia). rewrite length_take.
    replace (j - i `min` length l)%nat with (S (j - i - 1)) by lia. simpl.
    rewrite lookup_drop. f_equal. lia.
Qed.

Lemma length_insert_at {A} i (x : A) l : length (insert_at i x l) = S (length l).
Proof.
  unfold insert_at. rewrite length_app. cbn [length]. rewrite length_take, length_drop. lia.
Qed.

Lemma go_insert_ok {A} pos (zero x : A) l :
  (pos ≤ length l)%nat → go_insert pos zero x l = Ok (insert_at pos x l).
Proof.
  intros Hp. unfold go_insert. rewrite length_app. cbn [length].
  replace (length l + 1 - 1)%nat with (length l) by lia.
  destruct (shift_right_ok (length l) pos (l ++ [zero])) as (r & -> & Hr & Hl).
  { rewrite length_app. simpl. lia. }
  unfold mbind, res_bind. rewrite length_app in Hr. simpl in Hr.
  rewrite decide_True by lia. f_equal. apply list_eq. intros j.
  rewrite lookup_insert_at by done. destruct (decide (j = pos)) as [->|Hj].
  - rewrite list_lookup_insert_eq by lia. by rewrite decide_False by lia.
  - rewrite list_lookup_insert_ne by done. rewrite Hl.
    destruct (decide (j < pos)%nat).
    + rewrite decide_False by lia. by rewrite lookup_app_l by lia.
    + case_decide.
      * by rewrite lookup_app_l by lia.
      * rewrite !lookup_ge_None_2; [done|lia|rewrite length_app; simpl; lia].
Qed.

(** ** Representation of a tree

    [rep ne h v id lo hi fl nx kvs fp]: in store [v], page [id] is the root of
    a subtree of height [h] that holds exactly the entries [kvs], with keys in
    [lo, hi), whose leaves are chained from [fl] up to [nx], and which occupies
    the pages [fp].  With [ne], no leaf is empty. *)

Definition leaf_at (v : pmap) (id : Z) (es : list Entry) (nx : Z) : Prop :=
  leaf_wf (mkLeaf id es nx) ∧ v !! id = Some (leaf_data (mkLeaf id es nx)).
Definition internal_at (v : pmap) (id : Z) (ks cs : list Z) : Prop :=
  internal_wf (mkInternal id ks cs) ∧ v !! id = Some (internal_data (mkInternal id ks cs)).

Abbreviation sorted_kvs kvs := (StronglySorted Z.lt (Key <$> kvs)).

Definition subtree : Type := Z → Z → Z → Z → Z → list Entry → gset Z → Prop.

(** Consecutive subtrees [cs], separated by [ks], covering [lo, hi). *)
Inductive forest (R : subtree) : list Z → Z → list Z → Z → Z → Z → list Entry → gset Z → Prop :=
  | forest_one c lo hi fl nx kvs fp :
      R c lo hi fl nx kvs fp → forest R [c] lo [] hi fl nx kvs fp
  | forest_cons c cs lo k ks hi fl mid nx kvs1 kvs2 fp1 fp2 :
      R c lo k fl mid kvs1 fp1 → lo < k < hi → fp1 ## fp2 →
      forest R cs k ks hi mid nx kvs2 fp2 →
      forest R (c :: cs) lo (k :: ks) hi fl nx (kvs1 ++ kvs2) (fp1 ∪ fp2).

Fixpoint rep (ne : bool) (h : nat) (v : pmap) : subtree := λ id lo hi fl nx kvs fp,
  match h with
  | O => leaf_at v id kvs nx ∧ fl = id ∧ fp = {[id]} ∧ sorted_kvs kvs ∧
      Forall (λ e, lo ≤ Key e < hi) kvs ∧ (ne = true → kvs ≠ [])
  | S h => ∃ ks cs fp', internal_at v id ks cs ∧ ks ≠ [] ∧ forest (rep ne h v) cs lo ks hi fl nx kvs fp' ∧
      id ∉ fp' ∧ fp = {[id]} ∪ fp'
  end.

Lemma forest_mono (R R' : subtree) cs lo ks hi fl nx kvs fp :
  (∀ c lo hi fl nx kvs f, f ⊆ fp → R c lo hi fl nx kvs f → R' c lo hi fl nx kvs f) →
  forest R cs lo ks hi fl nx kvs fp → forest R' cs lo ks hi fl nx kvs fp.
Proof.
  intros HR HF. induction HF.
  - apply forest_one. by apply HR.
  - eapply forest_cons; [apply HR; [set_solver|done]|done|done|].
    apply IHHF. intros. apply HR; [set_solver|done].
Qed.

Lemma rep_frame ne h v v' id lo hi fl nx kvs fp :
  (∀ j, j ∈ fp → v' !! j = v !! j) → rep ne h v id lo hi fl nx kvs fp →
  rep ne h v' id lo hi fl nx kvs fp.
Proof.
  revert id lo hi fl nx kvs fp. induction h as [|h IH]; intros id lo hi fl nx kvs fp Hv; simpl.
  - intros ([Hwf Hl] & -> & -> & ?). split_and!; try done; [|tauto..]. split; [done|]. rewrite Hv by set_solver. done.
  - intros (ks & cs & fp' & [Hwf Hl] & Hks & HF & Hid & ->). exists ks, cs, fp'. split_and!; [|..].
    + split; [done|]. by rewrite Hv by set_solver.
    + done.
    + eapply forest_mono; [|exact HF]. intros. eapply IH; [|done]. intros. apply Hv. set_solver.
    + done.
    + done.
Qed.

Lemma forest_ind_fp (R : subtree) (P : gset Z → Prop) cs lo ks hi fl nx kvs fp :
  (∀ f1 f2, P f1 → P f2 → P (f1 ∪ f2)) →
  (∀ c lo hi fl nx kvs f, R c lo hi fl nx kvs f → P f) →
  forest R cs lo ks hi fl nx kvs fp → P fp.
Proof. intros HU HR HF. induction HF; eauto. Qed.

Lemma rep_dom ne h v id lo hi fl nx kvs fp :
  rep ne h v id lo hi fl nx kvs fp → fp ⊆ dom v.
Proof.
  revert id lo hi fl nx kvs fp. induction h as [|h IH]; intros id lo hi fl nx kvs fp; simpl.
  - intros ([_ Hl] & -> & -> & _). apply singleton_subseteq_l. apply elem_of_dom. eauto.
  - intros (ks & cs & fp' & [_ Hl] & _ & HF & _ & ->). apply union_subseteq. split.
    + apply singleton_subseteq_l, elem_of_dom. eauto.
    + eapply (forest_ind_fp _ (λ f, (f ⊆ dom v))); [set_solver| |exact HF]. eauto.
Qed.

(** Separators and entries of a forest. *)
Lemma forest_keys R cs lo ks hi fl nx kvs fp :
  forest R cs lo ks hi fl nx kvs fp →
  length cs = S (length ks) ∧ StronglySorted Z.lt ks ∧ Forall (λ k, lo < k < hi) ks.
Proof.
  induction 1 as [|c cs lo k ks hi fl mid nx kvs1 kvs2 fp1 fp2 HR Hk Hd HF (IH1 & IH2 & IH3)].
  - split_and!; [done|constructor|constructor].
  - split_and!; [simpl; lia| |].
    + apply StronglySorted_cons. split; [|done]. eapply Forall_impl; [exact IH3|]. simpl. lia.
    + constructor; [done|]. eapply Forall_impl; [exact IH3|]. simpl. lia.
Qed.

Lemma sorted_kvs_app l1 l2 m :
  sorted_kvs l1 → sorted_kvs l2 → Forall (λ e, Key e < m) l1 → Forall (λ e, m ≤ Key e) l2 →
  sorted_kvs (l1 ++ l2).
Proof.
  intros H1 H2 HF1 HF2. rewrite fmap_app. apply StronglySorted_app. split_and!; [|done..].
  intros k1 k2 (e1 & -> & Hin1)%list_elem_of_fmap (e2 & -> & Hin2)%list_elem_of_fmap.
  rewrite Forall_forall in HF1, HF2. specialize (HF1 _ Hin1). specialize (HF2 _ Hin2).
  simpl in *. lia.
Qed.

Lemma forest_kvs (R : subtree) cs lo ks hi fl nx kvs fp :
  (∀ c lo hi fl nx kvs f, R c lo hi fl nx kvs f →
     sorted_kvs kvs ∧ Forall (λ e, lo ≤ Key e < hi) kvs) →
  forest R cs lo ks hi fl nx kvs fp →
  sorted_kvs kvs ∧ Forall (λ e, lo ≤ Key e < hi) kvs.
Proof.
  intros HR. induction 1 as [|c cs lo k ks hi fl mid nx kvs1 kvs2 fp1 fp2 H1 Hk Hd HF [IH1 IH2]];
    [eauto|]. apply HR in H1 as [Hs1 Hb1]. split.
  - eapply (sorted_kvs_app _ _ k); [done|done| |]; (eapply Forall_impl; [done|]; simpl; lia).
  - apply Forall_app. split; (eapply Forall_impl; [done|]; simpl; lia).
Qed.

Lemma rep_kvs ne h v id lo hi fl nx kvs fp :
  rep ne h v id lo hi fl nx kvs fp → sorted_kvs kvs ∧ Forall (λ e, lo ≤ Key e < hi) kvs.
Proof.
  revert id lo hi fl nx kvs fp. induction h as [|h IH]; intros id lo hi fl nx kvs fp; simpl.
  - tauto.
  - intros (ks & cs & fp' & _ & _ & HF & _). by eapply forest_kvs.
Qed.

Lemma forest_entries (P : Entry → Prop) (R : subtree) cs lo ks hi fl nx kvs fp :
  (∀ c lo hi fl nx kvs f, R c lo hi fl nx kvs f → Forall P kvs) → forest R cs lo ks hi fl nx kvs fp → Forall P kvs.
Proof. intros HR HF. induction HF; [by eapply HR|]. apply Forall_app. split; [by eapply HR|done]. Qed.

Lemma rep_entries_wf ne h v id lo hi fl nx kvs fp : rep ne h v id lo hi fl nx kvs fp → Forall entry_wf kvs.
Proof.
  revert id lo hi fl nx kvs fp. induction h as [|h IH]; intros id lo hi fl nx kvs fp; simpl.
  - intros ([Hwf _] & _). apply Hwf.
  - intros (ks & cs & fp' & _ & _ & HF & _). eapply forest_entries; [|exact HF]. intros. by eapply IH.
Qed.

(** The child of a forest that covers a key, with the two ways an insertion
    below it changes the forest: in place, or split in two. *)
Record focus (R : subtree) (cs : list Z) (lo : Z) (ks : list Z) (hi fl nx : Z) (kvs : list Entry)
    (fp : gset Z) (key : Z) (i : nat)
    (c clo chi cfl cnx : Z) (ckvs : list Entry) (cfp : gset Z) (pre post : list Entry) (fpo : gset Z)
    : Prop := {
  fo_child : cs !! i = Some c;
  fo_sub : R c clo chi cfl cnx ckvs cfp;
  fo_key : clo ≤ key < chi;
  fo_kvs : kvs = pre ++ ckvs ++ post;
  fo_fp : fp = cfp ∪ fpo;
  fo_disj : cfp ## fpo;
  fo_pre : Forall (λ e, Key e < clo) pre;
  fo_post : Forall (λ e, chi ≤ Key e) post;
  fo_in_place (R' : subtree) ckvs' cfp' :
    (∀ c lo hi fl nx kvs f, f ⊆ fpo → R c lo hi fl nx kvs f → R' c lo hi fl nx kvs f) →
    R' c clo chi cfl cnx ckvs' cfp' → cfp' ## fpo →
    forest R' cs lo ks hi fl nx (pre ++ ckvs' ++ post) (cfp' ∪ fpo);
  fo_split (R' : subtree) k r mid kvs1 kvs2 f1 f2 :
    (∀ c lo hi fl nx kvs f, f ⊆ fpo → R c lo hi fl nx kvs f → R' c lo hi fl nx kvs f) →
    R' c clo k cfl mid kvs1 f1 → R' r k chi mid cnx kvs2 f2 → clo < k < chi →
    f1 ## f2 → f1 ∪ f2 ## fpo →
    forest R' (insert_at (i + 1) r cs) lo (insert_at i k ks) hi fl nx
      (pre ++ (kvs1 ++ kvs2) ++ post) (f1 ∪ f2 ∪ fpo);
  fo_tail (Q : Z → Z → list Entry → gset Z → Prop) :
    (∀ a, Q a a [] ∅) → (∀ c lo hi a b k f, R c lo hi a b k f → Q a b k f) →
    (∀ a b c k1 k2 f1 f2, Q a b k1 f1 → Q b c k2 f2 → f1 ## f2 → Q a c (k1 ++ k2) (f1 ∪ f2)) →
    ∃ ft, ft ⊆ fpo ∧ Q cnx nx post ft
}.

(** A property of subtrees that composes along the chain of leaves holds of a
    forest. *)
Lemma forest_along (R : subtree) (Q : Z → Z → list Entry → gset Z → Prop) cs lo ks hi fl nx kvs fp :
  (∀ c lo hi a b k f, R c lo hi a b k f → Q a b k f) →
  (∀ a b c k1 k2 f1 f2, Q a b k1 f1 → Q b c k2 f2 → f1 ## f2 → Q a c (k1 ++ k2) (f1 ∪ f2)) →
  forest R cs lo ks hi fl nx kvs fp → Q fl nx kvs fp.
Proof. intros H1 H2. induction 1; eauto. Qed.

Lemma forest_focus (R : subtree) cs lo ks hi fl nx kvs fp key i :
  (∀ c lo hi fl nx kvs f, R c lo hi fl nx kvs f →
     sorted_kvs kvs ∧ Forall (λ e, lo ≤ Key e < hi) kvs) →
  forest R cs lo ks hi fl nx kvs fp → lo ≤ key < hi →
  (i ≤ length ks)%nat → (∀ j k, ks !! j = Some k → ((j < i)%nat ↔ k ≤ key)) →
  ∃ c clo chi cfl cnx ckvs cfp pre post fpo,
    lo ≤ clo ∧ chi ≤ hi ∧ focus R cs lo ks hi fl nx kvs fp key i c clo chi cfl cnx ckvs cfp pre post fpo.
Proof.
  intros HR HF. revert i.
  induction HF as [c lo hi fl nx kvs fp Hc|c cs lo k ks hi fl mid nx kvs1 kvs2 fp1 fp2 Hc Hk Hd HF IH];
    intros i Hkey Hi Hidx.
  - simpl in Hi. assert (i = 0%nat) as -> by lia.
    exists c, lo, hi, fl, nx, kvs, fp, [], [], ∅. split; [lia|]. split; [lia|].
    split; [done|done|done|by rewrite app_nil_r|by rewrite union_empty_r_L|apply disjoint_empty_r|constructor|constructor| | |].
    + intros R' ckvs' cfp' _ HR' _. rewrite app_nil_r, union_empty_r_L. by apply forest_one.
    + intros R' k r mid kvs1 kvs2 f1 f2 _ H1 H2 Hk Hd _. rewrite app_nil_r, app_nil_l, union_empty_r_L.
      eapply forest_cons; [exact H1|exact Hk|exact Hd|by apply forest_one].
    + intros Q Q0 _ _. exists ∅. split; [done|apply Q0].
  - destruct i as [|i].
    + assert (key < k) as Hlt. { pose proof (Hidx 0%nat k eq_refl). lia. }
      exists c, lo, k, fl, mid, kvs1, fp1, [], kvs2, fp2. split; [lia|]. split; [lia|].
      split; [done|exact Hc|lia|done|done|exact Hd|constructor| | | |].
      * eapply Forall_impl; [by eapply (forest_kvs R)|]. simpl. lia.
      * intros R' ckvs' cfp' Hm HR' Hd'. cbn [app]. eapply forest_cons; [exact HR'|done|done|]. by eapply forest_mono.
      * intros R' k' r mid' kvs1' kvs2' f1 f2 Hm H1 H2 Hk' Hd1 Hd2.
        rewrite <-(assoc_L (∪)). cbn [app]. rewrite <-(assoc_L (++)).
        eapply forest_cons; [exact H1|lia|set_solver +Hd1 Hd2|].
        eapply forest_cons; [exact H2|lia|set_solver +Hd2|]. by eapply forest_mono.
      * intros Q _ Q1 Q2. exists fp2. split; [done|]. by eapply forest_along.
    + assert (k ≤ key) as Hle. { pose proof (Hidx 0%nat k eq_refl). lia. }
      destruct (IH i ltac:(lia) ltac:(simpl in Hi; lia))
        as (c' & clo & chi & cfl & cnx & ckvs & cfp & pre & post & fpo & Hlo & Hhi & Hfo).
      { intros j k' Hj. pose proof (Hidx (S j) k' Hj). lia. }
      destruct Hfo as [F1 F2 F3 F4 F5 F6 F7 F8 F9 F10 F11].
      exists c', clo, chi, cfl, cnx, ckvs, cfp, (kvs1 ++ pre), post, (fp1 ∪ fpo).
      split; [lia|]. split; [lia|]. split; [done|exact F2|lia| | | | |exact F8| | |].
      * rewrite F4. by rewrite <-(assoc_L (++)).
      * rewrite F5. clear; set_solver.
      * rewrite F5 in Hd. set_solver +Hd F6.
      * apply Forall_app. split; [|done]. eapply Forall_impl; [by eapply HR|]. simpl. lia.
      * intros R' ckvs' cfp' Hm HR' Hd'. rewrite <-(assoc_L (++)).
        replace (cfp' ∪ (fp1 ∪ fpo)) with (fp1 ∪ (cfp' ∪ fpo)) by (clear; set_solver).
        eapply forest_cons; [apply Hm; [clear; set_solver|done]|done|rewrite F5 in Hd; set_solver +Hd Hd'|].
        apply F9; [|done|set_solver +Hd']. intros ??????? Hf. apply Hm. set_solver +Hf.
      * intros R' k' r mid' kvs1' kvs2' f1 f2 Hm H1 H2 Hk' Hd1 Hd2. rewrite <-(assoc_L (++)).
        replace (f1 ∪ f2 ∪ (fp1 ∪ fpo)) with (fp1 ∪ (f1 ∪ f2 ∪ fpo)) by (clear; set_solver).
        eapply forest_cons; [apply Hm; [clear; set_solver|done]|done|rewrite F5 in Hd; set_solver +Hd Hd2|].
        eapply F10; [|done..|set_solver +Hd2]. intros ??????? Hf. apply Hm. set_solver +Hf.
      * intros Q Q0 Q1 Q2. destruct (F11 Q Q0 Q1 Q2) as (ft & Hft & HQ). exists ft.
        split; [set_solver +Hft|done].
Qed.

Lemma forest_split R cs lo ks hi fl nx kvs fp m k :
  forest R cs lo ks hi fl nx kvs fp → ks !! m = Some k →
  ∃ mid kvs1 kvs2 fp1 fp2,
    forest R (take (m + 1) cs) lo (take m ks) k fl mid kvs1 fp1 ∧
    forest R (drop (m + 1) cs) k (drop (m + 1) ks) hi mid nx kvs2 fp2 ∧
    kvs = kvs1 ++ kvs2 ∧ fp = fp1 ∪ fp2 ∧ fp1 ## fp2 ∧ lo < k < hi.
Proof.
  intros HF. revert m. induction HF as [|c cs lo k0 ks hi fl mid nx kvs1 kvs2 fp1 fp2 Hc Hk Hd HF IH];
    intros m Hm; [done|]. destruct m as [|m].
  - injection Hm as ->. exists mid, kvs1, kvs2, fp1, fp2. simpl.
    rewrite take_0, !drop_0. split; [by apply forest_one|done].
  - destruct (IH m Hm) as (mid' & kvs3 & kvs4 & fp3 & fp4 & HF1 & HF2 & -> & -> & Hd' & Hk').
    exists mid', (kvs1 ++ kvs3), kvs4, (fp1 ∪ fp3), fp4. cbn [take drop Nat.add]. split_and!.
    + eapply forest_cons; [done|lia|set_solver|done].
    + done.
    + by rewrite (assoc_L (++)).
    + by rewrite (assoc_L (∪)).
    + set_solver.
    + lia.
    + lia.
Qed.

Lemma bool_decide_of b (P : Prop) `{!Decision P} : (b = true ↔ P) → b = bool_decide P.
Proof.
  intros HP. symmetry. destruct b; [by apply bool_decide_eq_true, HP|].
  apply bool_decide_eq_false. by intros ?%HP.
Qed.

(** ** Sorted entry lists: what the tree stores *)

Fixpoint kv_insert (k : Z) (val : list byte) (kvs : list Entry) : list Entry :=
  match kvs with
  | [] => [mkEntry k val]
  | e :: es =>
      if decide (k < Key e) then mkEntry k val :: e :: es
      else if decide (k = Key e) then mkEntry k val :: es
      else e :: kv_insert k val es
  end.
Definition kv_delete (k : Z) (kvs : list Entry) : list Entry := filter (λ e, Key e ≠ k) kvs.
Definition kv_range (lo hi : Z) (kvs : list Entry) : list Entry := filter (λ e, lo ≤ Key e ≤ hi) kvs.
Definition kv_map (kvs : list Entry) : gmap Z (list byte) :=
  list_to_map ((λ e, (Key e, Value e)) <$> kvs).

Lemma kv_insert_app k val pre es post :
  Forall (λ e, Key e < k) pre → Forall (λ e, k < Key e) post →
  kv_insert k val (pre ++ es ++ post) = pre ++ kv_insert k val es ++ post.
Proof.
  intros Hpre Hpost. induction Hpre as [|e pre He Hpre IH]; simpl.
  - induction es as [|e es IH]; simpl.
    + destruct Hpost as [|e post He Hpost]; simpl; [done|]. by rewrite decide_True by lia.
    + repeat case_decide; [done|done|]. simpl. f_equal. exact IH.
  - rewrite !decide_False by lia. by rewrite IH.
Qed.

Lemma kv_insert_at k val es i :
  (i ≤ length es)%nat →
  (∀ j e, es !! j = Some e → Key e ≠ k ∧ ((j < i)%nat ↔ Key e < k)) →
  insert_at i (mkEntry k val) es = kv_insert k val es.
Proof.
  intros Hi He. unfold insert_at.
  assert (Forall (λ e, Key e < k) (take i es)) as H1.
  { apply Forall_lookup. intros j e [Hj Hlt]%lookup_take_Some. by apply (He j e Hj). }
  assert (Forall (λ e, k < Key e) (drop i es)) as H2.
  { apply Forall_lookup. intros j e Hj. rewrite lookup_drop in Hj. destruct (He _ _ Hj). lia. }
  rewrite <-(take_drop i es) at 3. symmetry. exact (kv_insert_app k val _ [] _ H1 H2).
Qed.

Lemma kv_insert_found k val es i e :
  sorted_kvs es → es !! i = Some e → Key e = k → <[i := mkEntry k val]> es = kv_insert k val es.
Proof.
  intros Hs Hi He. rewrite <-(take_drop_middle es i e Hi) at 2. rewrite insert_take_drop by (by eapply lookup_lt_Some).
  rewrite <-(take_drop_middle es i e Hi), fmap_app in Hs.
  apply StronglySorted_app in Hs as (Hx & _ & Hs). cbn [fmap list_fmap] in Hs.
  apply StronglySorted_cons in Hs as [Hs _].
  assert (Forall (λ e, Key e < k) (take i es)) as H1.
  { apply Forall_forall. intros e' He'. rewrite <-He. apply Hx; [by apply list_elem_of_fmap_2|].
    apply list_elem_of_fmap_2. left. }
  assert (Forall (λ e, k < Key e) (drop (S i) es)) as H2 by (rewrite <-He; rewrite Forall_fmap in Hs; exact Hs).
  change (e :: drop (S i) es) with ([e] ++ drop (S i) es). rewrite (kv_insert_app k val _ [e] _ H1 H2).
  simpl. by rewrite decide_False, decide_True by lia.
Qed.

Lemma elem_of_kv_insert k val kvs e : e ∈ kv_insert k val kvs → e = mkEntry k val ∨ e ∈ kvs.
Proof.
  induction kvs as [|e' kvs IH]; simpl; [rewrite list_elem_of_singleton; tauto|].
  repeat case_decide; rewrite !elem_of_cons; tauto.
Qed.

Lemma Forall_kv_insert (P : Entry → Prop) k val kvs :
  P (mkEntry k val) → Forall P kvs → Forall P (kv_insert k val kvs).
Proof.
  rewrite !Forall_forall. intros Hk H e [->|?]%elem_of_kv_insert; auto.
Qed.

Lemma kv_insert_sorted k val kvs : sorted_kvs kvs → sorted_kvs (kv_insert k val kvs).
Proof.
  induction kvs as [|e kvs IH]; simpl; [repeat constructor|].
  rewrite StronglySorted_cons. intros [He Hs]. repeat case_decide; simpl; rewrite ?StronglySorted_cons.
  - split_and!; [|done|done]. constructor; [done|]. eapply Forall_impl; [exact He|]. simpl. lia.
  - subst k. done.
  - split; [|by apply IH]. apply Forall_fmap. apply Forall_kv_insert; [simpl; lia|].
    rewrite Forall_fmap in He. exact He.
Qed.

Lemma kv_insert_nonempty k val kvs : kv_insert k val kvs ≠ [].
Proof. destruct kvs; simpl; repeat case_decide; done. Qed.

Lemma length_kv_insert k val es : (length (kv_insert k val es) ≤ Datatypes.S (length es))%nat.
Proof. induction es; simpl; repeat case_decide; simpl; lia. Qed.

Lemma filter_all {A} (P : A → Prop) `{∀ x, Decision (P x)} l : Forall P l → filter P l = l.
Proof. induction 1 as [|x l Hx Hl IH]; [done|]. rewrite filter_cons_True by done. by rewrite IH. Qed.
Lemma filter_none {A} (P : A → Prop) `{∀ x, Decision (P x)} l : Forall (λ x, ¬ P x) l → filter P l = [].
Proof. induction 1 as [|x l Hx Hl IH]; [done|]. by rewrite filter_cons_False. Qed.

Lemma kv_delete_app k pre es post :
  Forall (λ e, Key e < k) pre → Forall (λ e, k < Key e) post →
  kv_delete k (pre ++ es ++ post) = pre ++ kv_delete k es ++ post.
Proof.
  intros Hpre Hpost. unfold kv_delete. rewrite !filter_app.
  f_equal; [|f_equal]; apply filter_all; (eapply Forall_impl; [done|]; simpl; lia).
Qed.

(** Entries around position [i] of a sorted list. *)
Lemma sorted_kvs_around es i e :
  sorted_kvs es → es !! i = Some e →
  Forall (λ e', Key e' < Key e) (take i es) ∧ Forall (λ e', Key e < Key e') (drop (S i) es).
Proof.
  intros Hs Hi. rewrite <-(take_drop_middle es i e Hi), fmap_app in Hs.
  apply StronglySorted_app in Hs as (Hx & _ & Hs). cbn [fmap list_fmap] in Hs.
  apply StronglySorted_cons in Hs as [Hs _]. split; [|rewrite Forall_fmap in Hs; exact Hs].
  apply Forall_forall. intros e' He'. apply Hx; [by apply list_elem_of_fmap_2|].
  apply list_elem_of_fmap_2. left.
Qed.

Lemma kv_delete_found k es i e :
  sorted_kvs es → es !! i = Some e → Key e = k → take i es ++ drop (i + 1) es = kv_delete k es.
Proof.
  intros Hs Hi <-. destruct (sorted_kvs_around es i e Hs Hi) as [H1 H2]. rewrite Nat.add_1_r.
  rewrite <-(take_drop_middle es i e Hi) at 3.
  change (e :: drop (S i) es) with ([e] ++ drop (S i) es). rewrite (kv_delete_app _ _ [e]) by done.
  unfold kv_delete. by rewrite filter_cons_False by tauto.
Qed.

Lemma kv_delete_sorted k kvs : sorted_kvs kvs → sorted_kvs (kv_delete k kvs).
Proof.
  unfold kv_delete. induction kvs as [|e kvs IH]; [done|]. simpl. rewrite StronglySorted_cons.
  intros [He Hs]. rewrite filter_cons. case_decide; [|by apply IH]. simpl. apply StronglySorted_cons.
  split; [|by apply IH]. apply Forall_fmap, Forall_forall. intros e' [_ Hin]%list_elem_of_filter.
  rewrite Forall_fmap, Forall_forall in He. by apply He.
Qed.

Lemma sorted_kvs_NoDup kvs : sorted_kvs kvs → NoDup (Key <$> kvs).
Proof.
  induction kvs as [|e kvs IH]; [constructor|]. simpl. rewrite StronglySorted_cons. intros [He Hs].
  apply NoDup_cons. split; [|by apply IH]. intros Hin. rewrite Forall_forall in He.
  specialize (He _ Hin). lia.
Qed.

Lemma kv_map_lookup kvs k val :
  sorted_kvs kvs → kv_map kvs !! k = Some val ↔ mkEntry k val ∈ kvs.
Proof.
  intros Hs. unfold kv_map. rewrite <-elem_of_list_to_map.
  - rewrite list_elem_of_fmap. split; [intros ([k' v'] & [= -> ->] & ?); done|].
    intros Hin. by exists (mkEntry k val).
  - rewrite <-list_fmap_compose. exact (sorted_kvs_NoDup kvs Hs).
Qed.

Lemma sorted_kvs_unique kvs k v1 v2 :
  sorted_kvs kvs → mkEntry k v1 ∈ kvs → mkEntry k v2 ∈ kvs → v1 = v2.
Proof.
  intros Hs H1 H2. apply (kv_map_lookup kvs k v1 Hs) in H1. apply (kv_map_lookup kvs k v2 Hs) in H2. congruence.
Qed.

Lemma kv_map_cons e kvs : kv_map (e :: kvs) = <[Key e := Value e]> (kv_map kvs).
Proof. done. Qed.

Lemma kv_map_insert k val kvs :
  sorted_kvs kvs → kv_map (kv_insert k val kvs) = <[k := val]> (kv_map kvs).
Proof.
  induction kvs as [|e kvs IH]; [done|]. cbn [fmap list_fmap kv_insert]. rewrite StronglySorted_cons.
  intros [He Hs]. repeat case_decide; rewrite !kv_map_cons; [done| |].
  - subst k. by rewrite insert_insert_eq.
  - rewrite IH by done. by rewrite insert_insert_ne by lia.
Qed.

Lemma kv_map_delete k kvs : sorted_kvs kvs → kv_map (kv_delete k kvs) = delete k (kv_map kvs).
Proof.
  intros Hs. apply map_eq. intros j. apply option_eq. intros val.
  rewrite kv_map_lookup by (by apply kv_delete_sorted). rewrite lookup_delete_Some, kv_map_lookup by done.
  unfold kv_delete. rewrite list_elem_of_filter. simpl. naive_solver.
Qed.

(** After a call that succeeded. *)
Ltac wrap_ok := cbn beta iota zeta delta [wrap_err].

(** ** The chain of leaves *)

(** [n] leaves linked from [a] up to [b] hold the entries [kvs]. *)
Inductive chain (v : pmap) : nat → Z → Z → list Entry → Prop :=
  | chain_nil a : chain v 0 a a []
  | chain_cons n a es b c kvs :
      leaf_at v a es b → chain v n b c kvs → chain v (Datatypes.S n) a c (es ++ kvs).

Lemma chain_app v n m a b c k1 k2 : chain v n a b k1 → chain v m b c k2 → chain v (n + m) a c (k1 ++ k2).
Proof.
  induction 1; [done|]. intros. rewrite <-(assoc_L (++)). simpl. econstructor; eauto.
Qed.

Definition chained (v : pmap) (a b : Z) (kvs : list Entry) (fp : gset Z) : Prop :=
  ∃ n, chain v n a b kvs ∧ (n ≤ size fp)%nat.

Lemma chained_nil v a : chained v a a [] ∅.
Proof. exists 0%nat. split; [constructor|lia]. Qed.

Lemma chained_app v a b c k1 k2 f1 f2 :
  chained v a b k1 f1 → chained v b c k2 f2 → f1 ## f2 → chained v a c (k1 ++ k2) (f1 ∪ f2).
Proof.
  intros (n & Hn & Hn') (m & Hm & Hm') Hd. exists (n + m)%nat. split; [by eapply chain_app|].
  rewrite size_union by done. lia.
Qed.

Lemma rep_chained ne h v id lo hi fl nx kvs fp :
  rep ne h v id lo hi fl nx kvs fp → chained v fl nx kvs fp.
Proof.
  revert id lo hi fl nx kvs fp. induction h as [|h IH]; intros id lo hi fl nx kvs fp; simpl.
  - intros (Hl & -> & -> & _). exists 1%nat. split; [|by rewrite size_singleton].
    rewrite <-(app_nil_r kvs). econstructor; [exact Hl|constructor].
  - intros (ks & cs & fp' & _ & Hne & HF & Hid & ->).
    assert (chained v fl nx kvs fp') as (n & Hn & Hs).
    { eapply (forest_along (rep ne h v) (chained v)); [|apply chained_app|exact HF]. eauto. }
    exists n. split; [done|]. rewrite size_union by set_solver +Hid. lia.
Qed.

Lemma rep_height ne h v id lo hi fl nx kvs fp :
  rep ne h v id lo hi fl nx kvs fp → (2 ^ Datatypes.S h ≤ Datatypes.S (size fp))%nat.
Proof.
  revert id lo hi fl nx kvs fp. induction h as [|h IH]; intros id lo hi fl nx kvs fp.
  - intros (_ & _ & -> & _). by rewrite size_singleton.
  - intros (ks & cs & fp' & _ & Hnil & HF & Hid & ->). rewrite size_union by set_solver +Hid.
    rewrite size_singleton. rewrite Nat.pow_succ_r'.
    destruct HF as [|c cs lo k ks hi fl mid nx kvs1 kvs2 fp1 fp2 H1 _ Hd HF]; [done|].
    apply IH in H1. rewrite size_union by done.
    assert (2 ^ Datatypes.S h ≤ Datatypes.S (size fp2))%nat; [|lia].
    eapply (forest_ind_fp _ (λ f, (2 ^ Datatypes.S h ≤ Datatypes.S (size f))%nat)); [|exact IH|exact HF].
    intros f1 f2 Hf _. etrans; [exact Hf|]. apply le_n_S, subseteq_size. set_solver +.
Qed.

Lemma scan_entries_ok es lo hi :
  sorted_kvs es →
  ∃ done, scan_entries es lo hi = (kv_range lo hi es, done) ∧
    (done = true → ∃ e, e ∈ es ∧ hi < Key e).
Proof.
  induction es as [|e es IH]; cbn [scan_entries fmap list_fmap]; [by exists false|].
  rewrite StronglySorted_cons, Forall_fmap, Forall_forall. intros [He Hs].
  case_decide as Hc.
  - exists true. split; [|intros _; exists e; split; [left|done]]. f_equal. symmetry. apply filter_none.
    constructor; [lia|]. apply Forall_forall. intros e' Hin. specialize (He _ Hin). simpl in He. lia.
  - destruct (IH Hs) as (d & -> & Hd). exists d. split.
    + f_equal. change (kv_range lo hi (e :: es)) with (filter (λ e, lo ≤ Key e ≤ hi) (e :: es)).
      rewrite filter_cons. fold (kv_range lo hi es). repeat case_decide; lia || done.
    + intros (e' & Hin & Hlt)%Hd. exists e'. split; [by right|done].
Qed.

(** ** Reading and writing nodes through a [PageStoreSpec] *)
Section spec.
Context {S : Type} {PS : PageStore S} {PSS : PageStoreSpec S}.
Implicit Types (s : S) (v : pmap).

Lemma read_leaf s v id es nx :
  ps_rep s v → leaf_at v id es nx →
  ∃ p s', ps_read id s = (Ok p, s') ∧ ps_rep s' v ∧ ps_room s' = ps_room s ∧
    PageNodeType p = NodeTypeLeaf ∧ DecodeLeaf p = Ok (mkLeaf id es nx).
Proof.
  intros Hs [Hwf Hl]. destruct (ps_read_spec s v id _ Hs Hl) as (p & s' & E & Hs' & Hr & Hid & Hd).
  exists p, s'. split_and!; [done..| |].
  - unfold PageNodeType. rewrite Hd. by apply leaf_data_type.
  - by apply DecodeLeaf_ok.
Qed.

Lemma read_internal s v id ks cs :
  ps_rep s v → internal_at v id ks cs →
  ∃ p s', ps_read id s = (Ok p, s') ∧ ps_rep s' v ∧ ps_room s' = ps_room s ∧
    PageNodeType p = NodeTypeInternal ∧ DecodeInternal p = Ok (mkInternal id ks cs).
Proof.
  intros Hs [Hwf Hl]. destruct (ps_read_spec s v id _ Hs Hl) as (p & s' & E & Hs' & Hr & Hid & Hd).
  exists p, s'. split_and!; [done..| |].
  - unfold PageNodeType. rewrite Hd. by apply internal_data_type.
  - by apply DecodeInternal_ok.
Qed.

Lemma write_leaf s v id es nx :
  ps_rep s v → leaf_wf (mkLeaf id es nx) → is_Some (v !! id) →
  ∃ p s', EncodeLeaf (mkLeaf id es nx) = Ok p ∧ ps_write p s = (Ok tt, s') ∧
    ps_rep s' (<[id := leaf_data (mkLeaf id es nx)]> v) ∧ ps_room s' = ps_room s.
Proof.
  intros Hs Hwf Hin. destruct (ps_write_spec s v (leaf_page (mkLeaf id es nx)) Hs) as (s' & E & Hs' & Hr).
  - by apply leaf_page_wf.
  - done.
  - exists (leaf_page (mkLeaf id es nx)), s'. split; [by apply EncodeLeaf_ok|]. done.
Qed.

Lemma write_internal s v id ks cs :
  ps_rep s v → internal_wf (mkInternal id ks cs) → is_Some (v !! id) →
  ∃ p s', EncodeInternal (mkInternal id ks cs) = Ok p ∧ ps_write p s = (Ok tt, s') ∧
    ps_rep s' (<[id := internal_data (mkInternal id ks cs)]> v) ∧ ps_room s' = ps_room s.
Proof.
  intros Hs Hwf Hin. destruct (ps_write_spec s v (internal_page (mkInternal id ks cs)) Hs) as (s' & E & Hs' & Hr).
  - by apply internal_page_wf.
  - done.
  - exists (internal_page (mkInternal id ks cs)), s'. split; [by apply EncodeInternal_ok|]. done.
Qed.

(** The result of an insertion into the subtree that [rep ne h v id lo hi fl nx
    kvs fp] described: the new entries are [kvs']. *)
Definition ins_post (ne : bool) (h : nat) (v : pmap) (id lo hi fl nx : Z) (fp : gset Z)
    (kvs' : list Entry) (r : option splitResult) (s' : S) : Prop :=
  ∃ v' fp', ps_rep s' v' ∧ (∀ j, j ∉ fp' → v' !! j = v !! j) ∧
    (∀ j, j ∈ fp' → j ∈ fp ∨ v !! j = None) ∧ fp ⊆ fp' ∧
    match r with
    | None => rep ne h v' id lo hi fl nx kvs' fp'
    | Some (mkSplit k r) =>
        ∃ mid kvs1 kvs2 fp1 fp2, lo < k < hi ∧
          rep ne h v' id lo k fl mid kvs1 fp1 ∧ rep ne h v' r k hi mid nx kvs2 fp2 ∧
          kvs' = kvs1 ++ kvs2 ∧ fp' = fp1 ∪ fp2 ∧ fp1 ## fp2
    end.

Lemma sorted_kvs_drop_take kvs m :
  sorted_kvs kvs → sorted_kvs (take m kvs) ∧ sorted_kvs (drop m kvs).
Proof.
  intros H. rewrite <-(take_drop m kvs), fmap_app in H.
  split; [by eapply StronglySorted_app_1_l|by eapply StronglySorted_app_1_r].
Qed.

Lemma splitLeaf_ok ne s v id es nx lo hi :
  ps_rep s v → is_Some (v !! id) → is_u32 nx → Forall entry_wf es →
  length es = (LeafOrder + 1)%nat → sorted_kvs es → Forall (λ e, lo ≤ Key e < hi) es →
  0 < ps_room s →
  ∃ sp s', splitLeaf (mkLeaf id es nx) s = (Ok (Some sp), s') ∧
    ps_room s' = ps_room s - 1 ∧ ins_post ne 0 v id lo hi id nx {[id]} es (Some sp) s'.
Proof.
  intros Hs [d Hd] Hnx Hwf Hlen Hsort Hb Hroom. rewrite LeafOrder_val in Hlen.
  destruct (ps_alloc_spec s v Hs Hroom) as (r & s1 & E1 & Hr & Hs1 & Hr1).
  destruct (ps_rep_wf s1 _ r _ Hs1 (lookup_insert_eq _ _ _)) as [Hrid _].
  destruct (ps_rep_wf s v id _ Hs Hd) as [Hid _].
  assert (r ≠ id) as Hne by congruence.
  destruct (write_leaf s1 _ r (drop 8 es) nx Hs1) as (rp & s2 & Erp & E2 & Hs2 & Hr2).
  { split; simpl; [lia|by apply Forall_drop|rewrite length_drop; node_lia|done]. }
  { rewrite lookup_insert_eq. eauto. }
  destruct (write_leaf s2 _ id (take 8 es) r Hs2) as (lp & s3 & Elp & E3 & Hs3 & Hr3).
  { split; simpl; [lia|by apply Forall_take|rewrite length_take; node_lia|lia]. }
  { rewrite !lookup_insert_ne by done. eauto. }
  destruct (lookup_lt_is_Some_2 es 0) as [e0 He0]; [lia|].
  destruct (lookup_lt_is_Some_2 es 8) as [em Hem]; [lia|].
  exists (mkSplit (Key em) r), s3. split_and!; [|lia|].
  - unfold splitLeaf. M_run. cbn [Entries NextLeaf lf_PageID]. rewrite Hlen. change ((15 + 1) / 2)%nat with 8%nat.
    rewrite E1. wrap_ok. rewrite Erp. wrap_ok. rewrite E2. wrap_ok. rewrite Elp. wrap_ok. rewrite E3. wrap_ok.
    unfold go_index. by rewrite lookup_drop, Nat.add_0_r, Hem.
  - eexists _, {[id; r]}. split; [exact Hs3|]. split_and!.
    + intros j Hj. rewrite !lookup_insert_ne by set_solver. done.
    + intros j Hj. destruct (decide (j = id)) as [->|]; [left; set_solver|right].
      by replace j with r by set_solver.
    + set_solver.
    + destruct (sorted_kvs_drop_take es 8 Hsort) as [Hst Hsd].
      assert (∀ i j a b, es !! i = Some a → es !! j = Some b → (i < j)%nat → Key a < Key b) as Hlk.
      { intros i j a b Hi Hj Hij. eapply (StronglySorted_lookup_lt Z.lt (Key <$> es) i j);
          rewrite ?list_lookup_fmap, ?Hi, ?Hj; done. }
      rewrite Forall_forall in Hb.
      pose proof (Hb _ (list_elem_of_lookup_2 _ _ _ He0)).
      pose proof (Hb _ (list_elem_of_lookup_2 _ _ _ Hem)).
      pose proof (Hlk 0%nat 8%nat _ _ He0 Hem ltac:(lia)).
      exists r, (take 8 es), (drop 8 es), {[id]}, {[r]}. split_and!; try lia.
      * split_and!; [|done|done|done| |].
        -- split; [|by rewrite lookup_insert_eq].
           split; simpl; [lia|by apply Forall_take|rewrite length_take; node_lia|lia].
        -- apply Forall_lookup. intros i e [Hi Hlt]%lookup_take_Some.
           pose proof (Hb _ (list_elem_of_lookup_2 _ _ _ Hi)).
           pose proof (Hlk i 8%nat _ _ Hi Hem Hlt). lia.
        -- intros _ Hnil. apply (f_equal length) in Hnil. rewrite length_take in Hnil. cbn [length] in Hnil. lia.
      * split_and!; [|done|done|done| |].
        -- split; [|rewrite lookup_insert_ne by done; by rewrite lookup_insert_eq].
           split; simpl; [lia|by apply Forall_drop|rewrite length_drop; node_lia|done].
        -- apply Forall_lookup. intros i e Hi. rewrite lookup_drop in Hi.
           pose proof (Hb _ (list_elem_of_lookup_2 _ _ _ Hi)).
           destruct i as [|i]; [rewrite Nat.add_0_r in Hi; simplify_eq; lia|].
           pose proof (Hlk 8%nat _ _ _ Hem Hi ltac:(lia)). lia.
        -- intros _ Hnil. apply (f_equal length) in Hnil. rewrite length_drop in Hnil. cbn [length] in Hnil. lia.
      * by rewrite take_drop.
      * done.
      * set_solver.
Qed.

Lemma insertLeaf_ok ne s v p id es nx lo hi key val :
  ps_rep s v → leaf_at v id es nx → DecodeLeaf p = Ok (mkLeaf id es nx) →
  sorted_kvs es → Forall (λ e, lo ≤ Key e < hi) es → entry_wf (mkEntry key val) →
  lo ≤ key < hi → 0 < ps_room s →
  ∃ r s', insertLeaf p key val s = (Ok r, s') ∧ ps_room s - 1 ≤ ps_room s' ∧
    ins_post ne 0 v id lo hi id nx {[id]} (kv_insert key val es) r s'.
Proof.
  intros Hs [[Hid Hes Ho Hnx] Hl] Hdec Hsort Hb Hwf Hkey Hroom. simpl in *.
  unfold insertLeaf. M_run. rewrite Hdec. cbn [Entries NextLeaf lf_PageID].
  pose proof (kv_insert_sorted key val es Hsort) as Hsort'.
  assert (Forall entry_wf (kv_insert key val es)) as Hes' by (by apply Forall_kv_insert).
  assert (Forall (λ e, lo ≤ Key e < hi) (kv_insert key val es)) as Hb' by (by apply Forall_kv_insert).
  (* the leaf is rewritten in place *)
  assert (∀ es', es' = kv_insert key val es → (length es' ≤ LeafOrder)%nat →
    ∃ lp s', EncodeLeaf (mkLeaf id es' nx) = Ok lp ∧ ps_write lp s = (Ok tt, s') ∧
      ps_room s - 1 ≤ ps_room s' ∧ ins_post ne 0 v id lo hi id nx {[id]} es' None s') as Hput.
  { intros es' -> Hlen.
    assert (leaf_wf (mkLeaf id (kv_insert key val es) nx)) as Hlw by (by split).
    destruct (write_leaf s v id _ nx Hs Hlw) as (lp & s' & Elp & E & Hs' & Hr); [eauto|].
    exists lp, s'. split_and!; [done|done|lia|]. eexists _, {[id]}. split; [exact Hs'|].
    split_and!; [|tauto|done|split_and!; try done].
    - intros j Hj. by rewrite lookup_insert_ne by set_solver.
    - split; [done|]. by rewrite lookup_insert_eq.
    - intros _. apply kv_insert_nonempty. }
  destruct (LeafSearchKey_ok es key Hsort) as [(i & e & -> & He & Hk)|(i & -> & Hi & Hp)].
  - unfold go_index. rewrite He, Hk.
    destruct (Hput (<[i := mkEntry key val]> es)) as (lp & s' & -> & -> & Hr & Hpost).
    { by eapply kv_insert_found. }
    { by rewrite length_insert. }
    exists None, s'. split_and!; [done..|]. by erewrite <-(kv_insert_found key val es) by eauto.
  - rewrite go_insert_ok by done. rewrite (kv_insert_at key val es i Hi Hp).
    case_decide as Hlen.
    + destruct (Hput _ eq_refl Hlen) as (lp & s' & -> & -> & Hr & Hpost). eauto.
    + pose proof (length_kv_insert key val es).
      destruct (splitLeaf_ok ne s v id (kv_insert key val es) nx lo hi)
        as (sp & s' & -> & Hr & Hpost); [done|by eauto|done|done|lia|done|done|done|].
      exists (Some sp), s'. split_and!; [done|lia|done].
Qed.

Lemma rep_id ne h v id lo hi fl nx kvs fp : rep ne h v id lo hi fl nx kvs fp → id ∈ fp.
Proof. destruct h; simpl; [intros (_ & _ & -> & _)|intros (? & ? & ? & _ & _ & _ & _ & ->)]; set_solver. Qed.

Lemma forest_children (R : subtree) cs lo ks hi fl nx kvs fp :
  (∀ c lo hi fl nx kvs f, R c lo hi fl nx kvs f → c ∈ f) →
  forest R cs lo ks hi fl nx kvs fp → Forall (λ c, c ∈ fp) cs.
Proof.
  intros HR. induction 1 as [|c cs lo k ks hi fl mid nx kvs1 kvs2 fp1 fp2 H1 Hk Hd HF IH].
  - constructor; [eauto|constructor].
  - constructor; [apply elem_of_union_l; eauto|]. eapply Forall_impl; [exact IH|]. set_solver.
Qed.

Lemma forest_internal_wf ne h s v id cs lo ks hi fl nx kvs fp :
  ps_rep s v → is_Some (v !! id) → forest (rep ne h v) cs lo ks hi fl nx kvs fp →
  0 ≤ lo → hi ≤ 2 ^ 64 → (length ks ≤ InternalOrder)%nat → internal_wf (mkInternal id ks cs).
Proof.
  intros Hs [d Hd] HF Hlo Hhi Hlen. destruct (forest_keys _ _ _ _ _ _ _ _ _ HF) as (Hl & _ & Hks).
  split; simpl; [| | |done|lia].
  - destruct (ps_rep_wf s v id _ Hs Hd). lia.
  - eapply Forall_impl; [exact Hks|]. simpl. lia.
  - eapply Forall_impl; [eapply forest_children; [|exact HF]; intros; by eapply rep_id|].
    simpl. intros c Hc.
    assert (fp ⊆ dom v) as Hdom.
    { eapply (forest_ind_fp _ (λ f, (f ⊆ dom v))); [|intros; by eapply rep_dom|exact HF].
      intros f1 f2. set_solver +. }
    apply Hdom, elem_of_dom in Hc as [dc Hdc].
    destruct (ps_rep_wf s v c _ Hs Hdc). lia.
Qed.

Lemma ins_post_trans ne h v v1 id lo hi fl nx fp fp1 kvs r s' :
  (∀ j, j ∉ fp1 → v1 !! j = v !! j) → (∀ j, j ∈ fp1 → j ∈ fp ∨ v !! j = None) → fp ⊆ fp1 →
  ins_post ne h v1 id lo hi fl nx fp1 kvs r s' → ins_post ne h v id lo hi fl nx fp kvs r s'.
Proof.
  intros H1 H2 H3 (v' & fp' & Hs & H4 & H5 & H6 & H). exists v', fp'. split_and!; [done| | | |done].
  - intros j Hj. rewrite H4 by done. apply H1. set_solver +Hj H6.
  - intros j Hj. destruct (decide (j ∈ fp1)) as [?|Hn]; [by apply H2|].
    destruct (H5 j Hj) as [?|Hv]; [done|]. right. by rewrite <-H1.
  - set_solver +H3 H6.
Qed.

Lemma splitInternal_ok ne h s v id ks cs lo hi fl nx kvs fp :
  ps_rep s v → is_Some (v !! id) → id ∉ fp → forest (rep ne h v) cs lo ks hi fl nx kvs fp →
  0 ≤ lo → hi ≤ 2 ^ 64 → length ks = (InternalOrder + 1)%nat → fp ⊆ dom v → 0 < ps_room s →
  ∃ sp s', splitInternal (mkInternal id ks cs) s = (Ok (Some sp), s') ∧ ps_room s' = ps_room s - 1 ∧
    ins_post ne (Datatypes.S h) v id lo hi fl nx ({[id]} ∪ fp) kvs (Some sp) s'.
Proof.
  intros Hs Hin Hid HF Hlo Hhi Hlen Hdom Hroom. pose proof InternalOrder_val as HI.
  set (m := (length ks / 2)%nat).
  assert (0 < m ∧ m + 1 < length ks)%nat as [Hm0 Hm1].
  { pose proof (Nat.div_mod_eq (length ks) 2). pose proof (Nat.mod_upper_bound (length ks) 2). lia. }
  assert (m < length ks)%nat as Hm by lia.
  destruct (lookup_lt_is_Some_2 ks m Hm) as [k Hk].
  destruct (forest_keys _ _ _ _ _ _ _ _ _ HF) as (Hcs & _ & _).
  destruct (forest_split _ _ _ _ _ _ _ _ _ m k HF Hk)
    as (mid & kvs1 & kvs2 & fp1 & fp2 & HF1 & HF2 & Hkvs & Hfp & Hd & Hkk).
  destruct (ps_alloc_spec s v Hs Hroom) as (r & s1 & E1 & Hr & Hs1 & Hr1).
  assert (r ≠ id) as Hne by (destruct Hin; congruence).
  assert (∀ f d, f ⊆ fp → ∀ j, j ∈ f → <[r := d]> v !! j = v !! j) as Hfr1.
  { intros f d Hf j Hj. rewrite lookup_insert_ne; [done|]. intros ->.
    assert (j ∈ dom v) as []%elem_of_dom by set_solver +Hf Hj Hdom. congruence. }
  destruct (write_internal s1 _ r (drop (m + 1) ks) (drop (m + 1) cs) Hs1) as (rp & s2 & Erp & E2 & Hs2 & Hr2).
  { eapply (forest_internal_wf ne h s1 _ _ _ k _ hi); [exact Hs1|rewrite lookup_insert_eq; eauto| |lia|done|].
    - eapply forest_mono; [|exact HF2]. intros ? ? ? ? ? ? f Hf. apply rep_frame.
      apply Hfr1. set_solver +Hf Hfp.
    - rewrite length_drop. lia. }
  { rewrite lookup_insert_eq. eauto. }
  set (v2 := <[r := internal_data _]> _) in Hs2.
  assert (∀ f, f ⊆ fp → ∀ j, j ∈ f → v2 !! j = v !! j) as Hfr2.
  { intros f Hf j Hj. unfold v2. rewrite insert_insert_eq. by eapply Hfr1. }
  assert (is_Some (v2 !! id)) as Hin2.
  { unfold v2. by rewrite !lookup_insert_ne by done. }
  destruct (write_internal s2 v2 id (take m ks) (take (m + 1) cs) Hs2) as (lp & s3 & Elp & E3 & Hs3 & Hr3).
  { eapply (forest_internal_wf ne h s2 _ _ _ lo _ k); [exact Hs2|done| |done|lia|].
    - eapply forest_mono; [|exact HF1]. intros ? ? ? ? ? ? f Hf. apply rep_frame.
      apply Hfr2. set_solver +Hf Hfp.
    - rewrite length_take. lia. }
  { done. }
  set (v3 := <[id := _]> v2) in Hs3.
  assert (∀ f, f ⊆ fp → ∀ j, j ∈ f → v3 !! j = v !! j) as Hfr3.
  { intros f Hf j Hj. unfold v3. rewrite lookup_insert_ne by (intros ->; set_solver +Hf Hj Hid).
    by eapply Hfr2. }
  assert (r ∉ fp) as Hrfp by (intros Hx%Hdom%elem_of_dom; destruct Hx; congruence).
  exists (mkSplit k r), s3. split_and!; [|lia|].
  - unfold splitInternal. M_run. cbn [Keys Children in_PageID]. fold m.
    unfold go_index. rewrite Hk, E1. wrap_ok. rewrite Erp. wrap_ok. rewrite E2. wrap_ok.
    rewrite Elp. wrap_ok. rewrite E3. done.
  - exists v3, ({[id; r]} ∪ fp). split; [exact Hs3|]. split_and!.
    + intros j Hj. unfold v3, v2. rewrite !lookup_insert_ne by set_solver +Hj. done.
    + intros j Hj. destruct (decide (j = r)) as [->|]; [by right|left; set_solver +Hj n].
    + set_solver +.
    + exists mid, kvs1, kvs2, ({[id]} ∪ fp1), ({[r]} ∪ fp2). split_and!; try lia.
      * exists (take m ks), (take (m + 1) cs), fp1. split_and!; [| | |set_solver +Hid Hfp|done].
        -- split; [|apply lookup_insert_eq].
           eapply (forest_internal_wf ne h s2 v2 _ _ lo _ k); [done|done| |done|lia|rewrite length_take; lia].
           eapply forest_mono; [|exact HF1]. intros ? ? ? ? ? ? f Hf. apply rep_frame.
           apply Hfr2. set_solver +Hf Hfp.
        -- intros Hnil. apply (f_equal length) in Hnil. rewrite length_take in Hnil. cbn [length] in Hnil. lia.
        -- eapply forest_mono; [|exact HF1]. intros ? ? ? ? ? ? f Hf. apply rep_frame.
           apply Hfr3. set_solver +Hf Hfp.
      * exists (drop (m + 1) ks), (drop (m + 1) cs), fp2. split_and!; [| | |set_solver +Hrfp Hfp|done].
        -- split; [|unfold v3, v2; rewrite lookup_insert_ne by done; apply lookup_insert_eq].
           eapply (forest_internal_wf ne h s2 v2 _ _ k _ hi); [done|unfold v2; rewrite lookup_insert_eq; eauto| |lia|done|rewrite length_drop; lia].
           eapply forest_mono; [|exact HF2]. intros ? ? ? ? ? ? f Hf. apply rep_frame.
           apply Hfr2. set_solver +Hf Hfp.
        -- intros Hnil. apply (f_equal length) in Hnil. rewrite length_drop in Hnil. cbn [length] in Hnil. lia.
        -- eapply forest_mono; [|exact HF2]. intros ? ? ? ? ? ? f Hf. apply rep_frame.
           apply Hfr3. set_solver +Hf Hfp.
      * done.
      * rewrite Hfp. clear. set_solver.
      * set_solver +Hd Hne Hid Hrfp Hfp.
Qed.

Lemma forest_dom ne h v cs lo ks hi fl nx kvs fp :
  forest (rep ne h v) cs lo ks hi fl nx kvs fp → fp ⊆ dom v.
Proof.
  intros HF. eapply (forest_ind_fp _ (λ f, (f ⊆ dom v))); [|intros; by eapply rep_dom|exact HF].
  intros f1 f2. set_solver +.
Qed.

(** Rewriting an internal node after a child split, in place or with a split of
    its own. *)
Lemma grow_internal_ok ne h s v id ks cs lo hi fl nx kvs fp :
  ps_rep s v → is_Some (v !! id) → id ∉ fp → forest (rep ne h v) cs lo ks hi fl nx kvs fp →
  0 ≤ lo → hi ≤ 2 ^ 64 → ks ≠ [] → (length ks ≤ InternalOrder + 1)%nat → 0 < ps_room s →
  ∃ r s', (if decide (length ks ≤ InternalOrder)%nat then
             np ← lift (EncodeInternal (mkInternal id ks cs)); _ ← ps_write np; mret None
           else splitInternal (mkInternal id ks cs)) s = (Ok r, s') ∧
    ps_room s - 1 ≤ ps_room s' ∧
    ins_post ne (Datatypes.S h) v id lo hi fl nx ({[id]} ∪ fp) kvs r s'.
Proof.
  intros Hs Hin Hid HF Hlo Hhi Hnil Hlen Hroom. case_decide as Hc.
  - assert (internal_wf (mkInternal id ks cs)) as Hwf by (by eapply forest_internal_wf).
    destruct (write_internal s v id ks cs Hs Hwf Hin) as (np & s' & Enp & E & Hs' & Hr').
    exists None, s'. M_run. rewrite Enp, E. split_and!; [done|lia|].
    eexists _, ({[id]} ∪ fp). split; [exact Hs'|]. split_and!; [|tauto|done|].
    + intros j Hj. by rewrite lookup_insert_ne by set_solver +Hj.
    + exists ks, cs, fp. split_and!; [|done|eapply forest_mono; [|exact HF]|done|done].
      * split; [done|]. by rewrite lookup_insert_eq.
      * intros ? ? ? ? ? ? f Hf. apply rep_frame. intros j Hj.
        rewrite lookup_insert_ne; [done|]. intros ->. set_solver +Hj Hf Hid.
  - destruct (splitInternal_ok ne h s v id ks cs lo hi fl nx kvs fp) as (sp & s' & E & Hr & Hpost);
      [done..|lia|by eapply forest_dom|done|]. exists (Some sp), s'. split_and!; [done|lia|done].
Qed.

Lemma insertNode_ok ne ne' h s v id lo hi fl nx kvs fp key val fuel :
  ne' = ne ∨ h = 0%nat → ps_rep s v → rep ne h v id lo hi fl nx kvs fp → entry_wf (mkEntry key val) →
  0 ≤ lo → hi ≤ 2 ^ 64 → lo ≤ key < hi → Z.of_nat h < ps_room s → (h < fuel)%nat →
  ∃ r s', insertNode fuel id key val s = (Ok r, s') ∧ ps_room s - (Z.of_nat h + 1) ≤ ps_room s' ∧
    ins_post ne' h v id lo hi fl nx fp (kv_insert key val kvs) r s'.
Proof.
  revert ne' s v id lo hi fl nx kvs fp fuel.
  induction h as [|h IH]; intros ne' s v id lo hi fl nx kvs fp fuel Hne Hs Hrep Hwf Hlo Hhi Hkey Hroom Hfuel;
    (destruct fuel as [|fuel]; [lia|]); cbn [insertNode].
  - destruct Hrep as (Hleaf & -> & -> & Hsort & Hb & _).
    destruct (read_leaf s v id kvs nx Hs Hleaf) as (p & s1 & E & Hs1 & Hr1 & Hty & Hdec).
    M_run. rewrite E. wrap_ok. rewrite Hty, decide_True by done.
    destruct (insertLeaf_ok ne' s1 v p id kvs nx lo hi key val) as (r & s' & E' & Hr & Hpost);
      [done..|lia|]. exists r, s'. split_and!; [exact E'|lia|done].
  - destruct Hne as [->|?]; [|done]. destruct Hrep as (ks & cs & fp' & Hint & Hnil & HF & Hid & ->).
    destruct (read_internal s v id ks cs Hs Hint) as (p & s1 & E & Hs1 & Hr1 & Hty & Hdec).
    M_run. rewrite E. wrap_ok. rewrite Hty. rewrite decide_False by done. rewrite decide_True by done.
    destruct (forest_keys _ _ _ _ _ _ _ _ _ HF) as (Hcs & Hsk & Hks).
    destruct (FindChildIndex_ok ks key Hsk) as (i & Ei & Hi & Hidx).
    destruct (forest_focus (rep ne h v) cs lo ks hi fl nx kvs fp' key i)
      as (c & clo & chi & cfl & cnx & ckvs & cfp & pre & post & fpo & Hclo & Hchi & Hfo);
      [intros; by eapply rep_kvs|done..|].
    destruct Hfo as [F1 F2 F3 F4 F5 F6 F7 F8 F9 F10 _].
    destruct (IH ne s1 v c clo chi cfl cnx ckvs cfp fuel) as (r & s2 & E2 & Hr2 & v2 & cfp2 & Hs2 & G1 & G2 & G3 & G4);
      [by left|done..|lia|lia|lia|lia|lia|].
    unfold insertInternal. M_run. rewrite Hdec. cbn [Keys Children in_PageID]. rewrite Ei.
    unfold go_index at 1. rewrite F1, E2.
    assert (kv_insert key val kvs = pre ++ kv_insert key val ckvs ++ post) as Hkvs.
    { rewrite F4. apply kv_insert_app; (eapply Forall_impl; [done|]; simpl; lia). }
    pose proof (rep_dom _ _ _ _ _ _ _ _ _ _ F2) as Hcdom. pose proof (forest_dom _ _ _ _ _ _ _ _ _ _ _ HF) as Hfdom.
    assert (is_Some (v !! id)) as Hidv by (destruct Hint as [_ Hl]; eauto).
    assert (∀ j, j ∈ dom v → j ∉ cfp → j ∉ cfp2) as Hold.
    { intros j Hj Hnj Hin. destruct (G2 j Hin) as [?|Hv]; [done|]. by apply not_elem_of_dom in Hv. }
    assert (cfp2 ## fpo) as Hdisj.
    { intros j Hj Hjo. apply (Hold j); [set_solver +Hfdom F5 Hjo|set_solver +F6 Hjo|done]. }
    assert (id ∉ cfp2 ∪ fpo) as Hid2.
    { apply not_elem_of_union. split; [|set_solver +Hid F5]. apply Hold; [by apply elem_of_dom|set_solver +Hid F5]. }
    assert (∀ c lo hi fl nx kvs f, f ⊆ fpo → rep ne h v c lo hi fl nx kvs f → rep ne h v2 c lo hi fl nx kvs f) as Hmono.
    { intros ? ? ? ? ? ? f Hf. apply rep_frame. intros j Hj. apply G1. set_solver +Hj Hf Hdisj. }
    assert (v2 !! id = v !! id) as Hidv2 by (apply G1; set_solver +Hid2).
    assert (∀ j, j ∉ {[id]} ∪ (cfp2 ∪ fpo) → v2 !! j = v !! j) as T1 by (intros j Hj; apply G1; set_solver +Hj).
    assert (∀ j, j ∈ {[id]} ∪ (cfp2 ∪ fpo) → j ∈ {[id]} ∪ fp' ∨ v !! j = None) as T2.
    { intros j Hj. destruct (decide (j ∈ cfp2)) as [Hc|Hc]; [|left; set_solver +Hj Hc F5].
      destruct (G2 j Hc); [left; set_solver +H F5|by right]. }
    assert ({[id]} ∪ fp' ⊆ {[id]} ∪ (cfp2 ∪ fpo)) as T3 by (set_solver +F5 G3).
    destruct r as [[k r]|].
    + destruct G4 as (mid & kvs1 & kvs2 & f1 & f2 & Hk & R1 & R2 & Heq & -> & Hd12).
      rewrite !go_insert_ok by lia. M_run.
      pose proof (F10 (rep ne h v2) k r mid kvs1 kvs2 f1 f2 Hmono R1 R2 Hk Hd12 Hdisj) as HF'.
      rewrite <-Heq, <-Hkvs in HF'.
      destruct (grow_internal_ok ne h s2 v2 id (insert_at i k ks) (insert_at (i + 1) r cs) lo hi fl nx
        (kv_insert key val kvs) (f1 ∪ f2 ∪ fpo)) as (r' & s' & E3 & Hr3 & Hpost);
        [done|by rewrite Hidv2|done|done|done|done| | |lia|].
      { by intros Hx%(f_equal length); rewrite length_insert_at in Hx. }
      { rewrite length_insert_at. destruct Hint as [[_ _ _ Ho _] _]. simpl in Ho. lia. }
      exists r', s'. split_and!; [exact E3|lia|]. by eapply ins_post_trans.
    + exists None, s2. split_and!; [done|lia|].
      pose proof (F9 (rep ne h v2) _ cfp2 Hmono G4 Hdisj) as HF'. rewrite <-Hkvs in HF'.
      exists v2, ({[id]} ∪ (cfp2 ∪ fpo)). split_and!; [done..|].
      exists ks, cs, (cfp2 ∪ fpo). split_and!; [|done|done|done|done].
      destruct Hint as [Hiwf Hl]. split; [done|]. by rewrite Hidv2.
Qed.

Lemma rep_weaken ne h v id lo hi fl nx kvs fp :
  rep ne h v id lo hi fl nx kvs fp → rep false h v id lo hi fl nx kvs fp.
Proof.
  revert id lo hi fl nx kvs fp. induction h as [|h IH]; intros id lo hi fl nx kvs fp; simpl.
  { intros (? & ? & ? & ? & ? & _). split_and!; done. }
  intros (ks & cs & fp' & ? & ? & HF & ? & ?). exists ks, cs, fp'. split_and!; [done|done| |done|done].
  eapply forest_mono; [|exact HF]. eauto.
Qed.

Lemma deleteInNode_ok ne h s v id lo hi fl nx kvs fp key fuel :
  ps_rep s v → rep ne h v id lo hi fl nx kvs fp → lo ≤ key < hi → (h < fuel)%nat →
  ∃ s' v', deleteInNode fuel id key s = (Ok (bool_decide (is_Some (kv_map kvs !! key))), s') ∧
    ps_rep s' v' ∧ ps_room s' = ps_room s ∧ (∀ j, j ∉ fp → v' !! j = v !! j) ∧
    rep false h v' id lo hi fl nx (kv_delete key kvs) fp.
Proof.
  revert s id lo hi fl nx kvs fp fuel.
  induction h as [|h IH]; intros s id lo hi fl nx kvs fp fuel Hs Hrep Hkey Hfuel;
    (destruct fuel as [|fuel]; [lia|]); cbn [deleteInNode].
  - destruct Hrep as (Hleaf & -> & -> & Hsort & Hb & _).
    destruct (read_leaf s v id kvs nx Hs Hleaf) as (p & s1 & E & Hs1 & Hr1 & Hty & Hdec).
    M_run. rewrite E. wrap_ok. rewrite Hty, decide_True by done. rewrite Hdec. wrap_ok.
    cbn [Entries NextLeaf lf_PageID].
    destruct Hleaf as [[Hid Hes Ho Hnx] Hl]. simpl in *.
    destruct (LeafSearchKey_ok kvs key Hsort) as [(i & e & -> & He & Hk)|(i & -> & Hi & Hp)].
    + rewrite (kv_delete_found key kvs i e) by done.
      assert (Forall (λ e, e ∈ kvs) (kv_delete key kvs)) as Hsub.
      { apply Forall_forall. intros e' [_ ?]%list_elem_of_filter. done. }
      assert (leaf_wf (mkLeaf id (kv_delete key kvs) nx)) as Hlw.
      { rewrite Forall_forall in Hes. split; simpl; [done| | |done].
        - eapply Forall_impl; [exact Hsub|]. eauto.
        - unfold kv_delete. pose proof (length_filter (λ e, Key e ≠ key) kvs). lia. }
      destruct (write_leaf s1 v id _ nx Hs1 Hlw) as (lp & s' & -> & E2 & Hs2 & Hr2); [eauto|].
      wrap_ok. rewrite E2. eexists _, _. split; [|split; [exact Hs2|split; [lia|split]]].
      * f_equal. f_equal. apply bool_decide_of. split; [intros _|done]. exists (Value e).
        apply kv_map_lookup; [done|]. apply list_elem_of_lookup_2 in He. by destruct e; simpl in *; subst.
      * intros j Hj. by rewrite lookup_insert_ne by set_solver +Hj.
      * split_and!; try done.
        -- split; [done|]. apply lookup_insert_eq.
        -- by apply kv_delete_sorted.
        -- rewrite Forall_forall in Hb. eapply Forall_impl; [exact Hsub|]. eauto.
    + assert (∀ val, mkEntry key val ∉ kvs) as Hno.
      { intros val [j Hj]%list_elem_of_lookup_1. by destruct (Hp j _ Hj). }
      eexists _, v. split; [|split; [exact Hs1|split; [lia|split; [done|]]]].
      * f_equal. f_equal. apply bool_decide_of. split; [done|]. intros [val Hv]. apply kv_map_lookup in Hv; [|done].
        by apply Hno in Hv.
      * assert (kv_delete key kvs = kvs) as ->.
        { apply filter_all, Forall_forall. intros [k val] Hin Hk. simpl in Hk. subst k. by apply (Hno val). }
        split_and!; done.
  - destruct Hrep as (ks & cs & fp' & Hint & Hnil & HF & Hid & ->).
    destruct (read_internal s v id ks cs Hs Hint) as (p & s1 & E & Hs1 & Hr1 & Hty & Hdec).
    M_run. rewrite E. wrap_ok. rewrite Hty. rewrite decide_False by done. rewrite decide_True by done.
    destruct (forest_keys _ _ _ _ _ _ _ _ _ HF) as (Hcs & Hsk & Hks).
    destruct (FindChildIndex_ok ks key Hsk) as (i & Ei & Hi & Hidx).
    destruct (forest_focus (rep ne h v) cs lo ks hi fl nx kvs fp' key i)
      as (c & clo & chi & cfl & cnx & ckvs & cfp & pre & post & fpo & Hclo & Hchi & Hfo);
      [intros; by eapply rep_kvs|done..|].
    destruct Hfo as [F1 F2 F3 F4 F5 F6 F7 F8 F9 _ _].
    rewrite Hdec. wrap_ok. cbn [Keys Children]. rewrite Ei. unfold go_index. rewrite F1.
    destruct (IH s1 c clo chi cfl cnx ckvs cfp fuel Hs1 F2 F3 ltac:(lia))
      as (s2 & v2 & -> & Hs2 & Hr2 & G1 & G2).
    assert (Forall (λ e, Key e < key) pre) as Hpre by (eapply Forall_impl; [done|]; simpl; lia).
    assert (Forall (λ e, key < Key e) post) as Hpost by (eapply Forall_impl; [done|]; simpl; lia).
    destruct (rep_kvs _ _ _ _ _ _ _ _ _ _ F2) as [Hcs' _].
    assert (sorted_kvs kvs) as Hskvs.
    { eapply (forest_kvs (rep ne h v)); [|exact HF]. intros; by eapply rep_kvs. }
    exists s2, v2. split_and!; [|done|lia| |].
    + f_equal. f_equal. apply bool_decide_ext. rewrite !is_Some_alt.
      assert (∀ val, kv_map ckvs !! key = Some val ↔ kv_map kvs !! key = Some val) as Hiff.
      { intros val. rewrite !kv_map_lookup by done. rewrite F4, !elem_of_app.
        rewrite Forall_forall in Hpre, Hpost. split; [tauto|]. intros [Hx|[?|Hx]]; [|done|].
        - apply Hpre in Hx. simpl in Hx. lia.
        - apply Hpost in Hx. simpl in Hx. lia. }
      by replace (kv_map ckvs !! key) with (kv_map kvs !! key) by (apply option_eq; intros; by rewrite Hiff).
    + intros j Hj. apply G1. set_solver +Hj F5.
    + exists ks, cs, fp'. split_and!; [|done| |done|done].
      * destruct Hint as [Hiw Hl]. split; [done|]. rewrite G1; [done|set_solver +Hid F5].
      * rewrite F4, kv_delete_app by done. rewrite F5. apply F9; [|done|done].
        intros ? ? ? ? ? ? f Hf HR. apply rep_weaken in HR. eapply rep_frame; [|done].
        intros j Hj. apply G1. set_solver +Hf Hj F6.
Qed.

Lemma search_loop_ok ne h s v id lo hi fl nx kvs fp key fuel :
  ps_rep s v → rep ne h v id lo hi fl nx kvs fp → lo ≤ key < hi → (h < fuel)%nat →
  ∃ s', search_loop fuel id key s = (Ok (kv_map kvs !! key), s') ∧
    ps_rep s' v ∧ ps_room s' = ps_room s.
Proof.
  revert s id lo hi fl nx kvs fp fuel.
  induction h as [|h IH]; intros s id lo hi fl nx kvs fp fuel Hs Hrep Hkey Hfuel;
    (destruct fuel as [|fuel]; [lia|]); cbn [search_loop].
  - destruct Hrep as (Hleaf & -> & -> & Hsort & Hb & _).
    destruct (read_leaf s v id kvs nx Hs Hleaf) as (p & s1 & E & Hs1 & Hr1 & Hty & Hdec).
    M_run. rewrite E. wrap_ok. rewrite Hty, decide_True by done. rewrite Hdec. cbn [Entries].
    destruct (LeafSearchKey_ok kvs key Hsort) as [(i & e & -> & He & Hk)|(i & -> & Hi & Hp)].
    + unfold go_index. rewrite He. exists s1. split; [|done]. f_equal. f_equal. symmetry.
      apply kv_map_lookup; [done|]. apply list_elem_of_lookup_2 in He. by destruct e; simpl in *; subst.
    + exists s1. split; [|done]. f_equal. f_equal. symmetry. apply eq_None_not_Some. intros [val Hv].
      apply kv_map_lookup in Hv as [j Hj]%list_elem_of_lookup_1; [|done]. by destruct (Hp j _ Hj).
  - destruct Hrep as (ks & cs & fp' & Hint & Hnil & HF & Hid & ->).
    destruct (read_internal s v id ks cs Hs Hint) as (p & s1 & E & Hs1 & Hr1 & Hty & Hdec).
    M_run. rewrite E. wrap_ok. rewrite Hty. rewrite decide_False by done. rewrite decide_True by done.
    destruct (forest_keys _ _ _ _ _ _ _ _ _ HF) as (Hcs & Hsk & Hks).
    destruct (FindChildIndex_ok ks key Hsk) as (i & Ei & Hi & Hidx).
    destruct (forest_focus (rep ne h v) cs lo ks hi fl nx kvs fp' key i)
      as (c & clo & chi & cfl & cnx & ckvs & cfp & pre & post & fpo & Hclo & Hchi & Hfo);
      [intros; by eapply rep_kvs|done..|].
    destruct Hfo as [F1 F2 F3 F4 F5 F6 F7 F8 _ _ _].
    rewrite Hdec. cbn [Keys Children]. rewrite Ei. unfold go_index. rewrite F1.
    destruct (IH s1 c clo chi cfl cnx ckvs cfp fuel Hs1 F2 F3 ltac:(lia)) as (s2 & -> & Hs2 & Hr2).
    exists s2. split_and!; [|done|lia]. f_equal. f_equal. apply option_eq. intros val.
    destruct (rep_kvs _ _ _ _ _ _ _ _ _ _ F2) as [Hcs' _].
    assert (sorted_kvs kvs) as Hskvs.
    { eapply (forest_kvs (rep ne h v)); [|exact HF]. intros; by eapply rep_kvs. }
    rewrite !kv_map_lookup by done. rewrite F4, !elem_of_app. rewrite Forall_forall in F7, F8.
    split; [tauto|]. intros [Hx|[?|Hx]]; [|done|].
    + apply F7 in Hx. simpl in Hx. lia.
    + apply F8 in Hx. simpl in Hx. lia.
Qed.

Lemma scan_chain_ok s v n a kvs lo hi fuel :
  ps_rep s v → chain v n a 0 kvs → sorted_kvs kvs → (n ≤ fuel)%nat →
  ∃ s', scan_chain fuel a lo hi s = (Ok (kv_range lo hi kvs), s') ∧ ps_rep s' v ∧ ps_room s' = ps_room s.
Proof.
  intros Hs Hc. remember 0 as z eqn:Hz. revert s fuel Hs Hz.
  induction Hc as [a|n a es b c kvs Hl Hc IH]; intros s fuel Hs -> Hsort Hfuel.
  - exists s. destruct fuel; done.
  - destruct fuel as [|fuel]; [lia|]. cbn [scan_chain].
    destruct (ps_rep_wf s v a _ Hs (proj2 Hl)) as [Ha _]. rewrite decide_False by lia.
    destruct (read_leaf s v a es b Hs Hl) as (p & s1 & E & Hs1 & Hr1 & _ & Hdec).
    M_run. rewrite E. wrap_ok. rewrite Hdec. cbn [Entries NextLeaf].
    pose proof Hsort as Hsort'. rewrite fmap_app in Hsort. apply StronglySorted_app in Hsort as (Hx & He & Hk).
    destruct (scan_entries_ok es lo hi He) as (d & -> & Hd).
    assert (kv_range lo hi (es ++ kvs) = kv_range lo hi es ++ kv_range lo hi kvs) as -> by apply filter_app.
    destruct d.
    + destruct Hd as (e & Hin & Hlt); [done|]. exists s1. split_and!; [|done|done].
      assert (kv_range lo hi kvs = []) as ->; [|by rewrite app_nil_r].
      apply filter_none, Forall_forall. intros e' Hin'.
      assert (Key e < Key e'); [|lia]. apply Hx; by apply list_elem_of_fmap_2.
    + destruct (IH s1 fuel Hs1 eq_refl Hk ltac:(lia)) as (s2 & -> & Hs2 & Hr2).
      exists s2. split_and!; [done|done|lia].
Qed.

(** Going down to a key reaches a leaf of the chain; everything before it is
    smaller than the key. *)
Lemma scan_descend_ok ne h s v id lo hi fl nx kvs fp key fuel :
  ps_rep s v → rep ne h v id lo hi fl nx kvs fp → lo ≤ key < hi → (h < fuel)%nat →
  ∃ l s' pre kvs' f, scan_descend fuel id key s = (Ok l, s') ∧ ps_rep s' v ∧ ps_room s' = ps_room s ∧
    kvs = pre ++ kvs' ∧ Forall (λ e, Key e < key) pre ∧ chained v l nx kvs' f ∧ f ⊆ fp.
Proof.
  revert s id lo hi fl nx kvs fp fuel.
  induction h as [|h IH]; intros s id lo hi fl nx kvs fp fuel Hs Hrep Hkey Hfuel;
    (destruct fuel as [|fuel]; [lia|]); cbn [scan_descend].
  - pose proof (rep_chained ne 0 v _ _ _ _ _ _ _ Hrep) as Hch.
    destruct Hrep as (Hleaf & -> & -> & Hsort & Hb & _).
    destruct (read_leaf s v id kvs nx Hs Hleaf) as (p & s1 & E & Hs1 & Hr1 & Hty & Hdec).
    M_run. rewrite E. wrap_ok. rewrite Hty, decide_True by done.
    exists id, s1, [], kvs, {[id]}. split_and!; try done.
  - destruct Hrep as (ks & cs & fp' & Hint & Hnil & HF & Hid & ->).
    destruct (read_internal s v id ks cs Hs Hint) as (p & s1 & E & Hs1 & Hr1 & Hty & Hdec).
    M_run. rewrite E. wrap_ok. rewrite Hty. rewrite decide_False by done.
    destruct (forest_keys _ _ _ _ _ _ _ _ _ HF) as (Hcs & Hsk & Hks).
    destruct (FindChildIndex_ok ks key Hsk) as (i & Ei & Hi & Hidx).
    destruct (forest_focus (rep ne h v) cs lo ks hi fl nx kvs fp' key i)
      as (c & clo & chi & cfl & cnx & ckvs & cfp & pre & post & fpo & Hclo & Hchi & Hfo);
      [intros; by eapply rep_kvs|done..|].
    destruct Hfo as [F1 F2 F3 F4 F5 F6 F7 F8 _ _ F11].
    rewrite Hdec. cbn [Keys Children]. rewrite Ei. unfold go_index. rewrite F1.
    destruct (IH s1 c clo chi cfl cnx ckvs cfp fuel Hs1 F2 F3 ltac:(lia))
      as (l & s2 & pre' & kvs' & f & -> & Hs2 & Hr2 & Hk & Hpre & Hch & Hf).
    destruct (F11 (chained v)) as (ft & Hft & Hch'); [apply chained_nil|intros; by eapply rep_chained|apply chained_app|].
    exists l, s2, (pre ++ pre'), (kvs' ++ post), (f ∪ ft). split_and!; [done|done|lia| | | |].
    + rewrite F4, Hk. by rewrite <-!(assoc_L (++)).
    + apply Forall_app. split; [|done]. eapply Forall_impl; [done|]. simpl. lia.
    + eapply chained_app; [done|done|]. set_solver +Hf Hft F6.
    + set_solver +Hf Hft F5.
Qed.
End spec.

(** ** Trees *)
Section tree.
Context {S : Type} {PS : PageStore S} {PSS : PageStoreSpec S}.
Implicit Types (bt : BTree S).

Definition header_data (root : Z) : list byte := put_u32 4 root (put_u32 0 headerMagic (zeros DataSize)).

(** The tree holds the entries [kvs], and its header page names its root. *)
Definition tree_rep (ne : bool) bt (h : nat) (kvs : list Entry) : Prop :=
  ∃ v fl fp, ps_rep (pg bt) v ∧ rep ne h v (rootID bt) 0 (2 ^ 64) fl 0 kvs fp ∧
    headerPage bt ∉ fp ∧ v !! headerPage bt = Some (header_data (rootID bt)).

Lemma size_ids (X : gset Z) n : (∀ x, x ∈ X → 0 < x < n) → 1 ≤ n → Z.of_nat (size X) ≤ n - 1.
Proof.
  intros HX Hn.
  assert (X ⊆ list_to_set (seqZ 1 (n - 1))) as Hsub.
  { intros x Hx. apply elem_of_list_to_set, elem_of_seqZ. specialize (HX x Hx). lia. }
  apply subseteq_size in Hsub. rewrite size_list_to_set in Hsub by apply NoDup_seqZ.
  rewrite length_seqZ in Hsub. lia.
Qed.

(** A store has fewer than [2^32] pages, so no tree is higher than 31. *)
Lemma rep_bounds ne h s v id lo hi fl nx kvs fp :
  ps_rep s v → rep ne h v id lo hi fl nx kvs fp → (h < 32)%nat ∧ Z.of_nat (size fp) < 2 ^ 32.
Proof.
  intros Hs Hrep. assert (Z.of_nat (size fp) ≤ 2 ^ 32 - 1) as Hsz.
  { apply size_ids; [|lia]. intros x Hx. apply (rep_dom _ _ _ _ _ _ _ _ _ _ Hrep), elem_of_dom in Hx as [d Hd].
    by destruct (ps_rep_wf s v x d Hs Hd). }
  split; [|lia]. pose proof (rep_height _ _ _ _ _ _ _ _ _ _ Hrep) as Hh.
  destruct (decide (h < 32)%nat) as [|Hge]; [done|].
  assert (2 ^ 33 ≤ 2 ^ Datatypes.S h)%nat as Hp by (apply Nat.pow_le_mono_r; lia).
  apply Nat2Z.inj_le in Hp. rewrite !Nat2Z.inj_pow in Hp. apply Nat2Z.inj_le in Hh.
  rewrite Nat2Z.inj_pow in Hh. change (Z.of_nat 2 ^ Z.of_nat 33) with (2 ^ 33) in Hp. lia.
Qed.

Lemma header_data_ok root : is_u32 root →
  get_u32 0 (header_data root) = headerMagic ∧ get_u32 4 (header_data root) = root ∧
  length (header_data root) = DataSize.
Proof.
  intros Hr. assert (header_data root = le_enc 4 headerMagic ++ le_enc 4 root ++ zeros (DataSize - 4 - 4)) as ->.
  { unfold header_data, put_u32. rewrite put_zeros_0, put_zeros_app by (rewrite ?length_le_enc; node_lia).
    by rewrite <-app_assoc, !length_le_enc. }
  unfold get_u32. split_and!.
  - unfold slice. rewrite drop_0, take_app_length' by by rewrite length_le_enc. by apply le_dec_enc_small.
  - rewrite (slice_app_mid 4) by by rewrite length_le_enc. by apply le_dec_enc_small.
  - rewrite !length_app, !length_le_enc, length_zeros. node_lia.
Qed.
#[local] Opaque header_data.

Lemma flushHeader_ok (s : S) v hd root :
  ps_rep s v → is_Some (v !! hd) → is_u32 root →
  ∃ s', flushHeader hd root s = (Ok tt, s') ∧ ps_rep s' (<[hd := header_data root]> v) ∧
    ps_room s' = ps_room s.
Proof.
  intros Hs [d Hd] Hr. destruct (ps_rep_wf s v hd d Hs Hd) as [Hhd _].
  destruct (header_data_ok root Hr) as (_ & _ & Hl).
  unfold flushHeader. cbv zeta. change (put_u32 4 root _) with (header_data root).
  destruct (ps_write_spec s v (mkPage (Header (NewPage hd PageTypeData)) (header_data root)) Hs)
    as (s' & E & Hs' & Hr'); [|simpl; eauto|eauto].
  pose proof (NewPage_data_wf hd ltac:(lia)) as [? ? ? ? ? ? ? _]. by split.
Qed.

Lemma Create_ok (s : S) v :
  ps_rep s v → 2 ≤ ps_room s →
  ∃ hd root s', Create s = (Ok (hd, root), s') ∧ tree_rep false (mkBTree s' hd root) 0 [] ∧
    ps_room s' = ps_room s - 2.
Proof.
  intros Hs Hroom.
  destruct (ps_alloc_spec s v Hs ltac:(lia)) as (hd & s1 & E1 & Hhd & Hs1 & Hr1).
  destruct (ps_alloc_spec s1 _ Hs1 ltac:(lia)) as (root & s2 & E2 & Hroot & Hs2 & Hr2).
  assert (hd ≠ root) as Hne by (intros ->; by rewrite lookup_insert_eq in Hroot).
  destruct (ps_rep_wf s2 _ root _ Hs2 (lookup_insert_eq _ _ _)) as [Hrid _].
  assert (leaf_wf (mkLeaf root [] 0)) as Hwf by (split; simpl; [lia|constructor|lia|lia]).
  destruct (write_leaf s2 _ root [] 0 Hs2 Hwf) as (p & s3 & Ep & E3 & Hs3 & Hr3).
  { rewrite lookup_insert_eq. eauto. }
  destruct (flushHeader_ok s3 _ hd root Hs3) as (s4 & E4 & Hs4 & Hr4).
  { rewrite !lookup_insert_ne by done. rewrite lookup_insert_eq. eauto. }
  { lia. }
  exists hd, root, s4. split_and!; [|eexists _, root, {[root]}; simpl; split_and!|lia].
  - unfold Create. M_run. rewrite E1. wrap_ok. rewrite E2. wrap_ok. rewrite Ep. wrap_ok.
    rewrite E3. wrap_ok. by rewrite E4.
  - exact Hs4.
  - split; [done|]. rewrite lookup_insert_ne by done. apply lookup_insert_eq.
  - done.
  - done.
  - constructor.
  - constructor.
  - done.
  - set_solver +Hne.
  - apply lookup_insert_eq.
Qed.

Lemma Open_header (s : S) v hd root :
  ps_rep s v → v !! hd = Some (header_data root) → is_u32 root →
  ∃ s', Open hd s = (Ok (hd, root), s') ∧ ps_rep s' v ∧ ps_room s' = ps_room s.
Proof.
  intros Hs Hl Hroot. destruct (ps_read_spec _ _ _ _ Hs Hl) as (p & s' & E & Hs' & Hr & _ & Hd).
  destruct (header_data_ok _ Hroot) as (H1 & H2 & _). exists s'. split_and!; [|done|done].
  unfold Open. M_run. rewrite E. wrap_ok. rewrite Hd, H1, H2. by rewrite decide_False by tauto.
Qed.

Lemma rep_root_u32 (s : S) ne h v root lo hi fl nx kvs fp :
  ps_rep s v → rep ne h v root lo hi fl nx kvs fp → is_u32 root.
Proof.
  intros Hs Hrep. pose proof (rep_id _ _ _ _ _ _ _ _ _ _ Hrep) as Hid.
  apply (rep_dom _ _ _ _ _ _ _ _ _ _ Hrep), elem_of_dom in Hid as [d Hd'].
  destruct (ps_rep_wf _ _ _ _ Hs Hd'). lia.
Qed.

Lemma Open_ok ne bt h kvs :
  tree_rep ne bt h kvs →
  ∃ s', Open (headerPage bt) (pg bt) = (Ok (headerPage bt, rootID bt), s') ∧
    tree_rep ne (mkBTree s' (headerPage bt) (rootID bt)) h kvs ∧ ps_room s' = ps_room (pg bt).
Proof.
  intros (v & fl & fp & Hs & Hrep & Hhd & Hl).
  destruct (Open_header _ _ _ _ Hs Hl (rep_root_u32 _ _ _ _ _ _ _ _ _ _ _ Hs Hrep)) as (s' & E & Hs' & Hr).
  exists s'. split_and!; [done|by exists v, fl, fp|done].
Qed.

Lemma Search_ok ne bt h kvs key fuel :
  tree_rep ne bt h kvs → is_u64 key → (32 ≤ fuel)%nat →
  ∃ bt', Search fuel key bt = (Ok (kv_map kvs !! key), bt') ∧ tree_rep ne bt' h kvs ∧
    ps_room (pg bt') = ps_room (pg bt) ∧ headerPage bt' = headerPage bt.
Proof.
  intros (v & fl & fp & Hs & Hrep & Hhd & Hl) Hkey Hfuel.
  destruct (rep_bounds _ _ _ _ _ _ _ _ _ _ _ Hs Hrep) as [Hh _].
  destruct (search_loop_ok ne h (pg bt) v (rootID bt) 0 (2 ^ 64) fl 0 kvs fp key fuel) as (s' & E & Hs' & Hr);
    [done..|lia|]. exists (mkBTree s' (headerPage bt) (rootID bt)).
  unfold Search, on_pg. M_run. rewrite E. split_and!; [done| |done|done]. by exists v, fl, fp.
Qed.

Lemma Delete_ok ne bt h kvs key fuel :
  tree_rep ne bt h kvs → is_u64 key → (32 ≤ fuel)%nat →
  ∃ bt', Delete fuel key bt = (Ok (bool_decide (is_Some (kv_map kvs !! key))), bt') ∧
    tree_rep false bt' h (kv_delete key kvs) ∧ ps_room (pg bt') = ps_room (pg bt) ∧ headerPage bt' = headerPage bt.
Proof.
  intros (v & fl & fp & Hs & Hrep & Hhd & Hl) Hkey Hfuel.
  destruct (rep_bounds _ _ _ _ _ _ _ _ _ _ _ Hs Hrep) as [Hh _].
  destruct (deleteInNode_ok ne h (pg bt) v (rootID bt) 0 (2 ^ 64) fl 0 kvs fp key fuel)
    as (s' & v' & E & Hs' & Hr & Hv & Hrep'); [done..|lia|].
  exists (mkBTree s' (headerPage bt) (rootID bt)).
  unfold Delete, on_pg. M_run. rewrite E. split_and!; [done| |done|done]. exists v', fl, fp.
  split_and!; [done..|]. simpl. by rewrite Hv.
Qed.

Lemma kv_range_skip lo hi pre kvs :
  Forall (λ e, Key e < lo) pre → kv_range lo hi (pre ++ kvs) = kv_range lo hi kvs.
Proof.
  intros Hpre. unfold kv_range. rewrite filter_app, filter_none; [done|].
  eapply Forall_impl; [done|]. simpl. lia.
Qed.

Lemma RangeScan_ok ne bt h kvs lo hi fuel :
  tree_rep ne bt h kvs → is_u64 lo → 2 ^ 32 ≤ Z.of_nat fuel →
  ∃ bt', RangeScan fuel lo hi bt = (Ok (kv_range lo hi kvs), bt') ∧ tree_rep ne bt' h kvs ∧
    ps_room (pg bt') = ps_room (pg bt) ∧ headerPage bt' = headerPage bt.
Proof.
  intros (v & fl & fp & Hs & Hrep & Hhd & Hl) Hlo Hfuel. unfold RangeScan, on_pg. M_run. case_decide as Hc.
  { exists bt. split_and!; [|by exists v, fl, fp|done|done]. f_equal. f_equal. symmetry.
    apply filter_none, Forall_forall. intros e _. lia. }
  destruct (rep_bounds _ _ _ _ _ _ _ _ _ _ _ Hs Hrep) as [Hh Hsz].
  destruct (scan_descend_ok ne h (pg bt) v (rootID bt) 0 (2 ^ 64) fl 0 kvs fp lo fuel)
    as (l & s1 & pre & kvs' & f & -> & Hs1 & Hr1 & -> & Hpre & (n & Hch & Hn) & Hf); [done..|lia|].
  cbn [pg headerPage rootID].
  destruct (rep_kvs _ _ _ _ _ _ _ _ _ _ Hrep) as [Hsort _]. rewrite fmap_app in Hsort.
  apply StronglySorted_app_1_r in Hsort.
  destruct (scan_chain_ok s1 v n l kvs' lo hi fuel) as (s2 & -> & Hs2 & Hr2); [done..| |].
  { apply subseteq_size in Hf. lia. }
  eexists. rewrite kv_range_skip by done. split_and!; [done| |simpl; lia|done]. by exists v, fl, fp.
Qed.

Lemma Insert_ok ne ne' bt h kvs key val fuel :
  ne' = ne ∨ h = 0%nat → tree_rep ne bt h kvs → entry_wf (mkEntry key val) → 33 ≤ ps_room (pg bt) → (32 ≤ fuel)%nat →
  ∃ bt' h', Insert fuel key val bt = (Ok tt, bt') ∧ tree_rep ne' bt' h' (kv_insert key val kvs) ∧
    ps_room (pg bt) - 33 ≤ ps_room (pg bt') ∧ headerPage bt' = headerPage bt.
Proof.
  intros Hne (v & fl & fp & Hs & Hrep & Hhd & Hl) Hwf Hroom Hfuel.
  destruct (rep_bounds _ _ _ _ _ _ _ _ _ _ _ Hs Hrep) as [Hh Hsz].
  destruct (insertNode_ok ne ne' h (pg bt) v (rootID bt) 0 (2 ^ 64) fl 0 kvs fp key val fuel)
    as (r & s1 & E1 & Hr1 & v1 & fp1 & Hs1 & G1 & G2 & G3 & G4); [done|done|done|done|lia|lia|apply Hwf|lia|lia|].
  assert (headerPage bt ∉ fp1) as Hhd1.
  { intros Hin. destruct (G2 _ Hin); congruence. }
  assert (v1 !! headerPage bt = Some (header_data (rootID bt))) as Hl1.
  { rewrite G1 by exact Hhd1. exact Hl. }
  unfold Insert, on_pg. M_run. rewrite E1. destruct r as [[k r]|].
  - destruct G4 as (mid & kvs1 & kvs2 & f1 & f2 & Hk & R1 & R2 & -> & -> & Hd12).
    destruct (ps_alloc_spec s1 v1 Hs1 ltac:(lia)) as (new & s2 & E2 & Hnew & Hs2 & Hr2).
    set (v2 := <[new := zeros DataSize]> v1) in Hs2.
    pose proof (rep_dom _ _ _ _ _ _ _ _ _ _ R1) as D1. pose proof (rep_dom _ _ _ _ _ _ _ _ _ _ R2) as D2.
    assert (new ∉ f1 ∪ f2) as Hnf. { apply not_elem_of_dom in Hnew. set_solver +Hnew D1 D2. }
    assert (forest (rep ne' h v2) [rootID bt; r] 0 [k] (2 ^ 64) fl 0 (kvs1 ++ kvs2) (f1 ∪ f2)) as HF.
    { eapply forest_cons; [|exact Hk|exact Hd12|apply forest_one]; (eapply rep_frame; [|done]);
        intros j Hj; unfold v2; rewrite lookup_insert_ne; [done| |done|]; intros ->; set_solver +Hj Hnf. }
    assert (internal_wf (mkInternal new [k] [rootID bt; r])) as Hiw.
    { eapply (forest_internal_wf ne' h s2 v2 _ _ 0 _ (2 ^ 64));
        [done|unfold v2; rewrite lookup_insert_eq; eauto|exact HF|lia|lia|]. simpl. node_lia. }
    destruct (write_internal s2 v2 new _ _ Hs2 Hiw) as (np & s3 & Enp & E3 & Hs3 & Hr3).
    { unfold v2. rewrite lookup_insert_eq. eauto. }
    assert (new ≠ headerPage bt) as Hnh by congruence.
    destruct (flushHeader_ok s3 _ (headerPage bt) new Hs3) as (s4 & E4 & Hs4 & Hr4).
    { unfold v2. rewrite !lookup_insert_ne by done. eauto. }
    { destruct Hiw as [Hid _ _ _ _]. exact Hid. }
    cbn [pg headerPage rootID separatorKey rightChildID]. rewrite E2. wrap_ok. rewrite Enp. wrap_ok.
    cbn [pg headerPage rootID]. rewrite E3. wrap_ok. cbn [pg headerPage rootID]. rewrite E4.
    exists (mkBTree s4 (headerPage bt) new), (Datatypes.S h). split_and!; [done| |simpl; lia|done].
    set (v4 := <[headerPage bt := _]> _) in Hs4.
    exists v4, fl, ({[new]} ∪ (f1 ∪ f2)). split_and!; [done| |set_solver +Hhd1 Hnh|apply lookup_insert_eq].
    exists [k], [rootID bt; r], (f1 ∪ f2). split_and!; [|done| |done|done].
    + split; [done|]. unfold v4. rewrite lookup_insert_ne by done. apply lookup_insert_eq.
    + eapply forest_mono; [|exact HF]. intros ? ? ? ? ? ? f Hf. apply rep_frame. intros j Hj.
      unfold v4. rewrite !lookup_insert_ne; [done| |]; intros Heq; subst j; set_solver +Hj Hf Hnf Hhd1.
  - exists (mkBTree s1 (headerPage bt) (rootID bt)), h. split_and!; [done| |simpl; lia|done].
    by exists v1, fl, fp1.
Qed.
End tree.

(** ** The tree as a finite map *)
Section refinement.
Context {S : Type} {PS : PageStore S} {PSS : PageStoreSpec S}.

Inductive tree_op : Type :=
  | TInsert (k : Z) (val : list byte) | TDelete (k : Z) | TSearch (k : Z)
  | TScan (lo hi : Z) | TReopen.
Inductive tree_answer : Type :=
  | ADone | ADeleted (found : bool) | AValue (val : option (list byte)) | AEntries (es : list Entry).

(** [Open] on the tree's own header page. *)
Definition Reopen : M (BTree S) unit := λ bt,
  match Open (headerPage bt) (pg bt) with
  | (Ok (hd, root), s) => (Ok tt, mkBTree s hd root)
  | (Err e, s) => (Err e, mkBTree s (headerPage bt) (rootID bt))
  | (Panic, s) => (Panic, mkBTree s (headerPage bt) (rootID bt))
  | (OutOfFuel, s) => (OutOfFuel, mkBTree s (headerPage bt) (rootID bt))
  end.

Definition tree_step (fuel : nat) (o : tree_op) : M (BTree S) tree_answer :=
  match o with
  | TInsert k val => _ ← Insert fuel k val; mret ADone
  | TDelete k => b ← Delete fuel k; mret (ADeleted b)
  | TSearch k => r ← Search fuel k; mret (AValue r)
  | TScan lo hi => es ← RangeScan fuel lo hi; mret (AEntries es)
  | TReopen => _ ← Reopen; mret ADone
  end.

Fixpoint tree_run (fuel : nat) (os : list tree_op) : M (BTree S) (list tree_answer) :=
  match os with
  | [] => mret []
  | o :: os => a ← tree_step fuel o; as' ← tree_run fuel os; mret (a :: as')
  end.

(** What the operations mean on a finite map. *)
Definition map_step (o : tree_op) (m m' : gmap Z (list byte)) (a : tree_answer) : Prop :=
  match o, a with
  | TInsert k val, ADone => m' = <[k := val]> m
  | TDelete k, ADeleted b => m' = delete k m ∧ b = bool_decide (is_Some (m !! k))
  | TSearch k, AValue r => m' = m ∧ r = m !! k
  | TScan lo hi, AEntries es => m' = m ∧ sorted_kvs es ∧
      ∀ k val, mkEntry k val ∈ es ↔ m !! k = Some val ∧ lo ≤ k ≤ hi
  | TReopen, ADone => m' = m
  | _, _ => False
  end.

(** The answers [ans] of a sequence of operations that takes [m] to [m']. *)
Fixpoint map_run (os : list tree_op) (m : gmap Z (list byte)) (ans : list tree_answer)
    (m' : gmap Z (list byte)) : Prop :=
  match os, ans with
  | [], [] => m' = m
  | o :: os, a :: ans => ∃ m1, map_step o m m1 a ∧ map_run os m1 ans m'
  | _, _ => False
  end.

(** Keys are 64-bit, values have the fixed size of the tree. *)
Definition tree_op_wf (o : tree_op) : Prop :=
  match o with
  | TInsert k val => is_u64 k ∧ length val = ValueSize
  | TDelete k | TSearch k => is_u64 k
  | TScan lo hi => is_u64 lo ∧ is_u64 hi
  | TReopen => True
  end.

Lemma kv_range_sorted lo hi kvs : sorted_kvs kvs → sorted_kvs (kv_range lo hi kvs).
Proof.
  unfold kv_range. induction kvs as [|e kvs IH]; [done|]. cbn [fmap list_fmap]. rewrite StronglySorted_cons.
  intros [He Hs]. rewrite filter_cons. case_decide; [|by apply IH]. cbn [fmap list_fmap]. apply StronglySorted_cons.
  split; [|by apply IH]. apply Forall_fmap, Forall_forall. intros e' [_ Hin]%list_elem_of_filter.
  rewrite Forall_fmap, Forall_forall in He. by apply He.
Qed.

Lemma tree_rep_sorted ne (bt : BTree S) h kvs : tree_rep ne bt h kvs → sorted_kvs kvs.
Proof. intros (v & fl & fp & _ & Hrep & _). by eapply rep_kvs. Qed.

Lemma tree_step_ok fuel o (bt : BTree S) h kvs :
  tree_rep false bt h kvs → tree_op_wf o → 2 ^ 32 ≤ Z.of_nat fuel → 33 ≤ ps_room (pg bt) →
  ∃ a bt' h' kvs', tree_step fuel o bt = (Ok a, bt') ∧ tree_rep false bt' h' kvs' ∧
    ps_room (pg bt) - 33 ≤ ps_room (pg bt') ∧ headerPage bt' = headerPage bt ∧
    map_step o (kv_map kvs) (kv_map kvs') a.
Proof.
  intros Hrep Hwf Hfuel Hroom. pose proof (tree_rep_sorted _ _ _ _ Hrep) as Hsort.
  assert (32 ≤ fuel)%nat as Hf by lia. destruct o as [k val|k|k|lo hi|]; simpl in *; M_run.
  - destruct (Insert_ok _ _ _ _ _ k val fuel (or_introl eq_refl) Hrep Hwf Hroom Hf) as (bt' & h' & -> & Hrep' & Hr & Hh).
    exists ADone, bt', h', (kv_insert k val kvs). split_and!; [done..|]. by apply kv_map_insert.
  - destruct (Delete_ok _ _ _ _ k fuel Hrep Hwf Hf) as (bt' & -> & Hrep' & Hr & Hh).
    eexists _, bt', h, (kv_delete k kvs). split_and!; [done|done|lia|done|].
    split; [by apply kv_map_delete|done].
  - destruct (Search_ok _ _ _ _ k fuel Hrep Hwf Hf) as (bt' & -> & Hrep' & Hr & Hh).
    eexists _, bt', h, kvs. split_and!; [done|done|lia|done|done].
  - destruct (RangeScan_ok _ _ _ _ lo hi fuel Hrep (proj1 Hwf) Hfuel) as (bt' & -> & Hrep' & Hr & Hh).
    eexists _, bt', h, kvs. split_and!; [done|done|lia|done|].
    split; [done|]. split; [by apply kv_range_sorted|].
    intros k val. rewrite kv_map_lookup by done. unfold kv_range. rewrite list_elem_of_filter. simpl. tauto.
  - destruct (Open_ok _ _ _ _ Hrep) as (s' & E & Hrep' & Hr). unfold Reopen. rewrite E.
    eexists _, _, h, kvs. split_and!; [done|done|simpl; lia|done|done].
Qed.

Lemma tree_run_ok fuel os (bt : BTree S) h kvs :
  tree_rep false bt h kvs → Forall tree_op_wf os → 2 ^ 32 ≤ Z.of_nat fuel →
  33 * Z.of_nat (length os) ≤ ps_room (pg bt) →
  ∃ ans bt' h' kvs', tree_run fuel os bt = (Ok ans, bt') ∧ tree_rep false bt' h' kvs' ∧
    headerPage bt' = headerPage bt ∧ map_run os (kv_map kvs) ans (kv_map kvs').
Proof.
  intros Hrep Hwf Hfuel. revert bt h kvs Hrep.
  induction Hwf as [|o os Ho Hos IH]; intros bt h kvs Hrep Hroom; simpl in Hroom; cbn [tree_run].
  { by exists [], bt, h, kvs. }
  destruct (tree_step_ok fuel o bt h kvs Hrep Ho Hfuel ltac:(lia))
    as (a & bt1 & h1 & kvs1 & E & Hrep1 & Hr1 & Hh1 & Hm).
  destruct (IH bt1 h1 kvs1 Hrep1 ltac:(lia)) as (ans & bt' & h' & kvs' & E' & Hrep' & Hh' & Hm').
  exists (a :: ans), bt', h', kvs'. M_run. rewrite E, E'. split; [done|]. split; [done|]. split; [congruence|].
  by exists (kv_map kvs1).
Qed.

(** C10. A B+ tree created in any page store behaves as a finite map from 64-bit
    keys to values under every sequence of insertions, deletions, searches,
    range scans (answered in ascending key order) and reopenings from its header
    page: the calls succeed without a panic, all loops end, and each answer is
    the map's.  Each call needs at most 33 free pages (a tree has at most 32
    levels), so the sequence succeeds as long as the store has that room. *)
Theorem btree_refines_map (s : S) v fuel os :
  ps_rep s v → Forall tree_op_wf os → 2 ^ 32 ≤ Z.of_nat fuel →
  2 + 33 * Z.of_nat (length os) ≤ ps_room s →
  ∃ hd root s', Create s = (Ok (hd, root), s') ∧
    ∃ ans bt' m, tree_run fuel os (mkBTree s' hd root) = (Ok ans, bt') ∧ map_run os ∅ ans m.
Proof.
  intros Hs Hwf Hfuel Hroom.
  destruct (Create_ok s v Hs ltac:(lia)) as (hd & root & s' & E & Hrep & Hr).
  destruct (tree_run_ok fuel os _ _ _ Hrep Hwf Hfuel ltac:(simpl; lia))
    as (ans & bt' & h & kvs & E' & _ & _ & Hm). eauto 10.
Qed.
End refinement.

Lemma btree_ops_wf : Forall tree_op_wf [TInsert 5 (zeros ValueSize); TReopen; TSearch 5; TDelete 5; TScan 0 9].
Proof. repeat constructor; simpl; try lia; apply length_zeros. Qed.

Lemma btree_refines_map_witness :
  ∃ hd root s' ans bt' m, Create mem_new = (Ok (hd, root), s') ∧
    tree_run (Z.to_nat (2 ^ 32)) [TInsert 5 (zeros ValueSize); TReopen; TSearch 5; TDelete 5; TScan 0 9]
      (mkBTree s' hd root) = (Ok ans, bt') ∧
    map_run [TInsert 5 (zeros ValueSize); TReopen; TSearch 5; TDelete 5; TScan 0 9] ∅ ans m.
Proof.
  destruct (btree_refines_map mem_new ∅ (Z.to_nat (2 ^ 32)) _ mem_new_rep btree_ops_wf)
    as (hd & root & s' & E & ans & bt' & m & E' & Hm).
  - rewrite Z2Nat.id by lia. lia.
  - simpl. lia.
  - exists hd, root, s', ans, bt', m. exact (conj E (conj E' Hm)).
Defined.
