(* ===== verification/Cursor.v ===== *)
(** * Cursor: lazy iteration over a range of the B+ tree ([src/btree/cursor.go])

    A cursor holds its current leaf and a position in it and reads the next
    leaf only when [Next] needs it. *)
From S2P Require Import Prelude Storage Store Node BTree.
From stdpp Require Import options.

Record Cursor : Type := mkCursor {
  leaf : option LeafNode;
  pos : nat;
  maxKey : Z;
  done : bool
}.

Section cursor.
Context {S : Type} {PS : PageStore S}.

(** The descent of [NewCursor]. *)
Fixpoint cursor_seek (fuel : nat) (nodeID minKey maxKey : Z) : M S Cursor :=
  match fuel with
  | O => lift OutOfFuel
  | Datatypes.S fuel =>
      p ← wrap "cursor seek: read page %d: %w" [GInt nodeID] (ps_read nodeID);
      if decide (PageNodeType p = NodeTypeLeaf) then
        leaf ← lift (wrap_err "cursor seek: decode leaf %d: %w" [GInt nodeID] (DecodeLeaf p));
        '(pos, _) ← lift (LeafSearchKey (Entries leaf) minKey);
        mret (mkCursor (Some leaf) pos maxKey false)
      else
        internal ← lift (wrap_err "cursor seek: decode internal %d: %w" [GInt nodeID] (DecodeInternal p));
        idx ← lift (FindChildIndex (Keys internal) minKey);
        child ← lift (go_index (Children internal) idx);
        cursor_seek fuel child minKey maxKey
  end.

Definition NewCursor (fuel : nat) (minKey maxKey : Z) : M (BTree S) Cursor :=
  bt ← get_state;
  if decide (maxKey < minKey) then mret (mkCursor None 0 0 true)
  else on_pg (cursor_seek fuel (rootID bt) minKey maxKey).

(** The end of the loop body of [Next]: the entry at [pos] of leaf [lf]. *)
Definition cursor_yield (lf : LeafNode) (pos : nat) (maxKey : Z) : M S (option Entry * Cursor) :=
  match Entries lf !! pos with
  | None => lift Panic
  | Some e =>
      if decide (maxKey < Key e) then mret (None, mkCursor (Some lf) pos maxKey true)
      else mret (Some e, mkCursor (Some lf) (pos + 1) maxKey false)
  end.

(** [Next]; the loop of the code returns in its first iteration. *)
Definition Next (c : Cursor) : M S (option Entry * Cursor) :=
  if done c then mret (None, c)
  else
    match leaf c with
    | None => lift Panic
    | Some lf =>
        if decide (length (Entries lf) ≤ pos c)%nat then
          if decide (NextLeaf lf = 0) then mret (None, mkCursor (leaf c) (pos c) (maxKey c) true)
          else
            p ← wrap "cursor next: read leaf %d: %w" [GInt (NextLeaf lf)] (ps_read (NextLeaf lf));
            lf' ← lift (wrap_err "cursor next: decode leaf %d: %w" [GInt (NextLeaf lf)] (DecodeLeaf p));
            cursor_yield lf' 0 (maxKey c)
        else cursor_yield lf (pos c) (maxKey c)
    end.

(** A call on the tree whose header and root are [t] in store [s]. *)
Definition on_tree {A} (t : Z * Z) (m : M (BTree S) A) : M S A := λ s,
  let '(r, bt) := m (mkBTree s t.1 t.2) in (r, pg bt).

(** A caller that takes at most [n] entries. *)
Fixpoint take_cursor (n : nat) (c : Cursor) : M S (list Entry) :=
  match n with
  | O => mret []
  | Datatypes.S n =>
      '(r, c) ← Next c;
      match r with
      | None => mret []
      | Some e => es ← take_cursor n c; mret (e :: es)
      end
  end.
End cursor.

(** ** Chains without empty leaves *)

Section spec.
Context {S : Type} {PS : PageStore S} {PSS : PageStoreSpec S}.
Implicit Types (s : S) (v : pmap).

Inductive full_chain (v : pmap) : Z → Z → list Entry → Prop :=
  | full_nil a : full_chain v a a []
  | full_cons a es b c kvs :
      leaf_at v a es b → es ≠ [] → full_chain v b c kvs → full_chain v a c (es ++ kvs).

Lemma full_chain_app v a b c k1 k2 : full_chain v a b k1 → full_chain v b c k2 → full_chain v a c (k1 ++ k2).
Proof. induction 1; [done|]. intros. rewrite <-(assoc_L (++)). econstructor; eauto. Qed.

Lemma rep_full_chain h v id lo hi fl nx kvs fp :
  rep true h v id lo hi fl nx kvs fp → full_chain v fl nx kvs.
Proof.
  revert id lo hi fl nx kvs fp. induction h as [|h IH]; intros id lo hi fl nx kvs fp; simpl.
  - intros (Hl & -> & _ & _ & _ & Hne). rewrite <-(app_nil_r kvs).
    econstructor; [exact Hl|by apply Hne|constructor].
  - intros (ks & cs & fp' & _ & _ & HF & _).
    eapply (forest_along (rep true h v) (λ a b k _, full_chain v a b k)); [|eauto using full_chain_app|exact HF].
    eauto.
Qed.

(** The cursor still has the entries [rest] in front of it. *)
Definition cursor_at v (c : Cursor) (rest : list Entry) : Prop :=
  ∃ lf rest', leaf c = Some lf ∧ done c = false ∧ rest = drop (pos c) (Entries lf) ++ rest' ∧
    full_chain v (NextLeaf lf) 0 rest'.

Lemma Next_ok s v c rest :
  ps_rep s v → cursor_at v c rest →
  ∃ s' c', ps_rep s' v ∧
    match rest with
    | [] => Next c s = (Ok (None, c'), s')
    | e :: rest' =>
        if decide (maxKey c < Key e) then Next c s = (Ok (None, c'), s')
        else Next c s = (Ok (Some e, c'), s') ∧ cursor_at v c' rest' ∧ maxKey c' = maxKey c
    end.
Proof.
  intros Hs (lf & rest' & Hlf & Hd & -> & Hch). unfold Next. rewrite Hd, Hlf.
  assert (∀ s lf i rest', ps_rep s v → (i < length (Entries lf))%nat → full_chain v (NextLeaf lf) 0 rest' →
    ∃ s' c', ps_rep s' v ∧
    match drop i (Entries lf) ++ rest' with
    | [] => cursor_yield lf i (maxKey c) s = (Ok (None, c'), s')
    | e :: rest' =>
        if decide (maxKey c < Key e) then cursor_yield lf i (maxKey c) s = (Ok (None, c'), s')
        else cursor_yield lf i (maxKey c) s = (Ok (Some e, c'), s') ∧ cursor_at v c' rest' ∧ maxKey c' = maxKey c
    end) as Hyield.
  { clear. intros s lf i rest' Hs Hi Hch. destruct (lookup_lt_is_Some_2 _ _ Hi) as [e He].
    unfold cursor_yield. rewrite He, (drop_S _ _ _ He). cbn [app]. M_run. case_decide as Hc.
    - eexists _, _. split; [exact Hs|done].
    - eexists _, _. split; [exact Hs|]. split; [done|]. split; [|done].
      exists lf, rest'. cbn [leaf done pos]. by rewrite Nat.add_1_r. }
  case_decide as Hpos.
  - rewrite drop_ge by done. cbn [app]. inversion Hch as [a Ha Hb|a es b c0 kvs Hleaf Hne Hch' Ha Hb].
    + rewrite decide_True by done. eexists _, _. by split.
    + subst. destruct (ps_rep_wf s v _ _ Hs (proj2 Hleaf)) as [Hid _]. rewrite decide_False by lia.
      destruct (read_leaf s v _ _ _ Hs Hleaf) as (p & s1 & E & Hs1 & _ & _ & Hdec).
      M_run. rewrite E. wrap_ok. rewrite Hdec. wrap_ok.
      apply (Hyield s1 (mkLeaf (NextLeaf lf) es b) 0%nat kvs Hs1); [|done].
      destruct es; [done|simpl; lia].
  - apply Hyield; [done|lia|done].
Qed.

Lemma take_cursor_ok n s v c rest lo :
  ps_rep s v → cursor_at v c rest → sorted_kvs rest → Forall (λ e, lo ≤ Key e) rest →
  ∃ s', take_cursor n c s = (Ok (take n (kv_range lo (maxKey c) rest)), s') ∧ ps_rep s' v.
Proof.
  revert s c rest. induction n as [|n IH]; intros s c rest Hs Hc Hsort Hlo; [by exists s|].
  cbn [take_cursor]. M_run. destruct (Next_ok s v c rest Hs Hc) as (s1 & c1 & Hs1 & HN).
  destruct rest as [|e rest].
  { rewrite HN. by exists s1. }
  cbn [fmap list_fmap] in Hsort. apply StronglySorted_cons in Hsort as [He Hsort].
  apply Forall_cons in Hlo as [Hle Hlo]. unfold kv_range. rewrite filter_cons. case_decide as Hmax.
  - rewrite HN. exists s1. split; [|done]. rewrite decide_False by lia.
    rewrite filter_none; [by rewrite take_nil|].
    rewrite Forall_fmap in He. eapply Forall_impl; [exact He|]. simpl. lia.
  - destruct HN as (-> & Hc1 & Hm). rewrite decide_True by lia.
    destruct (IH s1 c1 rest Hs1 Hc1 Hsort Hlo) as (s2 & -> & Hs2). rewrite Hm. by exists s2.
Qed.

(** Entries from the position [LeafSearchKey] returns are those not smaller than
    the key. *)
Lemma LeafSearchKey_pos es key :
  sorted_kvs es → ∃ i b, LeafSearchKey es key = Ok (i, b) ∧
    Forall (λ e, Key e < key) (take i es) ∧ Forall (λ e, key ≤ Key e) (drop i es).
Proof.
  intros Hs. destruct (LeafSearchKey_ok es key Hs) as [(i & e & -> & He & Hk)|(i & -> & Hi & Hp)].
  - exists i, true. split; [done|]. destruct (sorted_kvs_around es i e Hs He) as [H1 H2]. rewrite Hk in *.
    split; [done|]. rewrite (drop_S _ _ _ He). constructor; [lia|].
    eapply Forall_impl; [exact H2|]. simpl. lia.
  - exists i, false. split; [done|]. split; apply Forall_lookup; intros j e Hj.
    + apply lookup_take_Some in Hj as [Hj Hlt]. by apply (Hp j e Hj).
    + rewrite lookup_drop in Hj. destruct (Hp _ e Hj). lia.
Qed.

Lemma cursor_seek_ok ne h s v id lo hi fl nx kvs fp key mx fuel :
  ps_rep s v → rep ne h v id lo hi fl nx kvs fp → lo ≤ key < hi → (h < fuel)%nat →
  ∃ c s' lf pre post, cursor_seek fuel id key mx s = (Ok c, s') ∧ ps_rep s' v ∧
    leaf c = Some lf ∧ done c = false ∧ maxKey c = mx ∧ kvs = pre ++ drop (pos c) (Entries lf) ++ post ∧
    Forall (λ e, Key e < key) pre ∧ Forall (λ e, key ≤ Key e) (drop (pos c) (Entries lf) ++ post) ∧
    (ne = true → full_chain v (NextLeaf lf) nx post) ∧ (h = 0%nat → NextLeaf lf = nx ∧ post = []).
Proof.
  revert s id lo hi fl nx kvs fp fuel.
  induction h as [|h IH]; intros s id lo hi fl nx kvs fp fuel Hs Hrep Hkey Hfuel;
    (destruct fuel as [|fuel]; [lia|]); cbn [cursor_seek].
  - destruct Hrep as (Hleaf & -> & -> & Hsort & Hb & _).
    destruct (read_leaf s v id kvs nx Hs Hleaf) as (p & s1 & E & Hs1 & Hr1 & Hty & Hdec).
    M_run. rewrite E. wrap_ok. rewrite Hty, decide_True by done. rewrite Hdec. wrap_ok. cbn [Entries].
    destruct (LeafSearchKey_pos kvs key Hsort) as (i & b & -> & H1 & H2).
    eexists _, s1, _, (take i kvs), []. cbn [leaf done maxKey pos Entries NextLeaf].
    split_and!; try done; [by rewrite app_nil_r, take_drop|by rewrite app_nil_r|constructor].
  - destruct Hrep as (ks & cs & fp' & Hint & Hnil & HF & Hid & ->).
    destruct (read_internal s v id ks cs Hs Hint) as (p & s1 & E & Hs1 & Hr1 & Hty & Hdec).
    M_run. rewrite E. wrap_ok. rewrite Hty. rewrite decide_False by done.
    destruct (forest_keys _ _ _ _ _ _ _ _ _ HF) as (Hcs & Hsk & Hks).
    destruct (FindChildIndex_ok ks key Hsk) as (i & Ei & Hi & Hidx).
    destruct (forest_focus (rep ne h v) cs lo ks hi fl nx kvs fp' key i)
      as (c & clo & chi & cfl & cnx & ckvs & cfp & pre & post & fpo & Hclo & Hchi & Hfo);
      [intros; by eapply rep_kvs|done..|].
    destruct Hfo as [F1 F2 F3 F4 F5 F6 F7 F8 _ _ F11].
    rewrite Hdec. wrap_ok. cbn [Keys Children]. rewrite Ei. unfold go_index. rewrite F1.
    destruct (IH s1 c clo chi cfl cnx ckvs cfp fuel Hs1 F2 F3 ltac:(lia))
      as (cu & s2 & lf & pre' & post' & -> & Hs2 & Hlf & Hd & Hm & Hk & Hpre & Hpost & Hch & _).
    eexists cu, s2, lf, (pre ++ pre'), (post' ++ post). split_and!; try done.
    + rewrite F4, Hk. by rewrite <-!(assoc_L (++)).
    + apply Forall_app. split; [|done]. eapply Forall_impl; [done|]. simpl. lia.
    + rewrite (assoc_L (++)). apply Forall_app. split; [done|]. eapply Forall_impl; [done|]. simpl. lia.
    + intros ->. eapply full_chain_app; [by apply Hch|].
      destruct (F11 (λ a b k _, full_chain v a b k)) as (ft & _ & HQ);
        [intros; constructor|intros; by eapply rep_full_chain|eauto using full_chain_app|exact HQ].
Qed.
End spec.

Section claims.
Context {S : Type} {PS : PageStore S} {PSS : PageStoreSpec S}.
Implicit Types (s : S) (v : pmap).

Fixpoint insert_all (fuel : nat) (es : list Entry) : M (BTree S) unit :=
  match es with
  | [] => mret tt
  | e :: es => _ ← Insert fuel (Key e) (Value e); insert_all fuel es
  end.

Fixpoint delete_all (fuel : nat) (ks : list Z) : M (BTree S) unit :=
  match ks with
  | [] => mret tt
  | k :: ks => _ ← Delete fuel k; delete_all fuel ks
  end.

(** The sorted entries after inserting [es] in order. *)
Definition insert_kvs (es kvs : list Entry) : list Entry :=
  fold_left (λ l e, kv_insert (Key e) (Value e) l) es kvs.

(** No leaf other than a lone root is empty. *)
Definition full_tree (bt : BTree S) (h : nat) (kvs : list Entry) : Prop :=
  tree_rep true bt h kvs ∨ (h = 0%nat ∧ tree_rep false bt h kvs).

Lemma insert_all_ok fuel es bt h kvs :
  full_tree bt h kvs → Forall entry_wf es → 33 * Z.of_nat (length es) ≤ ps_room (pg bt) →
  (32 ≤ fuel)%nat →
  ∃ bt' h', insert_all fuel es bt = (Ok tt, bt') ∧ full_tree bt' h' (insert_kvs es kvs).
Proof.
  intros Hrep Hwf. revert bt h kvs Hrep. induction Hwf as [|e es He Hes IH]; intros bt h kvs Hrep Hroom Hfuel.
  { exists bt, h. done. }
  cbn [length] in Hroom. cbn [insert_all].
  assert (∃ bt' h', Insert fuel (Key e) (Value e) bt = (Ok tt, bt') ∧
    tree_rep true bt' h' (kv_insert (Key e) (Value e) kvs) ∧ ps_room (pg bt) - 33 ≤ ps_room (pg bt'))
    as (bt1 & h1 & E1 & Hrep1 & Hr1).
  { destruct Hrep as [Hrep|[-> Hrep]].
    - destruct (Insert_ok true true bt h kvs (Key e) (Value e) fuel) as (bt' & h' & ? & ? & ? & _);
        [by left|done|by destruct e|lia|done|eauto].
    - destruct (Insert_ok false true bt 0 kvs (Key e) (Value e) fuel) as (bt' & h' & ? & ? & ? & _);
        [by right|done|by destruct e|lia|done|eauto]. }
  destruct (IH bt1 h1 _ (or_introl Hrep1) ltac:(lia) Hfuel) as (bt' & h' & E & Hrep').
  exists bt', h'. M_run. rewrite E1. done.
Qed.

Lemma delete_all_ok fuel ks bt h kvs :
  tree_rep false bt h kvs → Forall (λ k, is_u64 k) ks → (32 ≤ fuel)%nat →
  ∃ bt', delete_all fuel ks bt = (Ok tt, bt') ∧
    tree_rep false bt' h (filter (λ e, Key e ∉ ks) kvs).
Proof.
  intros Hrep Hwf. revert bt kvs Hrep. induction Hwf as [|k ks Hk Hks IH]; intros bt kvs Hrep Hfuel.
  { exists bt. split; [done|]. rewrite filter_all; [done|]. apply Forall_forall. intros e _. apply not_elem_of_nil. }
  cbn [delete_all]. destruct (Delete_ok _ _ _ _ k fuel Hrep Hk Hfuel) as (bt1 & E1 & Hrep1 & _).
  destruct (IH bt1 _ Hrep1 Hfuel) as (bt' & E & Hrep'). exists bt'. M_run. rewrite E1. split; [done|].
  unfold kv_delete in Hrep'. rewrite list_filter_filter in Hrep'.
  replace (filter (λ e, Key e ∉ k :: ks) kvs) with (filter (λ e, Key e ∉ ks ∧ Key e ≠ k) kvs); [done|].
  apply list_filter_iff. intros e. rewrite not_elem_of_cons. tauto.
Qed.

Lemma rep_first_leaf ne h v id lo hi fl nx kvs fp :
  rep ne h v id lo hi fl nx kvs fp → ∃ es b n k', leaf_at v fl es b ∧ chain v n b nx k' ∧ kvs = es ++ k'.
Proof.
  revert id lo hi fl nx kvs fp. induction h as [|h IH]; intros id lo hi fl nx kvs fp.
  - intros (Hl & -> & _). exists kvs, nx, 0%nat, []. split_and!; [done|constructor|by rewrite app_nil_r].
  - intros (ks & cs & fp' & _ & _ & HF & _). destruct HF as [c lo hi fl nx kvs fp' H1|
      c cs lo k ks hi fl mid nx kvs1 kvs2 fp1 fp2 H1 Hk Hd HF]; [by eapply IH|].
    apply IH in H1 as (es & b & n & k' & Hl & Hc & ->).
    assert (chained v mid nx kvs2 fp2) as (m & Hm & _).
    { eapply (forest_along (rep ne h v) (chained v)); [|apply chained_app|exact HF].
      intros. by eapply rep_chained. }
    exists es, b, (n + m)%nat, (k' ++ kvs2). split_and!; [done|by eapply chain_app|by rewrite (assoc_L (++))].
Qed.

(** A tree that is not a lone leaf has a second leaf, linked from the first. *)
Lemma rep_second_leaf ne h v id lo hi fl nx kvs fp :
  rep ne (Datatypes.S h) v id lo hi fl nx kvs fp →
  ∃ es b es2 b2 k', leaf_at v fl es b ∧ leaf_at v b es2 b2 ∧ kvs = es ++ es2 ++ k'.
Proof.
  intros (ks & cs & fp' & _ & Hks & HF & _). destruct HF as [|c cs lo k ks hi fl mid nx kvs1 kvs2 fp1 fp2 H1 Hk Hd HF];
    [done|].
  apply rep_first_leaf in H1 as (es & b & n & k' & Hl & Hc & ->).
  assert (∃ es2 b2 k2, leaf_at v mid es2 b2 ∧ kvs2 = es2 ++ k2) as (es2 & b2 & k2 & Hl2 & ->).
  { destruct HF as [c' lo' hi fl' nx kvs2 fp2 H2|c' cs' lo' k'' ks' hi fl' mid' nx kvs3 kvs4 fp3 fp4 H2 _ _ _];
      apply rep_first_leaf in H2 as (es2 & b2 & m & k2 & Hl2 & _ & ->).
    - by exists es2, b2, k2.
    - exists es2, b2, (k2 ++ kvs4). by rewrite (assoc_L (++)). }
  inversion Hc as [a|m a es1 b1 c0 k1 Hl1 Hc1]; subst.
  - exists es, mid, es2, b2, k2. by rewrite app_nil_r.
  - exists es, b, es1, b1, (k1 ++ es2 ++ k2). split_and!; [done..|]. by rewrite <-!(assoc_L (++)).
Qed.

Lemma cursor_seek_first ne h s v id lo hi fl nx kvs fp mx fuel :
  ps_rep s v → rep ne h v id lo hi fl nx kvs fp → lo < hi → (h < fuel)%nat →
  ∃ s' es b, cursor_seek fuel id lo mx s = (Ok (mkCursor (Some (mkLeaf fl es b)) 0 mx false), s') ∧
    ps_rep s' v ∧ leaf_at v fl es b.
Proof.
  revert s id hi fl nx kvs fp fuel.
  induction h as [|h IH]; intros s id hi fl nx kvs fp fuel Hs Hrep Hlt Hfuel;
    (destruct fuel as [|fuel]; [lia|]); cbn [cursor_seek].
  - destruct Hrep as (Hleaf & -> & -> & Hsort & Hb & _).
    destruct (read_leaf s v id kvs nx Hs Hleaf) as (p & s1 & E & Hs1 & Hr1 & Hty & Hdec).
    M_run. rewrite E. wrap_ok. rewrite Hty, decide_True by done. rewrite Hdec. wrap_ok. cbn [Entries].
    exists s1, kvs, nx. split; [|done].
    destruct (LeafSearchKey_ok kvs lo Hsort) as [(i & e & -> & He & Hk)|(i & -> & Hi & Hp)].
    + destruct i as [|i]; [done|]. exfalso.
      destruct (lookup_lt_is_Some_2 kvs 0) as [e0 He0]; [apply lookup_lt_Some in He; lia|].
      rewrite Forall_forall in Hb. pose proof (Hb _ (list_elem_of_lookup_2 _ _ _ He0)).
      assert (Key e0 < Key e); [|lia].
      eapply (StronglySorted_lookup_lt Z.lt (Key <$> kvs) 0 (Datatypes.S i)); rewrite ?list_lookup_fmap, ?He0, ?He; done || lia.
    + destruct i as [|i]; [done|]. exfalso. destruct (lookup_lt_is_Some_2 kvs 0) as [e0 He0]; [lia|].
      rewrite Forall_forall in Hb. pose proof (Hb _ (list_elem_of_lookup_2 _ _ _ He0)).
      destruct (Hp _ _ He0) as [_ Hx]. lia.
  - destruct Hrep as (ks & cs & fp' & Hint & Hnil & HF & Hid & ->).
    destruct (read_internal s v id ks cs Hs Hint) as (p & s1 & E & Hs1 & Hr1 & Hty & Hdec).
    M_run. rewrite E. wrap_ok. rewrite Hty. rewrite decide_False by done.
    destruct (forest_keys _ _ _ _ _ _ _ _ _ HF) as (Hcs & Hsk & Hks).
    destruct (FindChildIndex_ok ks lo Hsk) as (i & Ei & Hi & Hidx).
    rewrite Hdec. wrap_ok. cbn [Keys Children]. rewrite Ei.
    assert (i = 0%nat) as ->.
    { destruct i as [|i]; [done|]. destruct (lookup_lt_is_Some_2 ks 0) as [k Hk]; [lia|].
      rewrite Forall_forall in Hks. pose proof (Hks _ (list_elem_of_lookup_2 _ _ _ Hk)).
      destruct (Hidx _ _ Hk) as [Hx _]. pose proof (Hx ltac:(lia)). lia. }
    destruct HF as [|c cs lo k ks hi fl mid nx kvs1 kvs2 fp1 fp2 H1 Hk Hd HF]; [done|].
    cbn [go_index lookup list_lookup]. eapply IH; [done|exact H1|lia|lia].
Qed.

(** C27. On a tree that has only been inserted into, a cursor yields exactly the
    entries of its range, in ascending order, however many the caller takes:
    the cursor never panics and stops after the last one. *)
Theorem cursor_enumerates_range s v es lo hi fuel n :
  ps_rep s v → Forall entry_wf es → is_u64 lo → (32 ≤ fuel)%nat →
  2 + 33 * Z.of_nat (length es) ≤ ps_room s →
  ∃ hd root s1 bt1 c bt2 s2,
    Create s = (Ok (hd, root), s1) ∧ insert_all fuel es (mkBTree s1 hd root) = (Ok tt, bt1) ∧
    NewCursor fuel lo hi bt1 = (Ok c, bt2) ∧
    take_cursor n c (pg bt2) = (Ok (take n (kv_range lo hi (insert_kvs es []))), s2).
Proof.
  intros Hs Hes Hlo Hfuel Hroom.
  destruct (Create_ok s v Hs ltac:(lia)) as (hd & root & s1 & E1 & Hrep & Hr1).
  destruct (insert_all_ok fuel es (mkBTree s1 hd root) 0 []) as (bt1 & h & E2 & Hfull);
    [by right|done|simpl; lia|done|].
  exists hd, root, s1, bt1. unfold NewCursor. M_run. case_decide as Hc.
  { eexists _, _, (pg bt1). split_and!; [done|done|done|].
    assert (kv_range lo hi (insert_kvs es []) = []) as ->.
    { apply filter_none, Forall_forall. intros e _. lia. }
    destruct n; [done|]. cbn [take_cursor]. M_run. done. }
  assert (∃ ne, tree_rep ne bt1 h (insert_kvs es []) ∧ ((ne = true) ∨ (h = 0%nat))) as (ne & Hrep1 & Hne).
  { destruct Hfull as [?|[-> ?]]; eauto. }
  destruct Hrep1 as (v1 & fl & fp & Hs1 & Ht & _).
  destruct (rep_bounds _ _ _ _ _ _ _ _ _ _ _ Hs1 Ht) as [Hh _].
  destruct (rep_kvs _ _ _ _ _ _ _ _ _ _ Ht) as [Hsort _].
  destruct (cursor_seek_ok ne h (pg bt1) v1 (rootID bt1) 0 (2 ^ 64) fl 0 (insert_kvs es []) fp lo hi fuel)
    as (c & s2 & lf & pre & post & E3 & Hs2 & Hlf & Hd & Hm & Hk & Hpre & Hpost & Hch & Hroot); [done..|lia|].
  unfold on_pg. rewrite E3. rewrite Hk, fmap_app in Hsort. apply StronglySorted_app_1_r in Hsort.
  assert (full_chain v1 (NextLeaf lf) 0 post) as Hchain.
  { destruct Hne as [->| ->]; [by apply Hch|]. destruct Hroot as [-> ->]; [done|]. constructor. }
  destruct (take_cursor_ok n s2 v1 c (drop (pos c) (Entries lf) ++ post) lo Hs2) as (s3 & E4 & _);
    [by exists lf, post|exact Hsort|exact Hpost|].
  exists c, (mkBTree s2 (headerPage bt1) (rootID bt1)), s3. split_and!; [done|done|done|].
  cbn [pg]. rewrite E4, Hm, Hk, (kv_range_skip lo hi pre) by exact Hpre. done.
Qed.

(** C39. Leaves are never unlinked, and [Next] does not skip an empty one: after
    every key of a tree of more than one leaf has been deleted, a cursor over
    the whole key range panics (index out of range) at its first step. *)
Theorem cursor_panics_on_emptied_leaf ne (bt : BTree S) h kvs fuel :
  tree_rep ne bt h kvs → (LeafOrder < length kvs)%nat → (32 ≤ fuel)%nat →
  ∃ bt1 c bt2 s', delete_all fuel (Key <$> kvs) bt = (Ok tt, bt1) ∧
    NewCursor fuel 0 MaxUint64 bt1 = (Ok c, bt2) ∧ Next c (pg bt2) = (Panic, s').
Proof.
  intros Hrep Hlen Hfuel.
  assert (tree_rep false bt h kvs) as Hrep0.
  { destruct Hrep as (v & fl & fp & ? & Ht & ?). exists v, fl, fp. split_and!; [done|by eapply rep_weaken|tauto..]. }
  assert (∃ h', h = Datatypes.S h') as [h' ->].
  { destruct h as [|h]; [|eauto]. destruct Hrep as (v & fl & fp & _ & (Hl & _) & _).
    destruct Hl as [[_ _ Ho _] _]. simpl in Ho. lia. }
  assert (Forall (λ k, is_u64 k) (Key <$> kvs)) as Hkeys.
  { destruct Hrep as (v & fl & fp & _ & Ht & _). destruct (rep_kvs _ _ _ _ _ _ _ _ _ _ Ht) as [_ Hb].
    apply Forall_fmap. exact Hb. }
  destruct (delete_all_ok fuel _ _ _ _ Hrep0 Hkeys Hfuel) as (bt1 & E1 & Hrep1).
  rewrite filter_none in Hrep1.
  2: { apply Forall_forall. intros e He Hn. apply Hn. by apply list_elem_of_fmap_2. }
  destruct Hrep1 as (v & fl & fp & Hs1 & Ht & _).
  destruct (rep_bounds _ _ _ _ _ _ _ _ _ _ _ Hs1 Ht) as [Hh _].
  destruct (rep_second_leaf _ _ _ _ _ _ _ _ _ _ Ht) as (es & b & es2 & b2 & k' & Hl1 & Hl2 & Hnil).
  destruct es as [|e es]; [|discriminate]. destruct es2 as [|e es2]; [|discriminate].
  destruct (cursor_seek_first false _ (pg bt1) v _ 0 (2 ^ 64) fl 0 [] fp MaxUint64 fuel Hs1 Ht)
    as (s2 & es' & b' & E2 & Hs2 & Hl1'); [lia|lia|].
  assert (es' = [] ∧ b' = b) as [-> ->].
  { assert (∀ p, PageID (Header p) = fl → Data p = leaf_data (mkLeaf fl [] b) → mkLeaf fl [] b = mkLeaf fl es' b') as H.
    { intros p Hp Hd. destruct Hl1 as [W1 L1], Hl1' as [W2 L2]. rewrite L1 in L2. apply (inj Some) in L2.
      pose proof (DecodeLeaf_ok _ p W1 Hp Hd) as D1. rewrite L2 in Hd.
      pose proof (DecodeLeaf_ok _ p W2 Hp Hd) as D2. congruence. }
    specialize (H (leaf_page (mkLeaf fl [] b)) eq_refl eq_refl). by injection H as -> ->. }
  destruct (read_leaf s2 v b [] b2 Hs2 Hl2) as (p & s3 & E3 & _ & _ & _ & Hdec).
  destruct (ps_rep_wf s2 v b _ Hs2 (proj2 Hl2)) as [Hb _].
  eexists bt1, _, (mkBTree s2 (headerPage bt1) (rootID bt1)), s3. split_and!; [exact E1| |].
  - unfold NewCursor, on_pg. M_run. rewrite decide_False by (unfold MaxUint64; lia). by rewrite E2.
  - unfold Next. cbn [done leaf pos maxKey Entries NextLeaf length pg]. rewrite decide_True by lia.
    rewrite decide_False by lia. M_run. rewrite E3. wrap_ok. by rewrite Hdec.
Qed.
End claims.

(** ** Concrete instances *)

(** An entry with key [k] and a zero value. *)
Definition zero_entry (k : Z) : Entry := mkEntry k (zeros ValueSize).

Lemma zero_entries_wf n : (n ≤ 100)%nat → Forall entry_wf (zero_entry <$> seqZ 0 (Z.of_nat n)).
Proof.
  intros Hn. apply Forall_fmap, Forall_forall. intros k Hk%elem_of_seqZ.
  split; simpl; [lia|apply length_zeros].
Qed.

Lemma cursor_enumerates_range_witness :
  ∃ hd root s1 bt1 c bt2 s2,
    Create mem_new = (Ok (hd, root), s1) ∧
    insert_all 32 (zero_entry <$> [3; 1; 2]) (mkBTree s1 hd root) = (Ok tt, bt1) ∧
    NewCursor 32 1 2 bt1 = (Ok c, bt2) ∧
    take_cursor 5 c (pg bt2) = (Ok (zero_entry <$> [1; 2]), s2).
Proof.
  destruct (cursor_enumerates_range mem_new ∅ (zero_entry <$> [3; 1; 2]) 1 2 32 5 mem_new_rep)
    as (hd & root & s1 & bt1 & c & bt2 & s2 & H).
  - repeat constructor; simpl; try lia; apply length_zeros.
  - lia.
  - lia.
  - simpl. lia.
  - exists hd, root, s1, bt1, c, bt2, s2. exact H.
Defined.

(** A tree of sixteen entries. *)
Lemma sixteen_entries :
  ∃ (bt : BTree Mem) h, tree_rep true bt h (insert_kvs (zero_entry <$> seqZ 0 16) []).
Proof.
  destruct (Create_ok mem_new ∅ mem_new_rep ltac:(simpl; lia)) as (hd & root & s1 & _ & Hrep & Hr).
  destruct (insert_all_ok 32 (zero_entry <$> seqZ 0 16) (mkBTree s1 hd root) 0 [])
    as (bt & h & _ & Hfull); [by right|by apply (zero_entries_wf 16); lia|simpl; simpl in Hr; lia|lia|].
  exists bt, h. destruct Hfull as [?|[-> Hbad]]; [done|]. exfalso.
  destruct Hbad as (v & fl & fp & _ & (Hl & _) & _). destruct Hl as [[_ _ Ho _] _].
  rewrite LeafOrder_val in Ho. revert Ho. vm_compute. lia.
Qed.

Lemma cursor_panics_on_emptied_leaf_witness :
  ∃ (bt bt1 : BTree Mem) c bt2 s',
    delete_all 32 (Key <$> insert_kvs (zero_entry <$> seqZ 0 16) []) bt = (Ok tt, bt1) ∧
    NewCursor 32 0 MaxUint64 bt1 = (Ok c, bt2) ∧ Next c (pg bt2) = (Panic, s').
Proof.
  destruct sixteen_entries as (bt & h & Hrep). exists bt.
  apply (cursor_panics_on_emptied_leaf true bt h _ 32 Hrep); [|lia].
  rewrite LeafOrder_val. vm_compute. lia.
Defined.
