(* ===== verification/Transaction.v ===== *)
(** * Transaction: a B+ tree changed inside a transaction

    The composition used by the executor ([src/executor/dml.go]): a B+ tree
    over a [TxPager] over a [BufPager] over a [Pager].  Nothing here is new
    code; the theorems put the components' contracts together. *)
From S2P Require Import Prelude Storage Disk Store Pager TxPager BufferPool Node BTree.
From stdpp Require Import options.

(** The same tree, its pages read through a new transaction buffer. *)
Definition begin_tx {S} (bt : BTree S) : BTree (TxPager S) :=
  mkBTree (NewTxPager (pg bt)) (headerPage bt) (rootID bt).

(** Inside the transaction the tree is the one it began with, against the
    contract of a transaction over the pages [v0]. *)
Lemma begin_tx_rep (bt : BTree BufPager) h kvs :
  tree_rep false bt h kvs →
  ∃ v0, tree_rep (PSS := TxPager_spec_from v0) false (begin_tx bt) h kvs ∧
    ∀ b, ps_rep b v0 → tree_rep false (mkBTree b (headerPage bt) (rootID bt)) h kvs.
Proof.
  intros (v & fl & fp & Hs & Hrep & Hhd). exists v. split.
  - exists v, fl, fp. split; [|done]. by apply NewTxPager_rep.
  - intros b Hb. by exists v, fl, fp.
Qed.

(** Once a transaction's pages are flushed, in whatever order the buffer's map
    is traversed, its changes are durable: after a restart (the pool is lost,
    the pager and the tree are opened again from the file and the header page)
    every key has exactly the value the transaction's operations gave it. *)
Theorem committed_transaction_survives_restart (bt : BTree BufPager) h kvs os fuel :
  tree_rep false bt h kvs → Forall tree_op_wf os → 2 ^ 32 ≤ Z.of_nat fuel →
  33 * Z.of_nat (length os) ≤ ps_room (pg bt) →
  ∃ ans tx m, tree_run fuel os (begin_tx bt) = (Ok ans, tx) ∧ map_run os (kv_map kvs) ans m ∧
    ∀ order, order ≡ₚ DirtyPages (pg tx) →
      ∃ tp pgr pgr' f root s', Flush order (pg tx) = (Ok tt, tp) ∧ bp_pager (base tp) = Some pgr ∧
        Pager.Open (f_bytes (file pgr)) = (Ok pgr', f) ∧
        BTree.Open (headerPage bt) pgr' = (Ok (headerPage bt, root), s') ∧
        ∀ k, is_u64 k → ∃ bt', Search fuel k (mkBTree s' (headerPage bt) root) = (Ok (m !! k), bt').
Proof.
  intros Hrep Hwf Hfuel Hroom.
  destruct (begin_tx_rep bt h kvs Hrep) as (v0 & Hbegin & _).
  destruct (tree_run_ok (PSS := TxPager_spec_from v0) fuel os (begin_tx bt) h kvs)
    as (ans & tx & h' & kvs' & E & Hrep' & Hhd & Hm); [done..|].
  exists ans, tx, (kv_map kvs'). split; [done|]. split; [done|]. intros order Ho.
  destruct Hrep' as (v & fl & fp & Htx & Ht & Hnf & Hl).
  destruct (Flush_ok order _ _ _ Htx Ho) as (tp & EF & (pgr & Hb & Hp) & _).
  destruct Hp as [Hf Hd]. pose proof (Open_rep _ _ _ _ Hd) as EO.
  set (pgr' := mkPager (OpenFile (f_bytes (file pgr))) (totalPages pgr) (freeList pgr)) in EO.
  assert (tree_rep false (mkBTree pgr' (headerPage bt) (rootID tx)) h' kvs') as Hrep2.
  { exists v, fl, fp. rewrite Hhd in Hnf, Hl. split; [|done]. by split. }
  destruct (Open_ok false _ _ _ Hrep2) as (s' & EB & Hrep3 & _). cbn [headerPage rootID pg] in *.
  exists tp, pgr, pgr', (OpenFile (f_bytes (file pgr))), (rootID tx), s'.
  split_and!; [done|by apply br_file|done|done|].
  intros k Hk. destruct (Search_ok _ _ _ _ k fuel Hrep3 Hk ltac:(lia)) as (bt' & ES & _). eauto.
Qed.

(** A rolled-back transaction leaves no trace: as long as the pages it
    allocated fit in the free list, [Rollback] succeeds and on the base store
    the tree, found at its old root, still maps every key to the value it had
    when the transaction began. *)
Theorem rolled_back_transaction_changes_nothing (bt : BTree BufPager) h kvs os fuel :
  tree_rep false bt h kvs → Forall tree_op_wf os → 2 ^ 32 ≤ Z.of_nat fuel →
  33 * Z.of_nat (length os) ≤ ps_room (pg bt) →
  ∃ ans tx, tree_run fuel os (begin_tx bt) = (Ok ans, tx) ∧
    (Z.of_nat (length (allocated (pg tx))) ≤ fs_slots (base (pg tx)) →
     ∃ tp, Rollback (pg tx) = (Ok tt, tp) ∧ DirtyPages tp = [] ∧
       ∀ k, is_u64 k → ∃ bt', Search fuel k (mkBTree (base tp) (headerPage bt) (rootID bt))
         = (Ok (kv_map kvs !! k), bt')).
Proof.
  intros Hrep Hwf Hfuel Hroom. destruct (begin_tx_rep bt h kvs Hrep) as (v0 & Hbegin & Hback).
  destruct (tree_run_ok (PSS := TxPager_spec_from v0) fuel os (begin_tx bt) h kvs)
    as (ans & tx & h' & kvs' & E & Hrep' & _); [done..|].
  exists ans, tx. split; [done|]. intros Hslots. destruct Hrep' as (v & fl & fp & Htx & _).
  destruct (Rollback_ok _ _ _ Htx Hslots) as (tp & ER & Hb & Hd & _).
  exists tp. split; [done|]. split; [unfold DirtyPages; rewrite Hd; by rewrite map_to_list_empty|].
  intros k Hk. destruct (Search_ok _ _ _ _ k fuel (Hback _ Hb) Hk ltac:(lia)) as (bt' & ES & _). eauto.
Qed.

(** ** Concrete instances *)

(** A new database file behind a pool. *)
Definition buf0 : BufPager := mkBufPager (Register pager0 (New 4)).2 0.

Lemma buf0_rep : ps_rep buf0 ∅.
Proof. exists pager0. split; [exact (Register_rep pager0 ∅ 4 pager0_rep)|exact pager0_rep]. Qed.

(** An empty tree in it. *)
Lemma buf0_tree : ∃ (bt : BTree BufPager), tree_rep false bt 0 [] ∧ 1000 ≤ ps_room (pg bt).
Proof.
  destruct (Create_ok buf0 ∅ buf0_rep) as (hd & root & s' & _ & Hrep & Hr).
  - change (ps_room buf0) with (pager_room pager0). unfold pager_room, pager0. simpl. lia.
  - exists (mkBTree s' hd root). split; [exact Hrep|]. cbn [pg]. rewrite Hr.
    change (ps_room buf0) with (pager_room pager0). unfold pager_room, pager0. simpl. lia.
Qed.

Lemma committed_transaction_survives_restart_witness :
  ∃ (bt : BTree BufPager) ans tx m,
    tree_run (Z.to_nat (2 ^ 32)) [TInsert 5 (zeros ValueSize); TDelete 5; TInsert 6 (zeros ValueSize)] (begin_tx bt)
      = (Ok ans, tx) ∧
    map_run [TInsert 5 (zeros ValueSize); TDelete 5; TInsert 6 (zeros ValueSize)] ∅ ans m.
Proof.
  destruct buf0_tree as (bt & Hrep & Hroom). exists bt.
  destruct (committed_transaction_survives_restart bt 0 []
    [TInsert 5 (zeros ValueSize); TDelete 5; TInsert 6 (zeros ValueSize)] (Z.to_nat (2 ^ 32)) Hrep)
    as (ans & tx & m & E & Hm & _).
  - repeat constructor; simpl; try lia; apply length_zeros.
  - rewrite Z2Nat.id by lia. lia.
  - cbn [length]. lia.
  - exists ans, tx, m. exact (conj E Hm).
Defined.

Lemma rolled_back_transaction_changes_nothing_witness :
  ∃ (bt : BTree BufPager) ans tx,
    tree_run (Z.to_nat (2 ^ 32)) [TInsert 5 (zeros ValueSize)] (begin_tx bt) = (Ok ans, tx).
Proof.
  destruct buf0_tree as (bt & Hrep & Hroom). exists bt.
  destruct (rolled_back_transaction_changes_nothing bt 0 [] [TInsert 5 (zeros ValueSize)] (Z.to_nat (2 ^ 32)) Hrep)
    as (ans & tx & E & _).
  - repeat constructor; simpl; try lia; apply length_zeros.
  - rewrite Z2Nat.id by lia. lia.
  - cbn [length]. lia.
  - exists ans, tx. exact E.
Defined.
