(* ===== verification/Wal.v ===== *)
(** * Wal: the write-ahead log and crash recovery ([src/wal/wal.go])

    The log is a file of fixed-size records.  Writes to the file are durable in
    this model, so [Sync] is the identity; what a crash may leave behind the
    synced records is covered by theorems about arbitrary bytes at the end of
    the file.  A directory is a map from file names to file contents, used by
    [Recover], whose two map traversals take their order as an argument. *)
From S2P Require Import Prelude Storage Disk Store Pager.
From stdpp Require Import options.

Definition tableNameSize : nat := 32.
Definition RecordSize : nat := Z.to_nat 4149.

Definition RecordBegin : Z := 1.
Definition RecordWrite : Z := 2.
Definition RecordCommit : Z := 3.
Definition RecordRollback : Z := 4.

Record Rec : Type := mkRec {
  LSN : Z;
  XID : Z;
  Typ : Z;
  TableName : list byte;
  PageID : Z;
  PageData : list byte
}.

Record WAL : Type := mkWAL { f : File; records : nat; nextLSN : Z; nextXID : Z }.

(** [strings.TrimRight(s, "\x00")] *)
Fixpoint trim_nul (l : list byte) : list byte :=
  match l with
  | [] => []
  | b :: l =>
      match trim_nul l with
      | [] => if decide (b = x00) then [] else [b]
      | t => b :: t
      end
  end.

Definition encodeRecord (r : Rec) : list byte :=
  let buf := zeros RecordSize in
  let buf := put_u64 0 (LSN r) buf in
  let buf := put_u32 8 (XID r) buf in
  let buf := put_u8 12 (Typ r) buf in
  let name := TableName r in
  let name := if decide (tableNameSize < length name)%nat then take tableNameSize name else name in
  let buf := put 13 name buf in
  let buf := put_u32 45 (PageID r) buf in
  let buf := put 49 (PageData r) buf in
  let crc := ChecksumIEEE (slice 0 (RecordSize - 4) buf) in
  put_u32 (RecordSize - 4) crc buf.

Definition decodeRecord (buf : list byte) : res Rec :=
  let stored := get_u32 (RecordSize - 4) buf in
  let got := ChecksumIEEE (slice 0 (RecordSize - 4) buf) in
  if decide (stored ≠ got) then
    Err (Errorf "WAL record CRC mismatch (stored 0x%08X, computed 0x%08X)" [GInt stored; GInt got])
  else
    Ok (mkRec (get_u64 0 buf) (get_u32 8 buf) (get_u8 12 buf)
          (trim_nul (slice 13 tableNameSize buf)) (get_u32 45 buf) (slice 49 PageSize buf)).

Definition readRecordAt (index : nat) (w : WAL) : res Rec :=
  buf ← wrap_err "read WAL record %d: %w" [GInt (Z.of_nat index)]
          (ReadAt (index * RecordSize) RecordSize (f w));
  decodeRecord buf.

(** The loop of [readAllLocked] from record [i] on. *)
Fixpoint read_records (n i : nat) (w : WAL) : res (list Rec) :=
  match n with
  | O => Ok []
  | S n => r ← readRecordAt i w; rs ← read_records n (S i) w; Ok (r :: rs)
  end.
Definition readAllLocked (w : WAL) : res (list Rec) := read_records (records w) 0 w.

Definition appendLocked (r : Rec) : M WAL unit := λ w,
  let '(e, f') := WriteAt (records w * RecordSize) (encodeRecord r) (f w) in
  match e with
  | Ok _ => (Ok tt, mkWAL f' (S (records w)) (nextLSN w) (nextXID w))
  | e => (wrap_err "write WAL record: %w" [] e, mkWAL f' (records w) (nextLSN w) (nextXID w))
  end.

Definition allocLSN : M WAL Z := λ w,
  (Ok (nextLSN w), mkWAL (f w) (records w) (u64 (nextLSN w + 1)) (nextXID w)).

Definition AllocXID : M WAL Z :=
  w ← get_state;
  let xid := nextXID w in
  _ ← modify (λ w, mkWAL (f w) (records w) (nextLSN w) (u32 (nextXID w + 1)));
  lsn ← allocLSN;
  _ ← appendLocked (mkRec lsn xid RecordBegin [] 0 (zeros PageSize));
  mret xid.

Definition AppendWrite (xid : Z) (tableName : list byte) (pageID : Z) (data : list byte) : M WAL unit :=
  lsn ← allocLSN;
  appendLocked (mkRec lsn xid RecordWrite tableName pageID data).

Definition AppendCommit (xid : Z) : M WAL unit :=
  lsn ← allocLSN;
  appendLocked (mkRec lsn xid RecordCommit [] 0 (zeros PageSize)).

Definition AppendRollback (xid : Z) : M WAL unit :=
  lsn ← allocLSN;
  appendLocked (mkRec lsn xid RecordRollback [] 0 (zeros PageSize)).

Definition RecordCount (w : WAL) : nat := records w.

(** The loop of [scanInit] from record [i] on; it stops at the first record it
    cannot read. *)
Fixpoint scan_records (n i : nat) (w : WAL) : WAL :=
  match n with
  | O => w
  | S n =>
      match readRecordAt i w with
      | Ok r =>
          scan_records n (S i)
            (mkWAL (f w) (S (records w))
               (if decide (nextLSN w ≤ LSN r) then u64 (LSN r + 1) else nextLSN w)
               (if decide (nextXID w ≤ XID r) then u32 (XID r + 1) else nextXID w))
      | _ => w
      end
  end.
Definition scanInit (w : WAL) : WAL :=
  scan_records (length (f_bytes (f w)) / RecordSize) 0 (mkWAL (f w) 0 (nextLSN w) (nextXID w)).

(** [Open] on a log file with the given content. *)
Definition Open (b : list byte) : WAL := scanInit (mkWAL (OpenFile b) 0 1 1).

Definition Close (w : WAL) : WAL := mkWAL (CloseFile (f w)) (records w) (nextLSN w) (nextXID w).

(** [CommittedXIDs], as the set it returns the elements of. *)
Definition CommittedXIDs (w : WAL) : res (gset Z) :=
  rs ← readAllLocked w;
  Ok (foldl (λ seen r, if decide (Typ r = RecordCommit) then {[XID r]} ∪ seen else seen) ∅ rs).

(** ** Recovery *)

(** Phase 1: the XIDs with a commit record. *)
Definition committed_xids (rs : list Rec) : gset Z :=
  foldl (λ c r, if decide (Typ r = RecordCommit) then {[XID r]} ∪ c else c) ∅ rs.

Abbreviation page_key := (list byte * Z)%type.
(** The latest image of each page, with its LSN. *)
Abbreviation images := (gmap page_key (list byte * Z)).

(** Phase 2: the highest-LSN committed image of each page. *)
Definition latest_step (committed : gset Z) (latest : images) (r : Rec)
    : images :=
  if decide (Typ r ≠ RecordWrite ∨ XID r ∉ committed) then latest
  else
    let k := (TableName r, PageID r) in
    if decide (default 0 (snd <$> latest !! k) < LSN r) then <[k := (PageData r, LSN r)]> latest else latest.
Definition latest_images (committed : gset Z) (rs : list Rec) : images :=
  foldl (latest_step committed) ∅ rs.

(** Phase 3: the page loop on one open table file. *)
Fixpoint apply_pages (table : list byte) (pages : list (Z * list byte)) : M Pager unit :=
  match pages with
  | [] => mret tt
  | (pageID, raw) :: pages =>
      match Decode raw with
      | Ok page =>
          _ ← (λ pg, match WritePage page pg with
                 | (Err e, pg) =>
                     (Err (Wrapf "WAL recover: write page %d in %q: %w" [GInt pageID] e), (Pager.Close pg).2)
                 | r => r
                 end);
          apply_pages table pages
      | Err e => λ pg,
          (Err (Wrapf "WAL recover: decode page %d in %q: %w" [GInt pageID] e), (Pager.Close pg).2)
      | Panic => lift Panic
      | OutOfFuel => lift OutOfFuel
      end
  end.

(** The directory of table files. *)
Abbreviation directory := (gmap (list byte) (list byte)).

(** One turn of the table loop. *)
Definition apply_table (table : list byte) (pages : list (Z * list byte)) : M directory unit := λ dir,
  match dir !! table with
  | None => (Ok tt, dir)
  | Some b =>
      match Pager.Open b with
      | (Ok pg, _) =>
          let '(r, pg) :=
            (_ ← apply_pages table pages; wrap "WAL recover: close %q: %w" [] Pager.Close) pg in
          (r, <[table := f_bytes (file pg)]> dir)
      | (Err e, fl) => (Err (Wrapf "WAL recover: open %q: %w" [] e), <[table := f_bytes fl]> dir)
      | (Panic, fl) => (Panic, <[table := f_bytes fl]> dir)
      | (OutOfFuel, fl) => (OutOfFuel, <[table := f_bytes fl]> dir)
      end
  end.

Fixpoint apply_tables (order : list (list byte * list (Z * list byte))) : M directory unit :=
  match order with
  | [] => mret tt
  | (table, pages) :: order => _ ← apply_table table pages; apply_tables order
  end.

(** [byTable], with its entries listed in the order the loops traverse them. *)
Definition by_table (latest : images)
    (order : list (list byte * list (Z * list byte))) : Prop :=
  NoDup order.*1 ∧ Forall (λ tp, tp.2 ≠ [] ∧ NoDup tp.2.*1) order ∧
  ∀ t id raw, (∃ pages, (t, pages) ∈ order ∧ (id, raw) ∈ pages) ↔ ∃ lsn, latest !! (t, id) = Some (raw, lsn).

(** [Recover]; [sched] chooses the traversal order of [byTable]. *)
Definition Recover (sched : images → list (list byte * list (Z * list byte)))
    (w : WAL) : M directory unit :=
  rs ← lift (wrap_err "WAL recover: read records: %w" [] (readAllLocked w));
  match rs with
  | [] => mret tt
  | _ =>
      let latest := latest_images (committed_xids rs) rs in
      if decide (latest = ∅) then mret tt else apply_tables (sched latest)
  end.

Lemma RecordSize_val : Z.of_nat RecordSize = 4149.
Proof. reflexivity. Qed.
#[global] Opaque RecordSize.
Ltac rec_consts := pose proof RecordSize_val; page_consts.
Ltac arr_consts ::= (pose proof RecordSize_val; page_consts).
Ltac rec_lia := rec_consts; unfold tableNameSize in *; lia.

(** ** Records *)

Record rec_wf (r : Rec) : Prop := {
  rw_lsn : is_u64 (LSN r);
  rw_xid : is_u32 (XID r);
  rw_typ : is_u8 (Typ r);
  rw_page : is_u32 (PageID r);
  rw_data : length (PageData r) = PageSize
}.

(** What a record's table name becomes in the log: 32 bytes, trailing zeros lost. *)
Definition norm_name (n : list byte) : list byte := trim_nul (take tableNameSize n).
Definition norm_rec (r : Rec) : Rec :=
  mkRec (LSN r) (XID r) (Typ r) (norm_name (TableName r)) (PageID r) (PageData r).

Lemma trim_nul_zeros n : trim_nul (zeros n) = [].
Proof. induction n as [|n IH]; [done|]. cbn [zeros replicate trim_nul]. unfold zeros in IH. by rewrite IH. Qed.

Lemma trim_nul_app_zeros l n : trim_nul (l ++ zeros n) = trim_nul l.
Proof. induction l as [|b l IH]; [apply trim_nul_zeros|]. cbn [app trim_nul]. by rewrite IH. Qed.

Lemma trim_nul_id l : (∀ b, last l = Some b → b ≠ x00) → trim_nul l = l.
Proof.
  induction l as [|b l IH]; [done|]. intros Hl. cbn [trim_nul]. destruct l as [|c l].
  - cbn [trim_nul]. rewrite decide_False; [done|]. by apply Hl.
  - rewrite IH; [done|]. intros x Hx. apply Hl. by rewrite last_cons, Hx.
Qed.

Definition rec_prefix (r : Rec) : list byte :=
  le_enc 8 (LSN r) ++ le_enc 4 (XID r) ++ le_enc 1 (Typ r) ++
  (take tableNameSize (TableName r) ++ zeros (tableNameSize - length (take tableNameSize (TableName r)))) ++
  le_enc 4 (PageID r) ++ PageData r.

Lemma length_rec_prefix r : length (PageData r) = PageSize → length (rec_prefix r) = (RecordSize - 4)%nat.
Proof.
  intros Hd. unfold rec_prefix. rewrite !length_app, !length_le_enc, length_zeros, Hd, length_take. rec_lia.
Qed.

Lemma take_name (n : list byte) : (if decide (tableNameSize < length n)%nat then take tableNameSize n else n) = take tableNameSize n.
Proof. case_decide; [done|]. rewrite take_ge; [done|lia]. Qed.

(** Writing over a part of a zeroed tail and leaving a gap of zeros. *)
Lemma put_zeros_gap pre k bs m :
  (length bs ≤ m)%nat → k = length pre →
  put k bs (pre ++ zeros m) = (pre ++ bs) ++ zeros (m - length bs).
Proof. intros Hm ->. by apply put_zeros_app. Qed.

Lemma zeros_app n m : zeros n ++ zeros m = zeros (n + m).
Proof. unfold zeros. by rewrite replicate_add. Qed.

Lemma encodeRecord_eq r :
  length (PageData r) = PageSize →
  encodeRecord r = rec_prefix r ++ le_enc 4 (ChecksumIEEE (rec_prefix r)).
Proof.
  intros Hd. pose proof (length_rec_prefix r Hd) as Hp. unfold encodeRecord. rewrite take_name.
  set (name := take tableNameSize (TableName r)).
  assert (length name ≤ 32)%nat as Hn by (unfold name, tableNameSize; rewrite length_take; lia).
  unfold put_u64, put_u32, put_u8.
  rewrite put_zeros_0 by arr_len.
  rewrite !put_zeros_gap by (rewrite ?length_app, ?length_le_enc; rec_lia).
  set (pre := (((le_enc 8 (LSN r) ++ le_enc 4 (XID r)) ++ le_enc 1 (Typ r)) ++ name)).
  assert (length pre = 13 + length name)%nat as Hlp by (unfold pre; rewrite !length_app, !length_le_enc; lia).
  replace (RecordSize - length (le_enc 8 (LSN r)) - length (le_enc 4 (XID r)) - length (le_enc 1 (Typ r)) - length name)%nat
    with ((32 - length name) + (RecordSize - 45))%nat by (rewrite !length_le_enc; rec_lia).
  rewrite <-zeros_app, (app_assoc pre).
  rewrite !put_zeros_gap by (rewrite ?length_app, ?length_le_enc, ?length_zeros, ?Hlp; rec_lia).
  assert (((pre ++ zeros (32 - length name)) ++ le_enc 4 (PageID r)) ++ PageData r = rec_prefix r) as ->.
  { unfold rec_prefix, pre, tableNameSize. fold name. by rewrite <-!app_assoc. }
  replace (RecordSize - 45 - length (le_enc 4 (PageID r)) - length (PageData r))%nat with 4%nat
    by (rewrite length_le_enc, Hd; rec_lia).
  assert (slice 0 (RecordSize - 4) (rec_prefix r ++ zeros 4) = rec_prefix r) as ->.
  { unfold slice. rewrite drop_0. by apply take_app_length'. }
  by rewrite length_le_enc, Nat.sub_diag, app_nil_r.
Qed.

Lemma length_encodeRecord r : length (PageData r) = PageSize → length (encodeRecord r) = RecordSize.
Proof.
  intros Hd. rewrite encodeRecord_eq, length_app, length_le_enc, length_rec_prefix by done. rec_lia.
Qed.

Lemma decode_encodeRecord r : rec_wf r → decodeRecord (encodeRecord r) = Ok (norm_rec r).
Proof.
  intros [Hl Hx Ht Hp Hd]. rewrite encodeRecord_eq by done. unfold decodeRecord.
  pose proof (length_rec_prefix r Hd) as Hlen. set (crc := ChecksumIEEE (rec_prefix r)).
  assert (get_u32 (RecordSize - 4) (rec_prefix r ++ le_enc 4 crc) = crc) as E1.
  { unfold get_u32. rewrite <-(app_nil_r (le_enc 4 crc)), slice_app_mid; [|done|apply length_le_enc].
    apply le_dec_enc_small, ChecksumIEEE_range. }
  assert (slice 0 (RecordSize - 4) (rec_prefix r ++ le_enc 4 crc) = rec_prefix r) as E2.
  { unfold slice. rewrite drop_0. by apply take_app_length'. }
  rewrite E1, E2. fold crc. rewrite decide_False by tauto.
  set (name := take tableNameSize (TableName r) ++ zeros (tableNameSize - length (take tableNameSize (TableName r)))).
  assert (length name = 32%nat) as Hname.
  { unfold name, tableNameSize. rewrite length_app, length_zeros, length_take. lia. }
  unfold norm_rec. f_equal. unfold rec_prefix. fold name. rewrite <-!app_assoc.
  unfold get_u64, get_u32, get_u8. f_equal.
  - unfold slice. rewrite drop_0, take_app_length' by by rewrite length_le_enc. by apply le_dec_enc_small.
  - rewrite (slice_app_mid 8) by by rewrite length_le_enc. by apply le_dec_enc_small.
  - rewrite (app_assoc (le_enc 8 _)), (slice_app_mid 12) by (by rewrite ?length_app, ?length_le_enc).
    by apply le_dec_enc_small.
  - rewrite (app_assoc (le_enc 8 _)), (app_assoc _ (le_enc 1 _)), (slice_app_mid 13)
      by (by rewrite ?length_app, ?length_le_enc).
    apply trim_nul_app_zeros.
  - rewrite (app_assoc (le_enc 8 _)), (app_assoc _ (le_enc 1 _)), (app_assoc _ name), (slice_app_mid 45)
      by (by rewrite ?length_app, ?length_le_enc, ?Hname). by apply le_dec_enc_small.
  - rewrite (app_assoc (le_enc 8 _)), (app_assoc _ (le_enc 1 _)), (app_assoc _ name), (app_assoc _ (le_enc 4 (PageID r))), (slice_app_mid 49); [done| |done].
    by rewrite !length_app, !length_le_enc, Hname.
Qed.

(** ** The log as a list of records *)

Definition log_bytes (rs : list Rec) : list byte := concat (encodeRecord <$> rs).

Lemma length_log_bytes rs : Forall rec_wf rs → length (log_bytes rs) = (length rs * RecordSize)%nat.
Proof.
  unfold log_bytes. induction 1 as [|r rs Hr Hrs IH]; [done|]. cbn [fmap list_fmap concat length].
  rewrite length_app, IH, length_encodeRecord by apply Hr. lia.
Qed.

Lemma log_bytes_app rs rs' : log_bytes (rs ++ rs') = log_bytes rs ++ log_bytes rs'.
Proof. unfold log_bytes. by rewrite fmap_app, concat_app. Qed.

Lemma log_bytes_one r : log_bytes [r] = encodeRecord r.
Proof. unfold log_bytes. cbn. apply app_nil_r. Qed.

Lemma readRecordAt_ok w rs1 r rs2 rest :
  file_ok (f w) → f_bytes (f w) = log_bytes (rs1 ++ r :: rs2) ++ rest → Forall rec_wf (rs1 ++ r :: rs2) →
  readRecordAt (length rs1) w = Ok (norm_rec r).
Proof.
  intros Hf Hb Hwf. apply Forall_app in Hwf as [H1 H2]. apply Forall_cons in H2 as [Hr H2].
  assert (f_bytes (f w) = log_bytes rs1 ++ encodeRecord r ++ (log_bytes rs2 ++ rest)) as Hb'.
  { rewrite Hb, log_bytes_app. unfold log_bytes at 2. cbn [fmap list_fmap concat]. by rewrite <-!app_assoc. }
  unfold readRecordAt. rewrite ReadAt_ok; [|done|].
  - rewrite Hb'. rewrite slice_app_mid; [|by apply length_log_bytes|by apply length_encodeRecord, rw_data].
    cbn [wrap_err]. unfold mbind, res_bind. by apply decode_encodeRecord.
  - rewrite Hb', !length_app, length_log_bytes, length_encodeRecord by (done || apply Hr). lia.
Qed.

Lemma read_records_ok w rs1 rs2 rest :
  file_ok (f w) → f_bytes (f w) = log_bytes (rs1 ++ rs2) ++ rest → Forall rec_wf (rs1 ++ rs2) →
  read_records (length rs2) (length rs1) w = Ok (norm_rec <$> rs2).
Proof.
  intros Hf. revert rs1. induction rs2 as [|r rs2 IH]; intros rs1 Hb Hwf; [done|]. cbn [length read_records].
  rewrite (readRecordAt_ok w rs1 r rs2 rest) by done. unfold mbind, res_bind.
  replace (S (length rs1)) with (length (rs1 ++ [r])) by (rewrite length_app; simpl; lia).
  rewrite IH; [done|by rewrite <-app_assoc|by rewrite <-app_assoc].
Qed.

(** [t] does not start with a readable record. *)
Definition torn (t : list byte) : Prop :=
  (length t < RecordSize)%nat ∨ ∀ r, decodeRecord (take RecordSize t) ≠ Ok r.

Definition lsn_step (n : Z) (r : Rec) : Z := if decide (n ≤ LSN r) then u64 (LSN r + 1) else n.
Definition xid_step (n : Z) (r : Rec) : Z := if decide (n ≤ XID r) then u32 (XID r + 1) else n.

Lemma scan_records_ok n w rs1 rs2 t :
  file_ok (f w) → f_bytes (f w) = log_bytes (rs1 ++ rs2) ++ t → Forall rec_wf (rs1 ++ rs2) →
  torn t → (length rs2 ≤ n)%nat → (length t < RecordSize → n ≤ length rs2)%nat →
  scan_records n (length rs1) w =
    mkWAL (f w) (records w + length rs2) (foldl lsn_step (nextLSN w) rs2) (foldl xid_step (nextXID w) rs2).
Proof.
  revert w rs1 n. induction rs2 as [|r rs2 IH]; intros w rs1 n Hf Hb Hwf Ht Hn Hshort.
  - cbn [length foldl]. rewrite Nat.add_0_r. destruct n as [|n]; [by destruct w|]. cbn [scan_records].
    assert (∀ r, readRecordAt (length rs1) w ≠ Ok r) as Hbad.
    { intros r. destruct Ht as [Hl|Hd]; [specialize (Hshort Hl); simpl in Hshort; lia|].
      rewrite app_nil_r in Hb, Hwf. unfold readRecordAt.
      destruct (decide (RecordSize ≤ length t)%nat) as [Hl|Hl].
      - rewrite ReadAt_ok; [|done|rewrite Hb, length_app, length_log_bytes by done; lia].
        cbn [wrap_err]. unfold mbind, res_bind. rewrite Hb. unfold slice.
        rewrite drop_app_length' by (by rewrite length_log_bytes). apply Hd.
      - rewrite ReadAt_eof; [done|done|]. rewrite Hb, length_app, length_log_bytes by done. lia. }
    destruct (readRecordAt (length rs1) w) as [r| | |] eqn:E; [by destruct (Hbad r)|by destruct w..].
  - cbn [length foldl]. destruct n as [|n]; [simpl in Hn; lia|]. cbn [scan_records].
    rewrite (readRecordAt_ok w rs1 r rs2 t) by done.
    replace (S (length rs1)) with (length (rs1 ++ [r])) by (rewrite length_app; simpl; lia).
    rewrite IH; cbn [f]; [|done|by rewrite <-app_assoc|by rewrite <-app_assoc|done|simpl in Hn; lia|
      intros Hl; specialize (Hshort Hl); simpl in Hshort; lia].
    cbn [records nextLSN nextXID norm_rec LSN XID]. f_equal. lia.
Qed.

Lemma Open_log rs t :
  Forall rec_wf rs → torn t →
  Open (log_bytes rs ++ t) =
    mkWAL (OpenFile (log_bytes rs ++ t)) (length rs) (foldl lsn_step 1 rs) (foldl xid_step 1 rs).
Proof.
  intros Hwf Ht. unfold Open, scanInit. cbn [f OpenFile f_bytes].
  apply (scan_records_ok _ (mkWAL (OpenFile (log_bytes rs ++ t)) 0 1 1) [] rs t); [exact (OpenFile_ok _)|reflexivity|exact Hwf|exact Ht| |].
  - cbn [nextLSN nextXID]. rewrite length_app, length_log_bytes by done.
    apply Nat.div_le_lower_bound; rec_lia.
  - intros Hl. rewrite length_app, length_log_bytes by done.
    apply Nat.lt_succ_r, Nat.Div0.div_lt_upper_bound. rec_lia.
Qed.

(** The counters after a scan exceed every record of the log. *)
Lemma foldl_lsn n rs :
  0 ≤ n < 2 ^ 64 → Forall (λ r, 0 ≤ LSN r < 2 ^ 64 - 1) rs →
  n ≤ foldl lsn_step n rs < 2 ^ 64 ∧ Forall (λ r, LSN r < foldl lsn_step n rs) rs.
Proof.
  intros Hn H. revert n Hn. induction H as [|r rs Hr Hrs IH]; intros n Hn; [split; [simpl; lia|constructor]|].
  cbn [foldl]. assert (0 ≤ lsn_step n r < 2 ^ 64 ∧ n ≤ lsn_step n r ∧ LSN r < lsn_step n r) as (H1 & H2 & H3).
  { unfold lsn_step. case_decide; [|lia]. unfold u64. rewrite Z.mod_small; lia. }
  destruct (IH _ H1) as [H4 H5]. split; [lia|]. constructor; [lia|done].
Qed.

Lemma foldl_xid n rs :
  0 ≤ n < 2 ^ 32 → Forall (λ r, 0 ≤ XID r < 2 ^ 32 - 1) rs →
  n ≤ foldl xid_step n rs < 2 ^ 32 ∧ Forall (λ r, XID r < foldl xid_step n rs) rs.
Proof.
  intros Hn H. revert n Hn. induction H as [|r rs Hr Hrs IH]; intros n Hn; [split; [simpl; lia|constructor]|].
  cbn [foldl]. assert (0 ≤ xid_step n r < 2 ^ 32 ∧ n ≤ xid_step n r ∧ XID r < xid_step n r) as (H1 & H2 & H3).
  { unfold xid_step. case_decide; [|lia]. unfold u32. rewrite Z.mod_small; lia. }
  destruct (IH _ H1) as [H4 H5]. split; [lia|]. constructor; [lia|done].
Qed.

(** ** The log in use *)

Record wal_rep (w : WAL) (rs : list Rec) : Prop := {
  wr_file : file_ok (f w);
  wr_bytes : ∃ t, f_bytes (f w) = log_bytes rs ++ t;
  wr_count : records w = length rs;
  wr_wf : Forall rec_wf rs
}.

Lemma readAll_ok w rs : wal_rep w rs → readAllLocked w = Ok (norm_rec <$> rs).
Proof.
  intros [Hf [t Hb] Hc Hwf]. unfold readAllLocked. rewrite Hc. by apply (read_records_ok w [] rs t).
Qed.

Lemma append_ok w rs r :
  wal_rep w rs → rec_wf r →
  ∃ w', appendLocked r w = (Ok tt, w') ∧ wal_rep w' (rs ++ [r]) ∧
    nextLSN w' = nextLSN w ∧ nextXID w' = nextXID w ∧
    (f_bytes (f w) = log_bytes rs → f_bytes (f w') = log_bytes (rs ++ [r])) ∧
    ∀ t, f_bytes (f w) = log_bytes rs ++ t →
      f_bytes (f w') = log_bytes (rs ++ [r]) ++ drop RecordSize t.
Proof.
  intros [Hf [t0 Hb] Hc Hwf] Hr.
  pose proof (length_encodeRecord r (rw_data r Hr)) as Hlen.
  assert (∀ t, f_bytes (f w) = log_bytes rs ++ t →
    write_bytes (records w * RecordSize) (encodeRecord r) (f_bytes (f w)) =
      log_bytes (rs ++ [r]) ++ drop RecordSize t) as Hwrite.
  { intros t ->. rewrite Hc. unfold write_bytes, put. rewrite <-(length_log_bytes rs Hwf).
    rewrite <-app_assoc, take_app_length, log_bytes_app, <-!app_assoc. f_equal.
    rewrite log_bytes_one. f_equal. rewrite drop_app_ge by lia. rewrite Nat.add_comm, Nat.add_sub, Hlen.
    rewrite length_app.
    replace (length (log_bytes rs) + RecordSize - (length (log_bytes rs) + length t))%nat
      with (RecordSize - length t)%nat by lia.
    rewrite drop_app, (drop_ge (zeros _)) by (rewrite length_zeros; lia). apply app_nil_r. }
  eexists. split; [unfold appendLocked; rewrite WriteAt_ok by done; reflexivity|].
  cbn [nextLSN nextXID f OpenFile f_bytes]. split_and!; [|done|done| |done].
  - split; cbn [f OpenFile f_bytes records]; [done|by eexists; apply Hwrite|rewrite length_app; simpl; lia|].
    apply Forall_app. split; [done|by apply Forall_singleton].
  - intros Hnil. rewrite (Hwrite []); [by rewrite drop_nil, app_nil_r|by rewrite app_nil_r].
Qed.

(** ** Sequences of log calls *)

Inductive log_op : Type :=
  | LBegin | LWrite (xid : Z) (name : list byte) (pid : Z) (data : list byte)
  | LCommit (xid : Z) | LRollback (xid : Z).

Definition log_step (o : log_op) : M WAL unit :=
  match o with
  | LBegin => _ ← AllocXID; mret tt
  | LWrite xid name pid data => AppendWrite xid name pid data
  | LCommit xid => AppendCommit xid
  | LRollback xid => AppendRollback xid
  end.
Fixpoint log_run (os : list log_op) : M WAL unit :=
  match os with [] => mret tt | o :: os => _ ← log_step o; log_run os end.

(** The record a call logs when the counters are [lsn] and [xid]. *)
Definition log_rec (lsn xid : Z) (o : log_op) : Rec :=
  match o with
  | LBegin => mkRec lsn xid RecordBegin [] 0 (zeros PageSize)
  | LWrite x name pid data => mkRec lsn x RecordWrite name pid data
  | LCommit x => mkRec lsn x RecordCommit [] 0 (zeros PageSize)
  | LRollback x => mkRec lsn x RecordRollback [] 0 (zeros PageSize)
  end.
Fixpoint log_recs (lsn xid : Z) (os : list log_op) : list Rec :=
  match os with
  | [] => []
  | o :: os => log_rec lsn xid o :: log_recs (lsn + 1) (match o with LBegin => xid + 1 | _ => xid end) os
  end.

Definition log_op_wf (o : log_op) : Prop :=
  match o with
  | LBegin => True
  | LWrite x _ pid data => is_u32 x ∧ is_u32 pid ∧ length data = PageSize
  | LCommit x | LRollback x => is_u32 x
  end.

Definition commits (os : list log_op) : list Z :=
  omap (λ o, match o with LCommit x => Some x | _ => None end) os.

Lemma log_rec_wf lsn xid o : is_u64 lsn → is_u32 xid → log_op_wf o → rec_wf (log_rec lsn xid o).
Proof.
  intros Hl Hx Ho. pose proof (length_zeros PageSize) as Hz.
  unfold RecordBegin, RecordWrite, RecordCommit, RecordRollback.
  destruct o; simpl in *; split; cbn [LSN XID Typ PageID PageData];
    unfold RecordBegin, RecordWrite, RecordCommit, RecordRollback; solve [lia|exact Hz|tauto].
Qed.

Lemma log_step_ok o w rs :
  wal_rep w rs → f_bytes (f w) = log_bytes rs → log_op_wf o →
  0 ≤ nextLSN w < 2 ^ 64 - 1 → 0 ≤ nextXID w < 2 ^ 32 - 1 →
  ∃ w', log_step o w = (Ok tt, w') ∧ wal_rep w' (rs ++ [log_rec (nextLSN w) (nextXID w) o]) ∧
    f_bytes (f w') = log_bytes (rs ++ [log_rec (nextLSN w) (nextXID w) o]) ∧
    nextLSN w' = nextLSN w + 1 ∧ nextXID w' = match o with LBegin => nextXID w + 1 | _ => nextXID w end.
Proof.
  intros Hrep Hb Ho Hl Hx.
  assert (u64 (nextLSN w + 1) = nextLSN w + 1) as EL by (apply Z.mod_small; lia).
  assert (u32 (nextXID w + 1) = nextXID w + 1) as EX by (apply Z.mod_small; lia).
  pose proof (log_rec_wf (nextLSN w) (nextXID w) o ltac:(lia) ltac:(lia) Ho) as Hwf.
  set (w1 := mkWAL (f w) (records w) (nextLSN w + 1)
    match o with LBegin => nextXID w + 1 | _ => nextXID w end).
  assert (wal_rep w1 rs) as Hrep1 by (destruct Hrep; by split).
  destruct (append_ok w1 rs _ Hrep1 Hwf) as (w' & E & Hrep' & EL' & EX' & Hb' & _).
  exists w'. split; [|by auto].
  destruct o; unfold log_step, AllocXID, AppendWrite, AppendCommit, AppendRollback, allocLSN; M_run;
    cbn [f records nextLSN nextXID]; rewrite ?EL, ?EX;
    (let H := fresh in pose proof E as H; unfold w1 in H; cbn [log_rec] in H; by rewrite H).
Qed.

Lemma log_run_ok os w rs :
  wal_rep w rs → f_bytes (f w) = log_bytes rs → Forall log_op_wf os →
  0 ≤ nextLSN w → nextLSN w + Z.of_nat (length os) < 2 ^ 64 →
  0 ≤ nextXID w → nextXID w + Z.of_nat (length os) < 2 ^ 32 →
  ∃ w', log_run os w = (Ok tt, w') ∧ wal_rep w' (rs ++ log_recs (nextLSN w) (nextXID w) os) ∧
    f_bytes (f w') = log_bytes (rs ++ log_recs (nextLSN w) (nextXID w) os).
Proof.
  intros Hrep Hb Hwf. revert w rs Hrep Hb. induction Hwf as [|o os Ho Hos IH]; intros w rs Hrep Hb Hl Hl' Hx Hx'.
  { exists w. cbn [log_run log_recs]. rewrite app_nil_r. by split_and!. }
  cbn [log_run log_recs length] in *.
  destruct (log_step_ok o w rs Hrep Hb Ho ltac:(lia) ltac:(lia)) as (w1 & E & Hrep1 & Hb1 & EL & EX).
  destruct (IH w1 _ Hrep1 Hb1) as (w' & E' & Hrep' & Hb'); [lia|lia|destruct o; lia|destruct o; lia|].
  exists w'. M_run. rewrite E. rewrite EL, EX, <-app_assoc in *. by split_and!.
Qed.

(** The records of a run are numbered from 1 without gaps. *)
Lemma log_recs_lsn lsn xid os i r :
  log_recs lsn xid os !! i = Some r → LSN r = lsn + Z.of_nat i.
Proof.
  revert lsn xid i. induction os as [|o os IH]; intros lsn xid i; [done|]. destruct i as [|i]; cbn [log_recs lookup list_lookup].
  - intros [= <-]. destruct o; simpl; lia.
  - intros H. apply IH in H. lia.
Qed.

Lemma length_log_recs lsn xid os : length (log_recs lsn xid os) = length os.
Proof. revert lsn xid. induction os; intros; simpl; auto. Qed.

Lemma foldl_lsn_run lsn xid os :
  0 ≤ lsn → lsn + Z.of_nat (length os) < 2 ^ 64 → foldl lsn_step lsn (log_recs lsn xid os) = lsn + Z.of_nat (length os).
Proof.
  revert lsn xid. induction os as [|o os IH]; intros lsn xid H0 H; cbn [log_recs foldl length] in *; [lia|].
  assert (lsn_step lsn (log_rec lsn xid o) = lsn + 1) as ->.
  { unfold lsn_step. assert (LSN (log_rec lsn xid o) = lsn) as -> by (by destruct o).
    rewrite decide_True by lia. apply Z.mod_small. lia. }
  rewrite IH; lia.
Qed.

Lemma committed_fold rs (c : gset Z) x :
  x ∈ foldl (λ c r, if decide (Typ r = RecordCommit) then {[XID r]} ∪ c else c) c rs ↔
  x ∈ c ∨ ∃ r, r ∈ rs ∧ Typ r = RecordCommit ∧ XID r = x.
Proof.
  revert c. induction rs as [|r rs IH]; intros c; cbn [foldl].
  { setoid_rewrite elem_of_nil. naive_solver. }
  rewrite IH. setoid_rewrite elem_of_cons. case_decide; set_solver.
Qed.

Lemma elem_of_committed_xids rs x :
  x ∈ committed_xids rs ↔ ∃ r, r ∈ rs ∧ Typ r = RecordCommit ∧ XID r = x.
Proof. unfold committed_xids. rewrite committed_fold. set_solver. Qed.

Lemma elem_of_log_recs_commit lsn xid os x :
  (∃ r, r ∈ norm_rec <$> log_recs lsn xid os ∧ Typ r = RecordCommit ∧ XID r = x) ↔ x ∈ commits os.
Proof.
  revert lsn xid. induction os as [|o os IH]; intros lsn xid; cbn [log_recs fmap list_fmap commits].
  { cbn. setoid_rewrite elem_of_nil. naive_solver. }
  setoid_rewrite elem_of_cons.
  assert ((∃ r, (r = norm_rec (log_rec lsn xid o) ∨
      r ∈ norm_rec <$> log_recs (lsn + 1) (match o with LBegin => xid + 1 | _ => xid end) os) ∧
      Typ r = RecordCommit ∧ XID r = x) ↔
    (Typ (log_rec lsn xid o) = RecordCommit ∧ XID (log_rec lsn xid o) = x) ∨ x ∈ commits os) as ->.
  { rewrite <-(IH (lsn + 1) (match o with LBegin => xid + 1 | _ => xid end)). split.
    - intros (r & [->|Hr] & ? & ?); [by left|right; eauto].
    - intros [[? ?]|(r & ? & ? & ?)]; [|eauto]. exists (norm_rec (log_rec lsn xid o)). auto. }
  unfold commits. destruct o; cbn [omap list_omap log_rec Typ XID];
    [split; [intros [[? _]|?]; done|by right]..| |split; [intros [[? _]|?]; done|by right]].
  rewrite elem_of_cons. split; [intros [[_ ->]|?]; auto|intros [->|?]; auto].
Qed.

(** ** Recovery *)

(** The committed writes of the log to page [id] of [table]. *)
Definition page_writes (rs : list Rec) (table : list byte) (id : Z) : list Rec :=
  filter (λ r, Typ r = RecordWrite ∧ XID r ∈ committed_xids rs ∧ TableName r = table ∧ PageID r = id) rs.

Lemma latest_step_lookup c m r k :
  latest_step c m r !! k =
    if decide (Typ r = RecordWrite ∧ XID r ∈ c ∧ (TableName r, PageID r) = k ∧ default 0 (snd <$> m !! k) < LSN r)
    then Some (PageData r, LSN r) else m !! k.
Proof.
  unfold latest_step. destruct (decide (Typ r ≠ RecordWrite ∨ XID r ∉ c)) as [Hc|Hc].
  - rewrite decide_False by tauto. done.
  - destruct (decide ((TableName r, PageID r) = k)) as [<-|Hk].
    + case_decide as Hl.
      * rewrite decide_True, lookup_insert_eq; [done|]. split_and!; try done.
        -- destruct (decide (Typ r = RecordWrite)); tauto.
        -- destruct (decide (XID r ∈ c)); tauto.
      * rewrite decide_False by tauto. done.
    + rewrite (decide_False (P := Typ r = RecordWrite ∧ _)) by tauto.
      case_decide; [by rewrite lookup_insert_ne|done].
Qed.

(** In a log with increasing positive LSNs the highest-LSN image is the last one. *)
Lemma latest_images_ok c rs k :
  StronglySorted Z.lt (LSN <$> rs) → Forall (λ r, 0 < LSN r) rs →
  latest_images c rs !! k =
    (λ r, (PageData r, LSN r)) <$>
      last (filter (λ r, Typ r = RecordWrite ∧ XID r ∈ c ∧ TableName r = k.1 ∧ PageID r = k.2) rs).
Proof.
  unfold latest_images. induction rs as [|r rs IH] using rev_ind; [done|]. intros Hs Hp.
  rewrite fmap_app in Hs. apply StronglySorted_app in Hs as (Hx & Hs & _).
  apply Forall_app in Hp as [Hp Hr]. rewrite Forall_singleton in Hr.
  rewrite foldl_app. cbn [foldl]. rewrite latest_step_lookup, IH by done.
  rewrite filter_app. set (P := λ r, Typ r = RecordWrite ∧ _).
  set (l := filter P rs). destruct k as [t id]. cbn [fst snd] in *.
  assert (default 0 (snd <$> ((λ r, (PageData r, LSN r)) <$> last l)) < LSN r) as Hlt.
  { destruct (last l) as [r'|] eqn:El; [|cbn; exact Hr]. cbn.
    apply last_Some in El as [l' El].
    assert (r' ∈ l) as [_ Hin]%list_elem_of_filter by (rewrite El; apply elem_of_app; right; by left).
    apply Hx; [by apply list_elem_of_fmap_2|by left]. }
  rewrite filter_cons, filter_nil. case_decide as Hc.
  - rewrite decide_True; [by rewrite last_snoc|]. unfold P. destruct Hc as (? & ? & [= ? ?] & _). done.
  - rewrite decide_False; [by rewrite app_nil_r|]. unfold P. intros (? & ? & <- & <-). by apply Hc.
Qed.

Definition image_data (raw : list byte) : list byte :=
  match Decode raw with Ok p => Data p | _ => [] end.

(** The stored form of page [id]. *)
Definition page_image (id : Z) (raw : list byte) : Prop :=
  ∃ p, page_wf p ∧ Storage.PageID (Header p) = id ∧ raw = Encode p.

Lemma page_image_Decode id raw :
  page_image id raw → ∃ p, Decode raw = Ok p ∧ page_wf p ∧ Storage.PageID (Header p) = id ∧ image_data raw = Data p.
Proof.
  intros (p & Hwf & Hid & ->). unfold image_data. rewrite Decode_Encode_ok by done.
  eexists. split; [reflexivity|]. split; [|done].
  destruct Hwf as [? ? ? ? ? ? ? ?]. split; simpl; try done. apply ChecksumIEEE_range.
Qed.

Definition apply_images (pages : list (Z * list byte)) (v : pmap) : pmap :=
  foldl (λ v pr, <[pr.1 := image_data pr.2]> v) v pages.

Lemma apply_images_lookup pages v id :
  NoDup pages.*1 →
  apply_images pages v !! id =
    match list_find (λ pr, pr.1 = id) pages with Some (_, pr) => Some (image_data pr.2) | None => v !! id end.
Proof.
  unfold apply_images. revert v. induction pages as [|[i raw] pages IH]; intros v Hnd; [done|].
  cbn [foldl fmap list_fmap fst] in *. apply NoDup_cons in Hnd as [Hi Hnd]. rewrite IH by done.
  cbn [list_find]. cbn [fst snd]. case_decide as Hid.
  - subst i. assert (list_find (λ pr, pr.1 = id) pages = None) as ->.
    { apply list_find_None. apply Forall_forall. intros [i r] Hin Heq. apply Hi.
      cbn in Heq. subst i. by apply (list_elem_of_fmap_2 fst) in Hin. }
    by rewrite lookup_insert_eq.
  - rewrite lookup_insert_ne by done. by destruct (list_find _ pages) as [[? ?]|].
Qed.

Lemma apply_pages_ok table pages pg v :
  pager_rep pg v → Forall (λ pr, page_image pr.1 pr.2 ∧ is_Some (v !! pr.1)) pages →
  ∃ pg', apply_pages table pages pg = (Ok tt, pg') ∧ pager_rep pg' (apply_images pages v) ∧
    totalPages pg' = totalPages pg ∧ freeList pg' = freeList pg.
Proof.
  intros Hrep H. revert pg v Hrep H. induction pages as [|[id raw] pages IH]; intros pg v Hrep H.
  { by exists pg. }
  apply Forall_cons in H as [[Him Hin] H]. cbn [fst snd] in *.
  destruct (page_image_Decode id raw Him) as (p & ED & Hwf & Hid & Hd). cbn [apply_pages]. rewrite ED.
  destruct (WritePage_rep pg v p Hrep Hwf) as (pg1 & E1 & Hrep1 & Ht1 & Hf1); [by rewrite Hid|].
  rewrite Hid in Hrep1. rewrite <-Hd in Hrep1.
  destruct (IH pg1 _ Hrep1) as (pg' & E' & Hrep' & Ht' & Hf').
  { eapply Forall_impl; [exact H|]. intros [i r] [? ?]. split; [done|]. cbn [fst snd] in *.
    rewrite lookup_insert. case_decide; [eauto|done]. }
  exists pg'. M_run. rewrite E1, E'. split; [reflexivity|]. split; [exact Hrep'|]. split; congruence.
Qed.

Lemma Close_ok pg v :
  pager_rep pg v →
  ∃ pg', Pager.Close pg = (Ok tt, pg') ∧
    disk_rep (f_bytes (file pg')) (totalPages pg) (freeList pg) v.
Proof.
  intros [Hf Hrep]. pose proof Hrep as [Ht Hlen Hnd Hfree Hcap Hmeta Hpages Hview].
  unfold Pager.Close. M_run. rewrite flushMeta_ok by done. rewrite WritePage_ok by done.
  eexists. split; [reflexivity|]. simpl. by apply disk_rep_flush.
Qed.

Lemma apply_table_ok (table : list byte) (pages : list (Z * list byte)) (dir : directory) b t fl v :
  dir !! table = Some b → disk_rep b t fl v →
  Forall (λ pr, page_image pr.1 pr.2 ∧ is_Some (v !! pr.1)) pages →
  ∃ b', apply_table table pages dir = (Ok tt, <[table := b']> dir) ∧ disk_rep b' t fl (apply_images pages v).
Proof.
  intros Hb Hrep Hp. unfold apply_table. rewrite Hb, (Open_rep _ _ _ _ Hrep).
  set (pg := mkPager (OpenFile b) t fl).
  assert (pager_rep pg v) as Hpg by (split; [done|exact Hrep]).
  destruct (apply_pages_ok table pages pg v Hpg Hp) as (pg1 & E1 & Hpg1 & Ht1 & Hf1).
  destruct (Close_ok pg1 _ Hpg1) as (pg2 & E2 & Hd). rewrite Ht1, Hf1 in Hd.
  M_run. rewrite E1, E2. cbn [wrap_err]. eexists. split; [reflexivity|exact Hd].
Qed.

(** The table loop: each listed table gets its images, the others stay. *)
Lemma apply_tables_ok (order : list (list byte * list (Z * list byte))) (dir : directory) :
  NoDup order.*1 →
  (∀ table pages b, (table, pages) ∈ order → dir !! table = Some b →
     ∃ t fl v, disk_rep b t fl v ∧ Forall (λ pr, page_image pr.1 pr.2 ∧ is_Some (v !! pr.1)) pages) →
  ∃ dir', apply_tables order dir = (Ok tt, dir') ∧ dom dir' = dom dir ∧
    (∀ table, table ∉ order.*1 → dir' !! table = dir !! table) ∧
    (∀ table pages b t fl v, (table, pages) ∈ order → dir !! table = Some b → disk_rep b t fl v →
       Forall (λ pr, page_image pr.1 pr.2 ∧ is_Some (v !! pr.1)) pages →
       ∃ b', dir' !! table = Some b' ∧ disk_rep b' t fl (apply_images pages v)).
Proof.
  revert dir. induction order as [|[table pages] order IH]; intros dir Hnd Hok.
  { exists dir. split_and!; [done..|]. intros ? ? ? ? ? ? Hin. by apply elem_of_nil in Hin. }
  cbn [fmap list_fmap fst] in Hnd. apply NoDup_cons in Hnd as [Ht Hnd].
  assert (∀ pages', (table, pages') ∉ order) as Hnin.
  { intros pages' Hin. apply Ht. by apply (list_elem_of_fmap_2 fst) in Hin. }
  assert (∃ dir1, apply_table table pages dir = (Ok tt, dir1) ∧ dom dir1 = dom dir ∧
    (∀ t', t' ≠ table → dir1 !! t' = dir !! t') ∧
    (∀ b t fl v, dir !! table = Some b → disk_rep b t fl v →
       Forall (λ pr, page_image pr.1 pr.2 ∧ is_Some (v !! pr.1)) pages →
       ∃ b', dir1 !! table = Some b' ∧ disk_rep b' t fl (apply_images pages v))) as (dir1 & E1 & Hd1 & Ho1 & Hs1).
  { destruct (dir !! table) as [b|] eqn:Eb.
    - destruct (Hok table pages b) as (t & fl & v & Hrep & Hp); [by left|done|].
      destruct (apply_table_ok table pages dir b t fl v Eb Hrep Hp) as (b' & E & Hrep').
      exists (<[table := b']> dir). split_and!; [done| | |].
      + rewrite dom_insert_L. assert (table ∈ dom dir) by (apply elem_of_dom; eauto). set_solver.
      + intros t' Hne. by rewrite lookup_insert_ne.
      + intros b2 t2 fl2 v2 [= <-] Hrep2 Hp2.
        destruct (apply_table_ok table pages dir b t2 fl2 v2 Eb Hrep2 Hp2) as (b2 & E' & Hrep2').
        exists b2. rewrite E in E'. injection E' as E'.
        assert (<[table := b']> dir !! table = <[table := b2]> dir !! table) as Heq by (by rewrite E').
        rewrite !lookup_insert_eq in Heq. injection Heq as <-. by rewrite lookup_insert_eq.
    - exists dir. unfold apply_table. rewrite Eb. split_and!; done. }
  destruct (IH dir1 Hnd) as (dir' & E' & Hd' & Ho' & Hs').
  { intros t' p' b' Hin Hl. assert (t' ≠ table) by (intros ->; by apply (Hnin p')).
    rewrite Ho1 in Hl by done. eapply Hok; [by right|done]. }
  exists dir'. split_and!.
  - cbn [apply_tables]. M_run. by rewrite E1.
  - congruence.
  - intros t' Hn. cbn [fmap list_fmap fst] in Hn. apply not_elem_of_cons in Hn as [? ?]. rewrite Ho', Ho1 by done. done.
  - intros t' p' b t fl v Hin Hl Hrep Hp. apply elem_of_cons in Hin as [[= -> ->]|Hin].
    + destruct (Hs1 b t fl v Hl Hrep Hp) as (b' & Hb' & Hr'). exists b'. by rewrite Ho'.
    + assert (t' ≠ table) by (intros ->; by apply (Hnin p')).
      eapply Hs'; [done|by rewrite Ho1|done|done].
Qed.

(** ** Properties *)

(** A log record survives the round trip through the file exactly, except for
    its table name: the log keeps the first 32 bytes without trailing zeros, so
    names of up to 32 bytes that do not end in a zero are kept, and a longer
    name comes back as a different one. *)
Theorem log_record_roundtrip r :
  rec_wf r →
  length (encodeRecord r) = RecordSize ∧
  (∃ r', decodeRecord (encodeRecord r) = Ok r' ∧ LSN r' = LSN r ∧ XID r' = XID r ∧ Typ r' = Typ r ∧
     PageID r' = PageID r ∧ PageData r' = PageData r ∧ (length (TableName r') ≤ tableNameSize)%nat) ∧
  ((length (TableName r) ≤ tableNameSize)%nat → (∀ b, last (TableName r) = Some b → b ≠ x00) →
     decodeRecord (encodeRecord r) = Ok r) ∧
  ((tableNameSize < length (TableName r))%nat → decodeRecord (encodeRecord r) ≠ Ok r).
Proof.
  intros Hr. pose proof (decode_encodeRecord r Hr) as E.
  assert (∀ l, length (trim_nul l) ≤ length l)%nat as Htrim.
  { induction l as [|b l IH]; [done|]. cbn [trim_nul length]. destruct (trim_nul l) as [|c t].
    - case_decide; simpl; lia.
    - cbn [length] in *. lia. }
  assert (length (norm_name (TableName r)) ≤ tableNameSize)%nat as Hlen.
  { unfold norm_name. etrans; [apply Htrim|]. rewrite length_take. lia. }
  split_and!.
  - by apply length_encodeRecord, rw_data.
  - exists (norm_rec r). split_and!; done.
  - intros Hn Hz. rewrite E. f_equal. unfold norm_rec, norm_name. rewrite take_ge, trim_nul_id by done.
    by destruct r.
  - rewrite E. intros Hn [= Heq]. apply (f_equal TableName) in Heq. change (norm_name (TableName r) = TableName r) in Heq. rewrite Heq in Hlen. lia.
Qed.

(** C17. Whatever calls are made on a new log, fewer than 2^32 - 1 of them and
    with 32-bit identifiers and whole pages, and whatever bytes a crash leaves
    behind the records that reached the disk (an incomplete record, or one whose
    checksum fails), reopening the log finds the records of the calls, with the
    names of files as the log keeps them (cut to 32 bytes and without trailing
    zero bytes, [norm_rec]) and everything else as it was, numbered 1, 2, 3,
    ..., continues numbering after them, and reports as committed exactly the
    transactions whose commit was logged. *)
Theorem log_survives_torn_tail os t :
  Forall log_op_wf os → 1 + Z.of_nat (length os) < 2 ^ 32 → torn t →
  ∃ w, log_run os (Open []) = (Ok tt, w) ∧
    let w' := Open (f_bytes (f w) ++ t) in
    readAllLocked w' = Ok (norm_rec <$> log_recs 1 1 os) ∧
    RecordCount w' = length os ∧ nextLSN w' = 1 + Z.of_nat (length os) ∧
    (∀ i r, log_recs 1 1 os !! i = Some r → LSN r = 1 + Z.of_nat i) ∧
    CommittedXIDs w' = Ok (list_to_set (commits os)).
Proof.
  intros Hwf Hlen Ht.
  assert (torn []) as Hnil by (left; simpl; rec_lia).
  pose proof (Open_log [] [] (Forall_nil_2 _) Hnil) as E0. cbn [log_bytes fmap list_fmap concat app foldl length] in E0.
  rewrite E0. destruct (log_run_ok os (mkWAL (OpenFile []) 0 1 1) []) as (w & E & Hrep & Hb);
    cbn [nextLSN nextXID]; [split; cbn; [done|by exists []|done|constructor]|done|done|lia..|].
  cbn [nextLSN nextXID app] in *. exists w. split; [done|]. cbv zeta.
  pose proof (wr_wf _ _ Hrep) as Hrs.
  rewrite Hb, Open_log by done.
  set (w' := mkWAL (OpenFile (log_bytes (log_recs 1 1 os) ++ t)) _ _ _).
  assert (wal_rep w' (log_recs 1 1 os)) as Hrep' by (split; [done|by exists t|done|done]).
  split_and!.
  - by apply readAll_ok.
  - apply length_log_recs.
  - cbn [w' nextLSN]. apply foldl_lsn_run; lia.
  - intros i r. apply log_recs_lsn.
  - unfold CommittedXIDs. rewrite (readAll_ok _ _ Hrep'). unfold mbind, res_bind. f_equal.
    fold (committed_xids (norm_rec <$> log_recs 1 1 os)). apply set_eq. intros x.
    rewrite elem_of_committed_xids, elem_of_log_recs_commit. by rewrite elem_of_list_to_set.
Qed.

(** *** The order of recovery covers the latest images *)
Section schedule.
Variables (rs : list Rec) (order : list (list byte * list (Z * list byte))).
Let latest := latest_images (committed_xids rs) rs.
Hypothesis Hlsn : StronglySorted Z.lt (LSN <$> rs).
Hypothesis Hpos : Forall (λ r, 0 < LSN r) rs.
Hypothesis Horder : by_table latest order.

Lemma latest_writes table id :
  latest !! (table, id) = (λ r, (PageData r, LSN r)) <$> last (page_writes rs table id).
Proof using Hlsn Hpos. by apply latest_images_ok. Qed.

Lemma latest_none table :
  (∀ id, latest !! (table, id) = None) ↔ ∀ id, page_writes rs table id = [].
Proof using Hlsn Hpos.
  split; intros H id; specialize (H id).
  - rewrite latest_writes in H. apply fmap_None in H. by apply last_None in H.
  - by rewrite latest_writes, H.
Qed.

Lemma order_unique table pages pages' :
  (table, pages) ∈ order → (table, pages') ∈ order → pages' = pages.
Proof using Horder.
  destruct Horder as (Hnd & _). intros [i Hi]%list_elem_of_lookup_1 [j Hj]%list_elem_of_lookup_1.
  assert (i = j) as <-; [|congruence]. eapply (NoDup_lookup order.*1); [done| |];
    rewrite list_lookup_fmap; [rewrite Hi|rewrite Hj]; done.
Qed.

(** The image listed for a page is the one of its last committed write. *)
Lemma order_find table pages id :
  (table, pages) ∈ order →
  match list_find (λ pr : Z * list byte, pr.1 = id) pages with
  | Some (_, pr) => Some (image_data pr.2) | None => None end
  = (λ r, image_data (PageData r)) <$> last (page_writes rs table id).
Proof using Hlsn Hpos Horder.
  intros Hin. pose proof Horder as (_ & _ & Hmem).
  destruct (list_find _ pages) as [[i [id' raw]]|] eqn:Ef.
  - apply list_find_Some in Ef as (Hi & Hid & _). cbn in Hid. subst id'.
    assert (∃ lsn, latest !! (table, id) = Some (raw, lsn)) as [lsn Hl].
    { apply Hmem. exists pages. split; [done|]. by eapply list_elem_of_lookup_2. }
    rewrite latest_writes in Hl. destruct (last (page_writes rs table id)) as [r|]; [|discriminate].
    injection Hl as <- _. done.
  - destruct (last (page_writes rs table id)) as [r|] eqn:El; [|done]. exfalso.
    assert (∃ pages', (table, pages') ∈ order ∧ (id, PageData r) ∈ pages') as (pages' & Hin' & Hip).
    { apply Hmem. exists (LSN r). by rewrite latest_writes, El. }
    rewrite (order_unique table pages pages' Hin Hin') in Hip.
    apply list_find_None in Ef. rewrite Forall_forall in Ef. by apply (Ef _ Hip).
Qed.

Lemma order_pages table pages pr :
  (∀ r, r ∈ rs → Typ r = RecordWrite → XID r ∈ committed_xids rs → page_image (PageID r) (PageData r)) →
  (table, pages) ∈ order → pr ∈ pages → page_image pr.1 pr.2 ∧ page_writes rs table pr.1 ≠ [].
Proof using Hlsn Hpos Horder.
  intros Him Hin Hpr. destruct pr as [id raw]. cbn. pose proof Horder as (_ & _ & Hmem).
  assert (∃ lsn, latest !! (table, id) = Some (raw, lsn)) as [lsn Hl] by (apply Hmem; eauto).
  rewrite latest_writes in Hl. destruct (last (page_writes rs table id)) as [r|] eqn:El; [|discriminate].
  injection Hl as <- _. apply last_Some in El as [l El].
  assert (r ∈ page_writes rs table id) as Hr by (rewrite El; apply elem_of_app; right; by left).
  split; [|rewrite El; by destruct l].
  apply list_elem_of_filter in Hr as [(Ht & Hx & _ & <-) Hr]. by apply Him.
Qed.

(** A table is listed exactly when it has committed writes. *)
Lemma order_tables table :
  (table ∈ order.*1 → ∃ id, page_writes rs table id ≠ []) ∧
  (table ∉ order.*1 → ∀ id, page_writes rs table id = []).
Proof using Hlsn Hpos Horder.
  pose proof Horder as (_ & Hord & Hmem). rewrite Forall_forall in Hord. split.
  - intros ([t pages] & -> & Hin)%list_elem_of_fmap. cbn [fst]. destruct (Hord _ Hin) as [Hne _]. cbn in Hne.
    destruct pages as [|[id raw] pages]; [done|]. exists id.
    assert (∃ lsn, latest !! (t, id) = Some (raw, lsn)) as [lsn Hl].
    { apply Hmem. eexists. split; [exact Hin|]. by left. }
    intros Hnil. by rewrite latest_writes, Hnil in Hl.
  - intros Hn. apply latest_none. intros i. apply eq_None_not_Some. intros [[raw lsn] Hl]. apply Hn.
    assert (∃ pages, (table, pages) ∈ order ∧ (i, raw) ∈ pages) as (pages & Hp1 & _) by (apply Hmem; eauto).
    by apply (list_elem_of_fmap_2 fst) in Hp1.
Qed.
End schedule.

Lemma Recover_run (w : WAL) (rs : list Rec) (sched : images → list (list byte * list (Z * list byte)))
    (dir : directory) :
  readAllLocked w = Ok rs →
  Recover sched w dir =
    (if decide (latest_images (committed_xids rs) rs = ∅) then mret tt
     else apply_tables (sched (latest_images (committed_xids rs) rs))) dir.
Proof. intros E. unfold Recover. M_run. rewrite E. by destruct rs. Qed.

(** With no committed writes there is nothing to redo. *)
Lemma no_images rs table id :
  StronglySorted Z.lt (LSN <$> rs) → Forall (λ r, 0 < LSN r) rs →
  latest_images (committed_xids rs) rs = ∅ → page_writes rs table id = [].
Proof.
  intros Hs Hp Hl. apply (latest_none rs Hs Hp table). intros i. by rewrite Hl, lookup_empty.
Qed.

(** The directory after recovery from the log records [rs]: no file is created,
    a table without committed writes is as it was, and in the others every page
    has the content of the last committed write to it, or its old content. *)
Definition redone (rs : list Rec) (dir dir' : directory) : Prop :=
  dom dir' = dom dir ∧
  ∀ table b, dir !! table = Some b →
    ((∀ id, page_writes rs table id = []) → dir' !! table = Some b) ∧
    ∀ t fl v, disk_rep b t fl v → (∀ id, page_writes rs table id ≠ [] → is_Some (v !! id)) →
      ∃ b' v', dir' !! table = Some b' ∧ disk_rep b' t fl v' ∧
        ∀ id, v' !! id = match last (page_writes rs table id) with
                         | Some r => Some (image_data (PageData r))
                         | None => v !! id
                         end.

Lemma Recover_ok (w : WAL) (rs : list Rec) (sched : images → list (list byte * list (Z * list byte)))
    (dir : directory) :
  readAllLocked w = Ok rs → StronglySorted Z.lt (LSN <$> rs) → Forall (λ r, 0 < LSN r) rs →
  (∀ r, r ∈ rs → Typ r = RecordWrite → XID r ∈ committed_xids rs → page_image (PageID r) (PageData r)) →
  by_table (latest_images (committed_xids rs) rs) (sched (latest_images (committed_xids rs) rs)) →
  (∀ table b, dir !! table = Some b → ∃ t fl v, disk_rep b t fl v ∧
     ∀ id, page_writes rs table id ≠ [] → is_Some (v !! id)) →
  ∃ dir', Recover sched w dir = (Ok tt, dir') ∧ redone rs dir dir'.
Proof.
  unfold redone. intros Hread Hs Hp Him Hby Hdir. rewrite (Recover_run w rs sched dir Hread).
  set (latest := latest_images (committed_xids rs) rs) in *. set (order := sched latest) in *.
  assert (∀ table b t fl v, (∀ id, page_writes rs table id = []) → disk_rep b t fl v →
    ∃ b' v', Some b = Some b' ∧ disk_rep b' t fl v' ∧
      ∀ id, v' !! id = match last (page_writes rs table id) with
                       | Some r => Some (image_data (PageData r)) | None => v !! id end) as Hsame.
  { intros table b t fl v Hno Hrep. exists b, v. split_and!; [done..|]. intros id. by rewrite Hno. }
  case_decide as Hl.
  { exists dir. split_and!; [done..|]. intros table b Hb. split; [done|]. intros t fl v Hrep _.
    rewrite Hb. apply (Hsame table); [|done]. intros id. by apply no_images. }
  assert (∀ table pages v, (table, pages) ∈ order → (∀ id, page_writes rs table id ≠ [] → is_Some (v !! id)) →
    Forall (λ pr, page_image pr.1 pr.2 ∧ is_Some ((v : pmap) !! pr.1)) pages) as Hok.
  { intros table pages v Hin Hv. apply Forall_forall. intros pr Hpr.
    destruct (order_pages rs order Hs Hp Hby table pages pr Him Hin Hpr). auto. }
  destruct (apply_tables_ok order dir (proj1 Hby)) as (dir' & E & Hdom & Hother & Happ).
  { intros table pages b Hin Hb. destruct (Hdir table b Hb) as (t & fl & v & Hrep & Hv). eauto 10. }
  exists dir'. split; [done|]. split; [done|]. intros table b Hb.
  destruct (order_tables rs order Hs Hp Hby table) as [Hlisted Hunlisted].
  destruct (decide (table ∈ order.*1)) as [Hin|Hin].
  - split; [intros Hno; destruct (Hlisted Hin) as [id Hid]; by rewrite Hno in Hid|].
    apply list_elem_of_fmap in Hin as ([t' pages] & -> & Hin). cbn [fst] in *. intros t fl v Hrep Hv.
    destruct (Happ t' pages b t fl v Hin Hb Hrep (Hok _ _ _ Hin Hv)) as (b' & Hb' & Hrep').
    exists b', (apply_images pages v). split_and!; [done..|]. intros id.
    pose proof Hby as (_ & Hord & _). rewrite Forall_forall in Hord. destruct (Hord _ Hin) as [_ Hndp].
    rewrite apply_images_lookup by done. pose proof (order_find rs order Hs Hp Hby t' pages id Hin) as Hfind.
    destruct (list_find _ pages) as [[i pr]|]; destruct (last (page_writes rs t' id)); try discriminate; done.
  - rewrite Hother, Hb by done. split; [done|]. intros t fl v Hrep _. by apply (Hsame table); [apply Hunlisted|].
Qed.

(** C12. Recovery redoes the committed writes and nothing else: on a directory whose
    table files are intact, it succeeds whatever order the maps are traversed
    in, creates no file, leaves alone every table without committed writes, and
    in the others every page has the content of the last committed write to it
    in the log, or its old content if there is none.  In particular the writes
    of transactions without a commit record are never applied. *)
Theorem Recover_redoes_committed_writes (w : WAL) (rs : list Rec)
    (sched : images → list (list byte * list (Z * list byte))) (dir : directory) :
  readAllLocked w = Ok rs → StronglySorted Z.lt (LSN <$> rs) → Forall (λ r, 0 < LSN r) rs →
  (∀ r, r ∈ rs → Typ r = RecordWrite → XID r ∈ committed_xids rs → page_image (PageID r) (PageData r)) →
  by_table (latest_images (committed_xids rs) rs) (sched (latest_images (committed_xids rs) rs)) →
  (∀ table b, dir !! table = Some b → ∃ t fl v, disk_rep b t fl v ∧
     ∀ id, page_writes rs table id ≠ [] → is_Some (v !! id)) →
  ∃ dir', Recover sched w dir = (Ok tt, dir') ∧ redone rs dir dir'.
Proof. apply Recover_ok. Qed.

(** The log trusts the first unreadable record to be its end but neither
    truncates the file there nor clears what follows.  If a crash leaves an
    unreadable record followed by an intact one, the next append overwrites the
    gap, and the reopened log contains the intact leftover: a record of a
    transaction that was lost, possibly its commit record, is back. *)
Theorem stale_record_is_resurrected rs bad r r0 xid :
  Forall rec_wf rs → rec_wf r → length bad = RecordSize → (∀ r', decodeRecord bad ≠ Ok r') →
  is_u32 xid → 1 + Z.of_nat (length rs) < 2 ^ 64 → (∀ i r', rs !! i = Some r' → LSN r' = 1 + Z.of_nat i) →
  r0 = mkRec (1 + Z.of_nat (length rs)) xid RecordCommit [] 0 (zeros PageSize) →
  let w := Open (log_bytes rs ++ bad ++ encodeRecord r) in
  readAllLocked w = Ok (norm_rec <$> rs) ∧
  ∃ w', AppendCommit xid w = (Ok tt, w') ∧
    readAllLocked (Open (f_bytes (f w'))) = Ok (norm_rec <$> rs ++ [r0; r]).
Proof.
  intros Hrs Hr Hbad Hdec Hx Hlen Hlsn Hr0 w.
  assert (torn (bad ++ encodeRecord r)) as Ht.
  { right. intros r'. rewrite take_app_length' by done. apply Hdec. }
  assert (w = mkWAL (OpenFile (log_bytes rs ++ bad ++ encodeRecord r)) (length rs)
    (foldl lsn_step 1 rs) (foldl xid_step 1 rs)) as Ew by (by apply Open_log).
  assert (foldl lsn_step 1 rs = 1 + Z.of_nat (length rs)) as Hnext.
  { clear - Hlsn Hlen. induction rs as [|r rs IH] using rev_ind; [done|].
    rewrite length_app in *. cbn [length] in *. rewrite foldl_app. cbn [foldl]. rewrite IH; [|lia|].
    - unfold lsn_step. pose proof (Hlsn (length rs) r ltac:(by rewrite lookup_app_r, Nat.sub_diag by lia)) as ->.
      rewrite decide_True by lia. unfold u64. rewrite Z.mod_small; lia.
    - intros i r' Hi. apply Hlsn. rewrite lookup_app_l; [done|by eapply lookup_lt_Some]. }
  assert (wal_rep w rs) as Hrep by (rewrite Ew; split; [done|by eexists|done|done]).
  split; [by apply readAll_ok|].
  set (w1 := mkWAL (f w) (records w) (u64 (nextLSN w + 1)) (nextXID w)).
  assert (wal_rep w1 rs) as Hrep1 by (destruct Hrep; by split).
  assert (rec_wf r0) as Hwf0.
  { subst r0. split; cbn [LSN XID Typ PageID PageData]; [lia|done|unfold RecordCommit; lia|lia|apply length_zeros]. }
  destruct (append_ok w1 rs r0 Hrep1 Hwf0) as (w' & E & _ & _ & _ & _ & Hb).
  exists w'. split.
  - unfold AppendCommit, allocLSN. M_run. fold w1. rewrite <-E. f_equal. rewrite Hr0. f_equal.
    by rewrite Ew.
  - rewrite (Hb (bad ++ encodeRecord r)) by (by unfold w1; rewrite Ew).
    rewrite drop_app_length' by done. rewrite <-(log_bytes_one r), <-log_bytes_app.
    rewrite <-(app_nil_r (log_bytes _)).
    assert (Forall rec_wf ((rs ++ [r0]) ++ [r])) as Hall.
    { rewrite !Forall_app, !Forall_singleton. done. }
    rewrite Open_log; [|done|left; simpl; rec_lia]. rewrite <-app_assoc in *. cbn [app] in *.
    apply readAll_ok. split; [done|by exists []|done|done].
Qed.

(** ** Concrete instances *)

Definition name_a : list byte := [x61].

Lemma log_record_roundtrip_witness :
  decodeRecord (encodeRecord (mkRec 1 1 RecordWrite name_a 3 (zeros PageSize))) =
    Ok (mkRec 1 1 RecordWrite name_a 3 (zeros PageSize)).
Proof.
  assert (rec_wf (mkRec 1 1 RecordWrite name_a 3 (zeros PageSize))) as Hwf.
  { split; cbn [LSN XID Typ PageID PageData]; unfold RecordWrite; try lia. apply length_zeros. }
  destruct (log_record_roundtrip _ Hwf) as (_ & _ & H & _). apply H.
  - cbn. unfold tableNameSize. lia.
  - intros b [= <-]. discriminate.
Defined.

(** One transaction that writes one page. *)
Definition tx_ops (id : Z) (raw : list byte) : list log_op := [LBegin; LWrite 1 name_a id raw; LCommit 1].

Lemma tx_ops_wf id raw : is_u32 id → length raw = PageSize → Forall log_op_wf (tx_ops id raw).
Proof. intros. repeat constructor; cbn; lia. Qed.

Lemma log_survives_torn_tail_witness :
  ∃ w, log_run (tx_ops 1 (zeros PageSize)) (Open []) = (Ok tt, w) ∧
    RecordCount (Open (f_bytes (f w) ++ [x00])) = 3%nat ∧
    CommittedXIDs (Open (f_bytes (f w) ++ [x00])) = Ok (list_to_set [1]).
Proof.
  destruct (log_survives_torn_tail (tx_ops 1 (zeros PageSize)) [x00]) as (w & E & H).
  - apply tx_ops_wf; [lia|apply length_zeros].
  - cbn. lia.
  - left. cbn [length]. rec_lia.
  - destruct H as (_ & H1 & _ & _ & H2). exists w. exact (conj E (conj H1 H2)).
Defined.

(** A record whose checksum is wrong. *)
Definition bad_record (r : Rec) : list byte :=
  rec_prefix r ++ le_enc 4 (u32 (ChecksumIEEE (rec_prefix r) + 1)).

Lemma bad_record_ok r : length (PageData r) = PageSize →
  length (bad_record r) = RecordSize ∧ ∀ r', decodeRecord (bad_record r) ≠ Ok r'.
Proof.
  intros Hd. pose proof (length_rec_prefix r Hd) as Hl. split.
  { unfold bad_record. rewrite length_app, length_le_enc, Hl. rec_lia. }
  intros r'. unfold decodeRecord, bad_record. set (crc := ChecksumIEEE (rec_prefix r)).
  pose proof (ChecksumIEEE_range (rec_prefix r)) as Hr. fold crc in Hr.
  assert (is_u32 (u32 (crc + 1))) as Hu by (unfold u32; apply Z.mod_pos_bound; lia).
  assert (get_u32 (RecordSize - 4) (rec_prefix r ++ le_enc 4 (u32 (crc + 1))) = u32 (crc + 1)) as E1.
  { unfold get_u32. rewrite <-(app_nil_r (le_enc 4 _)), slice_app_mid; [|done|apply length_le_enc].
    by apply le_dec_enc_small. }
  assert (slice 0 (RecordSize - 4) (rec_prefix r ++ le_enc 4 (u32 (crc + 1))) = rec_prefix r) as E2.
  { unfold slice. rewrite drop_0. by apply take_app_length'. }
  rewrite E1, E2. fold crc. rewrite decide_True; [done|].
  unfold u32. destruct (decide (crc = 2 ^ 32 - 1)) as [->|]; [done|]. rewrite Z.mod_small; lia.
Qed.

Lemma stale_record_is_resurrected_witness :
  ∃ (r : Rec) w', AppendCommit 9 (Open (bad_record r ++ encodeRecord r)) = (Ok tt, w') ∧
    readAllLocked (Open (f_bytes (f w'))) =
      Ok [mkRec 1 9 RecordCommit [] 0 (zeros PageSize); mkRec 7 5 RecordCommit [] 0 (zeros PageSize)].
Proof.
  set (r := mkRec 7 5 RecordCommit [] 0 (zeros PageSize)).
  assert (rec_wf r) as Hwf.
  { split; cbn [r LSN XID Typ PageID PageData]; unfold RecordCommit; try lia. apply length_zeros. }
  destruct (bad_record_ok r (length_zeros _)) as [Hb1 Hb2].
  destruct (stale_record_is_resurrected [] (bad_record r) r _ 9 (Forall_nil_2 _) Hwf Hb1 Hb2
    ltac:(lia) ltac:(simpl; lia) ltac:(intros i r' Hi; discriminate) eq_refl) as (_ & w' & E1 & E2).
  exists r, w'. exact (conj E1 E2).
Defined.

(** A directory with one table of one page, and a log of a transaction that
    rewrites the page. *)
Lemma one_table : ∃ id b, is_u32 id ∧ 0 < id ∧
  ∃ t fl, disk_rep b t fl (<[id := zeros DataSize]> ∅).
Proof.
  destruct pager1_rep as (id & pg & _ & Hrep & _). exists id, (f_bytes (file pg)).
  destruct (Pager_pages_spec.(ps_rep_wf) pg _ id _ Hrep (lookup_insert_eq _ _ _)) as [Hid _].
  split; [lia|]. split; [lia|]. exists (totalPages pg), (freeList pg). apply Hrep.
Qed.

Lemma redo_instance : ∃ (w : WAL) (rs : list Rec) (sched : images → list (list byte * list (Z * list byte))) (dir : directory),
  dom dir = {[name_a]} ∧ readAllLocked w = Ok rs ∧ StronglySorted Z.lt (LSN <$> rs) ∧ Forall (λ r, 0 < LSN r) rs ∧
  (∀ r, r ∈ rs → Typ r = RecordWrite → XID r ∈ committed_xids rs → page_image (PageID r) (PageData r)) ∧
  by_table (latest_images (committed_xids rs) rs) (sched (latest_images (committed_xids rs) rs)) ∧
  (∀ table b, dir !! table = Some b → ∃ t fl v, disk_rep b t fl v ∧
     ∀ id, page_writes rs table id ≠ [] → is_Some (v !! id)).
Proof.
  destruct one_table as (id & b & Hid & Hid0 & t & fl & Hrep).
  set (raw := Encode (NewPage id PageTypeData)).
  assert (page_wf (NewPage id PageTypeData)) as Hwf by (apply NewPage_data_wf; lia).
  assert (length raw = PageSize) as Hraw by (apply length_Encode, wf_data, Hwf).
  destruct (log_run_ok (tx_ops id raw) (mkWAL (OpenFile []) 0 1 1) []) as (w & _ & Hw & _);
    [split; cbn; [done|by exists []|done|constructor]|done|by apply tx_ops_wf|cbn; lia..|].
  apply readAll_ok in Hw. cbn [app] in Hw. set (rs := norm_rec <$> _) in Hw.
  set (sched := λ _ : images, [(name_a, [(id, raw)])]).
  exists w, rs, sched, {[name_a := b]}. split; [apply dom_singleton_L|]. split; [exact Hw|].
  assert (page_image id raw) as Him by (exists (NewPage id PageTypeData); split; [exact Hwf|split; reflexivity]).
  split_and!.
  - repeat constructor.
  - repeat constructor.
  - intros r. unfold rs, tx_ops. cbn. rewrite !elem_of_cons, elem_of_nil.
    intros [->|[->|[->|[]]]]; cbn; [discriminate|done|discriminate].
  - split; [cbn; apply NoDup_singleton|]. split.
    { apply Forall_singleton. split; [done|]. cbn. apply NoDup_singleton. }
    intros t' i raw'. rewrite latest_writes by repeat constructor.
    assert (1 ∈ committed_xids rs) as Hc.
    { apply elem_of_committed_xids. exists (mkRec 3 1 RecordCommit [] 0 (zeros PageSize)). split; [right; right; left|split; reflexivity]. }
    assert (page_writes rs t' i = if decide (name_a = t' ∧ id = i)
      then [mkRec 2 1 RecordWrite name_a id raw] else []) as ->.
    { unfold page_writes. set (c := committed_xids rs) in *. unfold rs, tx_ops. cbn [log_recs fmap list_fmap].
      rewrite filter_cons_False by (cbn; intros [? _]; discriminate).
      rewrite filter_cons. rewrite filter_cons_False by (cbn; intros [? _]; discriminate). rewrite filter_nil.
      change (norm_name name_a) with name_a.
      destruct (decide (name_a = t' ∧ id = i)) as [[<- <-]|Hn]; [apply decide_True; by split_and!|].
      apply decide_False. cbn. intros (_ & _ & H1 & H2). exact (Hn (conj H1 H2)). }
    case_decide as Hd.
    + destruct Hd as [<- <-]. cbn. split.
      * intros (pages & [= ->]%list_elem_of_singleton & [= <-]%list_elem_of_singleton). by exists 2.
      * intros [lsn [= <- _]]. exists [(id, raw)]. split; by left.
    + cbn. split; [|by intros [? ?]].
      intros (pages & [= -> ->]%list_elem_of_singleton & [= -> ->]%list_elem_of_singleton). by destruct Hd.
  - intros table b' Hl. apply lookup_singleton_Some in Hl as [<- <-]. exists t, fl, (<[id := zeros DataSize]> ∅).
    split; [exact Hrep|]. intros i Hne. destruct (decide (i = id)) as [->|Hi]; [rewrite lookup_insert_eq; eauto|].
    exfalso. apply Hne. unfold page_writes. set (c := committed_xids rs). unfold rs, tx_ops.
    cbn [log_recs fmap list_fmap]. rewrite filter_cons_False by (cbn; intros [? _]; discriminate).
    rewrite filter_cons_False by (cbn; intros (_ & _ & _ & ?); congruence).
    rewrite filter_cons_False by (cbn; intros [? _]; discriminate). reflexivity.
Qed.

Lemma Recover_redoes_committed_writes_witness :
  ∃ (w : WAL) sched (dir dir' : directory), Recover sched w dir = (Ok tt, dir') ∧ dom dir' = dom dir ∧ dom dir = {[name_a]}.
Proof.
  destruct redo_instance as (w & rs & sched & dir & Hd & Hw & Hs & Hp & Him & Hby & Hdir).
  destruct (Recover_redoes_committed_writes w rs sched dir Hw Hs Hp Him Hby Hdir) as (dir' & E & Hdom & _).
  exists w, sched, dir, dir'. exact (conj E (conj Hdom Hd)).
Defined.
