(* ===== verification/Recovery.v ===== *)
(** * Recovery: recovery that is itself interrupted

    [Recover] opens the table files one after the other and writes the pages in
    place, so a crash can stop it after any number of tables and, in the table
    at hand, after any number of pages, before the file is closed.  The log is
    only read.  However often this happens, a recovery that runs to its end
    leaves the directory that an undisturbed one would have left. *)
From S2P Require Import Prelude Disk Storage Store Pager Wal.
From stdpp Require Import options.
Local Open Scope Z_scope.

(** ** Crashes during recovery *)

(** The table file after the first [j] pages, before it is closed. *)
Definition crash_table (table : list byte) (pages : list (Z * list byte)) (j : nat) (dir : directory) : directory :=
  match dir !! table with
  | Some b =>
      match Pager.Open b with
      | (Ok pg, _) => <[table := f_bytes (file (apply_pages table (take j pages) pg).2)]> dir
      | (_, fl) => <[table := f_bytes fl]> dir
      end
  | None => dir
  end.

(** A crash after [k] tables and [j] pages of the next one. *)
Definition crash_tables (order : list (list byte * list (Z * list byte))) (k j : nat) (dir : directory) : directory :=
  let d := (apply_tables (take k order) dir).2 in
  match order !! k with Some (table, pages) => crash_table table pages j d | None => d end.

Definition crash_images (latest : images) (sched : images → list (list byte * list (Z * list byte))) (k j : nat)
    (dir : directory) : directory :=
  if decide (latest = ∅) then dir else crash_tables (sched latest) k j dir.

(** An interrupted recovery: the order of its map traversals, and where it stops. *)
Record Crash := mkCrash { cr_sched : images → list (list byte * list (Z * list byte)); cr_tables : nat; cr_pages : nat }.

Definition crashes_of (w : WAL) (cs : list Crash) (dir : directory) : directory :=
  match readAllLocked w with
  | Ok rs => foldl (λ d c, crash_images (latest_images (committed_xids rs) rs) (cr_sched c) (cr_tables c) (cr_pages c) d) dir cs
  | _ => dir
  end.

Section recovery.
Variable rs : list Rec.
Let latest := latest_images (committed_xids rs) rs.
Hypothesis Hlsn : StronglySorted Z.lt (LSN <$> rs).
Hypothesis Hpos : Forall (λ r, 0 < LSN r) rs.
Hypothesis Himg : ∀ r, r ∈ rs → Typ r = RecordWrite → XID r ∈ committed_xids rs → page_image (PageID r) (PageData r).

(** The pages the log writes exist in the file. *)
Definition has_pages (table : list byte) (v : pmap) : Prop := ∀ id, page_writes rs table id ≠ [] → is_Some (v !! id).

Definition dir_ok (dir : directory) : Prop :=
  ∀ table b, dir !! table = Some b → ∃ t fl v, disk_rep b t fl v ∧ has_pages table v.

(** Each page has its old content or that of its last committed write. *)
Definition partly_redone (table : list byte) (v v' : pmap) : Prop :=
  ∀ id, v' !! id = v !! id ∨
    ∃ r, last (page_writes rs table id) = Some r ∧ v' !! id = Some (image_data (PageData r)).

Definition redoing (dir dir' : directory) : Prop :=
  dom dir' = dom dir ∧
  ∀ table b, dir !! table = Some b → ∃ b', dir' !! table = Some b' ∧
    ((∀ id, page_writes rs table id = []) → b' = b) ∧
    ∀ t fl v, disk_rep b t fl v → has_pages table v → ∃ v', disk_rep b' t fl v' ∧ partly_redone table v v'.

Lemma partly_has_pages table v v' : partly_redone table v v' → has_pages table v → has_pages table v'.
Proof. intros Hp Hv id Hid. destruct (Hp id) as [->|(r & _ & ->)]; [by apply Hv|eauto]. Qed.

Lemma partly_trans table v v1 v2 : partly_redone table v v1 → partly_redone table v1 v2 → partly_redone table v v2.
Proof. intros H1 H2 id. destruct (H2 id) as [->|(r & Hr & ->)]; [apply H1|right; eauto]. Qed.

#[local] Instance redoing_refl : Reflexive redoing.
Proof.
  intros dir. split; [done|]. intros table b Hb. exists b. split_and!; [done..|]. intros t fl v Hrep _. exists v.
  split; [done|]. by left.
Qed.

#[local] Instance redoing_trans : Transitive redoing.
Proof.
  intros d d1 d2 [E1 H1] [E2 H2]. split; [congruence|]. intros table b Hb.
  destruct (H1 table b Hb) as (b1 & Hb1 & Hs1 & Hr1). destruct (H2 table b1 Hb1) as (b2 & Hb2 & Hs2 & Hr2).
  exists b2. split; [done|]. split; [intros Hno; rewrite Hs2, Hs1 by done; done|].
  intros t fl v Hrep Hv. destruct (Hr1 t fl v Hrep Hv) as (v1 & Hrep1 & Hp1).
  destruct (Hr2 t fl v1 Hrep1 (partly_has_pages _ _ _ Hp1 Hv)) as (v2 & Hrep2 & Hp2).
  exists v2. split; [done|]. by eapply partly_trans.
Qed.

Lemma redoing_ok dir dir' : redoing dir dir' → dir_ok dir → dir_ok dir'.
Proof.
  intros [Hd H] Hok table b' Hb'.
  assert (is_Some (dir !! table)) as [b Hb] by (apply elem_of_dom; rewrite <-Hd; apply elem_of_dom; eauto).
  destruct (H table b Hb) as (b2 & Hb2 & _ & Hr). rewrite Hb' in Hb2. injection Hb2 as <-.
  destruct (Hok table b Hb) as (t & fl & v & Hrep & Hv). destruct (Hr t fl v Hrep Hv) as (v' & Hrep' & Hp).
  exists t, fl, v'. split; [done|]. by eapply partly_has_pages.
Qed.

(** Completing a recovery that was begun. *)
Lemma redoing_redone dir dir1 dir' : redoing dir dir1 → redone rs dir1 dir' → redone rs dir dir'.
Proof.
  intros [Hd1 H1] [Hd2 H2]. split; [congruence|]. intros table b Hb.
  destruct (H1 table b Hb) as (b1 & Hb1 & Hs1 & Hr1). destruct (H2 table b1 Hb1) as [Hs2 Hr2]. split.
  - intros Hno. rewrite (Hs2 Hno), (Hs1 Hno). done.
  - intros t fl v Hrep Hv. destruct (Hr1 t fl v Hrep Hv) as (v1 & Hrep1 & Hp1).
    destruct (Hr2 t fl v1 Hrep1 (partly_has_pages _ _ _ Hp1 Hv)) as (b' & v' & Hb' & Hrep' & Hv').
    exists b', v'. split_and!; [done..|]. intros id. rewrite Hv'. destruct (last (page_writes rs table id)) as [r|] eqn:El; [done|].
    destruct (Hp1 id) as [->|(r & Hr & _)]; [done|congruence].
Qed.

(** *** A crash only begins the recovery *)

Section order.
Variable order : list (list byte * list (Z * list byte)).
Hypothesis Horder : by_table latest order.

Lemma order_images table pages v : (table, pages) ∈ order → has_pages table v →
  Forall (λ pr, page_image pr.1 pr.2 ∧ is_Some ((v : pmap) !! pr.1)) pages.
Proof using Hlsn Hpos Himg Horder.
  intros Hin Hv. apply Forall_forall. intros pr Hpr.
  destruct (order_pages rs order Hlsn Hpos Horder table pages pr Himg Hin Hpr). auto.
Qed.

(** Some of the pages listed for a table. *)
Lemma images_partly table pages pages1 v : (table, pages) ∈ order → pages1 `sublist_of` pages →
  partly_redone table v (apply_images pages1 v).
Proof using Hlsn Hpos Horder.
  intros Hin Hsub id. pose proof Horder as (_ & Hord & _). rewrite Forall_forall in Hord. destruct (Hord _ Hin) as [_ Hnd]. cbn in Hnd.
  rewrite apply_images_lookup by (eapply sublist_NoDup; [exact Hnd|by apply fmap_sublist]).
  destruct (list_find _ pages1) as [[i [id' raw]]|] eqn:Ef; [right|by left].
  apply list_find_Some in Ef as (Hi & Hid & _). cbn in Hid. subst id'. cbn [snd].
  assert ((id, raw) ∈ pages) as Hip by (eapply elem_of_sublist; [by eapply list_elem_of_lookup_2|exact Hsub]).
  pose proof (order_find rs order Hlsn Hpos Horder table pages id Hin) as Hfind.
  assert (list_find (λ pr : Z * list byte, pr.1 = id) pages ≠ None) as Hne.
  { intros Hn%list_find_None. rewrite Forall_forall in Hn. by apply (Hn _ Hip). }
  destruct (list_find _ pages) as [[j [id2 raw2]]|] eqn:Ef2; [|done]. clear Hne.
  apply list_find_Some in Ef2 as (Hj & Hid2 & _). cbn in Hid2. subst id2. cbn [snd] in Hfind.
  assert (raw2 = raw) as ->.
  { apply list_elem_of_lookup_1 in Hip as [i2 Hi2].
    assert (j = i2) as ->; [|congruence]. eapply (NoDup_lookup pages.*1); [done| |]; rewrite list_lookup_fmap; [rewrite Hj|rewrite Hi2]; done. }
  destruct (last (page_writes rs table id)) as [r|]; [|discriminate]. injection Hfind as Hfind. exists r. split; [done|]. by rewrite Hfind.
Qed.

(** One table listed for recovery, in a directory that changed there only. *)
Lemma listed_begun table pages dir (f : list byte → list byte) : dir_ok dir → (table, pages) ∈ order →
  (∀ b t fl v, dir !! table = Some b → disk_rep b t fl v → has_pages table v →
     ∃ pages1, pages1 `sublist_of` pages ∧ disk_rep (f b) t fl (apply_images pages1 v)) →
  redoing dir (alter f table dir).
Proof using Hlsn Hpos Horder.
  intros Hok Hin Hf. split; [apply dom_alter_L|]. intros t' b Hb. destruct (decide (t' = table)) as [->|Hne].
  - exists (f b). rewrite lookup_alter_eq, Hb. split; [done|]. split.
    + intros Hno. destruct (order_tables rs order Hlsn Hpos Horder table) as [Hl _].
      destruct (Hl (list_elem_of_fmap_2 fst _ _ Hin)) as [id Hid]. by rewrite Hno in Hid.
    + intros t fl v Hrep Hv. destruct (Hf b t fl v Hb Hrep Hv) as (pages1 & Hs & Hrep'). eexists. split; [exact Hrep'|].
      by eapply images_partly.
  - rewrite lookup_alter_ne by done. exists b. split_and!; [done..|]. intros t fl v Hrep _. exists v. split; [done|]. by left.
Qed.

Lemma begun_one table pages dir : dir_ok dir → (table, pages) ∈ order →
  ∃ d, apply_table table pages dir = (Ok tt, d) ∧ redoing dir d.
Proof using Hlsn Hpos Himg Horder.
  intros Hok Hin. destruct (dir !! table) as [b|] eqn:Eb; [|by exists dir; unfold apply_table; rewrite Eb].
  destruct (Hok table b Eb) as (t & fl & v & Hrep & Hv).
  destruct (apply_table_ok table pages dir b t fl v Eb Hrep (order_images _ _ _ Hin Hv)) as (b' & E & _).
  exists (<[table := b']> dir). split; [done|].
  replace (<[table := b']> dir) with (alter (λ _, b') table dir).
  2: { apply map_eq. intros i. rewrite lookup_alter, lookup_insert. case_decide as Hi; [|done]. subst i. by rewrite Eb. }
  apply (listed_begun table pages); [done..|]. intros b2 t2 fl2 v2 Hb2 Hrep2 Hv2. exists pages. split; [done|].
  destruct (apply_table_ok table pages dir b2 t2 fl2 v2 Hb2 Hrep2 (order_images _ _ _ Hin Hv2)) as (b2' & E2 & Hrep2').
  rewrite E in E2. injection E2 as E2. assert (b' = b2') as ->; [|done]. apply (f_equal (lookup table)) in E2.
  rewrite !lookup_insert_eq in E2. by injection E2.
Qed.

Lemma begun_tables l dir : dir_ok dir → l ⊆ order → ∃ d, apply_tables l dir = (Ok tt, d) ∧ redoing dir d.
Proof using Hlsn Hpos Himg Horder.
  intros Hok Hl. revert dir Hok. induction l as [|[table pages] l IH]; intros dir Hok; [by exists dir|].
  destruct (begun_one table pages dir Hok) as (d1 & E1 & H1); [apply Hl; by left|].
  destruct (IH ltac:(intros x Hx; apply Hl; by right) d1 (redoing_ok _ _ H1 Hok)) as (d2 & E2 & H2).
  exists d2. cbn [apply_tables]. M_run. rewrite E1. split; [exact E2|]. by etrans.
Qed.

Lemma begun_table table pages j dir : dir_ok dir → (table, pages) ∈ order → redoing dir (crash_table table pages j dir).
Proof using Hlsn Hpos Himg Horder.
  intros Hok Hin. unfold crash_table. destruct (dir !! table) as [b|] eqn:Eb; [|done].
  destruct (Hok table b Eb) as (t & fl & v & Hrep & Hv). rewrite (Open_rep _ _ _ _ Hrep).
  set (b' := f_bytes _). replace (<[table := b']> dir) with (alter (λ _, b') table dir).
  2: { apply map_eq. intros i. rewrite lookup_alter, lookup_insert. case_decide as Hi; [|done]. subst i. by rewrite Eb. }
  apply (listed_begun table pages); [done..|]. intros b2 t2 fl2 v2 Hb2 Hrep2 Hv2. exists (take j pages). split; [apply sublist_take|].
  simplify_eq. destruct (disk_rep_unique _ _ _ _ _ _ _ Hrep Hrep2) as (-> & -> & ->).
  destruct (apply_pages_ok table (take j pages) (mkPager (OpenFile b) t fl) v) as (pg' & E & [_ Hrep'] & Ht & Hf).
  - by split.
  - apply Forall_take. by apply (order_images table).
  - unfold b'. rewrite E. cbn [snd]. by rewrite Ht, Hf in Hrep'.
Qed.

Lemma begun k j dir : dir_ok dir → redoing dir (crash_tables order k j dir).
Proof using Hlsn Hpos Himg Horder.
  intros Hok. destruct (begun_tables (take k order) dir Hok) as (d & E & Hb); [intros x (i & Hx & _)%elem_of_take; by eapply list_elem_of_lookup_2|]. unfold crash_tables. rewrite E. cbn [snd]. destruct (order !! k) as [[table pages]|] eqn:Ek; [|done].
  etrans; [exact Hb|]. apply begun_table; [by eapply redoing_ok|]. by eapply list_elem_of_lookup_2.
Qed.
End order.

Lemma crashes_begun (cs : list Crash) dir : dir_ok dir → Forall (λ c, by_table latest (cr_sched c latest)) cs →
  redoing dir (foldl (λ d c, crash_images latest (cr_sched c) (cr_tables c) (cr_pages c) d) dir cs).
Proof using Hlsn Hpos Himg.
  intros Hok Hcs. revert dir Hok. induction Hcs as [|c cs Hc _ IH]; intros dir Hok; [done|]. cbn [foldl].
  assert (redoing dir (crash_images latest (cr_sched c) (cr_tables c) (cr_pages c) dir)) as H1.
  { unfold crash_images. case_decide; [done|]. by apply begun. }
  etrans; [exact H1|]. apply IH. by eapply redoing_ok.
Qed.
End recovery.

(** C13. Recovery completes and is complete however often it was interrupted: on a
    directory whose table files are intact, let any number of runs of [Recover]
    crash, each after any number of tables and pages of the next table and each
    with its own order of the maps; then a run that does not crash succeeds, and
    leaves what the first one would have left. *)
Theorem recovery_completes (w : WAL) (rs : list Rec) (cs : list Crash)
    (sched : images → list (list byte * list (Z * list byte))) (dir : directory) :
  let latest := latest_images (committed_xids rs) rs in
  readAllLocked w = Ok rs → StronglySorted Z.lt (LSN <$> rs) → Forall (λ r, 0 < LSN r) rs →
  (∀ r, r ∈ rs → Typ r = RecordWrite → XID r ∈ committed_xids rs → page_image (PageID r) (PageData r)) →
  Forall (λ c, by_table latest (cr_sched c latest)) cs → by_table latest (sched latest) →
  (∀ table b, dir !! table = Some b → ∃ t fl v, disk_rep b t fl v ∧
     ∀ id, page_writes rs table id ≠ [] → is_Some (v !! id)) →
  ∃ dir', Recover sched w (crashes_of w cs dir) = (Ok tt, dir') ∧ redone rs dir dir'.
Proof.
  intros latest Hread Hs Hp Him Hcs Hby Hdir. unfold crashes_of. rewrite Hread.
  pose proof (crashes_begun rs Hs Hp Him cs dir Hdir Hcs) as Hc.
  destruct (Recover_ok w rs sched _ Hread Hs Hp Him Hby (redoing_ok _ _ _ Hc Hdir)) as (dir' & E & Hr).
  exists dir'. split; [exact E|]. by eapply redoing_redone.
Qed.

(** Two crashes on the directory of one table, then a recovery. *)
Lemma recovery_completes_witness : ∃ w sched dir dir',
  Recover sched w (crashes_of w [mkCrash sched 0 1; mkCrash sched 0 0] dir) = (Ok tt, dir') ∧ dom dir' = {[name_a]}.
Proof.
  destruct redo_instance as (w & rs & sched & dir & Hd & Hw & Hs & Hp & Him & Hby & Hdir).
  destruct (recovery_completes w rs [mkCrash sched 0 1; mkCrash sched 0 0] sched dir Hw Hs Hp Him) as (dir' & E & Hdom & _).
  - constructor; [exact Hby|constructor; [exact Hby|constructor]].
  - exact Hby.
  - exact Hdir.
  - exists w, sched, dir, dir'. split; [exact E|]. rewrite Hdom. exact Hd.
Defined.
