(* ===== verification/GoLib.v ===== *)
(** * GoLib: what the SQL layers use of Go's [strings], [io] and [fmt]

    A Go string is a sequence of bytes, here a [string] of 8-bit characters.
    [strings.ToLower] and [strings.EqualFold] take a fast path on ASCII strings,
    which is written out; the Unicode tables they fall back on are an argument,
    the class [Unicode]. *)
From Stdlib Require Export Strings.Ascii.
From stdpp Require Import pretty.
From S2P Require Import Prelude.
From stdpp Require Import options.
Open Scope Z_scope.

(** ** Strings *)

Definition code (c : ascii) : Z := Z.of_N (N_of_ascii c).
Definition ascii_of (z : Z) : ascii := ascii_of_N (Z.to_N z).

(** [for _, b := range []byte(s)], with [f] applied to every byte *)
Fixpoint string_map (f : ascii → ascii) (s : string) : string :=
  match s with
  | EmptyString => EmptyString
  | String c s => String (f c) (string_map f s)
  end.

Fixpoint string_all (p : ascii → bool) (s : string) : bool :=
  match s with
  | EmptyString => true
  | String c s => p c && string_all p s
  end.

(** [s[:n]] and [s[n:]] for an index in range *)
Fixpoint str_take (n : nat) (s : string) : string :=
  match n, s with
  | S n, String c s => String c (str_take n s)
  | _, _ => EmptyString
  end.
Fixpoint str_drop (n : nat) (s : string) : string :=
  match n, s with
  | S n, String _ s => str_drop n s
  | _, _ => s
  end.

(** [strings.IndexByte] and [strings.LastIndexByte]; [None] is -1 *)
Fixpoint IndexByte (b : ascii) (s : string) : option nat :=
  match s with
  | EmptyString => None
  | String c s => if decide (c = b) then Some O else S <$> IndexByte b s
  end.
Fixpoint LastIndexByte (b : ascii) (s : string) : option nat :=
  match s with
  | EmptyString => None
  | String c s =>
      match LastIndexByte b s with
      | Some i => Some (S i)
      | None => if decide (c = b) then Some O else None
      end
  end.

Definition HasSuffix (suffix s : string) : bool :=
  bool_decide (String.length suffix ≤ String.length s)%nat &&
  bool_decide (str_drop (String.length s - String.length suffix) s = suffix).

Definition is_ascii_char (c : ascii) : bool := bool_decide (code c < 128).
Definition is_ascii : string → bool := string_all is_ascii_char.

Definition lower_char (c : ascii) : ascii :=
  if decide (65 ≤ code c ≤ 90) then ascii_of (code c + 32) else c.

(** [strings.Map(unicode.ToLower, s)] and the non-ASCII path of [strings.EqualFold] *)
Class Unicode : Type := {
  map_ToLower : string → string;
  fold_slow : string → string → bool
}.

Definition ToLower `{Unicode} (s : string) : string :=
  if is_ascii s then string_map lower_char s else map_ToLower s.

Definition EqualFold `{Unicode} (s t : string) : bool :=
  if is_ascii s && is_ascii t then bool_decide (string_map lower_char s = string_map lower_char t)
  else fold_slow s t.

(** Lower-casing twice is lower-casing once. *)
Class UnicodeLaws `{Unicode} : Prop := {
  ToLower_idem s : ToLower (ToLower s) = ToLower s
}.

(** Concatenation of strings: [cbn] does not reduce it. *)
Lemma app_String c (s t : string) : (String c s +:+ t = String c (s +:+ t))%string.
Proof. reflexivity. Qed.

Lemma str_app_assoc (a b c : string) : ((a +:+ b) +:+ c = a +:+ b +:+ c)%string.
Proof. induction a as [|x a IH]; [done|]. rewrite !app_String. by rewrite IH. Qed.

Lemma str_app_nil (a : string) : (a +:+ "" = a)%string.
Proof. induction a as [|x a IH]; [done|]. rewrite app_String. by rewrite IH. Qed.

(** [strings.TrimSpace]; on text that is not ASCII it consults Unicode tables. *)
Class Spaces : Type := { trim_slow : string → string }.

(** ['\t', '\n', '\v', '\f', '\r'] and the blank *)
Definition is_blank (c : ascii) : bool := bool_decide (9 ≤ code c ≤ 13 ∨ code c = 32).

Fixpoint trim_left (s : string) : string :=
  match s with
  | EmptyString => EmptyString
  | String c s' => if is_blank c then trim_left s' else s
  end.

Fixpoint trim_right (s : string) : string :=
  match s with
  | EmptyString => EmptyString
  | String c s =>
      match trim_right s with
      | EmptyString => if is_blank c then EmptyString else String c EmptyString
      | t => String c t
      end
  end.

Definition TrimSpace `{Spaces} (s : string) : string :=
  if is_ascii s then trim_right (trim_left s) else trim_slow s.

(** [strings.Compare] *)
Definition str_compare (s t : string) : Z :=
  match String.compare s t with Lt => -1 | Eq => 0 | Gt => 1 end.

(** [%d] of an unsigned integer *)
Definition fmt_d (z : Z) : string := pretty (Z.to_N z).

(** ** Readers: what is left to read *)

Definition ErrUnexpectedEOF : error := Errorf "unexpected EOF" [].

(** [io.ReadFull(r, buf[:n])] *)
Definition ReadFull (n : nat) : M (list byte) (list byte) := λ l,
  if decide (n ≤ length l)%nat then (Ok (take n l), drop n l)
  else if decide (l = []) then (Err ErrEOF, l)
  else (Err ErrUnexpectedEOF, []).

(** [for i := range buf { buf[i] = m }] *)
Fixpoint read_n {S A} (n : nat) (m : M S A) : M S (list A) :=
  match n with
  | O => mret []
  | Datatypes.S n => x ← m; xs ← read_n n m; mret (x :: xs)
  end.

Lemma lower_char_idem c : lower_char (lower_char c) = lower_char c.
Proof. by destruct c as [[] [] [] [] [] [] [] []]. Qed.

Lemma lower_char_ascii c : is_ascii_char c = true → is_ascii_char (lower_char c) = true.
Proof. by destruct c as [[] [] [] [] [] [] [] []]. Qed.

Lemma string_map_lower_idem s : string_map lower_char (string_map lower_char s) = string_map lower_char s.
Proof. induction s as [|c s IH]; cbn [string_map]; [done|]. by rewrite lower_char_idem, IH. Qed.

Lemma is_ascii_lower s : is_ascii s = true → is_ascii (string_map lower_char s) = true.
Proof.
  unfold is_ascii. induction s as [|c s IH]; cbn [string_map string_all]; [done|].
  intros [Hc Hs]%andb_true_iff. rewrite lower_char_ascii by done. auto.
Qed.

(** Unicode tables that leave every non-ASCII string alone. *)
#[local] Instance no_tables : Unicode := {| map_ToLower s := s; fold_slow s t := bool_decide (s = t) |}.
#[local] Instance no_tables_laws : UnicodeLaws.
Proof.
  split. intros s. unfold ToLower. destruct (is_ascii s) eqn:E; cbn [map_ToLower no_tables].
  - by rewrite is_ascii_lower, string_map_lower_idem.
  - by rewrite E.
Qed.

Lemma ReadFull_app n (a b : list byte) : length a = n → ReadFull n (a ++ b) = (Ok a, b).
Proof.
  intros <-. unfold ReadFull. rewrite decide_True by (rewrite length_app; lia).
  by rewrite take_app_length, drop_app_length.
Qed.

(** A reader that undoes an encoding, run once per element. *)
Lemma read_n_ok {A B} (m : M (list byte) A) (f : B → A) (enc : B → list byte) (P : B → Prop) xs rest :
  (∀ x rest, P x → m (enc x ++ rest) = (Ok (f x), rest)) → Forall P xs →
  read_n (length xs) m (concat (enc <$> xs) ++ rest) = (Ok (f <$> xs), rest).
Proof.
  intros Hm. induction 1 as [|x xs Hx _ IH]; cbn [length read_n fmap list_fmap concat]; [done|].
  rewrite <-app_assoc. erewrite M_bind_Ok by (by apply Hm). by erewrite M_bind_Ok by apply IH.
Qed.
