(* ===== verification/Catalog.v ===== *)
(** * Catalog: table schemas and secondary index definitions
    ([src/catalog/catalog.go])

    A catalog holds its tables by lower-case name and, by lower-case index
    name, pointers into the [Indexes] slices of the tables.  Those slices are
    modelled with the arrays behind them, because [append] shares or moves them
    and the pointers keep the array they were taken from.  [file] is the
    content of the catalog file.  How many slots [append] reserves when it
    moves a slice is the argument [growcap]; the order of the iterations over
    the map of tables is an argument of [Save]. *)
From S2P Require Import Prelude GoLib.
From stdpp Require Import options.

Definition IntColSize : nat := 8.
Definition TextColSize : nat := 48.
Definition catalogMagicV2 : Z := 0xCA7A1061.

(** [DataType] is a byte; values other than the two below can be read from a file. *)
Definition DataType : Type := Z.
Definition TypeInt : DataType := 0.
Definition TypeText : DataType := 1.

Record ColumnDef : Type := mkCol { CName : string; CType : DataType }.

Record Value : Type := mkValue { VType : DataType; IntVal : Z; TextVal : string }.
Definition zeroValue : Value := mkValue 0 0 EmptyString.
Definition VInt (n : Z) : Value := mkValue TypeInt n EmptyString.
Definition VText (s : string) : Value := mkValue TypeText 0 s.

Record IndexDef : Type := mkIndex { IName : string; ITable : string; IColumn : string }.
Definition zeroIndex : IndexDef := mkIndex EmptyString EmptyString EmptyString.

Record Table : Type := mkTable { TName : string; Columns : list ColumnDef; Indexes : list IndexDef }.

#[export] Instance ColumnDef_eq_dec : EqDecision ColumnDef.
Proof. solve_decision. Defined.
#[export] Instance Value_eq_dec : EqDecision Value.
Proof. solve_decision. Defined.
#[export] Instance IndexDef_eq_dec : EqDecision IndexDef.
Proof. solve_decision. Defined.

Definition DataType_String (d : DataType) : string := if decide (d = TypeInt) then "INT" else "TEXT".
Definition Value_String (v : Value) : string :=
  if decide (VType v = TypeInt) then fmt_d (IntVal v) else TextVal v.

(** The first position whose element satisfies [p]. *)
Fixpoint find_index {A} (p : A → bool) (l : list A) : option nat :=
  match l with
  | [] => None
  | x :: l => if p x then Some O else S <$> find_index p l
  end.

Definition PrimaryKeyIndex (t : Table) : option nat :=
  find_index (λ c, bool_decide (CType c = TypeInt)) (Columns t).

(** [string(raw[:end])] after dropping the trailing zero bytes *)
Definition trim_zeros (raw : list byte) : list byte :=
  let fix go (l : list byte) : list byte :=
    match l with
    | [] => []
    | b :: l' => if decide (b = x00) then go l' else l
    end in
  reverse (go (reverse raw)).

(** [Table.Decode]: one value per column, from [off] on; a column of another
    type leaves the zero value and takes no bytes. *)
Fixpoint decode_cols (cols : list ColumnDef) (off : nat) (buf : list byte) : res (list Value) :=
  match cols with
  | [] => Ok []
  | c :: cols =>
      if decide (CType c = TypeInt) then
        bs ← slice_chk off IntColSize buf;
        row ← decode_cols cols (off + IntColSize) buf;
        Ok (VInt (le_dec bs) :: row)
      else if decide (CType c = TypeText) then
        raw ← slice_chk off TextColSize buf;
        row ← decode_cols cols (off + TextColSize) buf;
        Ok (VText (String.string_of_list_byte (trim_zeros raw)) :: row)
      else
        row ← decode_cols cols off buf;
        Ok (zeroValue :: row)
  end.

Definition Decode (t : Table) (buf : list byte) : res (list Value) := decode_cols (Columns t) 0 buf.

(** ** Serialization *)

(** [[]byte{byte(len(s))}] followed by the bytes of [s] *)
Definition write_str (s : string) : list byte :=
  let bs := String.list_byte_of_string s in byte_of_Z (Z.of_nat (length bs)) :: bs.

Definition writeTable (t : Table) : list byte :=
  write_str (TName t) ++
  [byte_of_Z (Z.of_nat (length (Columns t)))] ++
  concat ((λ c, write_str (CName c) ++ [byte_of_Z (CType c)]) <$> Columns t) ++
  [byte_of_Z (Z.of_nat (length (Indexes t)))] ++
  concat ((λ i, write_str (IName i) ++ write_str (IColumn i)) <$> Indexes t).

Definition read_byte : M (list byte) Z := bs ← ReadFull 1; mret (le_dec bs).
Definition read_str : M (list byte) string :=
  n ← read_byte; bs ← ReadFull (Z.to_nat n); mret (String.string_of_list_byte bs).

Section catalog.
Context `{Unicode} (growcap : nat → nat).

Definition ColIndex (name : string) (t : Table) : option nat :=
  find_index (λ c, bool_decide (ToLower (CName c) = ToLower name)) (Columns t).

Definition IndexForColumn (name : string) (t : Table) : option IndexDef :=
  list_find (λ i, ToLower (IColumn i) = ToLower name) (Indexes t) ≫= λ p, Some p.2.

Definition readTable : M (list byte) Table :=
  tableName ← read_str;
  ncols ← read_byte;
  cols ← read_n (Z.to_nat ncols) (cn ← read_str; ct ← read_byte; mret (mkCol cn ct));
  nidx ← wrap "read index count: %w" [] read_byte;
  idxs ← read_n (Z.to_nat nidx)
    (nm ← read_str; col ← read_str; mret (mkIndex nm (ToLower tableName) col));
  mret (mkTable tableName cols idxs).

(** ** The catalog in memory *)

(** A slice of index definitions: an array and a length. *)
Record Slice : Type := mkSlice { sl_arr : nat; sl_len : nat }.
Record TableObj : Type := mkTableObj { to_Name : string; to_Columns : list ColumnDef; to_Indexes : Slice }.

Record Catalog : Type := mkCatalog {
  tables : gmap string TableObj;
  indexes : gmap string (nat * nat);
  arrays : list (list IndexDef);
  file : option (list byte)
}.

Definition slice_view (arrs : list (list IndexDef)) (s : Slice) : list IndexDef :=
  take (sl_len s) (arrs !!! sl_arr s).
Definition view (c : Catalog) (o : TableObj) : Table :=
  mkTable (to_Name o) (to_Columns o) (slice_view (arrays c) (to_Indexes o)).

Definition New : Catalog := mkCatalog ∅ ∅ [] None.

Definition GetTable (name : string) (c : Catalog) : option Table := view c <$> tables c !! ToLower name.
Definition Tables (c : Catalog) : list Table := (λ kv, view c kv.2) <$> map_to_list (tables c).
Definition GetIndex (name : string) (c : Catalog) : option IndexDef :=
  '(a, k) ← indexes c !! ToLower name; arrays c !! a ≫= lookup k.

(** [serialize]: [ts] is the iteration over [c.tables]. *)
Definition serialize (ts : list Table) : list byte :=
  le_enc 4 catalogMagicV2 ++ le_enc 2 (Z.of_nat (length ts)) ++ concat (writeTable <$> ts).

(** [Save]; [order] turns the tables into the order the map iteration visits. *)
Definition Save (order : list Table → list Table) : M Catalog unit := λ c,
  (Ok tt, mkCatalog (tables c) (indexes c) (arrays c) (Some (serialize (order (Tables c))))).

(** [append(s, x)]: in place when the array has a free slot, else in a new array. *)
Definition append_index (s : Slice) (x : IndexDef) (arrs : list (list IndexDef)) : Slice * list (list IndexDef) :=
  let arr := arrs !!! sl_arr s in
  if decide (sl_len s < length arr)%nat then
    (mkSlice (sl_arr s) (S (sl_len s)), <[sl_arr s := <[sl_len s := x]> arr]> arrs)
  else
    (mkSlice (length arrs) (S (sl_len s)),
     arrs ++ [take (sl_len s) arr ++ x :: replicate (growcap (sl_len s) - S (sl_len s)) zeroIndex]).

(** [append(s[:i], s[i+1:]...)]: the tail moves down one slot in place; the last
    slot keeps its old content. *)
Definition remove_index (s : Slice) (i : nat) (arrs : list (list IndexDef)) : Slice * list (list IndexDef) :=
  let arr := arrs !!! sl_arr s in
  let v := take (sl_len s) arr in
  (mkSlice (sl_arr s) (sl_len s - 1),
   <[sl_arr s := take i v ++ drop (S i) v ++ drop (sl_len s - 1) arr]> arrs).

Definition CreateTable (order : list Table → list Table) (t : Table) : M Catalog unit :=
  c ← get_state;
  let key := ToLower (TName t) in
  match tables c !! key with
  | Some _ => fail (Errorf "table %q already exists" [GStr (TName t)])
  | None =>
      let o := mkTableObj (TName t) (Columns t) (mkSlice (length (arrays c)) (length (Indexes t))) in
      _ ← put_state (mkCatalog (<[key := o]> (tables c)) (indexes c) (arrays c ++ [Indexes t]) (file c));
      Save order
  end.

Definition CreateIndex (order : list Table → list Table) (idx : IndexDef) : M Catalog unit :=
  c ← get_state;
  let tableKey := ToLower (ITable idx) in
  match tables c !! tableKey with
  | None => fail (Errorf "table %q does not exist" [GStr (ITable idx)])
  | Some o =>
      match ColIndex (IColumn idx) (view c o) with
      | None => fail (Errorf "column %q not found in table %q" [GStr (IColumn idx); GStr (ITable idx)])
      | Some colIdx =>
          col ← lift (match to_Columns o !! colIdx with Some d => Ok d | None => Panic end);
          if decide (CType col ≠ TypeInt) then
            fail (Errorf "column %q is %s; only INT columns may be indexed in Phase 9"
                    [GStr (IColumn idx); GStr (DataType_String (CType col))])
          else
          let idxKey := ToLower (IName idx) in
          match indexes c !! idxKey with
          | Some _ => fail (Errorf "index %q already exists" [GStr (IName idx)])
          | None =>
              match IndexForColumn (IColumn idx) (view c o) with
              | Some existing =>
                  fail (Errorf "column %q already has an index (%q)"
                          [GStr (IColumn idx); GStr (IName existing)])
              | None =>
                  let idx' := mkIndex (IName idx) tableKey (ToLower (IColumn idx)) in
                  let '(s, arrs) := append_index (to_Indexes o) idx' (arrays c) in
                  let o' := mkTableObj (to_Name o) (to_Columns o) s in
                  _ ← put_state (mkCatalog (<[tableKey := o']> (tables c))
                        (<[idxKey := (sl_arr s, (sl_len s - 1)%nat)]> (indexes c)) arrs (file c));
                  Save order
              end
          end
      end
  end.

Definition DropIndex (order : list Table → list Table) (indexName : string) : M Catalog unit :=
  c ← get_state;
  let key := ToLower indexName in
  match indexes c !! key with
  | None => fail (Errorf "index %q does not exist" [GStr indexName])
  | Some (a, k) =>
      def ← lift (match arrays c !! a ≫= lookup k with Some d => Ok d | None => Panic end);
      match tables c !! ITable def with
      | None => fail (Errorf "table %q not found for index %q" [GStr (ITable def); GStr indexName])
      | Some o =>
          let '(s, arrs) :=
            match find_index (λ i, bool_decide (ToLower (IName i) = key)) (Indexes (view c o)) with
            | Some i => remove_index (to_Indexes o) i (arrays c)
            | None => (to_Indexes o, arrays c)
            end in
          _ ← put_state (mkCatalog (<[ITable def := mkTableObj (to_Name o) (to_Columns o) s]> (tables c))
                (delete key (indexes c)) arrs (file c));
          Save order
      end
  end.

(** ** Loading *)

(** [c.tables[key] = t] and a pointer for each of its indexes; the slice of a
    table just read has exactly its length as capacity. *)
Definition add_table (t : Table) (c : Catalog) : Catalog :=
  let a := length (arrays c) in
  mkCatalog
    (<[ToLower (TName t) := mkTableObj (TName t) (Columns t) (mkSlice a (length (Indexes t)))]> (tables c))
    (foldl (λ m p, <[ToLower (IName p.2) := (a, p.1)]> m) (indexes c) (imap pair (Indexes t)))
    (arrays c ++ [Indexes t]) (file c).

Fixpoint read_tables (n : nat) (i : Z) (c : Catalog) : M (list byte) Catalog :=
  match n with
  | O => mret c
  | S n =>
      t ← wrap "read table %d: %w" [GInt i] readTable;
      read_tables n (i + 1) (add_table t c)
  end.

Definition deserialize (c : Catalog) : M (list byte) Catalog :=
  magic ← wrap "read magic: %w" [] (ReadFull 4);
  let m := le_dec magic in
  if decide (m = 0xCA7A1060) then
    fail (Errorf "catalog format V1 is no longer supported; recreate the database" [])
  else if decide (m ≠ catalogMagicV2) then
    fail (Errorf "bad magic number 0x%08X — file is not a catalog" [GInt m])
  else
    n ← wrap "read table count: %w" [] (ReadFull 2);
    read_tables (Z.to_nat (le_dec n)) 0 c.

(** [Load] of a file that does not exist or has content [b]. *)
Definition Load (path : string) (b : option (list byte)) : res Catalog :=
  match b with
  | None => Ok New
  | Some bs =>
      wrap_err "parse catalog %q: %w" [GStr path]
        (deserialize (mkCatalog ∅ ∅ [] (Some bs)) bs).1
  end.
End catalog.

(** ** The codec *)

Abbreviation str_fits s := (length (String.list_byte_of_string s) < 256)%nat.

Record table_fits (t : Table) : Prop := {
  tf_name : str_fits (TName t);
  tf_ncols : (length (Columns t) < 256)%nat;
  tf_cols : Forall (λ c, str_fits (CName c) ∧ is_u8 (CType c)) (Columns t);
  tf_nidx : (length (Indexes t) < 256)%nat;
  tf_idxs : Forall (λ i, str_fits (IName i) ∧ str_fits (IColumn i)) (Indexes t)
}.

Lemma read_byte_ok z rest : is_u8 z → read_byte (byte_of_Z z :: rest) = (Ok z, rest).
Proof.
  intros Hz. unfold read_byte. erewrite M_bind_Ok by (by apply (ReadFull_app 1 [byte_of_Z z] rest)).
  cbn [le_dec]. rewrite byte_to_of_Z, Z.mul_0_r, Z.add_0_r, Z.mod_small by lia. done.
Qed.

Lemma read_str_ok s rest : str_fits s → read_str (write_str s ++ rest) = (Ok s, rest).
Proof.
  intros Hs. unfold read_str, write_str. cbn [app]. erewrite M_bind_Ok by (apply read_byte_ok; lia).
  rewrite Nat2Z.id. erewrite M_bind_Ok by (by apply ReadFull_app).
  unfold mret, M_ret. by rewrite String.string_of_list_byte_of_string.
Qed.

Abbreviation schema := (gmap string Table).

Section catalog_proofs.
Context `{UnicodeLaws}.

Lemma readTable_ok t rest :
  table_fits t → Forall (λ i, ITable i = ToLower (TName t)) (Indexes t) →
  readTable (writeTable t ++ rest) = (Ok t, rest).
Proof.
  intros [Hn Hnc Hc Hni Hi] Ht. unfold readTable, writeTable. rewrite <-!app_assoc.
  erewrite M_bind_Ok by (by apply read_str_ok). cbn [app].
  erewrite M_bind_Ok by (apply read_byte_ok; lia). rewrite Nat2Z.id.
  erewrite M_bind_Ok.
  2: { eapply (read_n_ok _ id); [|exact Hc]. intros c r [Hs Hu]. rewrite <-app_assoc. cbn [app].
       erewrite M_bind_Ok by (by apply read_str_ok). erewrite M_bind_Ok by (by apply read_byte_ok).
       by destruct c. }
  erewrite M_bind_Ok by (apply wrap_Ok, read_byte_ok; lia). rewrite Nat2Z.id.
  erewrite M_bind_Ok.
  2: { eapply (read_n_ok _ (λ i, mkIndex (IName i) (ToLower (TName t)) (IColumn i))); [|exact Hi].
       intros i r [Hs Hu]. rewrite <-app_assoc.
       erewrite M_bind_Ok by (by apply read_str_ok). by erewrite M_bind_Ok by (by apply read_str_ok). }
  rewrite list_fmap_id. replace (_ <$> Indexes t) with (Indexes t); [by destruct t|].
  clear -Ht. induction Ht as [|[nm tb cl] l E _ IH]; cbn; [done|]. cbn in E. by rewrite E, <-IH.
Qed.

(** ** The schema a catalog represents *)

Definition iname (d : IndexDef) : string := ToLower (IName d).
Definition icol (d : IndexDef) : string := ToLower (IColumn d).

(** Index [n] belongs to the table of key [k]. *)
Definition owner (S : schema) (k n : string) : Prop :=
  ∃ t d, S !! k = Some t ∧ d ∈ Indexes t ∧ iname d = n.
Definition used (S : schema) (n : string) : Prop := ∃ k, owner S k n.

Definition int_column (t : Table) (col : string) : Prop :=
  ∃ i c, ColIndex col t = Some i ∧ Columns t !! i = Some c ∧ CType c = TypeInt.

Record schema_wf (S : schema) : Prop := {
  sw_key k t : S !! k = Some t → k = ToLower (TName t);
  sw_def k t d : S !! k = Some t → d ∈ Indexes t → ITable d = k ∧ int_column t (IColumn d);
  sw_cols k t : S !! k = Some t → NoDup (icol <$> Indexes t);
  sw_names k t : S !! k = Some t → NoDup (iname <$> Indexes t);
  sw_uniq k k' n : owner S k n → owner S k' n → k = k'
}.

Record cat_rep (c : Catalog) (S : schema) : Prop := {
  cr_abs : view c <$> tables c = S;
  cr_slice k o : tables c !! k = Some o →
    ∃ arr, arrays c !! sl_arr (to_Indexes o) = Some arr ∧ (sl_len (to_Indexes o) ≤ length arr)%nat;
  cr_sep k k' o o' : tables c !! k = Some o → tables c !! k' = Some o' →
    sl_arr (to_Indexes o) = sl_arr (to_Indexes o') → k = k';
  cr_names n : is_Some (indexes c !! n) ↔ used S n;
  cr_ptr n a p : indexes c !! n = Some (a, p) → ∃ d, arrays c !! a ≫= lookup p = Some d ∧ owner S (ITable d) n;
  cr_arr n a p k o : indexes c !! n = Some (a, p) → tables c !! k = Some o →
    sl_arr (to_Indexes o) = a → owner S k n
}.

Lemma cat_rep_lookup c S k : cat_rep c S → S !! k = view c <$> tables c !! k.
Proof. intros Hr. by rewrite <-(cr_abs _ _ Hr), lookup_fmap. Qed.

Lemma find_index_Some {A} (p : A → bool) l i :
  find_index p l = Some i → ∃ x, l !! i = Some x ∧ p x = true ∧ ∀ j y, (j < i)%nat → l !! j = Some y → p y = false.
Proof.
  revert i. induction l as [|x l IH]; cbn [find_index]; [done|]. intros i. destruct (p x) eqn:E.
  - intros [= <-]. exists x. split_and!; [done..|lia].
  - intros (j & Hj & ->)%fmap_Some. apply IH in Hj as (y & Hy & Hp & Hlt). exists y. split_and!; [done..|].
    intros [|j'] z Hj' Hz; [by injection Hz as <-|]. apply (Hlt j'); [lia|done].
Qed.

Lemma find_index_None {A} (p : A → bool) l : find_index p l = None ↔ ∀ x, x ∈ l → p x = false.
Proof.
  induction l as [|x l IH]; cbn [find_index].
  - split; [intros _ x Hx; by apply elem_of_nil in Hx|done].
  - destruct (p x) eqn:E.
    + split; [done|]. intros Ha. rewrite (Ha x) in E by left. done.
    + rewrite fmap_None, IH. split.
      * intros Ha y [->|Hy]%elem_of_cons; auto.
      * intros Ha y Hy. apply Ha. by right.
Qed.

(** ** The three changes of a catalog *)

Lemma slice_view_ext arrs arrs' s :
  arrs' !! sl_arr s = arrs !! sl_arr s → slice_view arrs' s = slice_view arrs s.
Proof. intros E. unfold slice_view. by rewrite !list_lookup_total_alt, E. Qed.

Lemma view_ext c c' o :
  arrays c' !! sl_arr (to_Indexes o) = arrays c !! sl_arr (to_Indexes o) → view c' o = view c o.
Proof. intros E. unfold view. by rewrite (slice_view_ext (arrays c)). Qed.

Lemma owner_insert S k t k' n :
  owner (<[k := t]> S) k' n ↔ (k' = k ∧ n ∈ iname <$> Indexes t) ∨ (k' ≠ k ∧ owner S k' n).
Proof.
  unfold owner. rewrite list_elem_of_fmap. split.
  - intros (t' & d & Hl & Hd & <-). apply lookup_insert_Some in Hl as [[-> ->]|[Hne Hl]]; [left; eauto|].
    right. split; [done|eauto].
  - intros [(-> & d & -> & Hd)|(Hne & t' & d & Hl & Hd & <-)].
    + exists t, d. by rewrite lookup_insert_eq.
    + exists t', d. by rewrite lookup_insert_ne.
Qed.

Lemma fold_pointers (a j : nat) (l : list IndexDef) (m : gmap string (nat * nat)) :
  NoDup (iname <$> l) →
  let m' := foldl (λ m p, <[ToLower (IName p.2) := (a, p.1)]> m) m (imap (λ i d, ((j + i)%nat, d)) l) in
  (∀ i d, l !! i = Some d → m' !! iname d = Some (a, (j + i)%nat)) ∧
  (∀ n, n ∉ iname <$> l → m' !! n = m !! n).
Proof.
  revert j m. induction l as [|d l IH]; intros j m Hnd; cbn [imap foldl fmap list_fmap]; [done|].
  apply NoDup_cons in Hnd as [Hd Hnd].
  replace (imap _ l) with (imap (λ i d, ((S j + i)%nat, d)) l)
    by (apply imap_ext; intros; cbn; f_equal; lia).
  destruct (IH (S j) (<[ToLower (IName d) := (a, (j + 0)%nat)]> m) Hnd) as [IH1 IH2]. split.
  - intros [|i] d' Hl; cbn in Hl.
    + injection Hl as ->. rewrite IH2 by done. apply lookup_insert_eq.
    + rewrite (IH1 i) by done. do 2 f_equal. lia.
  - intros n Hn. apply not_elem_of_cons in Hn as [Hn1 Hn2]. rewrite IH2 by done.
    by rewrite lookup_insert_ne by done.
Qed.

Lemma add_table_rep c S t :
  cat_rep c S → S !! ToLower (TName t) = None → NoDup (iname <$> Indexes t) →
  Forall (λ d, ¬ used S (iname d) ∧ ITable d = ToLower (TName t)) (Indexes t) →
  cat_rep (add_table t c) (<[ToLower (TName t) := t]> S).
Proof.
  intros Hr Hk Hnd Ht. set (k := ToLower (TName t)) in *.
  assert (tables c !! k = None) as Hk'.
  { rewrite (cat_rep_lookup _ _ _ Hr) in Hk. by apply fmap_None in Hk. }
  destruct (fold_pointers (length (arrays c)) 0 (Indexes t) (indexes c) Hnd) as [Hp1 Hp2].
  cbn [Nat.add] in Hp1, Hp2. change (imap (λ i d, (i, d)) (Indexes t)) with (imap pair (Indexes t)) in *.
  assert (∀ o k', tables c !! k' = Some o → (sl_arr (to_Indexes o) < length (arrays c))%nat) as Hlt.
  { intros o k' Ho. destruct (cr_slice _ _ Hr _ _ Ho) as (arr & Ha & _). by apply lookup_lt_Some in Ha. }
  assert (∀ n, n ∈ iname <$> Indexes t → ¬ used S n) as Hfresh.
  { intros n (d & -> & Hd)%list_elem_of_fmap. by apply (proj1 (Forall_forall _ _) Ht). }
  split.
  - apply map_eq. intros k'. rewrite lookup_fmap. cbn [add_table tables]. fold k.
    destruct (decide (k = k')) as [<-|Hne].
    + rewrite !lookup_insert_eq. cbn. unfold view, slice_view. cbn.
      rewrite list_lookup_total_alt, lookup_app_r, Nat.sub_diag by done. cbn. rewrite take_ge by done. by destruct t.
    + rewrite !lookup_insert_ne by done. rewrite (cat_rep_lookup _ _ _ Hr).
      destruct (tables c !! k') as [o|] eqn:Eo; [|done]. cbn. f_equal. apply view_ext. cbn.
      apply lookup_app_l. eauto.
  - intros k' o. cbn [add_table tables arrays]. fold k. intros [[<- <-]|[Hne Hl]]%lookup_insert_Some.
    + exists (Indexes t). cbn. by rewrite lookup_app_r, Nat.sub_diag by done.
    + destruct (cr_slice _ _ Hr _ _ Hl) as (arr & Ha & Hle). exists arr. by rewrite (lookup_app_l_Some _ _ _ _ Ha).
  - intros k1 k2 o1 o2. cbn [add_table tables]. fold k. intros [[<- <-]|[Hne1 Hl1]]%lookup_insert_Some
      [[<- <-]|[Hne2 Hl2]]%lookup_insert_Some; cbn; [done| | |].
    + intros E. apply Hlt in Hl2. lia.
    + intros E. apply Hlt in Hl1. lia.
    + by eapply cr_sep.
  - intros n. cbn [add_table indexes]. destruct (decide (n ∈ iname <$> Indexes t)) as [Hn|Hn].
    + pose proof Hn as (d & -> & Hd)%list_elem_of_fmap. apply list_elem_of_lookup_1 in Hd as [i Hi].
      rewrite (Hp1 i d Hi). split; [intros _|eauto]. exists k. apply owner_insert. by left.
    + rewrite Hp2 by done. rewrite (cr_names _ _ Hr). split; intros [k' Ho]; exists k'.
      * apply owner_insert. right. split; [|done]. intros ->.
        destruct Ho as (t' & d & Hl & _). congruence.
      * apply owner_insert in Ho as [[-> Hin]|[_ Ho]]; done.
  - intros n a p. cbn [add_table indexes arrays]. destruct (decide (n ∈ iname <$> Indexes t)) as [Hn|Hn].
    + pose proof Hn as (d & -> & Hd)%list_elem_of_fmap. pose proof Hd as [i Hi]%list_elem_of_lookup_1.
      rewrite (Hp1 i d Hi). intros [= <- <-]. exists d. rewrite lookup_app_r, Nat.sub_diag by done. cbn.
      split; [done|]. apply owner_insert. left. split; [|done].
      exact (proj2 (proj1 (Forall_forall _ _) Ht _ Hd)).
    + rewrite Hp2 by done. intros Hp. destruct (cr_ptr _ _ Hr _ _ _ Hp) as (d & Hd & Ho).
      apply bind_Some in Hd as (arr & Ha & Hd). exists d. rewrite (lookup_app_l_Some _ _ _ _ Ha). cbn.
      split; [done|]. apply owner_insert. right. split; [|done]. intros E.
      destruct Ho as (t' & d' & Hl & _). congruence.
  - intros n a p k' o. cbn [add_table indexes tables]. fold k.
    destruct (decide (n ∈ iname <$> Indexes t)) as [Hn|Hn].
    + pose proof Hn as (d & -> & Hd)%list_elem_of_fmap. apply list_elem_of_lookup_1 in Hd as [i Hi].
      rewrite (Hp1 i d Hi). intros [= <- <-] [[<- <-]|[Hne Hl]]%lookup_insert_Some E.
      * apply owner_insert. by left.
      * apply Hlt in Hl. lia.
    + rewrite Hp2 by done. intros Hp [[<- <-]|[Hne Hl]]%lookup_insert_Some E.
      * cbn in E. subst a. destruct (cr_ptr _ _ Hr _ _ _ Hp) as (d & Hd & _).
        apply bind_Some in Hd as (arr & Ha%lookup_lt_Some & _). lia.
      * apply owner_insert. right. split; [done|]. by eapply cr_arr.
Qed.

(** A new slice for one table, the other tables' arrays untouched. *)
Lemma set_slice_rep c S k o s' arrs' idx' fl :
  let c' := mkCatalog (<[k := mkTableObj (to_Name o) (to_Columns o) s']> (tables c)) idx' arrs' fl in
  let S' := <[k := mkTable (to_Name o) (to_Columns o) (slice_view arrs' s')]> S in
  cat_rep c S → tables c !! k = Some o →
  (∀ k2 o2, k2 ≠ k → tables c !! k2 = Some o2 →
    arrs' !! sl_arr (to_Indexes o2) = arrays c !! sl_arr (to_Indexes o2) ∧
    sl_arr (to_Indexes o2) ≠ sl_arr s') →
  (∃ arr, arrs' !! sl_arr s' = Some arr ∧ (sl_len s' ≤ length arr)%nat) →
  (∀ n, is_Some (idx' !! n) ↔ used S' n) →
  (∀ n a p, idx' !! n = Some (a, p) → ∃ d, arrs' !! a ≫= lookup p = Some d ∧ owner S' (ITable d) n) →
  (∀ n p, idx' !! n = Some (sl_arr s', p) → owner S' k n) →
  (∀ n a p k2 o2, idx' !! n = Some (a, p) → k2 ≠ k → tables c !! k2 = Some o2 →
    sl_arr (to_Indexes o2) = a → owner S k2 n) →
  cat_rep c' S'.
Proof.
  intros c' S' Hr Ho Hoth Hs Hn Hp Ha1 Ha2. split.
  - apply map_eq. intros k2. rewrite lookup_fmap. unfold S', c'. cbn [tables].
    destruct (decide (k = k2)) as [<-|Hne]; [by rewrite !lookup_insert_eq|].
    rewrite !lookup_insert_ne by done. rewrite (cat_rep_lookup _ _ _ Hr).
    destruct (tables c !! k2) as [o2|] eqn:E; [|done]. cbn. f_equal. apply view_ext. cbn.
    by apply (Hoth k2 o2).
  - intros k2 o2. unfold c'. cbn [tables arrays]. intros [[<- <-]|[Hne Hl]]%lookup_insert_Some; [exact Hs|].
    destruct (Hoth k2 o2) as [-> _]; [done..|]. by eapply cr_slice.
  - intros k1 k2 o1 o2. unfold c'. cbn [tables]. intros [[<- <-]|[Hne1 Hl1]]%lookup_insert_Some
      [[<- <-]|[Hne2 Hl2]]%lookup_insert_Some; cbn; [done| | |].
    + intros E. by destruct (Hoth k2 o2) as [_ []].
    + intros E. by destruct (Hoth k1 o1) as [_ []].
    + by eapply cr_sep.
  - exact Hn.
  - exact Hp.
  - intros n a p k2 o2. unfold c'. cbn [tables indexes].
    intros Hi [[<- <-]|[Hne Hl]]%lookup_insert_Some E; cbn in E; [subst a; eauto|].
    apply owner_insert. right. eauto.
Qed.

Lemma remove_index_view s i arrs arr s' arrs' :
  arrs !! sl_arr s = Some arr → (sl_len s ≤ length arr)%nat → (i < sl_len s)%nat →
  remove_index s i arrs = (s', arrs') →
  slice_view arrs' s' = take i (slice_view arrs s) ++ drop (S i) (slice_view arrs s) ∧
  sl_arr s' = sl_arr s ∧ (∀ a, a ≠ sl_arr s → arrs' !! a = arrs !! a) ∧
  (∃ arr', arrs' !! sl_arr s = Some arr' ∧ length arr' = length arr ∧ (sl_len s' ≤ length arr')%nat ∧
    ∀ p, ((p < sl_len s)%nat → ∃ d, arr' !! p = Some d ∧ d ∈ slice_view arrs s) ∧
         ((sl_len s ≤ p)%nat → arr' !! p = arr !! p)).
Proof.
  intros Ha Hle Hi. unfold remove_index, slice_view. rewrite (list_lookup_total_correct _ _ _ Ha).
  set (v := take (sl_len s) arr). intros [= <- <-]. cbn [sl_arr sl_len].
  pose proof (lookup_lt_Some _ _ _ Ha) as Hlt.
  rewrite list_lookup_total_alt, list_lookup_insert_eq by done. cbn [default].
  assert (length v = sl_len s) as Hv by (unfold v; rewrite length_take; lia).
  assert (length (take i v ++ drop (S i) v) = sl_len s - 1)%nat as Hw
    by (rewrite length_app, length_take, length_drop; lia).
  rewrite app_assoc. split_and!.
  - cbn. by rewrite take_app_length' by done.
  - done.
  - intros a Hne. by apply list_lookup_insert_ne.
  - eexists. split; [done|]. split; [|split].
    + rewrite length_app, Hw, length_drop. lia.
    + rewrite length_app, Hw. lia.
    + intros p. split; intros Hp.
      * destruct (decide (p < sl_len s - 1)%nat) as [Hp'|Hp'].
        -- rewrite lookup_app_l by lia. destruct (lookup_lt_is_Some_2 (take i v ++ drop (S i) v) p) as [d Hd]; [lia|].
           exists d. split; [done|]. apply list_elem_of_lookup_2 in Hd. apply elem_of_app in Hd as [Hd|Hd].
           ++ by eapply elem_of_take in Hd as (? & ? & _); eapply list_elem_of_lookup_2.
           ++ apply list_elem_of_lookup_1 in Hd as [j Hd]. rewrite lookup_drop in Hd. by eapply list_elem_of_lookup_2.
        -- rewrite lookup_app_r, Hw, lookup_drop by lia. replace (sl_len s - 1 + (p - (sl_len s - 1)))%nat with p by lia.
           destruct (lookup_lt_is_Some_2 arr p) as [d Hd]; [lia|]. exists d. split; [done|].
           eapply (list_elem_of_lookup_2 _ p). unfold v. by rewrite lookup_take_lt by lia.
      * rewrite lookup_app_r, Hw, lookup_drop by lia. f_equal. lia.
Qed.

Lemma owner_view c S k o n :
  cat_rep c S → tables c !! k = Some o → owner S k n ↔ n ∈ iname <$> Indexes (view c o).
Proof.
  intros Hr Ho. unfold owner. rewrite (cat_rep_lookup _ _ _ Hr), Ho, list_elem_of_fmap. cbn [fmap option_fmap option_map].
  split; [intros (t & d & [= <-] & Hd & <-); eauto|intros (d & -> & Hd); eauto].
Qed.

Lemma used_insert S k t n : used (<[k := t]> S) n ↔ n ∈ iname <$> Indexes t ∨ ∃ k2, k2 ≠ k ∧ owner S k2 n.
Proof.
  unfold used. setoid_rewrite owner_insert. split.
  - intros (k' & [[-> Hn]|[Hne Ho]]); eauto.
  - intros [Hn|(k2 & Hne & Ho)]; [exists k|exists k2]; tauto.
Qed.

Lemma remove_index_rep c S k o i key s' arrs' fl :
  cat_rep c S → schema_wf S → tables c !! k = Some o →
  iname <$> Indexes (view c o) !! i = Some key →
  remove_index (to_Indexes o) i (arrays c) = (s', arrs') →
  let v := Indexes (view c o) in
  cat_rep (mkCatalog (<[k := mkTableObj (to_Name o) (to_Columns o) s']> (tables c)) (delete key (indexes c)) arrs' fl)
    (<[k := mkTable (to_Name o) (to_Columns o) (take i v ++ drop (Datatypes.S i) v)]> S).
Proof.
  intros Hr Hw Ho Hi Hrm v. destruct (cr_slice _ _ Hr _ _ Ho) as (arr & Ha & Hle).
  apply fmap_Some in Hi as (d0 & Hd0 & ->). fold v in Hd0.
  assert (i < sl_len (to_Indexes o))%nat as Hilt.
  { apply lookup_lt_Some in Hd0. unfold v in Hd0. cbn in Hd0. unfold slice_view in Hd0. rewrite length_take in Hd0. lia. }
  destruct (remove_index_view _ _ _ _ _ _ Ha Hle Hilt Hrm) as (Hv & Harr & Hoth & (arr' & Ha' & Hlen' & Hle' & Hslots)).
  change (slice_view (arrays c) (to_Indexes o)) with v in Hv, Hslots.
  assert (S !! k = Some (view c o)) as Hk by (by rewrite (cat_rep_lookup _ _ _ Hr), Ho).
  assert (∀ n, n ∈ iname <$> (take i v ++ drop (Datatypes.S i) v) ↔ n ≠ iname d0 ∧ owner S k n) as Hnames.
  { intros n. rewrite (owner_view c S k o n Hr Ho). fold v.
    pose proof (sw_names _ Hw _ _ Hk) as Hnd. fold v in Hnd.
    rewrite <-(take_drop_middle v i d0 Hd0) in Hnd. rewrite <-(take_drop_middle v i d0 Hd0) at 3.
    revert Hnd. rewrite !fmap_app, fmap_cons, NoDup_app, NoDup_cons, !elem_of_app, elem_of_cons.
    intros (_ & H1 & H2 & _). split.
    - intros [Hn|Hn]; (split; [|tauto]); intros ->; [|done]. apply (H1 _ Hn). by left.
    - intros [Hne [Hn|[Hn|Hn]]]; tauto. }
  rewrite <-Hv in *. set (S' := <[k := _]> S).
  assert (∀ n, owner S' k n ↔ n ≠ iname d0 ∧ owner S k n) as Hown.
  { intros n. unfold S'. rewrite owner_insert, <-Hnames. cbn [Indexes]. tauto. }
  assert (∀ k2 n, k2 ≠ k → owner S' k2 n ↔ owner S k2 n) as Hown2.
  { intros k2 n Hne. unfold S'. rewrite owner_insert. tauto. }
  assert (owner S k (iname d0)) as Hd0k.
  { apply (owner_view c S k o _ Hr Ho). fold v. rewrite list_elem_of_fmap. exists d0. split; [done|by eapply list_elem_of_lookup_2]. }
  unshelve eapply (set_slice_rep c S k o s' arrs' _ fl Hr Ho).
  - intros k2 o2 Hne Hl. rewrite Harr.
    assert (sl_arr (to_Indexes o2) ≠ sl_arr (to_Indexes o)) as Hsep by (intros E; by destruct Hne; eapply cr_sep).
    split; [by apply Hoth|done].
  - rewrite Harr. eauto.
  - intros n. fold S'. rewrite lookup_delete_is_Some, (cr_names _ _ Hr). unfold used. split.
    + intros [Hne [k2 Hk2]]. exists k2. destruct (decide (k2 = k)) as [->|Hk2k]; [apply Hown; done|by apply Hown2].
    + intros [k2 Hk2]. destruct (decide (k2 = k)) as [->|Hk2k].
      * apply Hown in Hk2 as [Hne Hk2]. eauto.
      * apply Hown2 in Hk2; [|done]. split; [|eauto]. intros <-. apply Hk2k. by eapply sw_uniq.
  - intros n a p. fold S'. intros [Hne Hp]%lookup_delete_Some.
    destruct (cr_ptr _ _ Hr _ _ _ Hp) as (d & Hd & Hod).
    assert (∀ k2, owner S k2 n → owner S' k2 n) as Hkeep.
    { intros k2 Hk2. destruct (decide (k2 = k)) as [->|Hk2k]; [apply Hown; auto|by apply Hown2]. }
    destruct (decide (a = sl_arr (to_Indexes o))) as [->|Hna].
    + rewrite Ha in Hd. cbn in Hd. rewrite Ha'. cbn. destruct (Hslots p) as [Hin Hout].
      destruct (decide (p < sl_len (to_Indexes o))%nat) as [Hlt|Hge].
      * destruct (Hin Hlt) as (d' & Hd' & Hel). exists d'. split; [done|].
        destruct (sw_def _ Hw _ _ _ Hk Hel) as [-> _]. apply Hkeep. by eapply cr_arr.
      * rewrite Hout by lia. eauto.
    + rewrite Hoth by done. eauto.
  - intros n p. fold S'. rewrite Harr. intros [Hne Hp]%lookup_delete_Some. apply Hown. split; [done|]. by eapply cr_arr.
  - intros n a p k2 o2 [Hne Hp]%lookup_delete_Some Hk2 Hl E. by eapply cr_arr.
Qed.
End catalog_proofs.

(** ** Growing slices and the operations *)

Section catalog_ops.
Context `{UnicodeLaws} (growcap : nat → nat) (order : list Table → list Table).

Lemma append_index_view s x arrs arr s' arrs' :
  arrs !! sl_arr s = Some arr → (sl_len s ≤ length arr)%nat → (∀ n, n < growcap n)%nat →
  append_index growcap s x arrs = (s', arrs') →
  slice_view arrs' s' = slice_view arrs s ++ [x] ∧ sl_len s' = S (sl_len s) ∧
  arrs' !! sl_arr s' ≫= lookup (sl_len s) = Some x ∧
  (∃ arr', arrs' !! sl_arr s' = Some arr' ∧ (sl_len s' ≤ length arr')%nat) ∧
  ((sl_arr s' = sl_arr s ∧ (∀ a, a ≠ sl_arr s → arrs' !! a = arrs !! a) ∧
     ∀ p, p ≠ sl_len s → arrs' !! sl_arr s ≫= lookup p = arr !! p) ∨
   (sl_arr s' = length arrs ∧ ∀ a, (a < length arrs)%nat → arrs' !! a = arrs !! a)).
Proof.
  intros Ha Hle Hgrow. unfold append_index. rewrite (list_lookup_total_correct _ _ _ Ha).
  pose proof (lookup_lt_Some _ _ _ Ha) as Hlt. case_decide as Hcap; intros [= <- <-]; cbn.
  - rewrite list_lookup_insert_eq by done. cbn. split_and!.
    + unfold slice_view. cbn. rewrite !list_lookup_total_alt, Ha, list_lookup_insert_eq by done. cbn.
      rewrite insert_take_drop by done. rewrite take_app_ge by (rewrite length_take; lia).
      rewrite length_take, Nat.min_l, Nat.sub_succ_l, Nat.sub_diag by lia. done.
    + done.
    + by apply list_lookup_insert_eq.
    + eexists. split; [done|]. rewrite length_insert. lia.
    + left. split_and!; [done| |].
      * intros a Hne. by apply list_lookup_insert_ne.
      * intros p Hne. cbn. by apply list_lookup_insert_ne.
  - specialize (Hgrow (sl_len s)). rewrite lookup_app_r, Nat.sub_diag by done. cbn.
    assert (length (take (sl_len s) arr) = sl_len s) as Hl by (rewrite length_take; lia).
    split_and!.
    + unfold slice_view. cbn. rewrite list_lookup_total_alt, lookup_app_r, Nat.sub_diag by done. cbn.
      rewrite (list_lookup_total_correct _ _ _ Ha).
      rewrite take_app_ge by lia. by rewrite Hl, Nat.sub_succ_l, Nat.sub_diag by lia.
    + done.
    + by rewrite lookup_app_r, Hl, Nat.sub_diag by lia.
    + eexists. split; [done|]. rewrite length_app, Hl. cbn. rewrite length_replicate. lia.
    + right. split; [done|]. intros a Hlt'. by apply lookup_app_l.
Qed.

Lemma add_index_rep c S k o x s' arrs' fl :
  (∀ n, n < growcap n)%nat → cat_rep c S → schema_wf S → tables c !! k = Some o →
  ITable x = k → ¬ used S (iname x) → append_index growcap (to_Indexes o) x (arrays c) = (s', arrs') →
  cat_rep (mkCatalog (<[k := mkTableObj (to_Name o) (to_Columns o) s']> (tables c))
             (<[iname x := (sl_arr s', (sl_len s' - 1)%nat)]> (indexes c)) arrs' fl)
    (<[k := mkTable (to_Name o) (to_Columns o) (Indexes (view c o) ++ [x])]> S).
Proof.
  intros Hg Hr Hw Ho Hx Hnew Happ. destruct (cr_slice _ _ Hr _ _ Ho) as (arr & Ha & Hle).
  destruct (append_index_view _ _ _ _ _ _ Ha Hle Hg Happ) as (Hv & Hlen & Hslot & Hs & Hcase).
  change (Indexes (view c o)) with (slice_view (arrays c) (to_Indexes o)). rewrite <-Hv.
  rewrite Hlen, Nat.sub_succ, Nat.sub_0_r. set (len := sl_len (to_Indexes o)) in *.
  set (S' := <[k := _]> S).
  assert (∀ n, owner S' k n ↔ owner S k n ∨ n = iname x) as Hown.
  { intros n. unfold S'. rewrite owner_insert. cbn [Indexes]. rewrite Hv, fmap_app, elem_of_app.
    rewrite (owner_view c S k o n Hr Ho). cbn. rewrite list_elem_of_singleton. tauto. }
  assert (∀ k2 n, k2 ≠ k → owner S' k2 n ↔ owner S k2 n) as Hown2.
  { intros k2 n Hne. unfold S'. rewrite owner_insert. tauto. }
  assert (∀ a p d, arrays c !! a ≫= lookup p = Some d → (a, p) ≠ (sl_arr s', len) →
    arrs' !! a ≫= lookup p = Some d) as Hold.
  { intros a p d Hd Hne. apply bind_Some in Hd as (ar & Har & Hd). destruct Hcase as [(E & H1 & H2)|[E H1]].
    - destruct (decide (a = sl_arr (to_Indexes o))) as [->|Hna].
      + rewrite Ha in Har. injection Har as <-. rewrite H2; [done|]. intros ->. by rewrite E in Hne.
      + rewrite H1 by done. by rewrite Har.
    - rewrite H1 by (by apply lookup_lt_Some in Har). by rewrite Har. }
  unshelve eapply (set_slice_rep c S k o s' arrs' _ fl Hr Ho).
  - intros k2 o2 Hne Hl. pose proof (cr_slice _ _ Hr _ _ Hl) as (ar2 & Ha2 & _).
    assert (sl_arr (to_Indexes o2) ≠ sl_arr (to_Indexes o)) as Hsep by (intros E; by destruct Hne; eapply cr_sep).
    apply lookup_lt_Some in Ha2. destruct Hcase as [(E & H1 & _)|[E H1]]; rewrite E; split; auto. lia.
  - exact Hs.
  - intros n. fold S'. rewrite lookup_insert_is_Some', (cr_names _ _ Hr). unfold used. split.
    + intros [<-|[k2 Hk2]]; [exists k; apply Hown; by right|]. exists k2.
      destruct (decide (k2 = k)) as [->|Hne]; [apply Hown; by left|by apply Hown2].
    + intros [k2 Hk2]. destruct (decide (k2 = k)) as [->|Hne]; [apply Hown in Hk2 as [|]; eauto|].
      right. exists k2. by apply Hown2.
  - intros n a p. fold S'. intros [[<- [= <- <-]]|[Hne Hp]]%lookup_insert_Some.
    + exists x. split; [done|]. rewrite Hx. apply Hown. by right.
    + destruct (cr_ptr _ _ Hr _ _ _ Hp) as (d & Hd & Hod).
      destruct (decide ((a, p) = (sl_arr s', len))) as [[= -> ->]|Hdiff].
      * exists x. split; [done|]. rewrite Hx. apply Hown. left.
        destruct Hcase as [(E & _)|[E _]]; [eapply cr_arr; eauto|].
        rewrite E in Hd. apply bind_Some in Hd as (ar & Har%lookup_lt_Some & _). lia.
      * exists d. split; [by apply Hold|]. destruct (decide (ITable d = k)) as [Hk|Hk].
        -- rewrite Hk in *. apply Hown. by left.
        -- by apply Hown2.
  - intros n p. fold S'. intros [[<- _]|[Hne Hp]]%lookup_insert_Some; apply Hown; [by right|left].
    destruct Hcase as [(E & _)|[E _]]; [eapply cr_arr; eauto|].
    destruct (cr_ptr _ _ Hr _ _ _ Hp) as (d & Hd & _). rewrite E in Hd.
    apply bind_Some in Hd as (ar & Har%lookup_lt_Some & _). lia.
  - intros n a p k2 o2 [[<- [= <- <-]]|[Hne Hp]]%lookup_insert_Some Hk2 Hl E; [|by eapply cr_arr].
    exfalso. pose proof (cr_slice _ _ Hr _ _ Hl) as (ar2 & Ha2%lookup_lt_Some & _).
    destruct Hcase as [(E' & _)|[E' _]]; rewrite E' in E; [|lia]. apply Hk2. by eapply cr_sep.
Qed.

(** *** What each call does to the schema *)

Inductive ddl : Type :=
  | DCreateTable (name : string) (cols : list ColumnDef)
  | DCreateIndex (idx : IndexDef)
  | DDropIndex (name : string)
  | DReload.

(** [DReload] closes the database and loads the catalog file again. *)
Definition ddl_run (path : string) (op : ddl) : M Catalog unit :=
  match op with
  | DCreateTable name cols => CreateTable order (mkTable name cols [])
  | DCreateIndex idx => CreateIndex growcap order idx
  | DDropIndex name => DropIndex order name
  | DReload => λ c, match Load path (file c) with
      | Ok c' => (Ok tt, c')
      | Err e => (Err e, c)
      | Panic => (Panic, c)
      | OutOfFuel => (OutOfFuel, c)
      end
  end.

Definition drop_named (n : string) (t : Table) : Table :=
  mkTable (TName t) (Columns t) (filter (λ d, iname d ≠ n) (Indexes t)).

Definition ddl_spec (op : ddl) (S S' : schema) (r : res unit) : Prop :=
  match op with
  | DCreateTable name cols =>
      match S !! ToLower name with
      | Some _ => r = Err (Errorf "table %q already exists" [GStr name]) ∧ S' = S
      | None => r = Ok tt ∧ S' = <[ToLower name := mkTable name cols []]> S
      end
  | DCreateIndex idx =>
      match S !! ToLower (ITable idx) with
      | None => r = Err (Errorf "table %q does not exist" [GStr (ITable idx)]) ∧ S' = S
      | Some t =>
          match ColIndex (IColumn idx) t ≫= λ i, Columns t !! i with
          | None => r = Err (Errorf "column %q not found in table %q" [GStr (IColumn idx); GStr (ITable idx)]) ∧ S' = S
          | Some col =>
              (CType col ≠ TypeInt ∧ S' = S ∧
                r = Err (Errorf "column %q is %s; only INT columns may be indexed in Phase 9"
                      [GStr (IColumn idx); GStr (DataType_String (CType col))])) ∨
              (CType col = TypeInt ∧ used S (iname idx) ∧ S' = S ∧
                r = Err (Errorf "index %q already exists" [GStr (IName idx)])) ∨
              (CType col = TypeInt ∧ ¬ used S (iname idx) ∧
                match IndexForColumn (IColumn idx) t with
                | Some ex => S' = S ∧
                    r = Err (Errorf "column %q already has an index (%q)" [GStr (IColumn idx); GStr (IName ex)])
                | None => r = Ok tt ∧
                    S' = <[ToLower (ITable idx) := mkTable (TName t) (Columns t)
                            (Indexes t ++ [mkIndex (IName idx) (ToLower (ITable idx)) (icol idx)])]> S
                end)
          end
      end
  | DDropIndex name =>
      (¬ used S (ToLower name) ∧ S' = S ∧ r = Err (Errorf "index %q does not exist" [GStr name])) ∨
      (∃ k t, owner S k (ToLower name) ∧ S !! k = Some t ∧ r = Ok tt ∧
        S' = <[k := drop_named (ToLower name) t]> S)
  | DReload => r = Ok tt ∧ S' = S
  end.

(** What the catalog file holds. *)
Definition saved (c : Catalog) (S : schema) : Prop :=
  match file c with
  | None => S = ∅
  | Some b => ∃ ts, b = serialize ts ∧ ts ≡ₚ (map_to_list S).*2
  end.

Context (Hgrow : ∀ n, (n < growcap n)%nat) (Horder : ∀ l, order l ≡ₚ l).

Lemma cat_rep_file c S fl : cat_rep c S → cat_rep (mkCatalog (tables c) (indexes c) (arrays c) fl) S.
Proof using Type. intros [? ? ? ? ? ?]. by split. Qed.

Lemma Save_ok c S : cat_rep c S → ∃ c', Save order c = (Ok tt, c') ∧ cat_rep c' S ∧ saved c' S.
Proof using Horder.
  intros Hr. eexists. split; [reflexivity|]. split; [by apply cat_rep_file|].
  eexists. split; [reflexivity|]. rewrite Horder, <-(cr_abs _ _ Hr), map_to_list_fmap.
  unfold Tables. by rewrite <-list_fmap_compose.
Qed.

Lemma schema_wf_insert S k t :
  schema_wf S → k = ToLower (TName t) →
  (∀ d, d ∈ Indexes t → ITable d = k ∧ int_column t (IColumn d)) →
  NoDup (icol <$> Indexes t) → NoDup (iname <$> Indexes t) →
  (∀ n k2, n ∈ iname <$> Indexes t → k2 ≠ k → ¬ owner S k2 n) → schema_wf (<[k := t]> S).
Proof using Type.
  intros Hw Hk Hd Hc Hn Hu. split.
  - intros k' t' [[<- <-]|[Hne Hl]]%lookup_insert_Some; [done|by eapply sw_key].
  - intros k' t' d [[<- <-]|[Hne Hl]]%lookup_insert_Some; [auto|by eapply sw_def].
  - intros k' t' [[<- <-]|[Hne Hl]]%lookup_insert_Some; [done|by eapply sw_cols].
  - intros k' t' [[<- <-]|[Hne Hl]]%lookup_insert_Some; [done|by eapply sw_names].
  - intros k1 k2 n. rewrite !owner_insert. intros [[-> H1]|[H1 H1']] [[-> H2]|[H2 H2']]; [done| | |].
    + by destruct (Hu n k2 H1 H2).
    + by destruct (Hu n k1 H2 H1).
    + by eapply sw_uniq.
Qed.

Lemma CreateTable_ok c S name cols :
  cat_rep c S → schema_wf S → saved c S →
  ∃ r c' S', CreateTable order (mkTable name cols []) c = (r, c') ∧
    ddl_spec (DCreateTable name cols) S S' r ∧ cat_rep c' S' ∧ schema_wf S' ∧ saved c' S'.
Proof using Horder.
  intros Hr Hw Hs. unfold CreateTable. M_run. cbn [ddl_spec TName]. rewrite (cat_rep_lookup _ _ _ Hr).
  destruct (tables c !! ToLower name) as [o|] eqn:E; cbn [fmap option_fmap option_map].
  { eexists _, _, S. by split_and!. }
  assert (S !! ToLower name = None) as HS by (by rewrite (cat_rep_lookup _ _ _ Hr), E).
  pose proof (add_table_rep c S (mkTable name cols []) Hr HS (NoDup_nil_2) (Forall_nil_2 _)) as Hr'.
  destruct (Save_ok _ _ Hr') as (c' & Ec & Hc' & Hs'). exists (Ok tt), c', (<[ToLower name := mkTable name cols []]> S).
  split; [exact Ec|]. split; [done|]. split; [exact Hc'|]. split; [|exact Hs'].
  apply schema_wf_insert; [done|done| |apply NoDup_nil_2|apply NoDup_nil_2|]; cbn; intros ? *; by intros ?%elem_of_nil.
Qed.

Lemma ColIndex_lower name t : ColIndex (ToLower name) t = ColIndex name t.
Proof using Type*. unfold ColIndex. by rewrite ToLower_idem. Qed.

Lemma int_column_intro t name i col :
  ColIndex name t = Some i → Columns t !! i = Some col → CType col = TypeInt → int_column t (ToLower name).
Proof using Type*. intros E Hc Ht. exists i, col. by rewrite ColIndex_lower. Qed.

Lemma IndexForColumn_None name t :
  IndexForColumn name t = None → ToLower name ∉ icol <$> Indexes t.
Proof using Type.
  unfold IndexForColumn. rewrite bind_None. intros [Hn|([i d] & _ & Hs)]; [|done].
  rewrite list_find_None in Hn. intros (d & E & Hd)%list_elem_of_fmap.
  by apply (proj1 (Forall_forall _ _) Hn d Hd).
Qed.

Lemma CreateIndex_ok c S idx :
  cat_rep c S → schema_wf S → saved c S →
  ∃ r c' S', CreateIndex growcap order idx c = (r, c') ∧
    ddl_spec (DCreateIndex idx) S S' r ∧ cat_rep c' S' ∧ schema_wf S' ∧ saved c' S'.
Proof using Type*.
  intros Hr Hw Hs. unfold CreateIndex. M_run. set (k := ToLower (ITable idx)).
  cbn [ddl_spec]. fold k. rewrite (cat_rep_lookup _ _ _ Hr).
  destruct (tables c !! k) as [o|] eqn:Ho; cbn [fmap option_fmap option_map].
  2: { eexists _, c, S. by split_and!. }
  assert (S !! k = Some (view c o)) as Hk by (by rewrite (cat_rep_lookup _ _ _ Hr), Ho).
  destruct (ColIndex (IColumn idx) (view c o)) as [i|] eqn:Ec; cbn [mbind option_bind].
  2: { eexists _, c, S. by split_and!. }
  change (Columns (view c o)) with (to_Columns o).
  destruct (find_index_Some _ _ _ Ec) as (col & Hcol & _). change (Columns (view c o)) with (to_Columns o) in Hcol.
  rewrite Hcol. case_decide as Hty.
  { eexists _, c, S. split; [reflexivity|]. split; [by left|]. by split_and!. }
  change (ToLower (IName idx)) with (iname idx).
  destruct (indexes c !! iname idx) as [p|] eqn:Ei.
  { eexists _, c, S. split; [reflexivity|]. split; [|by split_and!]. right. left.
    split_and!; [done| |done..]. apply (cr_names _ _ Hr). eauto. }
  assert (¬ used S (iname idx)) as Hnew by (rewrite <-(cr_names _ _ Hr), Ei; by intros [? ?]).
  destruct (IndexForColumn (IColumn idx) (view c o)) as [ex|] eqn:Ex.
  { eexists _, c, S. split; [reflexivity|]. split; [|by split_and!]. right. right. by split_and!. }
  set (x := mkIndex (IName idx) k (ToLower (IColumn idx))).
  destruct (append_index growcap (to_Indexes o) x (arrays c)) as [s' arrs'] eqn:Ea.
  pose proof (add_index_rep c S k o x s' arrs' (file c) Hgrow Hr Hw Ho eq_refl Hnew Ea) as Hr'.
  destruct (Save_ok _ _ Hr') as (c' & Es & Hc' & Hs'). eexists (Ok tt), c', _. split; [exact Es|].
  split; [right; right; by split_and!|]. split; [exact Hc'|]. split; [|exact Hs'].
  assert (∀ n, n ∈ iname <$> Indexes (view c o) → used S n) as Hu.
  { intros n Hn. exists k. by apply (owner_view c S k o n Hr Ho). }
  apply schema_wf_insert; [done|apply (sw_key _ Hw _ _ Hk)|..]; cbn [Indexes TName Columns].
  - intros d [Hd|Hd]%elem_of_app; [apply (sw_def _ Hw _ _ _ Hk Hd)|]. apply list_elem_of_singleton in Hd as ->.
    split; [done|]. eapply int_column_intro; [exact Ec|exact Hcol|done].
  - rewrite fmap_app. change (icol <$> [x]) with [ToLower (ToLower (IColumn idx))].
    apply NoDup_snoc. split; [apply (sw_cols _ Hw _ _ Hk)|].
    change (ToLower (ToLower (IColumn idx)) ∉ icol <$> Indexes (view c o)). rewrite ToLower_idem. by apply IndexForColumn_None.
  - rewrite fmap_app. change (iname <$> [x]) with [iname idx].
    apply NoDup_snoc. split; [apply (sw_names _ Hw _ _ Hk)|]. intros Hn. by apply Hnew, Hu.
  - intros n k2. rewrite fmap_app, elem_of_app. intros [Hn|Hn] Hne Hk2.
    + apply Hne. apply (sw_uniq _ Hw k2 k n Hk2), (owner_view c S k o n Hr Ho), Hn.
    + cbn in Hn. apply list_elem_of_singleton in Hn as ->. apply Hnew. by exists k2.
Qed.

Lemma take_drop_filter {A B} `{EqDecision B} (f : A → B) l i x :
  NoDup (f <$> l) → l !! i = Some x →
  take i l ++ drop (Datatypes.S i) l = filter (λ d, f d ≠ f x) l.
Proof using Type.
  intros Hnd Hi. rewrite <-(take_drop_middle l i x Hi) in Hnd |- * at 3.
  rewrite fmap_app, fmap_cons, NoDup_app, NoDup_cons in Hnd. destruct Hnd as (_ & H1 & H2 & _).
  rewrite filter_app, filter_cons_False by (by intros []).
  assert (∀ l' : list A, f x ∉ f <$> l' → filter (λ d, f d ≠ f x) l' = l') as Hall.
  { induction l' as [|y l' IH]; [done|]. rewrite fmap_cons, not_elem_of_cons. intros [Hy Hl'].
    rewrite filter_cons_True by congruence. by rewrite IH. }
  rewrite !Hall; [done|done|]. intros Hx. apply (H1 _ Hx). by left.
Qed.

Lemma find_index_lookup {A} (p : A → bool) l x : x ∈ l → p x = true → is_Some (find_index p l).
Proof using Type.
  intros Hx Hp. destruct (find_index p l) eqn:E; [eauto|]. rewrite find_index_None in E. by rewrite E in Hp.
Qed.

Lemma DropIndex_ok c S name :
  cat_rep c S → schema_wf S → saved c S →
  ∃ r c' S', DropIndex order name c = (r, c') ∧
    ddl_spec (DDropIndex name) S S' r ∧ cat_rep c' S' ∧ schema_wf S' ∧ saved c' S'.
Proof using Horder.
  intros Hr Hw Hs. unfold DropIndex. erewrite (M_bind_Ok get_state) by reflexivity.
  set (n := ToLower name). cbv zeta.
  destruct (indexes c !! n) as [[a p]|] eqn:Ei.
  2: { eexists _, c, S. split; [reflexivity|]. split; [|by split_and!]. left. split_and!; [|done|done].
       fold n. rewrite <-(cr_names _ _ Hr), Ei. by intros [? ?]. }
  destruct (cr_ptr _ _ Hr _ _ _ Ei) as (d & Hd & Hown). rewrite Hd. M_run. set (k := ITable d) in *.
  pose proof Hown as (t & d' & Hk & Hd' & Hn). rewrite (cat_rep_lookup _ _ _ Hr) in Hk.
  destruct (tables c !! k) as [o|] eqn:Ho; [|done]. cbn in Hk. injection Hk as <-.
  assert (S !! k = Some (view c o)) as Hk by (by rewrite (cat_rep_lookup _ _ _ Hr), Ho).
  destruct (find_index_lookup (λ i, bool_decide (ToLower (IName i) = n)) (Indexes (view c o)) d' Hd') as [i Hi];
    [by apply bool_decide_eq_true_2|].
  rewrite Hi. destruct (find_index_Some _ _ _ Hi) as (di & Hdi & Hni%bool_decide_eq_true_1 & _).
  destruct (remove_index (to_Indexes o) i (arrays c)) as [s' arrs'] eqn:Erm.
  pose proof (remove_index_rep c S k o i n s' arrs' (file c) Hr Hw Ho) as Hr'.
  rewrite Hdi in Hr'. cbn [fmap option_fmap option_map] in Hr'. specialize (Hr' (f_equal Some Hni) Erm). cbv zeta in Hr'.
  destruct (Save_ok _ _ Hr') as (c' & Es & Hc' & Hs'). eexists (Ok tt), c', _. split; [exact Es|].
  rewrite (take_drop_filter iname _ _ _ (sw_names _ Hw _ _ Hk) Hdi) in Hc', Hs'.
  replace (iname di) with n in * by done.
  split; [right; exists k, (view c o); by split_and!|]. split; [exact Hc'|]. split; [|exact Hs'].
  apply schema_wf_insert; [done|apply (sw_key _ Hw _ _ Hk)|..]; cbn [drop_named Indexes TName Columns].
  - intros e [_ He]%list_elem_of_filter. apply (sw_def _ Hw _ _ _ Hk He).
  - eapply sublist_NoDup; [apply (sw_cols _ Hw _ _ Hk)|]. apply fmap_sublist, sublist_filter.
  - eapply sublist_NoDup; [apply (sw_names _ Hw _ _ Hk)|]. apply fmap_sublist, sublist_filter.
  - intros m k2 (e & -> & [_ He]%list_elem_of_filter)%list_elem_of_fmap Hne Hk2. apply Hne.
    apply (sw_uniq _ Hw k2 k _ Hk2). apply (owner_view c S k o _ Hr Ho). apply list_elem_of_fmap. eauto.
Qed.

(** *** Loading what was saved *)

Definition schema_fits (S : schema) : Prop :=
  ∀ k t, S !! k = Some t → str_fits (TName t) ∧ (length (Columns t) < 256)%nat ∧
    Forall (λ c, str_fits (CName c) ∧ is_u8 (CType c)) (Columns t) ∧
    Forall (λ i, str_fits (IName i) ∧ str_fits (IColumn i)) (Indexes t).

(** One index per column: there are no more indexes than columns. *)
Lemma indexes_le_columns S k t :
  schema_wf S → S !! k = Some t → (length (Indexes t) ≤ length (Columns t))%nat.
Proof using Type*.
  intros Hw Hk. rewrite <-(length_fmap icol), <-(length_fmap (λ c, ToLower (CName c)) (Columns t)).
  apply submseteq_length, NoDup_submseteq; [by eapply sw_cols|].
  intros n (d & -> & Hd)%list_elem_of_fmap. destruct (sw_def _ Hw _ _ _ Hk Hd) as (_ & i & c & Hi & Hc & _).
  apply list_elem_of_fmap. exists c. split; [|by eapply list_elem_of_lookup_2].
  destruct (find_index_Some _ _ _ Hi) as (c' & Hc' & Hb%bool_decide_eq_true_1 & _). by simplify_eq.
Qed.

Lemma schema_table_fits S k t : schema_wf S → schema_fits S → S !! k = Some t → table_fits t.
Proof using Type*.
  intros Hw Hf Hk. destruct (Hf k t Hk) as (H1 & H2 & H3 & H4).
  pose proof (indexes_le_columns S k t Hw Hk). split; [done..|lia|done].
Qed.

Definition keyed (t : Table) : string * Table := (ToLower (TName t), t).

Lemma owner_mono S S' k n : S ⊆ S' → owner S k n → owner S' k n.
Proof using Type. intros Hs (t & d & Hl & Hd). exists t, d. split; [by eapply lookup_weaken|done]. Qed.

Lemma read_tables_ok S ts i c S0 :
  schema_wf S → schema_fits S → cat_rep c S0 → S0 ⊆ S →
  Forall (λ t, S !! ToLower (TName t) = Some t) ts → NoDup (keyed <$> ts).*1 →
  Forall (λ t, S0 !! ToLower (TName t) = None) ts →
  ∃ c', read_tables (length ts) i c (concat (writeTable <$> ts)) = (Ok c', []) ∧
    cat_rep c' (list_to_map (keyed <$> ts) ∪ S0) ∧ file c' = file c.
Proof using Type*.
  intros Hw Hf. revert i c S0. induction ts as [|t ts IH]; intros i c S0 Hr Hsub Hts Hnd Hfresh.
  { exists c. cbn. split; [done|]. split; [|done]. by rewrite (left_id_L ∅ (∪)). }
  inversion_clear Hts as [|? ? Ht Hts']. inversion_clear Hfresh as [|? ? Hf0 Hfresh'].
  cbn in Hnd. apply NoDup_cons in Hnd as [Hnt Hnd]. cbn [length read_tables fmap list_fmap concat].
  erewrite M_bind_Ok.
  2: { apply wrap_Ok, readTable_ok; [by eapply schema_table_fits|]. apply Forall_forall. intros d Hd.
       by eapply sw_def. }
  assert (cat_rep (add_table t c) (<[ToLower (TName t) := t]> S0)) as Hr'.
  { apply add_table_rep; [done|done|by eapply sw_names|]. apply Forall_forall. intros d Hd. split; [|by eapply sw_def].
    intros [k Hk]. assert (k = ToLower (TName t)) as ->.
    { apply (sw_uniq _ Hw k _ (iname d)); [by eapply owner_mono|]. exists t, d. by split_and!. }
    destruct Hk as (? & ? & ? & _). congruence. }
  destruct (IH (i + 1) _ _ Hr') as (c' & E & Hc' & Hfile).
  - by apply insert_subseteq_l.
  - done.
  - done.
  - apply Forall_forall. intros t' Ht'. rewrite lookup_insert_ne; [by apply (proj1 (Forall_forall _ _) Hfresh')|].
    intros Ek. apply Hnt. apply list_elem_of_fmap. exists (keyed t'). split; [done|]. by apply list_elem_of_fmap_2.
  - exists c'. split; [exact E|]. split; [|exact Hfile]. cbn [keyed list_to_map foldr].
    replace (_ ∪ S0) with (list_to_map (keyed <$> ts) ∪ <[ToLower (TName t) := t]> S0); [done|].
    rewrite <-insert_union_l. symmetry. rewrite <-insert_union_r; [done|]. by apply not_elem_of_list_to_map_1.
Qed.

Lemma keyed_values S ts :
  schema_wf S → ts ≡ₚ (map_to_list S).*2 →
  NoDup (keyed <$> ts).*1 ∧ list_to_map (keyed <$> ts) = S ∧ Forall (λ t, S !! ToLower (TName t) = Some t) ts.
Proof using Type.
  intros Hw Hp. assert (keyed <$> ts ≡ₚ map_to_list S) as Hk.
  { rewrite Hp. rewrite <-list_fmap_compose. rewrite <-(list_fmap_id (map_to_list S)) at 2.
    apply reflexive_eq, list_fmap_ext. intros i [k t] Hi%list_elem_of_lookup_2%elem_of_map_to_list.
    cbn. unfold keyed. by rewrite <-(sw_key _ Hw _ _ Hi). }
  assert (NoDup (keyed <$> ts).*1) as Hnd by (rewrite Hk; apply NoDup_fst_map_to_list).
  split; [done|]. split.
  - rewrite <-(list_to_map_to_list S). by apply list_to_map_proper.
  - apply Forall_forall. intros t Ht. apply elem_of_map_to_list. rewrite <-Hk.
    change (ToLower (TName t), t) with (keyed t). by apply list_elem_of_fmap_2.
Qed.

Lemma empty_rep fl : cat_rep (mkCatalog ∅ ∅ [] fl) ∅.
Proof using Type.
  split; cbn; intros; try by simplify_map_eq.
  split; [intros [? ?]; by simplify_map_eq|]. intros (k & t & d & Hk & _). by simplify_map_eq.
Qed.

Lemma Load_ok path c S :
  schema_wf S → schema_fits S → Z.of_nat (size S) < 65536 → saved c S →
  ∃ c', Load path (file c) = Ok c' ∧ cat_rep c' S ∧ saved c' S.
Proof using Type*.
  intros Hw Hf Hsz Hs. pose proof Hs as Hs'. unfold saved in Hs. unfold Load. destruct (file c) as [b|] eqn:Ef.
  - destruct Hs as (ts & -> & Hp). destruct (keyed_values S ts Hw Hp) as (Hnd & HS & Hts).
    destruct (read_tables_ok S ts 0 (mkCatalog ∅ ∅ [] (Some (serialize ts))) ∅) as (c' & E & Hc' & Hfile);
      [done|done| |apply map_empty_subseteq|done|done|by apply Forall_forall| ].
    { apply empty_rep. }
    exists c'. rewrite (right_id_L ∅ (∪)), HS in Hc'.
    assert (length ts = size S) as Hlen by (rewrite Hp, length_fmap; apply length_map_to_list).
    split; [|split; [done|]].
    + unfold deserialize, serialize at 2. erewrite M_bind_Ok by (by apply wrap_Ok, ReadFull_app).
      rewrite le_dec_enc_small by done. cbv zeta. rewrite decide_False by done. rewrite decide_False by (intros []; done).
      erewrite M_bind_Ok by (by apply wrap_Ok, ReadFull_app). rewrite le_dec_enc_small by (cbn; lia).
      rewrite Nat2Z.id, E. done.
    + unfold saved. rewrite Hfile. cbn. eauto.
  - subst S. exists New. split; [done|]. split; [|done].
    apply empty_rep.
Qed.

(** *** Sequences of calls *)

Definition ddl_fits (op : ddl) : Prop :=
  match op with
  | DCreateTable name cols =>
      str_fits name ∧ (length cols < 256)%nat ∧ Forall (λ c, str_fits (CName c) ∧ is_u8 (CType c)) cols
  | DCreateIndex idx => str_fits (IName idx) ∧ str_fits (icol idx)
  | _ => True
  end.

Fixpoint ddl_run_all (path : string) (ops : list ddl) : M Catalog (list (res unit)) := λ c,
  match ops with
  | [] => (Ok [], c)
  | op :: ops =>
      let '(r, c) := ddl_run path op c in
      (rs ← ddl_run_all path ops; mret (r :: rs)) c
  end.

Fixpoint ddl_trace (ops : list ddl) (S : schema) (rs : list (res unit)) (S' : schema) : Prop :=
  match ops, rs with
  | [], [] => S' = S
  | op :: ops, r :: rs => ∃ S1, ddl_spec op S S1 r ∧ ddl_trace ops S1 rs S'
  | _, _ => False
  end.

Lemma size_insert_le (S : schema) k t : (size (<[k := t]> S) ≤ Datatypes.S (size S))%nat.
Proof using Type. rewrite map_size_insert. destruct (S !! k); cbn; lia. Qed.

Lemma schema_fits_insert S k t :
  schema_fits S → str_fits (TName t) → (length (Columns t) < 256)%nat →
  Forall (λ c, str_fits (CName c) ∧ is_u8 (CType c)) (Columns t) →
  Forall (λ i, str_fits (IName i) ∧ str_fits (IColumn i)) (Indexes t) → schema_fits (<[k := t]> S).
Proof using Type. intros Hf ? ? ? ? k' t' [[<- <-]|[_ Hl]]%lookup_insert_Some; [done|by eapply Hf]. Qed.

Lemma ddl_spec_fits op S S' r :
  ddl_spec op S S' r → ddl_fits op → schema_fits S →
  schema_fits S' ∧ (size S' ≤ Datatypes.S (size S))%nat.
Proof using Type.
  destruct op as [name cols|idx|name|]; cbn [ddl_spec ddl_fits].
  - destruct (S !! ToLower name); intros [_ ->]; [split; [done|lia]|]. intros (H1 & H2 & H3) Hf.
    split; [by apply schema_fits_insert|apply size_insert_le].
  - intros Hsp (H1 & H2) Hf. destruct (S !! ToLower (ITable idx)) as [t|] eqn:Et; [|destruct Hsp as [_ ->]; split; [done|lia]].
    destruct (ColIndex (IColumn idx) t ≫= _) as [col|]; [|destruct Hsp as [_ ->]; split; [done|lia]].
    destruct Hsp as [(_ & -> & _)|[(_ & _ & -> & _)|(_ & _ & Hsp)]]; [split; [done|lia]..|].
    destruct (IndexForColumn (IColumn idx) t); [destruct Hsp as [-> _]; split; [done|lia]|].
    destruct Hsp as [_ ->]. split; [|apply size_insert_le]. destruct (Hf _ _ Et) as (F1 & F2 & F3 & F4).
    apply schema_fits_insert; try done. cbn. apply Forall_app. split; [done|]. by apply Forall_singleton.
  - intros [(_ & -> & _)|(k & t & _ & Ht & _ & ->)] _ Hf; [split; [done|lia]|].
    destruct (Hf _ _ Ht) as (F1 & F2 & F3 & F4). split; [|apply size_insert_le].
    apply schema_fits_insert; try done. cbn. apply Forall_forall.
    intros d [_ Hd]%list_elem_of_filter. by apply (proj1 (Forall_forall _ _) F4).
  - intros [_ ->] _ Hf. split; [done|lia].
Qed.

Lemma ddl_step_ok path op c S :
  ddl_fits op → schema_fits S → Z.of_nat (size S) < 65536 → cat_rep c S → schema_wf S → saved c S →
  ∃ r c' S', ddl_run path op c = (r, c') ∧ ddl_spec op S S' r ∧ cat_rep c' S' ∧ schema_wf S' ∧ saved c' S'.
Proof using Type*.
  intros Hop Hf Hsz Hr Hw Hs. destruct op as [name cols|idx|name|]; cbn [ddl_run].
  - by apply CreateTable_ok.
  - by apply CreateIndex_ok.
  - by apply DropIndex_ok.
  - destruct (Load_ok path c S Hw Hf Hsz Hs) as (c' & E & Hc' & Hs'). rewrite E.
    exists (Ok tt), c', S. by split_and!.
Qed.

Lemma ddl_run_ok path ops c S :
  Forall ddl_fits ops → schema_fits S → Z.of_nat (size S + length ops) < 65536 →
  cat_rep c S → schema_wf S → saved c S →
  ∃ rs c' S', ddl_run_all path ops c = (Ok rs, c') ∧ ddl_trace ops S rs S' ∧ cat_rep c' S' ∧ schema_wf S'.
Proof using Type*.
  intros Hops. revert c S. induction Hops as [|op ops Hop _ IH]; intros c S Hf Hsz Hr Hw Hs.
  { exists [], c, S. by split_and!. }
  cbn [length] in Hsz. destruct (ddl_step_ok path op c S Hop Hf ltac:(lia) Hr Hw Hs) as (r & c1 & S1 & E & Hsp & Hr1 & Hw1 & Hs1).
  destruct (ddl_spec_fits _ _ _ _ Hsp Hop Hf) as [Hf1 Hsz1].
  destruct (IH c1 S1 Hf1 ltac:(lia) Hr1 Hw1 Hs1) as (rs & c2 & S2 & E2 & Ht & Hr2 & Hw2).
  exists (r :: rs), c2, S2. cbn [ddl_run_all]. rewrite E. erewrite M_bind_Ok by exact E2.
  split; [done|]. split; [exists S1; done|done].
Qed.

(** C19. The catalog implements a finite map of schemas. Any sequence of fewer
    than 65536 calls of CREATE TABLE, CREATE INDEX, DROP INDEX and restarts from
    an empty catalog, with names of fewer than 256 bytes and fewer than 256
    columns, behaves, call by call, as [ddl_spec] says on that map, errors
    included; a restart changes nothing; and the schema stays well formed: keys
    are lower-case table names, index names are unique in the database, each
    column has at most one index, and indexed columns are INT. (The bounds are
    those of the file's length bytes and counts: a longer name makes the file
    unreadable. The definition that [GetIndex] returns is not part of this: it
    is read through a pointer that DROP INDEX leaves dangling.) *)
Theorem catalog_refines_schema path ops :
  Forall ddl_fits ops → Z.of_nat (length ops) < 65536 →
  ∃ rs c S, ddl_run_all path ops New = (Ok rs, c) ∧ ddl_trace ops ∅ rs S ∧ schema_wf S ∧
    (∀ name, GetTable name c = S !! ToLower name) ∧
    (∀ name, is_Some (indexes c !! ToLower name) ↔ used S (ToLower name)).
Proof using Type*.
  intros Hops Hlen. destruct (ddl_run_ok path ops New ∅) as (rs & c & S & E & Ht & Hr & Hw).
  - done.
  - intros k t Hk. by simplify_map_eq.
  - rewrite map_size_empty. lia.
  - apply empty_rep.
  - split; try (intros; by simplify_map_eq). intros k k' n (t & ? & Ht & _). by simplify_map_eq.
  - done.
  - exists rs, c, S. split; [exact E|]. split; [exact Ht|]. split; [exact Hw|]. split.
    + intros name. unfold GetTable. by rewrite (cat_rep_lookup _ _ _ Hr).
    + intros name. apply (cr_names _ _ Hr).
Qed.
End catalog_ops.

(** ** Pointers left behind by DROP INDEX, and names that do not fit *)

Section catalog_pointers.
Context `{UnicodeLaws} (order : list Table → list Table).

(** The tables of a catalog file with one table. *)
Lemma Load_single path t :
  table_fits t → Forall (λ i, ITable i = ToLower (TName t)) (Indexes t) →
  Load path (Some (serialize [t])) = Ok (add_table t (mkCatalog ∅ ∅ [] (Some (serialize [t])))).
Proof.
  intros Hf Ht. unfold Load, deserialize, serialize at 2.
  erewrite M_bind_Ok by (by apply wrap_Ok, ReadFull_app). rewrite le_dec_enc_small by done. cbv zeta.
  rewrite decide_False by done. rewrite decide_False by (intros Hne; exact (Hne eq_refl)).
  erewrite M_bind_Ok by (by apply wrap_Ok, ReadFull_app).
  change (Z.to_nat _) with 1%nat. cbn [read_tables fmap list_fmap concat].
  by erewrite M_bind_Ok by (by apply wrap_Ok, readTable_ok).
Qed.

(** After a restart, dropping the first of three indexes of a table makes
    [GetIndex] answer with the definition of the third for the name of the
    second: the pointer kept for the second index follows its slot, and DROP
    INDEX moves the definitions down.  The table itself keeps the right ones. *)
Theorem GetIndex_after_drop path t x y z rest :
  table_fits t → Forall (λ i, ITable i = ToLower (TName t)) (Indexes t) →
  Indexes t = x :: y :: z :: rest → NoDup (iname <$> Indexes t) →
  ∃ c c', Load path (Some (serialize [t])) = Ok c ∧ GetIndex (IName y) c = Some y ∧
    DropIndex order (IName x) c = (Ok tt, c') ∧ GetIndex (IName y) c' = Some z ∧
    GetTable (TName t) c' = Some (mkTable (TName t) (Columns t) (y :: z :: rest)).
Proof.
  intros Hf Ht Hi Hnd. rewrite (Load_single path t Hf Ht). eexists _, _. split; [reflexivity|].
  set (c := add_table _ _). destruct (fold_pointers 0 0 (Indexes t) ∅ Hnd) as [Hp _].
  assert (∀ i d, Indexes t !! i = Some d → indexes c !! iname d = Some (0%nat, i)) as Hidx by exact Hp.
  pose proof (Hidx 0%nat x ltac:(by rewrite Hi)) as Hx. pose proof (Hidx 1%nat y ltac:(by rewrite Hi)) as Hy.
  assert (arrays c = [Indexes t]) as Harr by reflexivity.
  assert (tables c !! ToLower (TName t) = Some (mkTableObj (TName t) (Columns t) (mkSlice 0 (length (Indexes t))))) as Htab
    by apply lookup_insert_eq.
  rewrite Hi in Hnd, Ht. rewrite !fmap_cons, !NoDup_cons in Hnd. inversion_clear Ht as [|? ? Hxt _].
  assert (iname x ≠ iname y) as Hne by (intros E; apply (proj1 Hnd); rewrite E; by left).
  split; [unfold GetIndex; change (ToLower (IName y)) with (iname y); by rewrite Hy, Harr, Hi|].
  split.
  { unfold DropIndex. erewrite (M_bind_Ok get_state) by reflexivity. cbv zeta.
    change (ToLower (IName x)) with (iname x). rewrite Hx, Harr. cbn [lookup list_lookup mbind option_bind].
    rewrite Hi. M_run.
    change ((x :: y :: z :: rest) !! 0%nat) with (Some x). cbv beta iota. rewrite Hxt, Htab. unfold view, slice_view. cbn [Indexes to_Indexes sl_len sl_arr].
    rewrite Harr. cbn [list_lookup_total lookup_total]. rewrite Hi, take_ge by done. cbn [find_index].
    rewrite bool_decide_eq_true_2 by done. unfold remove_index, Save. cbn [sl_arr sl_len list_lookup_total lookup_total length].
    reflexivity. }
  split.
  - unfold GetIndex. cbn [indexes arrays]. change (ToLower (IName y)) with (iname y).
    rewrite lookup_delete_ne by done. fold c. rewrite Hy. reflexivity.
  - unfold GetTable. cbn [tables]. rewrite lookup_insert_eq. cbn. unfold view, slice_view. cbn.
    by rewrite firstn_all, take_app_length.
Qed.

Definition long_name : string := String.string_of_list_byte (replicate 256 "a"%byte).
Definition long_table : Table := mkTable "t" [mkCol "id" TypeInt; mkCol long_name TypeInt] [].

(** A table whose column name has 256 bytes is accepted, and the catalog file
    saved for it cannot be loaded any more: the length is stored in one byte. *)
Theorem long_column_name_breaks_file :
  (CreateTable id long_table New).1 = Ok tt ∧
  is_err (Load "catalog" (file (CreateTable id long_table New).2)) = true.
Proof. split; vm_compute; reflexivity. Qed.
End catalog_pointers.

(** ** Concrete instances *)

Definition users : Table := mkTable "Users"
  [mkCol "id" TypeInt; mkCol "Age" TypeInt; mkCol "a" TypeInt; mkCol "b" TypeInt]
  [mkIndex "i1" "users" "age"; mkIndex "i2" "users" "a"; mkIndex "i3" "users" "b"].

Lemma users_fit : table_fits users.
Proof. split; cbn; repeat constructor; cbn; try lia; done. Qed.

Lemma catalog_refines_schema_witness :
  ∃ rs c, ddl_run_all (H := no_tables) (λ n, 2 * n + 1)%nat id "catalog"
    [DCreateTable "Users" (Columns users); DCreateIndex (mkIndex "i1" "USERS" "Age"); DReload; DDropIndex "I1"] New
    = (Ok rs, c).
Proof.
  destruct (catalog_refines_schema (H := no_tables) (H0 := no_tables_laws) (λ n, 2 * n + 1)%nat id ltac:(intros n; cbn beta; lia) ltac:(done) "catalog"
    [DCreateTable "Users" (Columns users); DCreateIndex (mkIndex "i1" "USERS" "Age"); DReload; DDropIndex "I1"])
    as (rs & c & S & E & _).
  - repeat constructor; cbn; try lia; done.
  - cbn. lia.
  - exists rs, c. exact E.
Defined.

Lemma GetIndex_after_drop_witness :
  ∃ c c', Load (H := no_tables) "catalog" (Some (serialize [users])) = Ok c ∧
    DropIndex (H := no_tables) id "i1" c = (Ok tt, c') ∧
    GetIndex (H := no_tables) "i2" c' = Some (mkIndex "i3" "users" "b").
Proof.
  destruct (GetIndex_after_drop (H := no_tables) id "catalog" users (mkIndex "i1" "users" "age")
    (mkIndex "i2" "users" "a") (mkIndex "i3" "users" "b") [] users_fit) as (c & c' & E1 & _ & E2 & E3 & _).
  - repeat constructor.
  - done.
  - apply (bool_decide_unpack _). vm_compute. done.
  - exists c, c'. exact (conj E1 (conj E2 E3)).
Defined.
