(* ===== verification/Rows.v ===== *)
(** * Rows: the value slot of a table row ([src/executor/executor.go])

    A row is stored in the 256-byte value slot of a B+ tree leaf: the 8-byte MVCC
    header (xmin, xmax), then the columns one after the other, 8 bytes for INT
    and 48 for TEXT. *)
From S2P Require Import Prelude Node Mvcc GoLib Catalog.
From stdpp Require Import options.

Definition userDataSize : nat := ValueSize - Mvcc.HeaderSize.

(** [encodeRow] from column [i] on, writing at [off]. *)
Fixpoint encode_cols (cols : list ColumnDef) (values : list Value) (i off : nat) (buf : list byte) : res (list byte) :=
  match cols with
  | [] => Ok buf
  | c :: cols =>
      if decide (CType c = TypeInt) then
        match values !! i with
        | Some v =>
            if decide (off + IntColSize ≤ length buf)%nat then
              encode_cols cols values (S i) (off + IntColSize) (put_u64 off (IntVal v) buf)
            else Panic
        | None => Panic
        end
      else if decide (CType c = TypeText) then
        match values !! i with
        | Some v =>
            if decide (off + TextColSize ≤ length buf)%nat then
              encode_cols cols values (S i) (off + TextColSize)
                (put off (take TextColSize (String.list_byte_of_string (TextVal v))) buf)
            else Panic
        | None => Panic
        end
      else encode_cols cols values (S i) off buf
  end.

Definition encodeRow (tbl : Table) (values : list Value) (xid : Z) : res (list byte) :=
  let buf := zeros ValueSize in
  let buf := put_u32 0 xid buf in
  let buf := put_u32 4 XIDNone buf in
  encode_cols (Columns tbl) values 0 Mvcc.HeaderSize buf.

Definition decodeRow (tbl : Table) (buf : list byte) : res (list Value) :=
  decode_cols (Columns tbl) Mvcc.HeaderSize buf.

Definition row_xmin (buf : list byte) : Z := get_u32 0 buf.
Definition row_xmax (buf : list byte) : Z := get_u32 4 buf.

Definition col_size (c : ColumnDef) : nat :=
  if decide (CType c = TypeInt) then IntColSize
  else if decide (CType c = TypeText) then TextColSize else 0.
Definition row_size (cols : list ColumnDef) : nat := sum_list (col_size <$> cols).

Definition validateSchema (tbl : Table) : res unit :=
  match PrimaryKeyIndex tbl with
  | None => Err (Errorf "table %q must have at least one INT column (used as primary key)" [GStr (TName tbl)])
  | Some _ =>
      let size := row_size (Columns tbl) in
      if decide (userDataSize < size)%nat then
        Err (Errorf "table %q: row size %d bytes exceeds available space %d (ValueSize=%d minus %d-byte MVCC header)"
               [GStr (TName tbl); GInt (Z.of_nat size); GInt (Z.of_nat userDataSize); GInt (Z.of_nat ValueSize); GInt (Z.of_nat Mvcc.HeaderSize)])
      else Ok tt
  end.

(** ** What a column keeps of a value *)

(** Text is cut at 48 bytes and loses its trailing zero bytes. *)
Definition stored_text (s : string) : string :=
  String.string_of_list_byte (trim_zeros (take TextColSize (String.list_byte_of_string s))).

Definition stored (v : Value) : Value :=
  if decide (VType v = TypeInt) then v else VText (stored_text (TextVal v)).

(** A value of a column: its type is the column's, an INT has 64 bits, and the
    field of the other type is unused. *)
Definition typed (c : ColumnDef) (v : Value) : Prop :=
  (CType c = TypeInt ∧ ∃ n, v = VInt n ∧ is_u64 n) ∨ (CType c = TypeText ∧ ∃ s, v = VText s).

Lemma trim_zeros_app l n : trim_zeros (l ++ zeros n) = trim_zeros l.
Proof.
  unfold trim_zeros. f_equal. rewrite reverse_app. unfold zeros. rewrite reverse_replicate.
  induction n as [|n IH]; [done|]. cbn [replicate app]. exact IH.
Qed.

(** Columns are written from [off] on: what lies before stays. *)
Lemma encode_cols_frame cols values i off buf buf' o n :
  encode_cols cols values i off buf = Ok buf' → (o + n ≤ off)%nat →
  length buf' = length buf ∧ slice o n buf' = slice o n buf.
Proof.
  revert i off buf. induction cols as [|c cols IH]; intros i off buf; cbn [encode_cols].
  { intros [= ->] _. done. }
  intros E Ho. destruct (decide (CType c = TypeInt)); [|destruct (decide (CType c = TypeText)); [|by eapply IH]].
  - destruct (values !! i) as [v|]; [|done]. case_decide as Hb; [|done]. unfold IntColSize in *.
    apply IH in E as [-> ->]; [|lia]. unfold put_u64.
    rewrite length_put, slice_put_before; [done|done|..]; rewrite length_le_enc; lia.
  - destruct (values !! i) as [v|]; [|done]. case_decide as Hb; [|done].
    apply IH in E as [-> ->]; [|lia].
    rewrite length_put, slice_put_before; [done|done|..]; rewrite length_take; lia.
Qed.

Lemma put_text off s buf :
  (off + TextColSize ≤ length buf)%nat → slice off TextColSize buf = zeros TextColSize →
  let bs := take TextColSize (String.list_byte_of_string s) in
  slice off TextColSize (put off bs buf) = bs ++ zeros (TextColSize - length bs).
Proof.
  intros Hl Hz bs. assert (length bs ≤ TextColSize)%nat as Hb by (unfold bs; rewrite length_take; lia).
  unfold slice, put in *. rewrite drop_app_length' by (rewrite length_take; lia).
  rewrite take_app_ge by done. f_equal. rewrite <-drop_drop. rewrite <-skipn_firstn_comm.
  unfold zeros. rewrite <-drop_replicate. change (replicate TextColSize x00) with (zeros TextColSize).
  by rewrite <-Hz.
Qed.

Lemma zeros_after off sz n bs buf :
  (length bs ≤ sz)%nat → (off + (sz + n) ≤ length buf)%nat → slice off (sz + n) buf = zeros (sz + n) →
  slice off sz buf = zeros sz ∧ slice (off + sz) n (put off bs buf) = zeros n.
Proof.
  intros Hb Hl Hz. split.
  - pose proof (slice_slice off (sz + n) 0 sz buf ltac:(lia)) as E. rewrite Nat.add_0_r in E.
    rewrite <-E, Hz. apply slice_zeros. lia.
  - rewrite slice_put_after by lia.
    rewrite <-(slice_slice off (sz + n) sz n buf) by lia. rewrite Hz. apply slice_zeros. lia.
Qed.

Lemma encode_cols_ok cols values i off buf :
  Forall2 typed cols (drop i values) → (off + row_size cols ≤ length buf)%nat →
  slice off (row_size cols) buf = zeros (row_size cols) →
  ∃ buf', encode_cols cols values i off buf = Ok buf' ∧
    decode_cols cols off buf' = Ok (stored <$> drop i values).
Proof.
  revert i off buf. induction cols as [|c cols IH]; intros i off buf Ht Hlen Hz.
  { apply Forall2_nil_inv_l in Ht. exists buf. by rewrite Ht. }
  inversion Ht as [|? v ? vs Hv Hts Hc Hd]. subst.
  assert (values !! i = Some v) as Hi by (rewrite <-(Nat.add_0_r i), <-lookup_drop, <-Hd; done).
  assert (vs = drop (S i) values) as ->.
  { replace (S i) with (i + 1)%nat by lia. by rewrite <-drop_drop, <-Hd. }
  cbn [encode_cols decode_cols fmap list_fmap]. rewrite Hi.
  change (row_size (c :: cols)) with (col_size c + row_size cols)%nat in Hlen, Hz.
  unfold col_size in Hlen, Hz. destruct Hv as [(Hc & n & -> & Hn)|(Hc & s & ->)]; rewrite Hc in *.
  - rewrite !decide_True by done. rewrite !decide_True in Hz, Hlen by done. rewrite decide_True by lia.
    destruct (zeros_after off IntColSize (row_size cols) (le_enc 8 n) buf) as [_ Hz2];
      [by rewrite length_le_enc|lia|done|].
    destruct (IH (S i) (off + IntColSize)%nat (put_u64 off n buf)) as (buf' & E & D); [done| |done|].
    { unfold put_u64. rewrite length_put; [lia|]. rewrite length_le_enc. unfold IntColSize in *. lia. }
    exists buf'. split; [exact E|]. destruct (encode_cols_frame _ _ _ _ _ _ off IntColSize E ltac:(lia)) as [Hl' Hs'].
    rewrite slice_chk_ok. 2: { rewrite Hl'. unfold put_u64. rewrite length_put; [lia|]. rewrite length_le_enc. unfold IntColSize in *. lia. }
    cbn [mbind res_bind]. rewrite D. cbn [mbind res_bind]. rewrite Hs'. unfold put_u64. rewrite slice_put_eq.
    2: apply length_le_enc. 2: unfold IntColSize in *; lia.
    rewrite le_dec_enc_small by exact Hn. done.
  - rewrite !(decide_False (P := TypeText = TypeInt)) by done. rewrite !(decide_False (P := TypeText = TypeInt)) in Hz, Hlen by done.
    rewrite !decide_True by done. rewrite !decide_True in Hz, Hlen by done. rewrite decide_True by lia.
    cbn [TextVal VText]. set (bs := take TextColSize (String.list_byte_of_string s)).
    assert (length bs ≤ TextColSize)%nat as Hb by (unfold bs; rewrite length_take; lia).
    destruct (zeros_after off TextColSize (row_size cols) bs buf Hb) as [Hz1 Hz2]; [lia|done|].
    assert (length (put off bs buf) = length buf) as Hlp by (apply length_put; lia).
    destruct (IH (S i) (off + TextColSize)%nat (put off bs buf)) as (buf' & E & D); [done|lia|done|].
    exists buf'. split; [exact E|]. destruct (encode_cols_frame _ _ _ _ _ _ off TextColSize E ltac:(lia)) as [Hl' Hs'].
    rewrite (decide_False (P := TypeText = TypeInt)) by done. rewrite decide_True by done.
    rewrite slice_chk_ok by (rewrite Hl'; fold bs; rewrite Hlp; lia). cbn [mbind res_bind]. rewrite D. cbn [mbind res_bind]. rewrite Hs'.
    unfold bs. rewrite put_text by (done || lia). rewrite trim_zeros_app. done.
Qed.

Lemma encode_header xid :
  let buf := put_u32 4 XIDNone (put_u32 0 xid (zeros ValueSize)) in
  length buf = ValueSize ∧ slice 8 userDataSize buf = zeros userDataSize ∧
  get_u32 0 buf = u32 xid ∧ get_u32 4 buf = XIDNone.
Proof.
  cbv zeta. pose proof ValueSize_val. unfold userDataSize, Mvcc.HeaderSize. split_and!.
  - arr_unfold. arr_len.
  - arr_read. apply slice_zeros. lia.
  - arr_read. rewrite le_dec_enc. done.
  - arr_read. done.
Qed.

(** Encoding and decoding a row of a validated table. *)
Lemma encodeRow_ok tbl values xid :
  validateSchema tbl = Ok tt → Forall2 typed (Columns tbl) values → is_u32 xid →
  ∃ buf, encodeRow tbl values xid = Ok buf ∧ length buf = ValueSize ∧
    row_xmin buf = xid ∧ row_xmax buf = XIDNone ∧ decodeRow tbl buf = Ok (stored <$> values).
Proof.
  intros Hs Ht Hx. assert (row_size (Columns tbl) ≤ userDataSize)%nat as Hsz.
  { unfold validateSchema in Hs. destruct (PrimaryKeyIndex tbl); [|done]. cbv zeta in Hs. case_decide; [done|lia]. }
  destruct (encode_header xid) as (Hl & Hz & Hmin & Hmax). unfold encodeRow, decodeRow. set (buf := put_u32 4 _ _) in *.
  pose proof ValueSize_val. assert (userDataSize = (ValueSize - 8)%nat) as HU by done.
  destruct (encode_cols_ok (Columns tbl) values 0 Mvcc.HeaderSize buf) as (buf' & E & D); [done|..].
  - unfold Mvcc.HeaderSize. rewrite Hl. lia.
  - pose proof (slice_slice 8 userDataSize 0 (row_size (Columns tbl)) buf ltac:(lia)) as E.
    rewrite Nat.add_0_r in E. unfold Mvcc.HeaderSize. rewrite <-E, Hz. apply slice_zeros. lia.
  - exists buf'. split; [exact E|].
    destruct (encode_cols_frame _ _ _ _ _ _ 0 4 E) as [Hl' H0]; [unfold Mvcc.HeaderSize; lia|].
    destruct (encode_cols_frame _ _ _ _ _ _ 4 4 E) as [_ H4]; [unfold Mvcc.HeaderSize; lia|].
    unfold row_xmin, row_xmax, get_u32 in *. rewrite H0, H4, Hmin, Hmax, Hl', Hl. split; [done|].
    split; [by apply Z.mod_small|]. split; [done|exact D].
Qed.

(** C29. A row of a validated table round-trips: the slot has [ValueSize] bytes, its header
    holds the writer's XID and no deleter, and decoding gives the values back,
    a TEXT cut at 48 bytes and without its trailing zero bytes. *)
Theorem row_roundtrip tbl values xid :
  validateSchema tbl = Ok tt → Forall2 typed (Columns tbl) values → is_u32 xid →
  ∃ buf, encodeRow tbl values xid = Ok buf ∧ length buf = ValueSize ∧
    row_xmin buf = xid ∧ row_xmax buf = XIDNone ∧ decodeRow tbl buf = Ok (stored <$> values).
Proof. apply encodeRow_ok. Qed.

(** A deletion overwrites the deleter's XID only. *)
Lemma decode_cols_ext cols off buf buf' : length buf' = length buf →
  (∀ o n, (off ≤ o)%nat → slice o n buf' = slice o n buf) → decode_cols cols off buf' = decode_cols cols off buf.
Proof.
  intros Hl. revert off. induction cols as [|c cols IH]; intros off Hs; [done|]. cbn [decode_cols]. unfold slice_chk.
  rewrite Hl, !Hs by lia. rewrite !IH by (intros; apply Hs; lia). done.
Qed.

Lemma put_xmax_ok tbl val xid : length val = ValueSize → is_u32 xid →
  length (put_u32 4 xid val) = ValueSize ∧ row_xmin (put_u32 4 xid val) = row_xmin val ∧
  row_xmax (put_u32 4 xid val) = xid ∧ decodeRow tbl (put_u32 4 xid val) = decodeRow tbl val.
Proof.
  intros Hl Hx. pose proof ValueSize_val. unfold row_xmin, row_xmax, get_u32, put_u32, decodeRow. pose proof (length_le_enc 4 xid) as He.
  split_and!.
  - rewrite length_put; lia.
  - f_equal. apply slice_put_before; lia.
  - rewrite slice_put_eq by lia. apply le_dec_enc_small. lia.
  - apply decode_cols_ext; [rewrite length_put; lia|]. intros o n Ho. unfold Mvcc.HeaderSize in Ho. apply slice_put_after; lia.
Qed.

(** ** Reading the slot without skipping the header *)

Lemma decode_cols_total cols off buf :
  (off + row_size cols ≤ length buf)%nat → ∃ row, decode_cols cols off buf = Ok row ∧ length row = length cols.
Proof.
  revert off. induction cols as [|c cols IH]; intros off Hl; [by exists []|].
  change (row_size (c :: cols)) with (col_size c + row_size cols)%nat in Hl. unfold col_size in Hl.
  cbn [decode_cols length]. destruct (decide (CType c = TypeInt)); [|destruct (decide (CType c = TypeText))].
  - destruct (IH (off + IntColSize)%nat ltac:(lia)) as (row & E & Hr). rewrite slice_chk_ok by lia. cbn.
    rewrite E. cbn. eexists. split; [done|]. cbn. by rewrite Hr.
  - destruct (IH (off + TextColSize)%nat ltac:(lia)) as (row & E & Hr). rewrite slice_chk_ok by lia. cbn.
    rewrite E. cbn. eexists. split; [done|]. cbn. by rewrite Hr.
  - destruct (IH off ltac:(lia)) as (row & E & Hr). rewrite E. cbn. eexists. split; [done|]. cbn. by rewrite Hr.
Qed.

Lemma le_dec_two d : (8 ≤ length d)%nat → le_dec (slice 0 8 d) = le_dec (slice 0 4 d) + 2 ^ 32 * le_dec (slice 4 4 d).
Proof.
  intros Hl. do 8 (destruct d as [|? d]; [cbn in Hl; lia|]). unfold slice. cbn [take drop le_dec]. lia.
Qed.

(** [Table.Decode], which ANALYZE applies to the slots of a table, reads the
    MVCC header as column data: on a live row of a table that starts with an
    INT column it answers the XID of the writer for that column. *)
Theorem Decode_reads_mvcc_header tbl values xid c cols :
  validateSchema tbl = Ok tt → Forall2 typed (Columns tbl) values → is_u32 xid →
  Columns tbl = c :: cols → CType c = TypeInt →
  ∃ buf row, encodeRow tbl values xid = Ok buf ∧ Decode tbl buf = Ok (VInt xid :: row).
Proof.
  intros Hs Ht Hx Hc Hi.
  assert (row_size (Columns tbl) ≤ userDataSize)%nat as Hsz.
  { unfold validateSchema in Hs. destruct (PrimaryKeyIndex tbl); [|done]. cbv zeta in Hs. case_decide; [done|lia]. }
  destruct (encode_header xid) as (Hl & Hz & Hmin & Hmax). unfold encodeRow, Decode. set (buf := put_u32 4 _ _) in *.
  pose proof ValueSize_val. assert (userDataSize = (ValueSize - 8)%nat) as HU by done.
  destruct (encode_cols_ok (Columns tbl) values 0 Mvcc.HeaderSize buf) as (buf' & E & _); [done|..].
  - unfold Mvcc.HeaderSize. rewrite Hl. lia.
  - pose proof (slice_slice 8 userDataSize 0 (row_size (Columns tbl)) buf ltac:(lia)) as E.
    rewrite Nat.add_0_r in E. unfold Mvcc.HeaderSize. rewrite <-E, Hz. apply slice_zeros. lia.
  - destruct (encode_cols_frame _ _ _ _ _ _ 0 8 E) as [Hl' H0]; [unfold Mvcc.HeaderSize; lia|].
    rewrite Hc in *. change (row_size (c :: cols)) with (col_size c + row_size cols)%nat in Hsz.
    unfold col_size in Hsz. rewrite decide_True in Hsz by done.
    destruct (decode_cols_total cols IntColSize buf') as (row & D & _); [lia|].
    exists buf', row. split; [exact E|]. cbn [decode_cols]. rewrite decide_True by done.
    unfold IntColSize in *. rewrite slice_chk_ok by lia. cbn [mbind res_bind Nat.add]. rewrite D. cbn [mbind res_bind].
    rewrite H0. do 3 f_equal. rewrite le_dec_two by (rewrite Hl; lia).
    fold (get_u32 0 buf) (get_u32 4 buf). rewrite Hmin, Hmax. unfold XIDNone, u32. rewrite Z.mod_small by done. lia.
Qed.

(** ** Concrete instances *)

Definition people : Table := mkTable "people" [mkCol "id" TypeInt; mkCol "name" TypeText; mkCol "age" TypeInt] [].

Lemma ada_typed : Forall2 typed (Columns people) [VInt 7; VText "Ada"; VInt 36].
Proof.
  constructor; [|constructor; [|constructor; [|constructor]]].
  - left. split; [done|]. by exists 7.
  - right. split; [done|]. by exists "Ada"%string.
  - left. split; [done|]. by exists 36.
Qed.

Lemma row_roundtrip_witness :
  ∃ buf, encodeRow people [VInt 7; VText "Ada"; VInt 36] 5 = Ok buf ∧ row_xmin buf = 5 ∧
    decodeRow people buf = Ok [VInt 7; VText "Ada"; VInt 36].
Proof.
  destruct (row_roundtrip people [VInt 7; VText "Ada"; VInt 36] 5) as (buf & E & _ & Hx & _ & D).
  - reflexivity.
  - exact ada_typed.
  - lia.
  - exists buf. split; [exact E|]. split; [exact Hx|exact D].
Defined.

Lemma Decode_reads_mvcc_header_witness :
  ∃ buf row, encodeRow people [VInt 7; VText "Ada"; VInt 36] 5 = Ok buf ∧ Decode people buf = Ok (VInt 5 :: row).
Proof.
  apply (Decode_reads_mvcc_header people [VInt 7; VText "Ada"; VInt 36] 5 (mkCol "id" TypeInt)
    [mkCol "name" TypeText; mkCol "age" TypeInt]).
  - reflexivity.
  - exact ada_typed.
  - lia.
  - reflexivity.
  - reflexivity.
Defined.
