(* ===== verification/Ast.v ===== *)
(** * Ast: tokens and syntax trees ([src/query/token.go], [src/query/ast.go]) *)
From S2P Require Import Prelude GoLib Catalog.
From stdpp Require Import options.

(** ** Tokens *)

Inductive TokenKind : Type :=
  | TokSelect | TokFrom | TokWhere | TokAnd | TokCreate | TokTable | TokInsert | TokInto
  | TokValues | TokInt | TokText | TokBegin | TokCommit | TokRollback | TokExplain | TokLimit
  | TokOr | TokIndex | TokOn | TokDrop | TokAnalyze | TokJoin | TokInner | TokAs | TokDelete
  | TokUpdate | TokSet | TokOrder | TokBy | TokAsc | TokDesc | TokGroup | TokHaving | TokCount
  | TokSum | TokAvg | TokMin | TokMax | TokIn | TokNot | TokExists | TokIdent | TokIntLit
  | TokStrLit | TokEq | TokGt | TokLt | TokGte | TokLte | TokStar | TokComma | TokLParen
  | TokRParen | TokSemi | TokDot | TokEOF.

(** The declaration order of the constants ([iota]). *)
Definition all_kinds : list TokenKind :=
  [TokSelect; TokFrom; TokWhere; TokAnd; TokCreate; TokTable; TokInsert; TokInto; TokValues;
   TokInt; TokText; TokBegin; TokCommit; TokRollback; TokExplain; TokLimit; TokOr; TokIndex; TokOn;
   TokDrop; TokAnalyze; TokJoin; TokInner; TokAs; TokDelete; TokUpdate; TokSet; TokOrder; TokBy;
   TokAsc; TokDesc; TokGroup; TokHaving; TokCount; TokSum; TokAvg; TokMin; TokMax; TokIn; TokNot;
   TokExists; TokIdent; TokIntLit; TokStrLit; TokEq; TokGt; TokLt; TokGte; TokLte; TokStar;
   TokComma; TokLParen; TokRParen; TokSemi; TokDot; TokEOF].

Definition kind_num (k : TokenKind) : nat :=
  match k with
  | TokSelect => 0 | TokFrom => 1 | TokWhere => 2 | TokAnd => 3 | TokCreate => 4 | TokTable => 5
  | TokInsert => 6 | TokInto => 7 | TokValues => 8 | TokInt => 9 | TokText => 10 | TokBegin => 11
  | TokCommit => 12 | TokRollback => 13 | TokExplain => 14 | TokLimit => 15 | TokOr => 16
  | TokIndex => 17 | TokOn => 18 | TokDrop => 19 | TokAnalyze => 20 | TokJoin => 21
  | TokInner => 22 | TokAs => 23 | TokDelete => 24 | TokUpdate => 25 | TokSet => 26
  | TokOrder => 27 | TokBy => 28 | TokAsc => 29 | TokDesc => 30 | TokGroup => 31 | TokHaving => 32
  | TokCount => 33 | TokSum => 34 | TokAvg => 35 | TokMin => 36 | TokMax => 37 | TokIn => 38
  | TokNot => 39 | TokExists => 40 | TokIdent => 41 | TokIntLit => 42 | TokStrLit => 43
  | TokEq => 44 | TokGt => 45 | TokLt => 46 | TokGte => 47 | TokLte => 48 | TokStar => 49
  | TokComma => 50 | TokLParen => 51 | TokRParen => 52 | TokSemi => 53 | TokDot => 54
  | TokEOF => 55
  end%nat.

Lemma all_kinds_lookup k : all_kinds !! kind_num k = Some k.
Proof. by destruct k. Qed.

#[export] Instance kind_num_inj : Inj (=) (=) kind_num.
Proof. intros a b E. pose proof (all_kinds_lookup a) as H. rewrite E, all_kinds_lookup in H. by injection H. Qed.

#[export] Instance TokenKind_eq_dec : EqDecision TokenKind := λ a b,
  match decide (kind_num a = kind_num b) with
  | left E => left (inj kind_num a b E)
  | right N => right (λ E, N (f_equal kind_num E))
  end.

Record Token : Type := mkToken { Kind : TokenKind; Text : string; TokVal : Z }.

(** ** Syntax trees *)

Inductive AggFunc : Type := AggCount | AggSum | AggAvg | AggMin | AggMax.
Definition AggFunc_String (f : AggFunc) : string :=
  match f with AggCount => "COUNT" | AggSum => "SUM" | AggAvg => "AVG" | AggMin => "MIN" | AggMax => "MAX" end.

Record AggCall : Type := mkAgg { AFunc : AggFunc; ACol : string }.
Record SelectExpr : Type := mkExpr { ECol : string; EAgg : option AggCall; EAlias : string }.

Definition OutputName (e : SelectExpr) : string :=
  if decide (EAlias e ≠ EmptyString) then EAlias e
  else match EAgg e with
  | Some a =>
      if decide (ACol a = "*"%string) then "COUNT(*)"
      else (AggFunc_String (AFunc a) +:+ "(" +:+ ACol a +:+ ")")%string
  | None =>
      match LastIndexByte "."%char (ECol e) with
      | Some dot => str_drop (dot + 1) (ECol e)
      | None => ECol e
      end
  end.

Record OrderByExpr : Type := mkOrder { OCol : string; ODesc : bool }.

Inductive CompareOp : Type := OpEq | OpGt | OpLt | OpGte | OpLte.
Definition CompareOp_String (op : CompareOp) : string :=
  match op with OpEq => "=" | OpGt => ">" | OpLt => "<" | OpGte => ">=" | OpLte => "<=" end.

Record TableRef : Type := mkRef { RName : string; RAlias : string }.
Definition Qualifier (t : TableRef) : string := if decide (RAlias t ≠ EmptyString) then RAlias t else RName t.

(** Conditions, WHERE clauses and SELECT statements refer to each other through
    subqueries.  A nil slice or pointer is [None]; [InList] is a slice whose
    nil-ness the code tests. *)
Inductive Condition : Type := mkCond {
  Column : string; Op : CompareOp; Val : Value; RHSCol : string;
  InList : option (list Value); InQuery : option SelectStmt; ExistsQuery : option SelectStmt;
  ScalarQuery : option SelectStmt; Negated : bool; AlwaysFalse : bool }
with WhereClause : Type := mkWhere { Groups : list (list Condition) }
with JoinClause : Type := mkJoin { JTable : TableRef; JOn : Condition }
with SelectStmt : Type := mkSelect {
  SColumns : list SelectExpr; From : list TableRef; Joins : list JoinClause; Where : option WhereClause;
  GroupBy : list string; Having : option WhereClause; OrderBy : list OrderByExpr; Limit : Z }.

(** [Condition{Column: col, Op: op, ...}]: the fields not named are zero. *)
Definition cond_val (col : string) (op : CompareOp) (v : Value) : Condition :=
  mkCond col op v EmptyString None None None None false false.
Definition cond_col (col : string) (op : CompareOp) (rhs : string) : Condition :=
  mkCond col op zeroValue rhs None None None None false false.
Definition cond_in_list (col : string) (vs : list Value) (neg : bool) : Condition :=
  mkCond col OpEq zeroValue EmptyString (Some vs) None None None neg false.
Definition cond_in_query (col : string) (q : SelectStmt) (neg : bool) : Condition :=
  mkCond col OpEq zeroValue EmptyString None (Some q) None None neg false.
Definition cond_exists (q : SelectStmt) (neg : bool) : Condition :=
  mkCond EmptyString OpEq zeroValue EmptyString None None (Some q) None neg false.
Definition cond_scalar (col : string) (op : CompareOp) (q : SelectStmt) : Condition :=
  mkCond col op zeroValue EmptyString None None None (Some q) false false.
Definition cond_false : Condition :=
  mkCond EmptyString OpEq zeroValue EmptyString None None None None false true.

Definition IsJoinCond (c : Condition) : bool := bool_decide (RHSCol c ≠ EmptyString).

Record Assignment : Type := mkAssign { AColumn : string; AValue : Value }.

Inductive Statement : Type :=
  | CreateTableStmt (TableName : string) (Columns : list ColumnDef)
  | CreateIndexStmt (IndexName TableName Column : string)
  | DropIndexStmt (IndexName : string)
  | InsertStmt (TableName : string) (Values : list Value)
  | SelectStatement (s : SelectStmt)
  | ExplainStmt (Inner : SelectStmt)
  | AnalyzeStmt (TableName : string)
  | DeleteStmt (TableName : string) (Where : option WhereClause)
  | UpdateStmt (TableName : string) (Assignments : list Assignment) (Where : option WhereClause)
  | BeginStmt | CommitStmt | RollbackStmt.
