(* ===== verification/Lexer.v ===== *)
(** * Lexer: SQL text to tokens ([src/query/lexer.go])

    The input is scanned byte by byte; [unicode.IsSpace], [IsDigit] and
    [IsLetter] are applied to single bytes, that is, to the runes 0 to 255. *)
From S2P Require Import Prelude GoLib Catalog Ast.
From stdpp Require Import options.

Definition keywords : list (string * TokenKind) :=
  [("select", TokSelect); ("from", TokFrom); ("where", TokWhere); ("and", TokAnd);
   ("create", TokCreate); ("table", TokTable); ("insert", TokInsert); ("into", TokInto);
   ("values", TokValues); ("int", TokInt); ("text", TokText); ("begin", TokBegin);
   ("commit", TokCommit); ("rollback", TokRollback); ("explain", TokExplain); ("limit", TokLimit);
   ("or", TokOr); ("index", TokIndex); ("on", TokOn); ("drop", TokDrop); ("analyze", TokAnalyze);
   ("join", TokJoin); ("inner", TokInner); ("as", TokAs); ("delete", TokDelete);
   ("update", TokUpdate); ("set", TokSet); ("order", TokOrder); ("by", TokBy); ("asc", TokAsc);
   ("desc", TokDesc); ("group", TokGroup); ("having", TokHaving); ("count", TokCount);
   ("sum", TokSum); ("avg", TokAvg); ("min", TokMin); ("max", TokMax); ("in", TokIn);
   ("not", TokNot); ("exists", TokExists)].

Definition keyword (s : string) : option TokenKind := snd <$> head (filter (λ p, p.1 = s) keywords).

Definition IsSpace (c : ascii) : bool :=
  bool_decide (9 ≤ code c ≤ 13 ∨ code c = 32 ∨ code c = 0x85 ∨ code c = 0xA0).
Definition IsDigit (c : ascii) : bool := bool_decide (48 ≤ code c ≤ 57).
Definition IsLetter (c : ascii) : bool :=
  bool_decide (65 ≤ code c ≤ 90 ∨ 97 ≤ code c ≤ 122 ∨ code c = 0xAA ∨ code c = 0xB5 ∨ code c = 0xBA ∨
    0xC0 ≤ code c ≤ 0xD6 ∨ 0xD8 ≤ code c ≤ 0xF6 ∨ 0xF8 ≤ code c ≤ 0xFF).

Definition ident_char (c : ascii) : bool := IsLetter c || IsDigit c || bool_decide (c = "_"%char).

(** [start := i; for i < len(input) && p(input[i]) { i++ }]: the bytes passed
    over and the rest. *)
Fixpoint span (p : ascii → bool) (s : string) : string * string :=
  match s with
  | EmptyString => (EmptyString, EmptyString)
  | String c s' => if p c then let '(a, b) := span p s' in (String c a, b) else (EmptyString, s)
  end.

(** [strconv.ParseUint(text, 10, 64)] on a string of decimal digits *)
Fixpoint digits_val (acc : Z) (s : string) : Z :=
  match s with
  | EmptyString => acc
  | String c s => digits_val (acc * 10 + (code c - 48)) s
  end.
Definition ParseUint (text : string) : res Z :=
  let n := digits_val 0 text in
  if decide (n ≤ MaxUint64) then Ok n
  else Err (Errorf "strconv.ParseUint: parsing %q: value out of range" [GStr text]).

Section lexer.
Context `{Unicode}.

(** One pass of the loop on a non-empty input [String ch s] at position [i]: the
    tokens appended (none or one) and what is left of the input. *)
Definition lex_step (i : Z) (ch : ascii) (s : string) : res (list Token * string) :=
  let tok k t := [mkToken k t 0] in
  if IsSpace ch then Ok ([], s)
  else if decide (ch = "-"%char ∧ str_take 1 s = "-"%string) then
    Ok ([], (span (λ c, bool_decide (c ≠ "010"%char)) (String ch s)).2)
  else if decide (ch = "#"%char) then
    Ok ([], (span (λ c, bool_decide (c ≠ "010"%char)) (String ch s)).2)
  else if decide (ch = ">"%char ∧ str_take 1 s = "="%string) then Ok (tok TokGte ">="%string, str_drop 1 s)
  else if decide (ch = "<"%char ∧ str_take 1 s = "="%string) then Ok (tok TokLte "<="%string, str_drop 1 s)
  else if decide (ch = "="%char) then Ok (tok TokEq "="%string, s)
  else if decide (ch = ">"%char) then Ok (tok TokGt ">"%string, s)
  else if decide (ch = "<"%char) then Ok (tok TokLt "<"%string, s)
  else if decide (ch = "*"%char) then Ok (tok TokStar "*"%string, s)
  else if decide (ch = ","%char) then Ok (tok TokComma ","%string, s)
  else if decide (ch = "("%char) then Ok (tok TokLParen "("%string, s)
  else if decide (ch = ")"%char) then Ok (tok TokRParen ")"%string, s)
  else if decide (ch = ";"%char) then Ok (tok TokSemi ";"%string, s)
  else if decide (ch = "."%char) then Ok (tok TokDot "."%string, s)
  else if decide (ch = "'"%char) then
    let '(text, rest) := span (λ c, bool_decide (c ≠ "'"%char)) s in
    match rest with
    | EmptyString => Err (Errorf "unterminated string literal starting at position %d" [GInt i])
    | String _ rest => Ok (tok TokStrLit text, rest)
    end
  else if IsDigit ch then
    let '(text, rest) := span IsDigit (String ch s) in
    n ← wrap_err "integer literal %q out of range: %w" [GStr text] (ParseUint text);
    Ok ([mkToken TokIntLit text n], rest)
  else if IsLetter ch || bool_decide (ch = "_"%char) then
    let '(text, rest) := span ident_char (String ch s) in
    let lower := ToLower text in
    match keyword lower with
    | Some kind => Ok (tok kind lower, rest)
    | None => Ok (tok TokIdent text, rest)
    end
  else Err (Errorf "unexpected character %q at position %d" [GStr (String ch EmptyString); GInt i]).

(** The loop: [n] is the length of the whole input. *)
Fixpoint lex_loop (fuel : nat) (n : Z) (s : string) : res (list Token) :=
  match s with
  | EmptyString => Ok [mkToken TokEOF EmptyString 0]
  | String ch s' =>
      match fuel with
      | O => OutOfFuel
      | S fuel =>
          '(ts, rest) ← lex_step (n - Z.of_nat (String.length s)) ch s';
          ts' ← lex_loop fuel n rest;
          Ok (ts ++ ts')
      end
  end.

(** Every pass consumes at least one byte, so the length is enough fuel. *)
Definition Tokenize (input : string) : res (list Token) :=
  lex_loop (String.length input) (Z.of_nat (String.length input)) input.
End lexer.
