(* ===== verification/Parser.v ===== *)
(** * Parser: tokens to statements ([src/query/parser.go])

    A recursive descent parser over a token list and a position.  Loops are
    bounded by the number of tokens, and [parseSelect], which calls itself
    through subqueries, takes fuel; [Parse] passes enough of it. *)
From S2P Require Import Prelude GoLib Catalog Ast Lexer.
From stdpp Require Import options.

Record parser : Type := mkParser { tokens : list Token; pos : nat }.
Abbreviation P A := (M parser A).

Definition tokEOF : Token := mkToken TokEOF EmptyString 0.

Definition peek_at (i : nat) (p : parser) : Token := default tokEOF (tokens p !! i).
Definition peek : P Token := λ p, (Ok (peek_at (pos p) p), p).
Definition peekKind : P TokenKind := λ p, (Ok (Kind (peek_at (pos p) p)), p).

Definition consume : P Token := λ p,
  (Ok (peek_at (pos p) p),
   if decide (pos p < length (tokens p))%nat then mkParser (tokens p) (S (pos p)) else p).

Definition expect (kind : TokenKind) : P Token :=
  t ← consume;
  if decide (Kind t ≠ kind) then
    fail (Errorf "expected token kind %d, got %q" [GInt (Z.of_nat (kind_num kind)); GStr (Text t)])
  else mret t.

(** [p.pos+1 < len(p.tokens) && p.tokens[p.pos+1].Kind == kind] *)
Definition nextIs (kind : TokenKind) : P bool := λ p,
  (Ok (bool_decide (Kind <$> tokens p !! S (pos p) = Some kind)), p).

(** An error that replaces the one returned by the call. *)
Definition replace_err {A} (fmt : string) (args : list garg) (m : P A) : P A := λ p,
  let '(r, p') := m p in (match r with Err _ => Err (Errorf fmt args) | r => r end, p').

(** [for p.peek().Kind == sep { p.consume(); x := item() }] *)
Fixpoint sep_loop {A} (fuel : nat) (sep : TokenKind) (item : P A) : P (list A) :=
  k ← peekKind;
  if decide (k = sep) then
    match fuel with
    | O => lift OutOfFuel
    | S fuel => _ ← consume; x ← item; xs ← sep_loop fuel sep item; mret (x :: xs)
    end
  else mret [].
Definition sep_list {A} (sep : TokenKind) (item : P A) : P (list A) := λ p,
  sep_loop (length (tokens p)) sep item p.

(** [for p.peek().Kind != TokRParen && p.peek().Kind != TokEOF { x := item();
    if p.peek().Kind == TokComma { p.consume() } }] *)
Fixpoint paren_loop {A} (fuel : nat) (item : P A) : P (list A) :=
  k ← peekKind;
  if decide (k ≠ TokRParen ∧ k ≠ TokEOF) then
    match fuel with
    | O => lift OutOfFuel
    | S fuel =>
        x ← item;
        k ← peekKind;
        _ ← (if decide (k = TokComma) then _ ← consume; mret tt else mret tt);
        xs ← paren_loop fuel item;
        mret (x :: xs)
    end
  else mret [].
Definition paren_list {A} (item : P A) : P (list A) := λ p, paren_loop (length (tokens p)) item p.

(** ** Names and values *)

Definition parseIdent : P Token :=
  t ← peek;
  if decide (kind_num (Kind t) ≤ kind_num TokExists)%nat then consume
  else if decide (Kind t = TokIdent) then consume
  else fail (Errorf "expected identifier, got %q" [GStr (Text t)]).

Definition parseColRef : P string :=
  name ← replace_err "expected column name" [] parseIdent;
  k ← peekKind;
  if decide (k ≠ TokDot) then mret (Text name)
  else
    _ ← consume;
    k ← peekKind;
    if decide (k = TokStar) then _ ← consume; mret (Text name +:+ ".*")%string
    else
      col ← replace_err "expected column name after '.'" [] parseIdent;
      mret (Text name +:+ "." +:+ Text col)%string.

Definition parseValue : P Value :=
  t ← peek;
  if decide (Kind t = TokIntLit) then t ← consume; mret (VInt (TokVal t))
  else if decide (Kind t = TokStrLit) then t ← consume; mret (VText (Text t))
  else fail (Errorf "expected integer or string literal, got %q" [GStr (Text t)]).

Definition compare_op (k : TokenKind) : option CompareOp :=
  match k with
  | TokEq => Some OpEq | TokGt => Some OpGt | TokLt => Some OpLt | TokGte => Some OpGte | TokLte => Some OpLte
  | _ => None
  end.

Definition agg_func (k : TokenKind) : option AggFunc :=
  match k with
  | TokCount => Some AggCount | TokSum => Some AggSum | TokAvg => Some AggAvg
  | TokMin => Some AggMin | TokMax => Some AggMax | _ => None
  end.

(** ** SELECT expressions *)

(** [f] keeps its zero value, [AggCount], for any other token. *)
Definition parseAggCall (fn : Token) : P AggCall :=
  let f := default AggCount (agg_func (Kind fn)) in
  _ ← replace_err "%s: expected '('" [GStr (Text fn)] (expect TokLParen);
  k ← peekKind;
  col ← (if decide (k = TokStar) then _ ← consume; mret "*"%string
         else c ← replace_err "%s: expected column name or *" [GStr (Text fn)] (expect TokIdent); mret (Text c));
  _ ← replace_err "%s: expected ')'" [GStr (Text fn)] (expect TokRParen);
  mret (mkAgg f col).

Definition parseSelectExpr : P SelectExpr :=
  t ← peek;
  e ← (match agg_func (Kind t) with
       | Some _ => fn ← consume; agg ← parseAggCall fn; mret (mkExpr EmptyString (Some agg) EmptyString)
       | None =>
           if decide (Kind t = TokIntLit) then t ← consume; mret (mkExpr (Text t) None EmptyString)
           else if decide (Kind t = TokStrLit) then
             t ← consume; mret (mkExpr ("'" +:+ Text t +:+ "'")%string None EmptyString)
           else
             col ← replace_err "expected column or aggregate function" [] parseColRef;
             mret (mkExpr col None EmptyString)
       end);
  k ← peekKind;
  if decide (k = TokAs) then
    _ ← consume;
    alias ← replace_err "AS: expected alias name" [] parseIdent;
    mret (mkExpr (ECol e) (EAgg e) (Text alias))
  else mret e.

Definition parseOrderByExpr : P OrderByExpr :=
  col ← replace_err "ORDER BY: expected column name" [] parseIdent;
  k ← peekKind;
  if decide (k = TokDesc) then _ ← consume; mret (mkOrder (Text col) true)
  else if decide (k = TokAsc) then _ ← consume; mret (mkOrder (Text col) false)
  else mret (mkOrder (Text col) false).

(** ** FROM *)

Definition parseTableRef : P TableRef :=
  name ← replace_err "expected table name" [] (expect TokIdent);
  k ← peekKind;
  if decide (k = TokAs) then
    _ ← consume;
    alias ← replace_err "AS: expected alias name" [] (expect TokIdent);
    mret (mkRef (Text name) (Text alias))
  else if decide (k = TokIdent) then
    alias ← consume; mret (mkRef (Text name) (Text alias))
  else mret (mkRef (Text name) EmptyString).

Definition parseJoinCond : P Condition :=
  lhs ← replace_err "join condition: expected left column" [] parseColRef;
  opTok ← consume;
  match compare_op (Kind opTok) with
  | None => fail (Errorf "join condition: expected comparison operator, got %q" [GStr (Text opTok)])
  | Some op =>
      rhs ← replace_err "join condition: expected right column" [] parseColRef;
      mret (cond_col lhs op rhs)
  end.

(** [for p.peek().Kind == TokJoin || p.peek().Kind == TokInner] *)
Fixpoint join_loop (fuel : nat) : P (list JoinClause) :=
  k ← peekKind;
  if decide (k = TokJoin ∨ k = TokInner) then
    match fuel with
    | O => lift OutOfFuel
    | S fuel =>
        _ ← (if decide (k = TokInner) then _ ← consume; mret tt else mret tt);
        _ ← replace_err "expected JOIN" [] (expect TokJoin);
        ref ← wrap "JOIN: %w" [] parseTableRef;
        k ← peekKind;
        if decide (k ≠ TokOn) then fail (Errorf "JOIN %s: expected ON" [GStr (RName ref)])
        else
          _ ← consume;
          cond ← wrap "JOIN %s ON: %w" [GStr (RName ref)] parseJoinCond;
          js ← join_loop fuel;
          mret (mkJoin ref cond :: js)
    end
  else mret [].

Definition join_list : P (list JoinClause) := λ p, join_loop (length (tokens p)) p.

Definition parseFromClause : P (list TableRef * list JoinClause) :=
  first ← wrap "FROM: %w" [] parseTableRef;
  rest ← sep_list TokComma (wrap "FROM: %w" [] parseTableRef);
  joins ← join_list;
  mret (first :: rest, joins).

(** ** Conditions; [sel] parses the SELECT of a subquery *)

Section conditions.
Context (sel : P SelectStmt).

Definition parseConditionLHS : P string :=
  k ← peekKind;
  paren ← nextIs TokLParen;
  match agg_func k with
  | Some _ =>
      if paren : bool then
        fn ← consume; agg ← parseAggCall fn; mret (OutputName (mkExpr EmptyString (Some agg) EmptyString))
      else parseColRef
  | None => parseColRef
  end.

Definition parseExistsCond (negated : bool) : P Condition :=
  _ ← consume;
  _ ← replace_err "EXISTS: expected '('" [] (expect TokLParen);
  sq ← wrap "EXISTS subquery: %w" [] sel;
  _ ← replace_err "EXISTS: expected ')'" [] (expect TokRParen);
  mret (cond_exists sq negated).

Definition parseInCond (col : string) (negated : bool) : P Condition :=
  _ ← replace_err "IN: expected '('" [] (expect TokLParen);
  k ← peekKind;
  if decide (k = TokSelect) then
    sq ← wrap "IN subquery: %w" [] sel;
    _ ← replace_err "IN subquery: expected ')'" [] (expect TokRParen);
    mret (cond_in_query col sq negated)
  else
    first ← replace_err "IN list: expected value" [] parseValue;
    rest ← sep_list TokComma (replace_err "IN list: expected value after ','" [] parseValue);
    _ ← replace_err "IN list: expected ')'" [] (expect TokRParen);
    mret (cond_in_list col (first :: rest) negated).

(** What follows the comparison operator. *)
Definition parseRHS (lhs : string) (op : CompareOp) : P Condition :=
  k ← peekKind;
  sub ← nextIs TokSelect;
  if decide (k = TokLParen ∧ sub = true) then
    _ ← consume;
    sq ← wrap "scalar subquery: %w" [] sel;
    _ ← replace_err "scalar subquery: expected ')'" [] (expect TokRParen);
    mret (cond_scalar lhs op sq)
  else if decide (k = TokIdent) then
    rhs ← wrap "condition: %w" [] parseColRef;
    mret (cond_col lhs op rhs)
  else
    v ← wrap "condition: %w" [] parseValue;
    mret (cond_val lhs op v).

Definition parseCondition : P Condition :=
  k ← peekKind;
  notExists ← nextIs TokExists;
  if decide (k = TokExists) then parseExistsCond false
  else if decide (k = TokNot ∧ notExists = true) then _ ← consume; parseExistsCond true
  else
    lhs ← replace_err "condition: expected column name" [] parseConditionLHS;
    k ← peekKind;
    notIn ← nextIs TokIn;
    if decide (k = TokIn) then _ ← consume; parseInCond lhs false
    else if decide (k = TokNot ∧ notIn = true) then _ ← consume; _ ← consume; parseInCond lhs true
    else
      opTok ← consume;
      match compare_op (Kind opTok) with
      | None => fail (Errorf "condition: expected =, >, <, >=, or <=, got %q" [GStr (Text opTok)])
      | Some op => parseRHS lhs op
      end.

Definition parseAndGroup : P (list Condition) :=
  cond ← parseCondition;
  rest ← sep_list TokAnd (wrap "AND: %w" [] parseCondition);
  mret (cond :: rest).

Definition parseWhere : P WhereClause :=
  group ← wrap "WHERE: %w" [] parseAndGroup;
  rest ← sep_list TokOr (wrap "WHERE OR: %w" [] parseAndGroup);
  mret (mkWhere (group :: rest)).

(** [if p.peek().Kind == kind { p.consume(); x = m() }] *)
Definition optional {A} (kind : TokenKind) (m : P A) : P (option A) :=
  k ← peekKind;
  if decide (k = kind) then _ ← consume; x ← m; mret (Some x) else mret None.

Definition parseColumns : P (list SelectExpr) :=
  k ← peekKind;
  if decide (k = TokStar) then _ ← consume; mret [mkExpr "*" None EmptyString]
  else
    e ← wrap "SELECT: %w" [] parseSelectExpr;
    es ← sep_list TokComma (wrap "SELECT: %w" [] parseSelectExpr);
    mret (e :: es).

Definition parseGroupBy : P (list string) :=
  _ ← replace_err "GROUP: expected BY" [] (expect TokBy);
  col ← replace_err "GROUP BY: expected column name" [] parseIdent;
  cols ← sep_list TokComma (replace_err "GROUP BY: expected column name after ','" [] parseIdent);
  mret (Text <$> col :: cols).

Definition parseOrderBy : P (list OrderByExpr) :=
  _ ← replace_err "ORDER: expected BY" [] (expect TokBy);
  ob ← parseOrderByExpr;
  obs ← sep_list TokComma parseOrderByExpr;
  mret (ob :: obs).

(** [int(n)] of a 64-bit unsigned integer *)
Definition to_int (n : Z) : Z := if decide (n < 2 ^ 63) then n else n - 2 ^ 64.

Definition parseLimit : P Z :=
  n ← replace_err "LIMIT: expected integer" [] (expect TokIntLit);
  if decide (TokVal n = 0) then fail (Errorf "LIMIT: value must be positive, got 0" [])
  else mret (to_int (TokVal n)).

Definition parseSelectBody : P SelectStmt :=
  _ ← consume;
  exprs ← parseColumns;
  _ ← replace_err "SELECT: expected FROM" [] (expect TokFrom);
  '(from, joins) ← parseFromClause;
  where_ ← optional TokWhere parseWhere;
  groupBy ← optional TokGroup parseGroupBy;
  having ← optional TokHaving (wrap "HAVING: %w" [] parseWhere);
  orderBy ← optional TokOrder parseOrderBy;
  limit ← optional TokLimit parseLimit;
  mret (mkSelect exprs from joins where_ (default [] groupBy) having (default [] orderBy) (default 0 limit)).
End conditions.

Fixpoint parseSelect (fuel : nat) : P SelectStmt :=
  match fuel with
  | O => lift OutOfFuel
  | S fuel => parseSelectBody (parseSelect fuel)
  end.

(** Nesting is bounded by the number of tokens. *)
Definition select : P SelectStmt := λ p, parseSelect (S (length (tokens p))) p.

(** ** Statements *)

Definition parseAnalyze : P Statement :=
  _ ← consume;
  name ← replace_err "ANALYZE: expected table name" [] (expect TokIdent);
  mret (AnalyzeStmt (Text name)).

Definition parseColumnDef : P ColumnDef :=
  colName ← replace_err "CREATE TABLE: expected column name" [] (expect TokIdent);
  t ← peek;
  if decide (Kind t = TokInt) then _ ← consume; mret (mkCol (Text colName) TypeInt)
  else if decide (Kind t = TokText) then _ ← consume; mret (mkCol (Text colName) TypeText)
  else fail (Errorf "CREATE TABLE: expected INT or TEXT after %q, got %q" [GStr (Text colName); GStr (Text t)]).

(** [p.tokens[p.pos-1].Text] is evaluated when the keyword is missing. *)
Definition expect_table : P unit := λ p,
  match expect TokTable p with
  | (Ok _, p') => (Ok tt, p')
  | (Err _, p') =>
      match pos p' with
      | O => (Panic, p')
      | S i => (match tokens p' !! i with
                | Some t => Err (Errorf "CREATE: expected TABLE, got %q" [GStr (Text t)])
                | None => Panic
                end, p')
      end
  | (Panic, p') => (Panic, p')
  | (OutOfFuel, p') => (OutOfFuel, p')
  end.

Definition parseCreateTable : P Statement :=
  _ ← expect_table;
  name ← replace_err "CREATE TABLE: expected table name" [] (expect TokIdent);
  _ ← replace_err "CREATE TABLE %s: expected '('" [GStr (Text name)] (expect TokLParen);
  cols ← paren_list parseColumnDef;
  _ ← replace_err "CREATE TABLE: missing ')'" [] (expect TokRParen);
  if decide (cols = []) then fail (Errorf "CREATE TABLE: at least one column required" [])
  else mret (CreateTableStmt (Text name) cols).

Definition parseCreateIndex : P Statement :=
  _ ← consume;
  name ← replace_err "CREATE INDEX: expected index name" [] (expect TokIdent);
  t ← peek;
  if decide (Kind t ≠ TokOn) then
    fail (Errorf "CREATE INDEX %s: expected ON, got %q" [GStr (Text name); GStr (Text t)])
  else
    _ ← consume;
    table ← replace_err "CREATE INDEX %s ON: expected table name" [GStr (Text name)] (expect TokIdent);
    _ ← replace_err "CREATE INDEX %s ON %s: expected '('" [GStr (Text name); GStr (Text table)] (expect TokLParen);
    col ← replace_err "CREATE INDEX %s ON %s: expected column name" [GStr (Text name); GStr (Text table)] (expect TokIdent);
    _ ← replace_err "CREATE INDEX %s ON %s (%s: expected ')'" [GStr (Text name); GStr (Text table); GStr (Text col)]
          (expect TokRParen);
    mret (CreateIndexStmt (Text name) (Text table) (Text col)).

Definition parseCreate : P Statement :=
  _ ← consume;
  t ← peek;
  if decide (Kind t = TokTable) then parseCreateTable
  else if decide (Kind t = TokIndex) then parseCreateIndex
  else fail (Errorf "CREATE: expected TABLE or INDEX, got %q" [GStr (Text t)]).

Definition parseDrop : P Statement :=
  _ ← consume;
  t ← peek;
  if decide (Kind t ≠ TokIndex) then fail (Errorf "DROP: expected INDEX, got %q" [GStr (Text t)])
  else
    _ ← consume;
    name ← replace_err "DROP INDEX: expected index name" [] (expect TokIdent);
    mret (DropIndexStmt (Text name)).

Definition parseInsert : P Statement :=
  _ ← consume;
  _ ← replace_err "INSERT: expected INTO" [] (expect TokInto);
  name ← replace_err "INSERT INTO: expected table name" [] (expect TokIdent);
  _ ← replace_err "INSERT INTO %s: expected VALUES" [GStr (Text name)] (expect TokValues);
  _ ← replace_err "INSERT VALUES: expected '('" [] (expect TokLParen);
  vals ← paren_list (wrap "INSERT VALUES: %w" [] parseValue);
  _ ← replace_err "INSERT VALUES: missing ')'" [] (expect TokRParen);
  mret (InsertStmt (Text name) vals).

Definition parseExplain : P Statement :=
  _ ← consume;
  t ← peek;
  if decide (Kind t ≠ TokSelect) then fail (Errorf "EXPLAIN: expected SELECT, got %q" [GStr (Text t)])
  else inner ← wrap "EXPLAIN: %w" [] select; mret (ExplainStmt inner).

Definition parseDelete : P Statement :=
  _ ← consume;
  _ ← expect TokFrom;
  tbl ← wrap "DELETE: expected table name: %w" [] (expect TokIdent);
  where_ ← optional TokWhere (parseWhere select);
  mret (DeleteStmt (Text tbl) where_).

Definition parseAssignment : P Assignment :=
  col ← wrap "UPDATE SET: expected column name: %w" [] (expect TokIdent);
  _ ← expect TokEq;
  v ← wrap "UPDATE SET: %w" [] parseValue;
  mret (mkAssign (Text col) v).

Definition parseUpdate : P Statement :=
  _ ← consume;
  tbl ← wrap "UPDATE: expected table name: %w" [] (expect TokIdent);
  _ ← expect TokSet;
  a ← parseAssignment;
  assigns ← sep_list TokComma parseAssignment;
  where_ ← optional TokWhere (parseWhere select);
  mret (UpdateStmt (Text tbl) (a :: assigns) where_).

Definition parseStatement : P Statement :=
  t ← peek;
  match Kind t with
  | TokCreate => parseCreate
  | TokDrop => parseDrop
  | TokInsert => parseInsert
  | TokSelect => s ← select; mret (SelectStatement s)
  | TokExplain => parseExplain
  | TokAnalyze => parseAnalyze
  | TokDelete => parseDelete
  | TokUpdate => parseUpdate
  | TokBegin => _ ← consume; mret BeginStmt
  | TokCommit => _ ← consume; mret CommitStmt
  | TokRollback => _ ← consume; mret RollbackStmt
  | _ => fail (Errorf "expected SELECT, INSERT, CREATE, DROP, EXPLAIN, DELETE, UPDATE, ANALYZE, BEGIN, COMMIT, or ROLLBACK — got %q"
           [GStr (Text t)])
  end.

(** The statement, an optional semicolon, and nothing else. *)
Definition parseAll : P Statement :=
  stmt ← parseStatement;
  k ← peekKind;
  _ ← (if decide (k = TokSemi) then _ ← consume; mret tt else mret tt);
  t ← peek;
  if decide (Kind t ≠ TokEOF) then fail (Errorf "unexpected token %q after end of statement" [GStr (Text t)])
  else mret stmt.

Definition Parse `{Unicode} (input : string) : res Statement :=
  ts ← Tokenize input;
  (parseAll (mkParser ts 0)).1.

(** ** Every call moves forward and comes back *)

(** The call started at [p] keeps the tokens, stays within them, neither panics
    nor runs out of fuel, and, if [strict], consumes a token when it succeeds. *)
Record safe {A} (strict : bool) (m : P A) (p : parser) : Prop := {
  safe_tokens : tokens (m p).2 = tokens p;
  safe_le : (pos p ≤ pos (m p).2)%nat;
  safe_end : (pos (m p).2 ≤ length (tokens p))%nat;
  safe_fuel : (m p).1 ≠ OutOfFuel;
  safe_panic : (m p).1 ≠ Panic;
  safe_strict a : strict = true → (m p).1 = Ok a → (pos p < pos (m p).2)%nat
}.

Abbreviation inside p := (le (pos p) (length (tokens p))).

Lemma safe_weaken {A} s (m : P A) p : safe s m p → safe false m p.
Proof. intros []. by split. Qed.

Lemma safe_ret {A} (x : A) p : inside p → safe false (mret x) p.
Proof. intros. by split. Qed.

Lemma safe_fail {A} s e p : inside p → safe s (fail e : P A) p.
Proof. intros. by split. Qed.

Lemma safe_bind {A B} s1 s2 (m : P A) (f : A → P B) p :
  safe s1 m p →
  (∀ a p', m p = (Ok a, p') → tokens p' = tokens p → inside p' → (pos p ≤ pos p')%nat →
    (s1 = true → (pos p < pos p')%nat) → safe s2 (f a) p') →
  safe (s1 || s2) (m ≫= f) p.
Proof.
  intros [H1 H2 H3 H4 H5 H6] Hf. destruct (m p) as [r p'] eqn:E. cbn in *.
  destruct r as [a|e| |]; [|by split; rewrite (M_bind_Err _ _ _ _ _ E)|done|done].
  assert (inside p') as Hin by (rewrite H1; exact H3).
  assert (s1 = true → (pos p < pos p')%nat) as Hst by (intros Hs; by eapply H6).
  destruct (Hf a p' eq_refl H1 Hin H2 Hst) as [G1 G2 G3 G4 G5 G6].
  split; rewrite (M_bind_Ok _ _ _ _ _ E); [by rewrite G1|lia|by rewrite <-H1|done|done|].
  intros b Hs Hb. apply orb_true_iff in Hs as [Hs|Hs]; [specialize (Hst Hs); lia|]. specialize (G6 b Hs Hb). lia.
Qed.

Lemma safe_seq {A B} s (m : P A) (f : A → P B) p :
  safe s m p →
  (∀ a p', m p = (Ok a, p') → tokens p' = tokens p → inside p' → (pos p ≤ pos p')%nat →
    (s = true → (pos p < pos p')%nat) → safe false (f a) p') →
  safe false (m ≫= f) p.
Proof. intros Hm Hf. eapply safe_weaken, safe_bind; eauto. Qed.

Lemma safe_replace {A} s fmt args (m : P A) p : safe s m p → safe s (replace_err fmt args m) p.
Proof. intros [H1 H2 H3 H4 H5 H6]. split; unfold replace_err; destruct (m p) as [[a|e| |] p']; cbn in *; try done; eauto. Qed.

Lemma safe_wrap {A} s fmt args (m : P A) p : safe s m p → safe s (wrap fmt args m) p.
Proof. intros [H1 H2 H3 H4 H5 H6]. split; unfold wrap; destruct (m p) as [[a|e| |] p']; cbn in *; try done; eauto. Qed.

Lemma peek_lt p : Kind (peek_at (pos p) p) ≠ TokEOF → (pos p < length (tokens p))%nat.
Proof.
  unfold peek_at. intros Hk. destruct (tokens p !! pos p) eqn:E; [by apply lookup_lt_Some in E|done].
Qed.

Lemma safe_consume p : inside p → safe false consume p.
Proof. intros. unfold consume. by split; cbn; try case_decide; cbn; try lia. Qed.

Lemma safe_consume_lt p : (pos p < length (tokens p))%nat → safe true consume p.
Proof. intros. unfold consume. split; cbn; rewrite ?decide_True by done; cbn; try done; lia. Qed.

Lemma safe_expect k p : k ≠ TokEOF → inside p → safe true (expect k) p.
Proof.
  intros Hk Hin. unfold expect. destruct (decide (pos p < length (tokens p))%nat) as [Hlt|Hge].
  - apply (safe_bind true false); [by apply safe_consume_lt|]. intros t p' _ Ht Hin' Hle _.
    case_decide; [by apply safe_fail|by apply safe_ret].
  - assert (peek_at (pos p) p = tokEOF) as Hp by (unfold peek_at; rewrite lookup_ge_None_2 by lia; done).
    assert ((t ← consume; if decide (Kind t ≠ k) then fail (Errorf "expected token kind %d, got %q"
        [GInt (Z.of_nat (kind_num k)); GStr (Text t)]) else mret t) p =
      (Err (Errorf "expected token kind %d, got %q" [GInt (Z.of_nat (kind_num k)); GStr EmptyString]), p)) as E.
    { unfold mbind, M_bind, consume. rewrite Hp. rewrite decide_True by (cbn; congruence).
      rewrite decide_False by lia. done. }
    split; rewrite E; done.
Qed.

(** What peeking returns is known; nothing changes. *)
Lemma safe_peekKind {A} s (f : TokenKind → P A) p :
  safe s (f (Kind (peek_at (pos p) p))) p → safe s (peekKind ≫= f) p.
Proof. intros [? ? ? ? ? ?]. by split. Qed.
Lemma safe_peek {A} s (f : Token → P A) p : safe s (f (peek_at (pos p) p)) p → safe s (peek ≫= f) p.
Proof. intros [? ? ? ? ? ?]. by split. Qed.
Lemma safe_nextIs {A} s k (f : bool → P A) p :
  (∀ b, safe s (f b) p) → safe s (nextIs k ≫= f) p.
Proof. intros Hf. destruct (Hf (bool_decide (Kind <$> tokens p !! S (pos p) = Some k))). by split. Qed.

Create HintDb parse.
#[export] Hint Resolve safe_ret safe_fail safe_replace safe_wrap safe_consume : parse.
#[export] Hint Extern 1 (safe true (expect _) _) => (apply safe_expect; [done|first [assumption|lia]]) : parse.
#[export] Hint Extern 3 (inside _) => (first [assumption|lia]) : parse.

(** Steps through a parser: peeks, branches, then one call at a time. *)
Ltac parse_step :=
  match goal with
  | |- safe _ (peekKind ≫= _) _ => apply safe_peekKind; cbv beta
  | |- safe _ (peek ≫= _) _ => apply safe_peek; cbv beta
  | |- safe _ (nextIs _ ≫= _) _ => apply safe_nextIs; intros ?; cbv beta
  | |- safe _ (if decide _ then _ else _) _ => case_decide
  | |- safe _ (match agg_func ?k with _ => _ end) _ => destruct (agg_func k) eqn:?
  | |- safe _ (match compare_op ?k with _ => _ end) _ => destruct (compare_op k) eqn:?
  | |- safe _ (if ?b then _ else _) _ => destruct b
  | |- safe _ (mret _) _ => apply safe_ret; assumption
  | |- safe _ (fail _) _ => apply safe_fail; assumption
  | |- safe false (_ ≫= _) _ =>
      first [ eapply (safe_seq true); [solve [auto 4 with parse]|]
            | eapply (safe_seq false); [solve [auto 4 with parse]|] ];
      intros ? ? ? ? ? ? ?;
      repeat match goal with H : true = true → _ |- _ => specialize (H eq_refl) end; cbv beta
  | |- safe false _ _ => solve [auto 5 with parse]
  end.
Ltac parse_auto := repeat parse_step.

Lemma kind_lt p k : Kind (peek_at (pos p) p) = k → k ≠ TokEOF → (pos p < length (tokens p))%nat.
Proof. intros E Hk. apply peek_lt. by rewrite E. Qed.

(** [consume] after the next token was seen not to be the end. *)
Lemma safe_consume_seen p k : Kind (peek_at (pos p) p) = k → k ≠ TokEOF → safe true consume p.
Proof. intros E Hk. by eapply safe_consume_lt, kind_lt. Qed.
#[export] Hint Extern 2 (safe true consume _) => (eapply safe_consume_seen; [eassumption|done]) : parse.
#[export] Hint Extern 2 (safe true consume _) => (apply safe_consume_lt; first [assumption|lia]) : parse.

Lemma safe_sep_loop {A} fuel sep (item : P A) p :
  sep ≠ TokEOF → inside p → (length (tokens p) ≤ pos p + fuel)%nat →
  (∀ p', tokens p' = tokens p → inside p' → (pos p < pos p')%nat → safe false item p') →
  safe false (sep_loop fuel sep item) p.
Proof.
  intros Hsep. revert p. induction fuel as [|fuel IH]; intros p Hin Hf Hi; cbn [sep_loop]; apply safe_peekKind; case_decide as Hk.
  - pose proof (kind_lt _ _ Hk Hsep). lia.
  - by apply safe_ret.
  - pose proof (kind_lt _ _ Hk Hsep) as Hlt.
    apply (safe_seq true); [by apply safe_consume_lt|]. intros t p1 _ Ht1 Hin1 Hle1 Hlt1. specialize (Hlt1 eq_refl).
    apply (safe_seq false); [by apply Hi|]. intros x p2 _ Ht2 Hin2 Hle2 _.
    apply (safe_seq false); [|intros; by apply safe_ret].
    assert (tokens p2 = tokens p) as Ht by congruence.
    apply IH; [done|rewrite Ht; lia|]. intros p' Ht' Hin' Hlt'. apply Hi; [congruence|done|lia].
  - by apply safe_ret.
Qed.

Lemma safe_sep_list {A} sep (item : P A) p :
  sep ≠ TokEOF → inside p →
  (∀ p', tokens p' = tokens p → inside p' → (pos p < pos p')%nat → safe false item p') →
  safe false (sep_list sep item) p.
Proof.
  intros Hs Hin Hi. destruct (safe_sep_loop (length (tokens p)) sep item p Hs Hin) as [? ? ? ? ? ?]; [lia|done|].
  by split.
Qed.

Lemma safe_paren_loop {A} fuel (item : P A) p :
  inside p → (length (tokens p) ≤ pos p + fuel)%nat →
  (∀ p', tokens p' = tokens p → inside p' → (pos p ≤ pos p')%nat → safe true item p') →
  safe false (paren_loop fuel item) p.
Proof.
  revert p. induction fuel as [|fuel IH]; intros p Hin Hf Hi; cbn [paren_loop]; apply safe_peekKind; case_decide as Hk.
  - pose proof (kind_lt _ _ eq_refl (proj2 Hk)). lia.
  - by apply safe_ret.
  - apply (safe_seq true); [by apply Hi|]. intros x p1 _ Ht1 Hin1 Hle1 Hlt1. specialize (Hlt1 eq_refl).
    apply safe_peekKind. apply (safe_seq false).
    { case_decide; [|by apply safe_ret]. apply (safe_seq false); [by apply safe_consume|].
      intros. by apply safe_ret. }
    intros [] p2 _ Ht2 Hin2 Hle2 _. assert (tokens p2 = tokens p) as Ht by congruence.
    apply (safe_seq false); [|intros; by apply safe_ret].
    apply IH; [done|rewrite Ht; lia|]. intros p' Ht' Hin' Hlt'. apply Hi; [congruence|done|lia].
  - by apply safe_ret.
Qed.

Lemma safe_paren_list {A} (item : P A) p :
  inside p → (∀ p', tokens p' = tokens p → inside p' → (pos p ≤ pos p')%nat → safe true item p') →
  safe false (paren_list item) p.
Proof.
  intros Hin Hi. destruct (safe_paren_loop (length (tokens p)) item p Hin) as [? ? ? ? ? ?]; [lia|done|].
  by split.
Qed.

Section safe.
Context (p : parser) (Hin : inside p).

Lemma safe_parseIdent : safe true parseIdent p.
Proof using Hin.
  unfold parseIdent. apply safe_peek. repeat case_decide; [| |by apply safe_fail]; apply safe_consume_lt, peek_lt.
  - intros E. rewrite E in *. cbn in *. lia.
  - congruence.
Qed.

Lemma safe_parseValue : safe true parseValue p.
Proof using Hin.
  unfold parseValue. apply safe_peek. repeat case_decide; [| |by apply safe_fail];
    (apply (safe_bind true false); [by eapply safe_consume_seen|intros; by apply safe_ret]).
Qed.
End safe.
#[export] Hint Resolve safe_parseIdent safe_parseValue : parse.

Lemma safe_parseColRef p : inside p → safe false parseColRef p.
Proof. intros. unfold parseColRef. parse_auto. Qed.
#[export] Hint Resolve safe_parseColRef : parse.

Lemma safe_parseAggCall fn p : inside p → safe false (parseAggCall fn) p.
Proof.
  intros. unfold parseAggCall. parse_auto. eapply (safe_seq false).
  { case_decide; parse_auto. }
  intros. parse_auto.
Qed.
#[export] Hint Resolve safe_parseAggCall : parse.

Lemma safe_parseSelectExpr p : inside p → safe false parseSelectExpr p.
Proof.
  intros. unfold parseSelectExpr. apply safe_peek. eapply (safe_seq false); [parse_auto|].
  intros. parse_auto.
Qed.
Lemma safe_parseOrderByExpr p : inside p → safe false parseOrderByExpr p.
Proof. intros. unfold parseOrderByExpr. parse_auto. Qed.
Lemma safe_parseTableRef p : inside p → safe false parseTableRef p.
Proof. intros. unfold parseTableRef. parse_auto. Qed.
Lemma safe_parseJoinCond p : inside p → safe false parseJoinCond p.
Proof. intros. unfold parseJoinCond. parse_auto. Qed.
#[export] Hint Resolve safe_parseSelectExpr safe_parseOrderByExpr safe_parseTableRef safe_parseJoinCond : parse.

Lemma safe_join_loop fuel p :
  inside p → (length (tokens p) ≤ pos p + fuel)%nat → safe false (join_loop fuel) p.
Proof.
  revert p. induction fuel as [|fuel IH]; intros p Hin Hf; cbn [join_loop]; apply safe_peekKind; case_decide as Hk.
  - assert (Kind (peek_at (pos p) p) ≠ TokEOF) as Hne by (intros E; rewrite E in Hk; by destruct Hk).
    pose proof (peek_lt _ Hne). lia.
  - by apply safe_ret.
  - apply (safe_seq false). { case_decide; parse_auto. }
    intros [] p1 _ Ht1 Hin1 Hle1 _.
    apply (safe_seq true). { apply safe_replace, safe_expect; done. }
    intros t p2 _ Ht2 Hin2 _ Hlt2. specialize (Hlt2 eq_refl).
    apply (safe_seq false). { by apply safe_wrap, safe_parseTableRef. }
    intros ref p3 _ Ht3 Hin3 Hle3 _. apply safe_peekKind. case_decide; [by apply safe_fail|].
    apply (safe_seq false); [by apply safe_consume|]. intros t4 p4 _ Ht4 Hin4 Hle4 _.
    apply (safe_seq false); [by apply safe_wrap, safe_parseJoinCond|]. intros c p5 _ Ht5 Hin5 Hle5 _.
    apply (safe_seq false); [|intros; by apply safe_ret]. apply IH; [done|].
    assert (tokens p5 = tokens p) as -> by congruence. lia.
  - by apply safe_ret.
Qed.

Lemma safe_join_list p : inside p → safe false join_list p.
Proof. intros Hin. destruct (safe_join_loop (length (tokens p)) p Hin ltac:(lia)) as [? ? ? ? ? ?]. by split. Qed.
#[export] Hint Resolve safe_join_list : parse.
#[export] Hint Extern 1 (safe false (sep_list _ _) _) =>
  (apply safe_sep_list; [done|assumption|intros; auto 6 with parse]) : parse.

(** An element parser that consumes a token is safe as such. *)
Lemma safe_strict_item {A} (m : P A) p : safe true m p → safe false m p.
Proof. apply safe_weaken. Qed.
#[export] Hint Extern 4 (safe false _ _) => (apply safe_strict_item) : parse.

Lemma safe_parseFromClause p : inside p → safe false parseFromClause p.
Proof. intros. unfold parseFromClause. parse_auto. Qed.
#[export] Hint Resolve safe_parseFromClause : parse.

Lemma safe_parseConditionLHS p : inside p → safe false parseConditionLHS p.
Proof. intros. unfold parseConditionLHS. parse_auto. Qed.
#[export] Hint Resolve safe_parseConditionLHS : parse.

Section safe_conditions.
Context (sel : P SelectStmt) (ts : list Token) (n : nat).
(** [sel] may be called once fewer than [n] tokens are left. *)
Context (Hsel : ∀ p, tokens p = ts → inside p → (length ts < pos p + n)%nat → safe false sel p).

Abbreviation at_ p := (tokens p = ts ∧ inside p ∧ (length ts ≤ pos p + n)%nat).

Lemma safe_sel p p' : at_ p → tokens p' = tokens p → inside p' → (pos p < pos p')%nat → safe false sel p'.
Proof using Hsel. intros (Ht & Hin & Hn) Ht' Hin' Hlt. apply Hsel; [congruence|done|lia]. Qed.

Lemma safe_parseExistsCond b p : at_ p → safe false (parseExistsCond sel b) p.
Proof using Hsel.
  intros Hat. pose proof Hat as (_ & Hin & _). unfold parseExistsCond. parse_step.
  apply (safe_seq true); [by apply safe_replace, safe_expect|]. intros t p2 _ Ht2 Hin2 Hle2 Hlt2. specialize (Hlt2 eq_refl).
  apply (safe_seq false); [|intros; parse_auto]. apply safe_wrap. eapply safe_sel; [exact Hat|congruence|done|lia].
Qed.

Lemma safe_parseInCond col b p : at_ p → safe false (parseInCond sel col b) p.
Proof using Hsel.
  intros Hat. pose proof Hat as (_ & Hin & _). unfold parseInCond.
  apply (safe_seq true); [by apply safe_replace, safe_expect|]. intros t p2 _ Ht2 Hin2 Hle2 Hlt2. specialize (Hlt2 eq_refl).
  parse_step. case_decide; [|parse_auto].
  apply (safe_seq false); [|intros; parse_auto]. apply safe_wrap. eapply safe_sel; [exact Hat|congruence|done|lia].
Qed.

Lemma safe_parseRHS lhs op p : at_ p → safe false (parseRHS sel lhs op) p.
Proof using Hsel.
  intros Hat. pose proof Hat as (_ & Hin & _). unfold parseRHS. parse_step. parse_step. case_decide as Hk; [|parse_auto].
  apply (safe_seq true); [eapply safe_consume_seen; [exact (proj1 Hk)|done]|].
  intros t p2 _ Ht2 Hin2 Hle2 Hlt2. specialize (Hlt2 eq_refl).
  apply (safe_seq false); [|intros; parse_auto]. apply safe_wrap. eapply safe_sel; [exact Hat|congruence|done|lia].
Qed.

Lemma at_step p p' : at_ p → tokens p' = tokens p → inside p' → (pos p ≤ pos p')%nat → at_ p'.
Proof using Type. intros (Ht & Hin & Hn) Ht' Hin' Hle. split_and!; [congruence|done|lia]. Qed.

Lemma safe_parseCondition p : at_ p → safe false (parseCondition sel) p.
Proof using Hsel.
  intros Hat. pose proof Hat as (_ & Hin & _). unfold parseCondition. parse_step. parse_step.
  case_decide; [by apply safe_parseExistsCond|]. case_decide.
  { apply (safe_seq false); [by apply safe_consume|]. intros. apply safe_parseExistsCond. by eapply at_step. }
  apply (safe_seq false); [by apply safe_replace, safe_parseConditionLHS|]. intros lhs p1 _ Ht1 Hin1 Hle1 _.
  pose proof (at_step _ _ Hat Ht1 Hin1 Hle1) as Hat1. parse_step. parse_step. case_decide.
  { apply (safe_seq false); [by apply safe_consume|]. intros. apply safe_parseInCond. by eapply at_step. }
  case_decide.
  { apply (safe_seq false); [by apply safe_consume|]. intros t2 p2 _ Ht2 Hin2 Hle2 _.
    apply (safe_seq false); [by apply safe_consume|]. intros t3 p3 _ Ht3 Hin3 Hle3 _. apply safe_parseInCond.
    eapply at_step; [exact Hat1|congruence|done|lia]. }
  apply (safe_seq false); [by apply safe_consume|]. intros t2 p2 _ Ht2 Hin2 Hle2 _.
  parse_step; [|parse_auto]. apply safe_parseRHS. by eapply at_step.
Qed.

(** An item, then more of them after a separator. *)
Lemma safe_item_list {A} sep (item item' : P A) p :
  sep ≠ TokEOF → (∀ p', at_ p' → safe false item p') → (∀ p', at_ p' → safe false item' p') → at_ p →
  safe false (x ← item; xs ← sep_list sep item'; mret (x :: xs)) p.
Proof using Type.
  intros Hs Hi Hi' Hat. apply (safe_seq false); [by apply Hi|]. intros x p1 _ Ht1 Hin1 Hle1 _.
  pose proof (at_step _ _ Hat Ht1 Hin1 Hle1) as Hat1. apply (safe_seq false); [|intros; by apply safe_ret].
  apply safe_sep_list; [done|done|]. intros p' Ht' Hin' Hlt'. apply Hi'. eapply at_step; [exact Hat1|done|done|lia].
Qed.

Lemma safe_parseAndGroup p : at_ p → safe false (parseAndGroup sel) p.
Proof using Hsel.
  apply safe_item_list; [done|apply safe_parseCondition|]. intros. by apply safe_wrap, safe_parseCondition.
Qed.

Lemma safe_parseWhere p : at_ p → safe false (parseWhere sel) p.
Proof using Hsel.
  intros Hat. unfold parseWhere. apply (safe_seq false); [by apply safe_wrap, safe_parseAndGroup|].
  intros x p1 _ Ht1 Hin1 Hle1 _. pose proof (at_step _ _ Hat Ht1 Hin1 Hle1) as Hat1.
  apply (safe_seq false); [|intros; by apply safe_ret].
  apply safe_sep_list; [done|done|]. intros p' Ht' Hin' Hlt'. apply safe_wrap, safe_parseAndGroup.
  eapply at_step; [exact Hat1|done|done|lia].
Qed.

Lemma safe_optional {A} k (m : P A) p : at_ p → (∀ p', at_ p' → safe false m p') → safe false (optional k m) p.
Proof using Type.
  intros Hat Hm. pose proof Hat as (_ & Hin & _). unfold optional. parse_step. case_decide; [|parse_auto].
  apply (safe_seq false); [by apply safe_consume|]. intros t p1 _ Ht1 Hin1 Hle1 _.
  apply (safe_seq false); [|intros; by apply safe_ret]. apply Hm. by eapply at_step.
Qed.

Lemma safe_parseSelectBody p : at_ p → safe false (parseSelectBody sel) p.
Proof using Hsel.
  intros Hat. pose proof Hat as (_ & Hin & _). unfold parseSelectBody.
  apply (safe_seq false); [by apply safe_consume|]. intros t p1 _ Ht1 Hin1 Hle1 _.
  pose proof (at_step _ _ Hat Ht1 Hin1 Hle1) as Hat1.
  apply (safe_seq false); [unfold parseColumns; parse_auto|]. intros es p2 _ Ht2 Hin2 Hle2 _.
  pose proof (at_step _ _ Hat1 Ht2 Hin2 Hle2) as Hat2.
  apply (safe_seq false); [by apply safe_strict_item, safe_replace, safe_expect|]. intros t3 p3 _ Ht3 Hin3 Hle3 _.
  pose proof (at_step _ _ Hat2 Ht3 Hin3 Hle3) as Hat3.
  apply (safe_seq false); [by apply safe_parseFromClause|]. intros [fr js] p4 _ Ht4 Hin4 Hle4 _.
  pose proof (at_step _ _ Hat3 Ht4 Hin4 Hle4) as Hat4.
  apply (safe_seq false); [apply safe_optional; [done|apply safe_parseWhere]|]. intros w p5 _ Ht5 Hin5 Hle5 _.
  pose proof (at_step _ _ Hat4 Ht5 Hin5 Hle5) as Hat5.
  apply (safe_seq false). { apply safe_optional; [done|]. intros p' (_ & Hin' & _). unfold parseGroupBy. parse_auto. }
  intros g p6 _ Ht6 Hin6 Hle6 _. pose proof (at_step _ _ Hat5 Ht6 Hin6 Hle6) as Hat6.
  apply (safe_seq false). { apply safe_optional; [done|]. intros p' Hat'. by apply safe_wrap, safe_parseWhere. }
  intros h p7 _ Ht7 Hin7 Hle7 _. pose proof (at_step _ _ Hat6 Ht7 Hin7 Hle7) as Hat7.
  apply (safe_seq false). { apply safe_optional; [done|]. intros p' (_ & Hin' & _). unfold parseOrderBy. parse_auto. }
  intros o p8 _ Ht8 Hin8 Hle8 _. pose proof (at_step _ _ Hat7 Ht8 Hin8 Hle8) as Hat8.
  apply (safe_seq false). { apply safe_optional; [done|]. intros p' (_ & Hin' & _). unfold parseLimit. parse_auto. }
  intros l p9 _ Ht9 Hin9 Hle9 _. by apply safe_ret.
Qed.
End safe_conditions.

Lemma safe_parseSelect fuel p :
  inside p → (length (tokens p) < pos p + fuel)%nat → safe false (parseSelect fuel) p.
Proof.
  revert p. induction fuel as [|fuel IH]; intros p Hin Hf; [lia|]. cbn [parseSelect].
  apply (safe_parseSelectBody _ (tokens p) fuel); [|split_and!; [done|done|lia]].
  intros p' Ht Hin' Hlt. apply IH; [done|]. by rewrite Ht.
Qed.

Lemma safe_select p : inside p → safe false select p.
Proof. intros Hin. destruct (safe_parseSelect (S (length (tokens p))) p Hin ltac:(lia)) as [? ? ? ? ? ?]. by split. Qed.
#[export] Hint Resolve safe_select : parse.

Lemma safe_where_select p : inside p → safe false (optional TokWhere (parseWhere select)) p.
Proof.
  intros Hin. apply (safe_optional (tokens p) (length (tokens p))); [split_and!; [done|done|lia]|].
  intros p' Hat. eapply safe_parseWhere; [|exact Hat]. intros q _ Hq _. by apply safe_select.
Qed.
#[export] Hint Resolve safe_where_select : parse.

Lemma safe_parseColumnDef p : inside p → safe true parseColumnDef p.
Proof.
  intros Hin. unfold parseColumnDef. apply (safe_bind true false); [by apply safe_replace, safe_expect|].
  intros t p1 _ Ht1 Hin1 Hle1 _. parse_auto.
Qed.

Lemma expect_pos k p : inside p → (0 < length (tokens p))%nat → pos (expect k p).2 ≠ 0%nat.
Proof.
  intros Hin Hne. unfold expect, consume, mbind, M_bind.
  assert (∀ q, (if decide (pos p < length (tokens p))%nat then mkParser (tokens p) (S (pos p)) else p) = q → pos q ≠ 0%nat) as Hq.
  { intros q <-. case_decide; cbn; lia. }
  destruct (decide (Kind (peek_at (pos p) p) ≠ k)); by apply Hq.
Qed.

Lemma safe_expect_table p : inside p → (0 < length (tokens p))%nat → safe false expect_table p.
Proof.
  intros Hin Hne. destruct (safe_expect TokTable p ltac:(done) Hin) as [H1 H2 H3 H4 H5 H6].
  pose proof (expect_pos TokTable p Hin Hne) as Hp.
  assert (∃ r, expect_table p = (r, (expect TokTable p).2) ∧ r ≠ Panic ∧ r ≠ OutOfFuel) as (r & E & Hr1 & Hr2).
  { unfold expect_table. destruct (expect TokTable p) as [[a|e| |] p']; cbn in *; try done; [by eexists|].
    destruct (pos p') as [|i] eqn:Ei; [done|]. destruct (lookup_lt_is_Some_2 (tokens p') i) as [t ->]; [rewrite H1; lia|].
    by eexists. }
  split; rewrite E; done.
Qed.

#[export] Hint Extern 1 (safe false (paren_list _) _) =>
  (apply safe_paren_list; [assumption|intros; auto 4 using safe_parseColumnDef with parse]) : parse.

Section safe_statements.
Context (p : parser) (Hin : inside p).

Lemma safe_parseCreateTable : (0 < length (tokens p))%nat → safe false parseCreateTable p.
Proof using Hin.
  intros Hne. unfold parseCreateTable. apply (safe_seq false); [by apply safe_expect_table|]. intros [] p1 _ Ht1 Hin1 Hle1 _.
  parse_auto.
Qed.

Lemma safe_parseCreateIndex : safe false parseCreateIndex p.
Proof using Hin. unfold parseCreateIndex. parse_auto. Qed.
Lemma safe_parseDrop : safe false parseDrop p.
Proof using Hin. unfold parseDrop. parse_auto. Qed.
Lemma safe_parseAnalyze : safe false parseAnalyze p.
Proof using Hin. unfold parseAnalyze. parse_auto. Qed.
Lemma safe_parseInsert : safe false parseInsert p.
Proof using Hin. unfold parseInsert. parse_auto. Qed.
Lemma safe_parseExplain : safe false parseExplain p.
Proof using Hin. unfold parseExplain. parse_auto. Qed.
Lemma safe_parseDelete : safe false parseDelete p.
Proof using Hin. unfold parseDelete. parse_auto. Qed.
Lemma safe_parseAssignment : safe true parseAssignment p.
Proof using Hin.
  unfold parseAssignment. apply (safe_bind true false); [by apply safe_wrap, safe_expect|].
  intros t p1 _ Ht1 Hin1 Hle1 _. parse_auto.
Qed.
End safe_statements.
#[export] Hint Resolve safe_parseAssignment : parse.

Lemma safe_parseUpdate p : inside p → safe false parseUpdate p.
Proof. intros. unfold parseUpdate. parse_auto. Qed.

Lemma safe_parseCreate p : inside p → (0 < length (tokens p))%nat → safe false parseCreate p.
Proof.
  intros Hin Hne. unfold parseCreate. apply (safe_seq false); [by apply safe_consume|]. intros t p1 _ Ht1 Hin1 Hle1 _.
  parse_step. case_decide; [apply safe_parseCreateTable; [done|by rewrite Ht1]|].
  case_decide; [by apply safe_parseCreateIndex|by apply safe_fail].
Qed.

Lemma safe_parseStatement p : inside p → (0 < length (tokens p))%nat → safe false parseStatement p.
Proof.
  intros Hin Hne. unfold parseStatement. apply safe_peek.
  destruct (Kind (peek_at (pos p) p)); try (by apply safe_fail);
    auto using safe_parseCreate, safe_parseDrop, safe_parseInsert, safe_parseExplain, safe_parseAnalyze,
      safe_parseDelete, safe_parseUpdate; parse_auto.
Qed.

Lemma safe_parseAll p : inside p → (0 < length (tokens p))%nat → safe false parseAll p.
Proof.
  intros Hin Hne. unfold parseAll. apply (safe_seq false); [by apply safe_parseStatement|].
  intros s p1 _ Ht1 Hin1 Hle1 _. parse_step. apply (safe_seq false); [case_decide; parse_auto|].
  intros [] p2 _ Ht2 Hin2 Hle2 _. parse_auto.
Qed.

(** ** The lexer consumes at least one byte per pass *)

Lemma span_length p s : (String.length (span p s).2 ≤ String.length s)%nat.
Proof.
  induction s as [|c s IH]; cbn [span]; [done|]. destruct (p c); [|done].
  destruct (span p s). cbn in *. lia.
Qed.

Lemma str_drop_length n s : (String.length (str_drop n s) ≤ String.length s)%nat.
Proof. revert s. induction n as [|n IH]; intros [|c s]; cbn; [lia..|]. specialize (IH s). lia. Qed.

Section lexer_total.
Context `{Unicode}.

Lemma lex_step_total i ch s :
  match lex_step i ch s with
  | Ok (ts, rest) => (String.length rest ≤ String.length s)%nat ∧ Forall (λ t, Kind t ≠ TokEOF) ts
  | Err _ => True
  | _ => False
  end.
Proof.
  assert (∀ p, p ch = true → String.length (span p (String ch s)).2 ≤ String.length s)%nat as Hspan.
  { intros p Hp. cbn [span]. rewrite Hp. pose proof (span_length p s). by destruct (span p s). }
  pose proof (str_drop_length 1 s) as Hdrop. unfold lex_step.
  destruct (IsSpace ch); [by split|].
  case_decide as Hc1.
  { destruct Hc1 as [-> _]. split; [by apply Hspan|done]. }
  case_decide as Hc2.
  { subst ch. split; [by apply Hspan|done]. }
  do 11 (case_decide; [split; [done|by apply Forall_singleton]|]).
  case_decide.
  { pose proof (span_length (λ c, bool_decide (c ≠ "'"%char)) s). destruct (span _ s) as [text [|c rest]]; [done|].
    cbn in *. split; [lia|by apply Forall_singleton]. }
  destruct (IsDigit ch) eqn:Ed.
  { specialize (Hspan IsDigit Ed). destruct (span IsDigit (String ch s)) as [text rest]. unfold ParseUint, wrap_err.
    case_decide; cbn; [|done]. split; [done|by apply Forall_singleton]. }
  destruct (IsLetter ch || _) eqn:El; [|done].
  specialize (Hspan ident_char). destruct (span ident_char (String ch s)) as [text rest]. cbn [snd] in Hspan.
  assert (String.length rest ≤ String.length s)%nat as Hl.
  { apply Hspan. unfold ident_char. apply orb_true_iff in El as [->| ->]; [done|]. by rewrite orb_true_r. }
  destruct (keyword (ToLower text)) as [k|] eqn:Ek; (split; [done|apply Forall_singleton; cbn]); [|done].
  unfold keyword in Ek. intros ->. apply fmap_Some in Ek as ([w k] & Hk & Hw).
  apply head_Some_elem_of, list_elem_of_filter in Hk as [_ Hk]. cbn in Hw. subst k.
  repeat (apply elem_of_cons in Hk as [[=]|Hk]). by apply elem_of_nil in Hk.
Qed.

(** [Tokenize] ends on every input, without panic, and a result ends with the
    only end-of-input token. *)
Lemma Tokenize_total input :
  match Tokenize input with
  | Ok ts => ∃ ts', ts = ts' ++ [tokEOF] ∧ Forall (λ t, Kind t ≠ TokEOF) ts'
  | Err _ => True
  | _ => False
  end.
Proof.
  unfold Tokenize. generalize (Z.of_nat (String.length input)) as n.
  generalize (le_n (String.length input)). generalize (String.length input) at 2 3 as fuel. intros fuel.
  revert input. induction fuel as [|fuel IH]; intros [|ch s] Hf n; cbn [lex_loop String.length] in *; try lia.
  1, 2: by exists [].
  pose proof (lex_step_total (n - Z.of_nat (S (String.length s))) ch s) as Hstep.
  destruct (lex_step _ ch s) as [[ts rest]|e| |]; try done. cbn [mbind res_bind]. destruct Hstep as [Hl Hts].
  specialize (IH rest ltac:(lia) n). destruct (lex_loop fuel n rest) as [ts2|e| |]; try done.
  destruct IH as (ts' & -> & Hts'). cbn. exists (ts ++ ts'). split; [by rewrite app_assoc|]. by apply Forall_app.
Qed.

(** C28. The parser always ends: for every input text, [Parse] returns a statement or
    an error, without a panic (no token index out of range) and without running
    out of the fuel that bounds its loops and the nesting of subqueries. *)
Theorem Parse_total input : is_ok (Parse input) || is_err (Parse input) = true.
Proof.
  unfold Parse. pose proof (Tokenize_total input) as Ht.
  destruct (Tokenize input) as [ts|e| |]; try done. destruct Ht as (ts' & -> & _). cbn [mbind res_bind].
  destruct (safe_parseAll (mkParser (ts' ++ [tokEOF]) 0)) as [_ _ _ Hf Hp _]; [cbn; lia|cbn; rewrite length_app; cbn; lia|].
  by destruct (parseAll (mkParser (ts' ++ [tokEOF]) 0)).1.
Qed.
End lexer_total.
