(* ===== verification/Eval.v ===== *)
(** * Eval: comparisons and predicates on rows ([src/executor/operators.go],
    [src/executor/dml.go])

    The evaluation of WHERE clauses on a decoded row.  A column that the table
    does not have, and a condition between two columns, are skipped by the code
    and therefore by the definitions. *)
From S2P Require Import Prelude GoLib Catalog Rows Ast.
From stdpp Require Import options.

Abbreviation row := (list Value).

(** Go compares strings byte by byte. *)
Definition compareVals (a b : Value) (op : CompareOp) : bool :=
  if decide (VType a ≠ VType b) then false
  else if decide (VType a = TypeInt) then
    match op with
    | OpEq => bool_decide (IntVal a = IntVal b)
    | OpGt => bool_decide (IntVal b < IntVal a)
    | OpLt => bool_decide (IntVal a < IntVal b)
    | OpGte => bool_decide (IntVal b ≤ IntVal a)
    | OpLte => bool_decide (IntVal a ≤ IntVal b)
    end
  else if decide (VType a = TypeText) then
    match op with
    | OpEq => bool_decide (TextVal a = TextVal b)
    | OpGt => bool_decide (0 < str_compare (TextVal a) (TextVal b))
    | OpLt => bool_decide (str_compare (TextVal a) (TextVal b) < 0)
    | OpGte => bool_decide (0 ≤ str_compare (TextVal a) (TextVal b))
    | OpLte => bool_decide (str_compare (TextVal a) (TextVal b) ≤ 0)
    end
  else false.

Definition inListContains (v : Value) (items : list Value) : bool :=
  existsb (λ item, compareVals v item OpEq) items.

Definition evalCond (v : Value) (cond : Condition) : bool := compareVals v (Val cond) (Op cond).

Section eval.
Context `{Unicode}.

(** The column a condition is about: [None] when there is no table or no such
    column in it. *)
Definition cond_column (tbl : option Table) (name : string) : option nat := tbl ≫= ColIndex name.

Fixpoint evalPreds (r : row) (tbl : option Table) (preds : list Condition) : res bool :=
  match preds with
  | [] => Ok true
  | cond :: preds =>
      if AlwaysFalse cond then Ok false
      else if IsJoinCond cond then evalPreds r tbl preds
      else
        match cond_column tbl (Column cond) with
        | None => evalPreds r tbl preds
        | Some idx =>
            match r !! idx with
            | None => Panic
            | Some v =>
                match InList cond with
                | Some l =>
                    if Bool.eqb (Negated cond) (inListContains v l) then Ok false
                    else evalPreds r tbl preds
                | None => if evalCond v cond then evalPreds r tbl preds else Ok false
                end
            end
        end
  end.

(** The groups of a WHERE clause are alternatives. *)
Fixpoint matches_groups (r : row) (tbl : option Table) (groups : list (list Condition)) : res bool :=
  match groups with
  | [] => Ok false
  | g :: groups => b ← evalPreds r tbl g; if (b : bool) then Ok true else matches_groups r tbl groups
  end.

Definition matchesWhere (r : row) (tbl : Table) (where_ : option WhereClause) : res bool :=
  match where_ with
  | None => Ok true
  | Some w => matches_groups r (Some tbl) (Groups w)
  end.

(** ** One condition at a time *)

(** The verdict of one condition on a row with enough columns. *)
Definition cond_holds (r : row) (tbl : option Table) (cond : Condition) : bool :=
  negb (AlwaysFalse cond) &&
  (IsJoinCond cond ||
   match cond_column tbl (Column cond) ≫= λ i, r !! i with
   | None => true
   | Some v =>
       match InList cond with
       | Some l => negb (Bool.eqb (Negated cond) (inListContains v l))
       | None => evalCond v cond
       end
   end).

(** A row has a value for every column of the table. *)
Definition row_fits (tbl : option Table) (r : row) : Prop :=
  ∀ t, tbl = Some t → (length (Columns t) ≤ length r)%nat.

Lemma find_index_lt {A} (p : A → bool) l i : find_index p l = Some i → (i < length l)%nat.
Proof.
  revert i. induction l as [|x l IH]; intros i; cbn [find_index]; [done|].
  destruct (p x); [intros [= <-]; cbn; lia|]. intros (j & Hj & ->)%fmap_Some. apply IH in Hj. cbn. lia.
Qed.

Lemma cond_column_lookup tbl r name i :
  row_fits tbl r → cond_column tbl name = Some i → is_Some (r !! i).
Proof.
  intros Hr Hi. unfold cond_column in Hi. apply bind_Some in Hi as (t & -> & Hi).
  apply lookup_lt_is_Some_2. apply find_index_lt in Hi. specialize (Hr t eq_refl). lia.
Qed.

(** On a row that fits, [evalPreds] does not panic and is the conjunction of the
    conditions' verdicts. *)
Lemma evalPreds_ok r tbl preds :
  row_fits tbl r → evalPreds r tbl preds = Ok (forallb (cond_holds r tbl) preds).
Proof.
  intros Hr. induction preds as [|c preds IH]; [done|]. cbn [evalPreds forallb]. unfold cond_holds at 1.
  destruct (AlwaysFalse c); [done|]. destruct (IsJoinCond c); [done|]. cbn [negb andb orb].
  destruct (cond_column tbl (Column c)) as [i|] eqn:Ei; cbn [mbind option_bind]; [|done].
  destruct (cond_column_lookup _ _ _ _ Hr Ei) as [v ->].
  destruct (InList c) as [l|]; [destruct (Bool.eqb _ _)|destruct (evalCond v c)]; done.
Qed.

Lemma matches_groups_ok r tbl groups :
  row_fits tbl r → matches_groups r tbl groups = Ok (existsb (forallb (cond_holds r tbl)) groups).
Proof.
  intros Hr. induction groups as [|g groups IH]; [done|]. cbn [matches_groups existsb].
  rewrite evalPreds_ok by done. cbn [mbind res_bind]. by destruct (forallb _ g).
Qed.

(** The verdict of a clause, as the code gives it; [matchesWhere_correct] below
    relates it to what the clause means. *)
Definition where_holds (r : row) (tbl : Table) (w : option WhereClause) : bool :=
  match w with None => true | Some w => existsb (forallb (cond_holds r (Some tbl))) (Groups w) end.

Lemma matchesWhere_ok r tbl w :
  row_fits (Some tbl) r → matchesWhere r tbl w = Ok (where_holds r tbl w).
Proof. intros Hr. destruct w as [w|]; [|done]. by apply matches_groups_ok. Qed.
End eval.

(** ** What a WHERE clause means *)

(** Text is ordered by its bytes. *)
Inductive text_lt : string → string → Prop :=
  | text_lt_end c t : text_lt EmptyString (String c t)
  | text_lt_head c d s t : (N_of_ascii c < N_of_ascii d)%N → text_lt (String c s) (String d t)
  | text_lt_tail c s t : text_lt s t → text_lt (String c s) (String c t).

(** Values of one type are ordered; those of different types are neither equal
    nor in order. *)
Inductive value_lt : Value → Value → Prop :=
  | value_lt_int m n : m < n → value_lt (VInt m) (VInt n)
  | value_lt_text s t : text_lt s t → value_lt (VText s) (VText t).

Definition in_relation (op : CompareOp) (a b : Value) : Prop :=
  match op with
  | OpEq => a = b
  | OpLt => value_lt a b
  | OpGt => value_lt b a
  | OpLte => value_lt a b ∨ a = b
  | OpGte => value_lt b a ∨ a = b
  end.

Definition proper (v : Value) : Prop := (∃ n, v = VInt n) ∨ ∃ s, v = VText s.

(** A value satisfies the literal side of a condition. *)
Definition meets (v : Value) (c : Condition) : Prop :=
  match InList c with
  | Some l => if Negated c then v ∉ l else v ∈ l
  | None => in_relation (Op c) v (Val c)
  end.

(** The condition of a row: its column is looked up without regard to case.  A
    condition between two columns, or on a column that the table does not have,
    does not count; [AlwaysFalse] stands for a subquery that is not satisfied. *)
Definition satisfies `{Unicode} (tbl : Table) (r : row) (c : Condition) : Prop :=
  AlwaysFalse c = false ∧
  (RHSCol c ≠ EmptyString ∨ ∀ i v, ColIndex (Column c) tbl = Some i → r !! i = Some v → meets v c).

Definition proper_cond (c : Condition) : Prop :=
  match InList c with Some l => Forall proper l | None => proper (Val c) end.

Lemma str_compare_lt s t : str_compare s t < 0 ↔ text_lt s t.
Proof.
  unfold str_compare. revert t. induction s as [|a s IH]; intros [|b t]; cbn [String.compare].
  - split; [lia|inversion 1].
  - split; [constructor|lia].
  - split; [lia|inversion 1].
  - unfold Ascii.compare. destruct (N.compare_spec (N_of_ascii a) (N_of_ascii b)) as [E|E|E].
    + assert (a = b) as -> by (rewrite <-(ascii_N_embedding a), <-(ascii_N_embedding b); congruence).
      rewrite IH. split; [by constructor|]. inversion 1; [lia|done].
    + split; [by constructor|lia].
    + split; [lia|]. inversion 1; subst; lia.
Qed.

Lemma str_compare_flip s t : str_compare t s = - str_compare s t.
Proof. unfold str_compare. rewrite String.compare_antisym. by destruct (String.compare s t). Qed.

Lemma str_compare_eq s t : str_compare s t = 0 ↔ s = t.
Proof.
  unfold str_compare. split.
  - destruct (String.compare s t) eqn:E; [|done..]. intros _. by apply String.compare_eq_iff.
  - intros ->. pose proof (String.compare_antisym t t). by destruct (String.compare t t).
Qed.

Lemma compareVals_meaning a b op : proper a → proper b → compareVals a b op = true ↔ in_relation op a b.
Proof.
  assert (∀ m n, value_lt (VInt m) (VInt n) ↔ m < n) as HI by (split; [by inversion 1|by constructor]).
  assert (∀ s t, value_lt (VText s) (VText t) ↔ str_compare s t < 0) as HT.
  { intros s t. rewrite str_compare_lt. split; [by inversion 1|by constructor]. }
  assert (∀ n s, ¬ value_lt (VInt n) (VText s) ∧ ¬ value_lt (VText s) (VInt n)) as HX by (split; inversion 1).
  intros [[m ->]|[s ->]] [[n ->]|[t ->]]; unfold compareVals; cbn [VType IntVal TextVal VInt VText TypeInt TypeText].
  - rewrite decide_False, decide_True by auto. assert (VInt m = VInt n ↔ m = n) as Hv by (split; [by intros [= ->]|by intros ->]).
    destruct op; cbn [in_relation]; rewrite bool_decide_eq_true, ?HI, ?Hv; lia.
  - rewrite decide_True by done. assert (VInt m = VText t ↔ False) as Hv by (by split; [intros [=]|]).
    pose proof (HX m t). destruct op; cbn [in_relation]; rewrite ?Hv; split; try done; tauto.
  - rewrite decide_True by done. assert (VText s = VInt n ↔ False) as Hv by (by split; [intros [=]|]).
    pose proof (HX n s). destruct op; cbn [in_relation]; rewrite ?Hv; split; try done; tauto.
  - rewrite decide_False, decide_False, decide_True by auto. pose proof (str_compare_flip s t) as Hf.
    assert (VText s = VText t ↔ str_compare s t = 0) as Hv by (rewrite str_compare_eq; split; [by intros [= ->]|by intros ->]).
    destruct op; cbn [in_relation]; rewrite bool_decide_eq_true, ?HT, ?Hv, <-?str_compare_eq; lia.
Qed.


Lemma inListContains_meaning v l : proper v → Forall proper l → inListContains v l = true ↔ v ∈ l.
Proof.
  intros Hv Hl. unfold inListContains. rewrite existsb_exists, Forall_forall in *. split.
  - intros (x & Hx%list_elem_of_In & E). apply compareVals_meaning in E; [|done|by apply Hl]. cbn in E. by subst x.
  - intros Hx. exists v. split; [by apply list_elem_of_In|]. by apply compareVals_meaning.
Qed.

Lemma meets_meaning v c : proper v → proper_cond c →
  match InList c with Some l => negb (Bool.eqb (Negated c) (inListContains v l)) | None => evalCond v c end = true ↔ meets v c.
Proof.
  intros Hv Hc. unfold proper_cond, meets in *. destruct (InList c) as [l|]; [|by apply compareVals_meaning].
  pose proof (inListContains_meaning v l Hv Hc) as Hl. destruct (Negated c), (inListContains v l); cbn;
    (split; [|try done]); intros; try done; rewrite <-?Hl; auto; by rewrite <-Hl in *.
Qed.

Lemma cond_holds_meaning `{Unicode} tbl r c : row_fits (Some tbl) r → Forall proper r → proper_cond c →
  cond_holds r (Some tbl) c = true ↔ satisfies tbl r c.
Proof.
  intros Hfit Hr Hc. unfold cond_holds, satisfies. rewrite andb_true_iff, orb_true_iff, negb_true_iff.
  unfold IsJoinCond. rewrite bool_decide_eq_true. unfold cond_column. cbn [mbind option_bind].
  apply and_iff_compat_l, or_iff_compat_l. destruct (ColIndex (Column c) tbl) as [i|] eqn:Ei; cbn [mbind option_bind]; [|by split].
  destruct (cond_column_lookup (Some tbl) r (Column c) i Hfit Ei) as [v Ev]. rewrite Ev.
  rewrite meets_meaning by (done || by eapply Forall_lookup_1). split; [|by eauto].
  intros Hm ? v' [= <-]. rewrite Ev. by intros [= <-].
Qed.

(** ** Properties *)


(** ** A concrete instance *)

#[local] Existing Instance no_tables.

