(* ===== verification/Agg.v ===== *)
(** * Agg: aggregation, HAVING and ORDER BY ([src/executor/agg.go])

    Pure functions on materialised rows: grouping by the rendered values of the
    GROUP BY columns, the aggregates of each group with 64-bit sums, the HAVING
    filter and the stable sort. *)
From S2P Require Import Prelude BTree GoLib Catalog Ast Eval.
From stdpp Require Import options.
Local Open Scope Z_scope.

Definition selectHasAgg (s : SelectStmt) : bool :=
  bool_decide (0 < length (GroupBy s))%nat || existsb (λ e, bool_decide (is_Some (EAgg e))) (SColumns s).

(** A map from lower-case column names to positions; later columns win. *)
Definition name_index `{Unicode} (names : list string) (m : gmap string nat) : gmap string nat :=
  foldl (λ m ni, <[ToLower ni.1 := ni.2]> m) m (zip names (seq 0 (length names))).

(** ** Grouping *)

Definition render_value (v : Value) : string :=
  if decide (VType v = TypeInt) then ("i" +:+ fmt_d (IntVal v))%string else ("s" +:+ TextVal v)%string.

Fixpoint render_rest (r : row) (idxs : list nat) : res string :=
  match idxs with
  | [] => Ok EmptyString
  | i :: idxs =>
      v ← go_index r i;
      s ← render_rest r idxs;
      Ok (String "000"%char EmptyString +:+ render_value v +:+ s)%string
  end.

Definition rowGroupKey (r : row) (idxs : list nat) : res string :=
  match idxs with
  | [] => Ok EmptyString
  | i :: idxs =>
      v ← go_index r i;
      s ← render_rest r idxs;
      Ok (render_value v +:+ s)%string
  end.

(** The groups in the order of their first rows; [groupPos] finds the position
    of a key in this list. *)
Abbreviation groups := (list (string * list row)).

Definition add_to_group (key : string) (r : row) (gs : groups) : groups :=
  match find_index (λ g, bool_decide (g.1 = key)) gs with
  | Some pos => alter (λ g, (g.1, g.2 ++ [r])) pos gs
  | None => gs ++ [(key, [r])]
  end.

Fixpoint group_loop (idxs : list nat) (rows : list row) (gs : groups) : res groups :=
  match rows with
  | [] => Ok gs
  | r :: rows => key ← rowGroupKey r idxs; group_loop idxs rows (add_to_group key r gs)
  end.

(** ** Aggregates *)

(** The [IntVal] of one column of every row. *)
Fixpoint int_column (idx : nat) (rows : list row) : res (list Z) :=
  match rows with
  | [] => Ok []
  | r :: rows => v ← go_index r idx; vs ← int_column idx rows; Ok (IntVal v :: vs)
  end.

Definition sum_u64 (vs : list Z) : Z := foldl (λ s v, u64 (s + v)) 0 vs.
Definition min_u64 (vs : list Z) : Z := foldl (λ m v, if decide (v < m) then v else m) MaxUint64 vs.
Definition max_u64 (vs : list Z) : Z := foldl (λ m v, if decide (m < v) then v else m) 0 vs.

Section agg.
Context `{Unicode}.

Definition resolveAggCol (agg : AggCall) (rawIdx : gmap string nat) : res nat :=
  match rawIdx !! ToLower (ACol agg) with
  | Some idx => Ok idx
  | None => Err (Errorf "%s: column %q not found" [GStr (AggFunc_String (AFunc agg)); GStr (ACol agg)])
  end.

Definition evalAgg (agg : AggCall) (rows : list row) (rawIdx : gmap string nat) : res Value :=
  match AFunc agg with
  | AggCount => Ok (VInt (Z.of_nat (length rows)))
  | AggSum =>
      idx ← resolveAggCol agg rawIdx;
      vs ← int_column idx rows;
      Ok (VInt (sum_u64 vs))
  | AggAvg =>
      idx ← resolveAggCol agg rawIdx;
      if decide (length rows = 0%nat) then Ok (VInt 0)
      else vs ← int_column idx rows; Ok (VInt (sum_u64 vs / Z.of_nat (length rows)))
  | AggMin =>
      idx ← resolveAggCol agg rawIdx;
      if decide (length rows = 0%nat) then Ok (VInt 0)
      else vs ← int_column idx rows; Ok (VInt (min_u64 vs))
  | AggMax =>
      idx ← resolveAggCol agg rawIdx;
      if decide (length rows = 0%nat) then Ok (VInt 0)
      else vs ← int_column idx rows; Ok (VInt (max_u64 vs))
  end.

Fixpoint computeGroupRow (exprs : list SelectExpr) (rows : list row) (rawIdx : gmap string nat) : res row :=
  match exprs with
  | [] => Ok []
  | e :: exprs =>
      v ← match EAgg e with
          | None =>
              match rawIdx !! ToLower (ECol e) with
              | None => Err (Errorf "column %q not found" [GStr (ECol e)])
              | Some idx => match rows with [] => Ok zeroValue | r :: _ => go_index r idx end
              end
          | Some agg => evalAgg agg rows rawIdx
          end;
      out ← computeGroupRow exprs rows rawIdx;
      Ok (v :: out)
  end.

Fixpoint resolve_group_by (cols : list string) (rawIdx : gmap string nat) : res (list nat) :=
  match cols with
  | [] => Ok []
  | col :: cols =>
      match rawIdx !! ToLower col with
      | None => Err (Errorf "GROUP BY: column %q not found" [GStr col])
      | Some idx => idxs ← resolve_group_by cols rawIdx; Ok (idx :: idxs)
      end
  end.

Fixpoint group_out (exprs : list SelectExpr) (gs : groups) (rawIdx : gmap string nat) : res (list row) :=
  match gs with
  | [] => Ok []
  | g :: gs =>
      r ← computeGroupRow exprs g.2 rawIdx;
      rs ← group_out exprs gs rawIdx;
      Ok (r :: rs)
  end.

Definition aggregateRows (s : SelectStmt) (rawRows : list row) (rawIdx : gmap string nat)
    : res (list row * list string) :=
  let outCols := OutputName <$> SColumns s in
  groupIdxs ← resolve_group_by (GroupBy s) rawIdx;
  gs ← group_loop groupIdxs rawRows [];
  let gs := if decide (length gs = 0%nat ∧ length (GroupBy s) = 0%nat) then [(EmptyString, [])] else gs in
  outRows ← group_out (SColumns s) gs rawIdx;
  Ok (outRows, outCols).

(** ** HAVING *)

Fixpoint andGroupMatchesHaving (r : row) (colIdx : gmap string nat) (conds : list Condition) : res bool :=
  match conds with
  | [] => Ok true
  | c :: conds =>
      if AlwaysFalse c then Ok false
      else
        match colIdx !! ToLower (Column c) with
        | None => Err (Errorf "HAVING: column %q not found in output" [GStr (Column c)])
        | Some idx =>
            v ← go_index r idx;
            match InList c with
            | Some l =>
                if Bool.eqb (Negated c) (inListContains v l) then Ok false
                else andGroupMatchesHaving r colIdx conds
            | None => if evalCond v c then andGroupMatchesHaving r colIdx conds else Ok false
            end
        end
  end.

Fixpoint rowMatchesHaving (r : row) (colIdx : gmap string nat) (gs : list (list Condition)) : res bool :=
  match gs with
  | [] => Ok false
  | g :: gs =>
      ok ← andGroupMatchesHaving r colIdx g;
      if (ok : bool) then Ok true else rowMatchesHaving r colIdx gs
  end.

(** The output names, then the unaliased names of the aggregates. *)
Definition having_index (colNames : list string) (exprs : list SelectExpr) : gmap string nat :=
  foldl (λ m ie, match EAgg ie.1 with
                 | Some a => <[ToLower (OutputName (mkExpr EmptyString (Some a) EmptyString)) := ie.2]> m
                 | None => m
                 end) (name_index colNames ∅) (zip exprs (seq 0 (length exprs))).

Fixpoint having_loop (rows : list row) (outIdx : gmap string nat) (gs : list (list Condition)) : res (list row) :=
  match rows with
  | [] => Ok []
  | r :: rows =>
      pass ← rowMatchesHaving r outIdx gs;
      out ← having_loop rows outIdx gs;
      Ok (if (pass : bool) then r :: out else out)
  end.

Definition applyHaving (rows : list row) (colNames : list string) (having : WhereClause)
    (exprs : list SelectExpr) : res (list row) :=
  having_loop rows (having_index colNames exprs) (Groups having).

(** ** ORDER BY *)

Definition cmpValue (a b : Value) : Z :=
  if decide (VType a = TypeInt) then
    if decide (IntVal a < IntVal b) then -1 else if decide (IntVal b < IntVal a) then 1 else 0
  else str_compare (TextVal a) (TextVal b).

Record sortKey : Type := mkKey { sk_idx : nat; sk_desc : bool }.

Fixpoint resolve_order_by (obs : list OrderByExpr) (colIdx : gmap string nat) : res (list sortKey) :=
  match obs with
  | [] => Ok []
  | ob :: obs =>
      match colIdx !! ToLower (OCol ob) with
      | None => Err (Errorf "ORDER BY: column %q not found" [GStr (OCol ob)])
      | Some idx => ks ← resolve_order_by obs colIdx; Ok (mkKey idx (ODesc ob) :: ks)
      end
  end.

(** The comparison of [sort.SliceStable]; every row of a result has all output
    columns, so the positions are in range. *)
Fixpoint row_less (keys : list sortKey) (a b : row) : bool :=
  match keys with
  | [] => false
  | k :: keys =>
      let cmp := cmpValue (default zeroValue (a !! sk_idx k)) (default zeroValue (b !! sk_idx k)) in
      if decide (cmp = 0) then row_less keys a b
      else if sk_desc k then bool_decide (0 < cmp) else bool_decide (cmp < 0)
  end.

(** [sort.SliceStable]: sorts by [less] and keeps equal elements in order. *)
Fixpoint insert_stable {A} (less : A → A → bool) (x : A) (l : list A) : list A :=
  match l with
  | [] => [x]
  | y :: l => if less y x then y :: insert_stable less x l else x :: y :: l
  end.
Definition sort_stable {A} (less : A → A → bool) (l : list A) : list A := foldr (insert_stable less) [] l.

Definition applyOrderBy (rows : list row) (colNames : list string) (orderBy : list OrderByExpr) : res (list row) :=
  keys ← resolve_order_by orderBy (name_index colNames ∅);
  Ok (sort_stable (row_less keys) rows).

(** [if s.Limit > 0 && len(rows) > s.Limit { rows = rows[:s.Limit] }] *)
Definition apply_limit (n : Z) (rows : list row) : list row :=
  if decide (0 < n ∧ n < Z.of_nat (length rows)) then take (Z.to_nat n) rows else rows.
End agg.
