(* ===== verification/Stats.v ===== *)
(** * Stats: table statistics and the cost model ([src/stats/stats.go])

    The 64-bit floats of the cost model are the binary64 numbers of the Standard
    Library's [SpecFloat].  [math.Log2], and the result of a conversion to
    [uint64] that is out of range, are arguments (class [Math]): Go leaves the
    last bits of the one and all of the other to the machine. *)
From Stdlib Require Import Floats.SpecFloat.
From S2P Require Import Prelude Storage Store Node BTree Cursor GoLib Catalog Ast.
From stdpp Require Import options.
Local Open Scope Z_scope.

Definition statsMagic : Z := 0x53544154.

Record ColumnStat : Type := mkColStat { SName : string; NDistinct : Z; SMin : Z; SMax : Z }.
Record TableStats : Type := mkTableStats { STable : string; RowCount : Z; SCols : list ColumnStat }.

(** ** Floats *)

Abbreviation float64 := spec_float.
Definition float_of_Z (n : Z) : float64 := binary_normalize 53 1024 n 0 false.
Definition fadd : float64 → float64 → float64 := SFadd 53 1024.
Definition fmul : float64 → float64 → float64 := SFmul 53 1024.
Definition fdiv : float64 → float64 → float64 := SFdiv 53 1024.

Class Math : Type := {
  Log2 : float64 → float64;
  uint64_out_of_range : float64 → Z
}.

(** A machine to instantiate the theorems with. *)
#[local] Instance some_math : Math := {| Log2 x := x; uint64_out_of_range _ := 0 |}.

(** The integer part of a finite number: towards zero, and [math.Ceil]. *)
Definition float_trunc (x : float64) : option Z :=
  match x with
  | S754_zero _ => Some 0
  | S754_finite s m e =>
      let a := if decide (0 ≤ e) then Z.pos m * 2 ^ e else Z.pos m / 2 ^ (- e) in
      Some (if s then - a else a)
  | _ => None
  end.

Definition Ceil (x : float64) : float64 :=
  match x with
  | S754_finite s m e =>
      if decide (0 ≤ e) then x
      else
        let z := if s then - (Z.pos m / 2 ^ (- e)) else - ((- Z.pos m) / 2 ^ (- e)) in
        binary_normalize 53 1024 z 0 s
  | _ => x
  end.

(** [uint64(x)] *)
Definition uint64_of_float `{Math} (x : float64) : Z :=
  match float_trunc x with
  | Some z => if decide (is_u64 z) then z else uint64_out_of_range x
  | None => uint64_out_of_range x
  end.

(** ** Cost estimation *)

Definition leafOrder : float64 := float_of_Z 56.

Definition FullScanCost (rowCount : Z) : float64 :=
  if decide (rowCount = 0) then float_of_Z 1 else Ceil (fdiv (float_of_Z rowCount) leafOrder).

Definition IndexLookupCost `{Math} (matchingRows rowCount : Z) : float64 :=
  if decide (rowCount = 0 ∨ matchingRows = 0) then float_of_Z 1
  else
    let logN := Log2 (fadd (float_of_Z rowCount) (float_of_Z 1)) in
    fadd (fmul (fmul (float_of_Z matchingRows) logN) (float_of_Z 2)) logN.

Definition clamp (v : float64) : float64 :=
  if SFltb v (float_of_Z 0) then float_of_Z 0
  else if SFltb (float_of_Z 1) v then float_of_Z 1
  else v.

(** The constant 0.1. *)
Definition float_0_1 : float64 := fdiv (float_of_Z 1) (float_of_Z 10).

Definition EstimateSelectivity (cond : Condition) (cs : option ColumnStat) : float64 :=
  match cs with
  | None => float_0_1
  | Some cs =>
      if decide (NDistinct cs = 0) then float_0_1
      else
        let v := IntVal (Val cond) in
        let span := fadd (float_of_Z (u64 (SMax cs - SMin cs))) (float_of_Z 1) in
        match Op cond with
        | OpEq => fdiv (float_of_Z 1) (float_of_Z (NDistinct cs))
        | OpGt =>
            if decide (SMax cs ≤ v) then float_of_Z 0
            else clamp (fdiv (float_of_Z (u64 (SMax cs - v))) span)
        | OpGte =>
            if decide (SMax cs < v) then float_of_Z 0
            else clamp (fdiv (float_of_Z (u64 (SMax cs - v + 1))) span)
        | OpLt =>
            if decide (v ≤ SMin cs) then float_of_Z 0
            else clamp (fdiv (float_of_Z (u64 (v - SMin cs))) span)
        | OpLte =>
            if decide (v < SMin cs) then float_of_Z 0
            else clamp (fdiv (float_of_Z (u64 (v - SMin cs + 1))) span)
        end
  end.

(** ** Serialization *)

Definition writeColStat (cs : ColumnStat) : list byte :=
  write_str (SName cs) ++ le_enc 8 (NDistinct cs) ++ le_enc 8 (SMin cs) ++ le_enc 8 (SMax cs).

Definition writeTableStats (ts : TableStats) : list byte :=
  write_str (STable ts) ++ le_enc 8 (RowCount ts) ++
  [byte_of_Z (Z.of_nat (length (SCols ts)))] ++ concat (writeColStat <$> SCols ts).

Definition read_u64 : M (list byte) Z := bs ← ReadFull 8; mret (le_dec bs).

Definition readColStat : M (list byte) ColumnStat :=
  name ← read_str;
  nd ← read_u64;
  mn ← read_u64;
  mx ← read_u64;
  mret (mkColStat name nd mn mx).

Definition readTableStats : M (list byte) TableStats :=
  name ← read_str;
  rc ← read_u64;
  ncols ← read_byte;
  cols ← read_n (Z.to_nat ncols) readColStat;
  mret (mkTableStats name rc cols).

(** [StatsDB] without its path; the file's content is an argument of the load
    and the result of the save. *)
Abbreviation StatsDB := (gmap string TableStats).

Section stats.
Context `{Unicode}.

Definition ColStat (name : string) (ts : TableStats) : option ColumnStat :=
  list_find (λ c, ToLower (SName c) = ToLower name) (SCols ts) ≫= λ p, Some p.2.

Definition NewStatsDB : StatsDB := ∅.
Definition Get (tableName : string) (db : StatsDB) : option TableStats := db !! ToLower tableName.
Definition Set_ (ts : TableStats) (db : StatsDB) : StatsDB := <[ToLower (STable ts) := ts]> db.

(** [order]: the tables in the order the map iteration visits them. *)
Definition serialize (order : list TableStats) : list byte :=
  le_enc 4 statsMagic ++ le_enc 2 (Z.of_nat (length order)) ++ concat (writeTableStats <$> order).

Fixpoint read_tables (n : nat) (i : Z) (db : StatsDB) : M (list byte) StatsDB :=
  match n with
  | O => mret db
  | Datatypes.S n =>
      ts ← wrap "read table %d: %w" [GInt i] readTableStats;
      read_tables n (i + 1) (Set_ ts db)
  end.

Definition deserialize : M (list byte) StatsDB :=
  magic ← wrap "read magic: %w" [] (ReadFull 4);
  if decide (le_dec magic ≠ statsMagic) then fail (Errorf "not a stats file" [])
  else
    n ← wrap "read table count: %w" [] (ReadFull 2);
    read_tables (Z.to_nat (le_dec n)) 0 NewStatsDB.

(** [LoadStatsDB] of a file that does not exist or has content [b]. *)
Definition LoadStatsDB (path : string) (b : option (list byte)) : res StatsDB :=
  match b with
  | None => Ok NewStatsDB
  | Some bs => wrap_err "parse stats %q: %w" [GStr path] (deserialize bs).1
  end.

(** ** Collection *)

(** [intSet] and [textSet] are nil maps when they are [None]. *)
Record colTracker : Type := mkTracker {
  intSet : option (gset Z); textSet : option (gset string); tr_min : Z; tr_max : Z; seenAny : bool }.

Definition new_tracker (col : ColumnDef) : colTracker :=
  if decide (CType col = TypeInt) then mkTracker (Some ∅) None MaxUint64 0 false
  else mkTracker None (Some ∅) 0 0 false.

(** One value of a row; a write to a nil map panics. *)
Definition track (v : Value) (tr : colTracker) : res colTracker :=
  if decide (VType v = TypeInt) then
    match intSet tr with
    | None => Panic
    | Some ints =>
        Ok (mkTracker (Some ({[IntVal v]} ∪ ints)) (textSet tr)
              (if decide (IntVal v < tr_min tr) then IntVal v else tr_min tr)
              (if decide (tr_max tr < IntVal v) then IntVal v else tr_max tr) true)
    end
  else if decide (VType v = TypeText) then
    match textSet tr with
    | None => Panic
    | Some texts => Ok (mkTracker (intSet tr) (Some ({[TextVal v]} ∪ texts)) (tr_min tr) (tr_max tr) (seenAny tr))
    end
  else Ok tr.

Fixpoint track_row (vs : list Value) (trs : list colTracker) : res (list colTracker) :=
  match vs, trs with
  | [], trs => Ok trs
  | v :: vs, tr :: trs => tr ← track v tr; trs ← track_row vs trs; Ok (tr :: trs)
  | _ :: _, [] => Panic
  end.

Definition col_stat (col : ColumnDef) (tr : colTracker) : ColumnStat :=
  if decide (CType col = TypeInt) then
    mkColStat (CName col) (Z.of_nat (from_option size 0%nat (intSet tr)))
      (if seenAny tr then tr_min tr else 0) (if seenAny tr then tr_max tr else 0)
  else mkColStat (CName col) (Z.of_nat (from_option size 0%nat (textSet tr))) 0 0.

Section collect.
Context {S : Type} {PS : PageStore S}.

(** The scan loop: the trackers and the row count after the cursor's entries. *)
Fixpoint collect_loop (fuel : nat) (tbl : Table) (cur : Cursor) (trs : list colTracker) (rowCount : Z)
    : M S (list colTracker * Z) :=
  match fuel with
  | O => lift OutOfFuel
  | Datatypes.S fuel =>
      '(r, cur) ← wrap "stats.Collect: scan: %w" [] (Next cur);
      match r with
      | None => mret (trs, rowCount)
      | Some e =>
          row ← lift (Decode tbl (Node.Value e));
          trs ← lift (track_row row trs);
          collect_loop fuel tbl cur trs (u64 (rowCount + 1))
      end
  end.

Definition Collect (fuel : nat) (tbl : Table) : M S TableStats :=
  bt ← wrap "stats.Collect: open B-Tree: %w" [] (BTree.Open 1);
  cur ← wrap "stats.Collect: cursor: %w" [] (on_tree bt (NewCursor fuel 0 MaxUint64));
  '(trs, n) ← collect_loop fuel tbl cur (new_tracker <$> Columns tbl) 0;
  mret (mkTableStats (ToLower (TName tbl)) n (zip_with col_stat (Columns tbl) trs)).
End collect.
End stats.
