(* ===== verification/Planner.v ===== *)
(** * Planner: physical plans ([src/planner/plan.go], [src/planner/planner.go])

    A SELECT without aggregates becomes a tree of [PhysicalNode]s.  The access
    path of an AND group is chosen by rule or by cost; what the group's
    conditions keep of the access path is a [Filter].  Tables and index
    definitions are shared by pointer in the code and never written by the
    planner, so they are values here. *)
From Stdlib Require Import Floats.SpecFloat.
From S2P Require Import Prelude GoLib Catalog Ast Stats.
From stdpp Require Import pretty.
From stdpp Require Import options.
Local Open Scope Z_scope.

Inductive PhysicalNode : Type :=
  | IndexScan (tbl : Table) (MinKey MaxKey : Z)
  | Filter (Child : PhysicalNode) (Preds : list Condition)
  | Project (Child : PhysicalNode) (Cols : list string) (ColIdxs : list nat)
  | LimitN (Child : PhysicalNode) (N : Z)
  | IndexLookup (tbl : Table) (idx : IndexDef) (MinKey MaxKey : Z)
  | Union (Children : list PhysicalNode) (PkIdx : nat)
  | NestedLoopJoin (Left_ Right_ : PhysicalNode) (On : list Condition) (LeftSchema RightSchema : list string).

(** ** Key ranges *)

Definition max64 (a b : Z) : Z := if decide (b < a) then a else b.
Definition min64 (a b : Z) : Z := if decide (a < b) then a else b.

Definition isSimpleCond (c : Condition) : bool :=
  negb (AlwaysFalse c) && bool_decide (¬ is_Some (InList c)) && bool_decide (¬ is_Some (InQuery c)) &&
  bool_decide (¬ is_Some (ExistsQuery c)) && bool_decide (¬ is_Some (ScalarQuery c)).

Definition condToRange (cond : Condition) : Z * Z :=
  let v := IntVal (Val cond) in
  match Op cond with
  | OpEq => (v, v)
  | OpGt => if decide (v < MaxUint64) then (v + 1, MaxUint64) else (1, 0)
  | OpGte => (v, MaxUint64)
  | OpLt => if decide (0 < v) then (0, v - 1) else (1, 0)
  | OpLte => (0, v)
  end.

(** [conds] without position [i]. *)
Definition withoutIdx (conds : list Condition) (i : nat) : list Condition :=
  if decide (length conds = 1%nat) then [] else take i conds ++ drop (i + 1) conds.

(** The narrowing of [minKey, maxKey] by one condition on the primary key. *)
Definition narrow (cond : Condition) (range : Z * Z) : Z * Z :=
  let '(minKey, maxKey) := range in
  let v := IntVal (Val cond) in
  match Op cond with
  | OpEq => (max64 minKey v, min64 maxKey v)
  | OpGt => if decide (v < MaxUint64) then (max64 minKey (v + 1), maxKey) else (1, 0)
  | OpGte => (max64 minKey v, maxKey)
  | OpLt => if decide (0 < v) then (minKey, min64 maxKey (v - 1)) else (1, 0)
  | OpLte => (minKey, min64 maxKey v)
  end.

Section planner.
Context `{Unicode} `{Math}.

(** The conditions [classifyGroup] turns into bounds. *)
Definition is_pk_cond (pkName : string) (cond : Condition) : bool :=
  isSimpleCond cond && bool_decide (ToLower (Column cond) = pkName) &&
  bool_decide (VType (Val cond) = TypeInt).

Fixpoint classify_loop (pkName : string) (conds : list Condition) (range : Z * Z) (post : list Condition)
    : Z * Z * list Condition :=
  match conds with
  | [] => (range, post)
  | cond :: conds =>
      if is_pk_cond pkName cond then classify_loop pkName conds (narrow cond range) post
      else classify_loop pkName conds range (post ++ [cond])
  end.

Definition classifyGroup (tbl : Table) (conds : list Condition) : Z * Z * list Condition :=
  match PrimaryKeyIndex tbl ≫= λ i, Columns tbl !! i with
  | None => (0, MaxUint64, conds)
  | Some pk => classify_loop (ToLower (CName pk)) conds (0, MaxUint64) []
  end.

(** ** The plan of an AND group *)

Definition with_filter (branch : PhysicalNode) (preds : list Condition) : PhysicalNode :=
  if decide (0 < length preds)%nat then Filter branch preds else branch.

Definition scan_plan (tbl : Table) (conds : list Condition) : PhysicalNode :=
  let '(minKey, maxKey, post) := classifyGroup tbl conds in
  with_filter (IndexScan tbl minKey maxKey) post.

Definition lookup_plan (tbl : Table) (def : IndexDef) (conds : list Condition) (i : nat) (cond : Condition)
    : PhysicalNode :=
  let '(mn, mx) := condToRange cond in
  with_filter (IndexLookup tbl def mn mx) (withoutIdx conds i).

(** The index that could serve a condition. *)
Definition cond_index (tbl : Table) (cond : Condition) : option IndexDef :=
  if negb (isSimpleCond cond) || IsJoinCond cond then None
  else
    match IndexForColumn (Column cond) tbl with
    | None => None
    | Some def => if decide (VType (Val cond) ≠ TypeInt) then None else Some def
    end.

Fixpoint rule_loop (tbl : Table) (all conds : list Condition) (i : nat) : PhysicalNode :=
  match conds with
  | [] => scan_plan tbl all
  | cond :: conds =>
      match cond_index tbl cond with
      | Some def => lookup_plan tbl def all i cond
      | None => rule_loop tbl all conds (i + 1)
      end
  end.

Definition ruleBasedPlanGroup (tbl : Table) (conds : list Condition) : PhysicalNode :=
  rule_loop tbl conds conds 0.

(** The cheapest index lookup, if one is cheaper than the full scan. *)
Fixpoint cost_loop (tbl : Table) (ts : TableStats) (conds : list Condition) (i : nat)
    (bestCost : float64) (bestIdx : option nat) : option nat :=
  match conds with
  | [] => bestIdx
  | cond :: conds =>
      match cond_index tbl cond with
      | None => cost_loop tbl ts conds (i + 1) bestCost bestIdx
      | Some def =>
          let cs := ColStat (Column cond) ts in
          let sel := EstimateSelectivity cond cs in
          let matchingRows := uint64_of_float (fmul sel (float_of_Z (RowCount ts))) in
          let matchingRows := if decide (matchingRows = 0) then 1 else matchingRows in
          let ilCost := IndexLookupCost matchingRows (RowCount ts) in
          if SFltb ilCost bestCost then cost_loop tbl ts conds (i + 1) ilCost (Some i)
          else cost_loop tbl ts conds (i + 1) bestCost bestIdx
      end
  end.

Definition costBasedPlanGroup (tbl : Table) (conds : list Condition) (ts : TableStats) : res PhysicalNode :=
  match cost_loop tbl ts conds 0 (FullScanCost (RowCount ts)) None with
  | Some i =>
      match conds !! i with
      | None => Panic
      | Some cond =>
          match IndexForColumn (Column cond) tbl with
          | None => Panic
          | Some def => Ok (lookup_plan tbl def conds i cond)
          end
      end
  | None => Ok (scan_plan tbl conds)
  end.

Definition planGroup (tbl : Table) (conds : list Condition) (ts : option TableStats) : res PhysicalNode :=
  match ts with
  | Some ts => costBasedPlanGroup tbl conds ts
  | None => Ok (ruleBasedPlanGroup tbl conds)
  end.

(** ** Column resolution *)

Definition exprCols (exprs : list SelectExpr) : list string := ECol <$> exprs.

(** [len(cols) == 1 && cols[0] == "*"] *)
Definition is_star (cols : list string) : bool := bool_decide (cols = ["*"%string]).

Definition resolveColumnsSingle (tbl : Table) (cols : list string) : res (list string * list nat) :=
  if is_star cols then Ok (CName <$> Columns tbl, seq 0 (length (Columns tbl)))
  else
    foldl (λ acc col,
      '(names, idxs) ← acc;
      match ColIndex col tbl with
      | None => Err (Errorf "column %q not found in table %q" [GStr col; GStr (TName tbl)])
      | Some idx =>
          match Columns tbl !! idx with
          | None => Panic
          | Some c => Ok (names ++ [CName c], idxs ++ [idx])
          end
      end) (Ok ([], [])) cols.

Definition allTableRefs (s : SelectStmt) : list TableRef := From s ++ (JTable <$> Joins s).

Definition qualifySchema (tbl : Table) (qualifier : string) : list string :=
  (λ c, (qualifier +:+ "." +:+ CName c)%string) <$> Columns tbl.

(** The bare-name search of [findTableForCond]: -1 for none, -2 for several. *)
Fixpoint find_bare (col : string) (tables : list Table) (i found : Z) : Z :=
  match tables with
  | [] => found
  | tbl :: tables =>
      match ColIndex col tbl with
      | None => find_bare col tables (i + 1) found
      | Some _ => if decide (0 ≤ found) then -2 else find_bare col tables (i + 1) i
      end
  end.

Definition findTableForCond (col : string) (allRefs : list TableRef) (tables : list Table) : Z :=
  match IndexByte "."%char col with
  | Some dot =>
      let qualifier := ToLower (str_take dot col) in
      match find_index (λ ref, bool_decide (ToLower (Qualifier ref) = qualifier)) allRefs with
      | Some i => Z.of_nat i
      | None => -1
      end
  | None => find_bare col tables 0 (-1)
  end.

(** The part of a schema name after its last dot is [name], folding case. *)
Definition bare_is (name s : string) : bool :=
  match LastIndexByte "."%char s with
  | Some dot => EqualFold (str_drop (dot + 1) s) name
  | None => false
  end.

Definition colInSchema (name : string) (schema : list string) : bool :=
  existsb (λ s, EqualFold s name || bare_is name s) schema.

Definition condConnects (cond : Condition) (leftSchema rightSchema : list string) : bool :=
  let lInLeft := colInSchema (Column cond) leftSchema in
  let rInRight := colInSchema (RHSCol cond) rightSchema in
  let lInRight := colInSchema (Column cond) rightSchema in
  let rInLeft := colInSchema (RHSCol cond) leftSchema in
  (lInLeft && rInRight) || (lInRight && rInLeft).

Definition bareCol (col : string) : string :=
  match IndexByte "."%char col with Some dot => str_drop (dot + 1) col | None => col end.

Fixpoint find_suffix (name : string) (schema : list string) (i : nat) (match_ : option nat) : res nat :=
  match schema with
  | [] =>
      match match_ with
      | Some m => Ok m
      | None => Err (Errorf "column %q not found" [GStr name])
      end
  | s :: schema =>
      if bare_is name s then
        match match_ with
        | Some _ => Err (Errorf "column %q is ambiguous; qualify it with a table alias" [GStr name])
        | None => find_suffix name schema (i + 1) (Some i)
        end
      else find_suffix name schema (i + 1) match_
  end.

Definition findInSchema (name : string) (schema : list string) : res nat :=
  match find_index (λ s, EqualFold s name) schema with
  | Some i => Ok i
  | None => find_suffix name schema 0 None
  end.

(** The columns of the schema with qualifier [prefix], in order. *)
Definition qualified_by (prefix : string) (schema : list string) : list (string * nat) :=
  List.filter (λ si, match LastIndexByte "."%char si.1 with
                     | Some dot => bool_decide (ToLower (str_take dot si.1) = prefix)
                     | None => false
                     end) (zip schema (seq 0 (length schema))).

Definition resolve_one (schema : list string) (col : string) : res (list string * list nat) :=
  if HasSuffix ".*" col then
    let qualifier := str_take (String.length col - 2) col in
    match qualified_by (ToLower qualifier) schema with
    | [] => Err (Errorf "no columns found for qualifier %q" [GStr qualifier])
    | sis => Ok (sis.*1, sis.*2)
    end
  else
    idx ← findInSchema col schema;
    let outName := match LastIndexByte "."%char col with Some dot => str_drop (dot + 1) col | None => col end in
    Ok ([outName], [idx]).

Definition resolveColumnsMulti (cols schema : list string) : res (list string * list nat) :=
  if is_star cols then Ok (schema, seq 0 (length schema))
  else
    foldl (λ acc col,
      '(names, idxs) ← acc;
      '(ns, is_) ← resolve_one schema col;
      Ok (names ++ ns, idxs ++ is_)) (Ok ([], [])) cols.

(** ** SELECT statements *)

Definition statsForTable (statsMap : option StatsDB) (name : string) : option TableStats :=
  m ← statsMap; m !! ToLower name.

Definition with_limit (s : SelectStmt) (root : PhysicalNode) : PhysicalNode :=
  if decide (0 < Limit s) then LimitN root (Limit s) else root.

Fixpoint mapM_res {A B} (f : A → res B) (l : list A) : res (list B) :=
  match l with
  | [] => Ok []
  | x :: l => y ← f x; ys ← mapM_res f l; Ok (y :: ys)
  end.

Definition planSingleTable (s : SelectStmt) (tbl : Table) (ts : option TableStats) : res PhysicalNode :=
  '(cols, idxs) ← resolveColumnsSingle tbl (exprCols (SColumns s));
  branches ← match Where s with
             | None => Ok [IndexScan tbl 0 MaxUint64]
             | Some w => mapM_res (λ group, planGroup tbl group ts) (Groups w)
             end;
  root ← match branches with
         | [b] => Ok b
         | _ =>
             match PrimaryKeyIndex tbl with
             | None => Err (Errorf "planner: OR queries require a primary key column" [])
             | Some pkIdx => Ok (Union branches pkIdx)
             end
         end;
  Ok (Project (with_limit s root) cols idxs).

Definition set_Column (col : string) (c : Condition) : Condition :=
  mkCond col (Op c) (Val c) (RHSCol c) (InList c) (InQuery c) (ExistsQuery c) (ScalarQuery c)
    (Negated c) (AlwaysFalse c).

(** The loop over the conditions of the WHERE group: the join conditions and the
    filters of each table. *)
Fixpoint classify_where (allRefs : list TableRef) (tables : list Table) (conds : list Condition)
    (joinConds : list Condition) (filters : list (list Condition))
    : res (list Condition * list (list Condition)) :=
  match conds with
  | [] => Ok (joinConds, filters)
  | cond :: conds =>
      if IsJoinCond cond then classify_where allRefs tables conds (joinConds ++ [cond]) filters
      else
        let tblIdx := findTableForCond (Column cond) allRefs tables in
        if decide (tblIdx < 0) then
          Err (Errorf "planner: cannot resolve column %q in WHERE clause" [GStr (Column cond)])
        else
          let c := set_Column (bareCol (Column cond)) cond in
          classify_where allRefs tables conds joinConds (alter (λ l, l ++ [c]) (Z.to_nat tblIdx) filters)
  end.

Definition leaf_plan (statsMap : option StatsDB) (tf : Table * list Condition) : res PhysicalNode :=
  let '(tbl, filters) := tf in
  if decide (0 < length filters)%nat then planGroup tbl filters (statsForTable statsMap (TName tbl))
  else Ok (IndexScan tbl 0 MaxUint64).

(** The left-deep tree over the remaining tables. *)
Fixpoint join_tree (leaves : list (PhysicalNode * list string)) (root : PhysicalNode) (leftSchema : list string)
    (remaining : list Condition) : PhysicalNode * list string :=
  match leaves with
  | [] => (root, leftSchema)
  | (leaf, rightSchema) :: leaves =>
      let on := List.filter (λ c, condConnects c leftSchema rightSchema) remaining in
      let rest := List.filter (λ c, negb (condConnects c leftSchema rightSchema)) remaining in
      join_tree leaves (NestedLoopJoin root leaf on leftSchema rightSchema) (leftSchema ++ rightSchema) rest
  end.

Definition planMultiTable (s : SelectStmt) (tables : list Table) (statsMap : option StatsDB)
    : res PhysicalNode :=
  let allRefs := allTableRefs s in
  if decide (length allRefs ≠ length tables) then
    Err (Errorf "planner: expected %d tables, got %d"
           [GInt (Z.of_nat (length allRefs)); GInt (Z.of_nat (length tables))])
  else
    let schemas := zip_with (λ tbl ref, qualifySchema tbl (Qualifier ref)) tables allRefs in
    let no_filters := replicate (length tables) [] in
    '(joinConds, filters) ←
      match Where s with
      | None => Ok ([], no_filters)
      | Some w =>
          match Groups w with
          | [] => Panic
          | [g] => classify_where allRefs tables g [] no_filters
          | _ => Err (Errorf "planner: OR in WHERE is not supported for multi-table queries (use separate queries)" [])
          end
      end;
    let joinConds := joinConds ++ (JOn <$> Joins s) in
    leafPlans ← mapM_res (leaf_plan statsMap) (zip tables filters);
    match zip leafPlans schemas with
    | [] => Panic
    | (root, leftSchema) :: leaves =>
        let '(root, combined) := join_tree leaves root leftSchema joinConds in
        '(projCols, projIdxs) ← resolveColumnsMulti (exprCols (SColumns s)) combined;
        Ok (Project (with_limit s root) projCols projIdxs)
    end.

Definition Plan (s : SelectStmt) (tables : list Table) (statsMap : option StatsDB) : res PhysicalNode :=
  match From s, Joins s with
  | [ref], [] =>
      match tables with
      | [] => Panic
      | tbl :: _ => planSingleTable s tbl (statsForTable statsMap (RName ref))
      end
  | _, _ => planMultiTable s tables statsMap
  end.

(** ** EXPLAIN *)

Fixpoint str_repeat (s : string) (n : nat) : string :=
  match n with O => EmptyString | S n => (s +:+ str_repeat s n)%string end.
Definition indent (depth : nat) : string := str_repeat "  " depth.

Definition range_desc (mn mx : Z) : string :=
  (if decide (mn = mx) then "key=" +:+ fmt_d mn +:+ "  (point lookup)"
   else if decide (mn = 0 ∧ mx = MaxUint64) then "range=[full scan]"
   else "range=[" +:+ fmt_d mn +:+ ".." +:+ fmt_d mx +:+ "]")%string.

Definition cond_desc (c : Condition) : string :=
  (Column c +:+ " " +:+ CompareOp_String (Op c) +:+ " " +:+
   (if IsJoinCond c then RHSCol c else Value_String (Val c)))%string.

Fixpoint explainLines (depth : nat) (node : PhysicalNode) : list string :=
  match node with
  | IndexScan tbl mn mx =>
      [(indent depth +:+ "IndexScan  table=" +:+ ToLower (TName tbl) +:+ "  " +:+ range_desc mn mx)%string]
  | Filter child preds =>
      (indent depth +:+ "Filter  [" +:+ String.concat ", " (cond_desc <$> preds) +:+ "]")%string
      :: explainLines (depth + 1) child
  | Project child cols _ =>
      (indent depth +:+ "Project  [" +:+ String.concat ", " cols +:+ "]")%string :: explainLines (depth + 1) child
  | LimitN child n => (indent depth +:+ "Limit  " +:+ pretty n)%string :: explainLines (depth + 1) child
  | IndexLookup tbl idx mn mx =>
      [(indent depth +:+ "IndexLookup  table=" +:+ ToLower (TName tbl) +:+ "  index=" +:+ IName idx +:+
        "  " +:+ range_desc mn mx)%string]
  | Union children _ =>
      (indent depth +:+ "Union  (" +:+ pretty (length children) +:+ " branches, dedup by pk)")%string
      :: concat (explainLines (depth + 1) <$> children)
  | NestedLoopJoin l r on _ _ =>
      let parts := (λ c, (Column c +:+ " " +:+ CompareOp_String (Op c) +:+ " " +:+ RHSCol c)%string) <$> on in
      let on := String.concat ", " parts in
      let on := if decide (on = EmptyString) then "cross"%string else on in
      (indent depth +:+ "NestedLoopJoin  on=[" +:+ on +:+ "]")%string
      :: explainLines (depth + 1) l ++ explainLines (depth + 1) r
  end.

Definition Explain (root : PhysicalNode) : string :=
  String.concat (String "010"%char EmptyString) (explainLines 0 root).
End planner.
