(* ===== verification/Db.v ===== *)
(** * Db: the open database and its handles ([src/executor/executor.go])

    [DB] is the state every statement works on.  A table or index file is in
    the directory while it is closed and inside its pager, registered with the
    buffer pool, while it is open.  [TxPager] objects are shared by pointer
    (the map of a transaction, the page store of an operator, the B-trees of a
    statement), so they live in a heap and are named by their position in it.
    A page store is a handle: the pool's view of a file, or a [TxPager]. *)
From S2P Require Import Prelude Storage Disk Store Pager Mvcc TxPager BufferPool Node BTree.
From S2P Require Import Cursor Wal GoLib Catalog Ast Stats.
From stdpp Require Import options.
Local Open Scope Z_scope.

(** A [TxPager] over the pool's view of file [tb_fid]. *)
Record TxBuf : Type := mkTxBuf { tb_fid : Z; tb_dirty : gmap Z Page; tb_allocated : list Z }.

Record activeTx : Type := mkActiveTx { tx_xid : Z; tx_snap : Snapshot; tx_pagers : gmap string nat }.

(** The two registries [openTbls] and [openIdxs]. *)
Inductive Registry : Type := OpenTbls | OpenIdxs.
#[export] Instance Registry_eq_dec : EqDecision Registry.
Proof. solve_decision. Defined.

Record DB : Type := mkDB {
  dir : directory;
  cat : Catalog;
  statsDB : StatsDB;
  stats_file : option (list byte);
  wal : WAL;
  pool : Pool;
  txMgr : TxManager;
  openTbls : gmap string Z;
  openIdxs : gmap string Z;
  txns : gmap Z activeTx;
  txheap : list TxBuf
}.

Definition set_dir x db := mkDB x (cat db) (statsDB db) (stats_file db) (wal db) (pool db) (txMgr db) (openTbls db) (openIdxs db) (txns db) (txheap db).
Definition set_cat x db := mkDB (dir db) x (statsDB db) (stats_file db) (wal db) (pool db) (txMgr db) (openTbls db) (openIdxs db) (txns db) (txheap db).
Definition set_stats x f db := mkDB (dir db) (cat db) x f (wal db) (pool db) (txMgr db) (openTbls db) (openIdxs db) (txns db) (txheap db).
Definition set_wal x db := mkDB (dir db) (cat db) (statsDB db) (stats_file db) x (pool db) (txMgr db) (openTbls db) (openIdxs db) (txns db) (txheap db).
Definition set_pool x db := mkDB (dir db) (cat db) (statsDB db) (stats_file db) (wal db) x (txMgr db) (openTbls db) (openIdxs db) (txns db) (txheap db).
Definition set_txMgr x db := mkDB (dir db) (cat db) (statsDB db) (stats_file db) (wal db) (pool db) x (openTbls db) (openIdxs db) (txns db) (txheap db).
Definition set_txns x db := mkDB (dir db) (cat db) (statsDB db) (stats_file db) (wal db) (pool db) (txMgr db) (openTbls db) (openIdxs db) x (txheap db).
Definition set_txheap x db := mkDB (dir db) (cat db) (statsDB db) (stats_file db) (wal db) (pool db) (txMgr db) (openTbls db) (openIdxs db) (txns db) x.
Definition set_registry (k : Registry) x db :=
  match k with
  | OpenTbls => mkDB (dir db) (cat db) (statsDB db) (stats_file db) (wal db) (pool db) (txMgr db) x (openIdxs db) (txns db) (txheap db)
  | OpenIdxs => mkDB (dir db) (cat db) (statsDB db) (stats_file db) (wal db) (pool db) (txMgr db) (openTbls db) x (txns db) (txheap db)
  end.
Definition registry (k : Registry) (db : DB) : gmap string Z :=
  match k with OpenTbls => openTbls db | OpenIdxs => openIdxs db end.

(** Calls on a component of the database. *)
Definition on_cat {A} (m : M Catalog A) : M DB A := λ db, let '(r, x) := m (cat db) in (r, set_cat x db).
Definition on_wal {A} (m : M WAL A) : M DB A := λ db, let '(r, x) := m (wal db) in (r, set_wal x db).
Definition on_bp {A} (fid : Z) (m : M BufPager A) : M DB A := λ db,
  let '(r, bp) := m (mkBufPager (pool db) fid) in (r, set_pool (bp_pool bp) db).

(** A call on the [TxPager] at [ptr]. *)
Definition on_tx {A} (ptr : nat) (m : M (TxPager BufPager) A) : M DB A := λ db,
  match txheap db !! ptr with
  | None => (Panic, db)
  | Some b =>
      let '(r, tp) := m (mkTxPager (mkBufPager (pool db) (tb_fid b)) (tb_dirty b) (tb_allocated b)) in
      (r, set_txheap (<[ptr := mkTxBuf (tb_fid b) (dirty tp) (allocated tp)]> (txheap db))
            (set_pool (bp_pool (base tp)) db))
  end.

(** [_ = m]: the error is dropped. *)
Definition ignore_err {S A} (m : M S A) : M S unit := λ s,
  match m s with
  | (Ok _, s) | (Err _, s) => (Ok tt, s)
  | (Panic, s) => (Panic, s)
  | (OutOfFuel, s) => (OutOfFuel, s)
  end.

(** When [m] fails, [undo] runs before its error is returned. *)
Definition on_error {S A} (undo : M S unit) (m : M S A) : M S A := λ s,
  match m s with
  | (Err e, s) => (_ ← undo; fail e) s
  | r => r
  end.

(** ** Page stores and trees *)

Inductive Handle : Type := HBuf (fid : Z) | HTx (ptr : nat).

Definition on_store {A} (h : Handle) (m : ∀ S : Type, PageStore S → M S A) : M DB A :=
  match h with
  | HBuf fid => on_bp fid (m BufPager _)
  | HTx ptr => on_tx ptr (m (TxPager BufPager) _)
  end.

(** A [*btree.BTree]: its page store, header page and root. *)
Record Tree : Type := mkTree { t_store : Handle; t_pages : Z * Z }.

Definition open_tree (h : Handle) : M DB Tree :=
  t ← on_store h (λ S _, BTree.Open (S := S) 1); mret (mkTree h t).

(** A call on a tree; the root may have moved. *)
Definition on_bt {A} (t : Tree) (m : ∀ S : Type, PageStore S → M (BTree S) A) : M DB (A * Tree) :=
  on_store (t_store t) (λ S PS s,
    let '(r, bt) := m S PS (mkBTree s (t_pages t).1 (t_pages t).2) in
    ((λ a, (a, mkTree (t_store t) (headerPage bt, rootID bt))) <$> r, pg bt)).

(** ** Files *)

Section db.
Context `{Unicode}.

Definition file_ext (k : Registry) : string := match k with OpenTbls => ".db" | OpenIdxs => ".idx" end.

(** [tablePath] and [indexPath], without the directory. *)
Definition file_path (k : Registry) (name : string) : list byte :=
  String.list_byte_of_string (ToLower name +:+ file_ext k)%string.

(** The content of a file, whether it is open or not. *)
Definition read_file (k : Registry) (name : string) (db : DB) : list byte :=
  match registry k db !! ToLower name ≫= λ fid, files (pool db) !! fid with
  | Some pg => f_bytes (Pager.file pg)
  | None => default [] (dir db !! file_path k name)
  end.

(** The same file rewritten behind the back of the pager that may have it open. *)
Definition write_file (k : Registry) (name : string) (b : list byte) (db : DB) : DB :=
  match registry k db !! ToLower name with
  | Some fid =>
      match files (pool db) !! fid with
      | Some pg =>
          set_pool (set_files (<[fid := set_file (mkFile b (f_open (Pager.file pg)) (f_credit (Pager.file pg))) pg]>
                                 (files (pool db))) (pool db)) db
      | None => db
      end
  | None => set_dir (<[file_path k name := b]> (dir db)) db
  end.

Definition open_msg (k : Registry) : string :=
  match k with OpenTbls => "open table %q: %w" | OpenIdxs => "open index file %q: %w" end.

(** [getOrOpenTable] and [getOrOpenIndex] *)
Definition getOrOpen (k : Registry) (name : string) : M DB Z :=
  db ← get_state;
  let key := ToLower name in
  match registry k db !! key with
  | Some fid => mret fid
  | None =>
      match Pager.Open (default [] (dir db !! file_path k name)) with
      | (Ok pg, _) =>
          let '(fid, p) := Register pg (pool db) in
          _ ← put_state (set_registry k (<[key := fid]> (registry k db))
                (set_pool p (set_dir (delete (file_path k name) (dir db)) db)));
          mret fid
      | (r, fl) =>
          _ ← put_state (set_dir (<[file_path k name := f_bytes fl]> (dir db)) db);
          lift (wrap_err (open_msg k) [GStr name] (match r with Err e => Err e | Panic => Panic | _ => OutOfFuel end))
      end
  end.
Definition getOrOpenTable : string → M DB Z := getOrOpen OpenTbls.
Definition getOrOpenIndex : string → M DB Z := getOrOpen OpenIdxs.

(** [pager.NewTxPager] *)
Definition newTxPager (fid : Z) : M DB nat := λ db,
  (Ok (length (txheap db)), set_txheap (txheap db ++ [mkTxBuf fid ∅ []]) db).

(** A file closed: its pages leave the pool, its pager writes the meta page and
    the bytes go back to the directory. *)
Definition close_file (k : Registry) (key : string) (fid : Z) : M DB unit :=
  db ← get_state;
  let pg := files (pool db) !! fid in
  _ ← put_state (set_registry k (delete key (registry k db)) (set_pool (Unregister fid (pool db)) db));
  match pg with
  | None => lift Panic
  | Some pg =>
      let '(r, pg) := Pager.Close pg in
      _ ← modify (λ db, set_pool (set_strays (<[fid := pg]> (strays (pool db))) (pool db)) db);
      _ ← modify (λ db, set_dir (<[String.list_byte_of_string (key +:+ file_ext k)%string := f_bytes (Pager.file pg)]> (dir db)) db);
      ignore_err (lift r)
  end.

(** ** Transactions of a goroutine *)

Section goroutine.
Context (gid : Z).

Definition goroutineTx (db : DB) : option activeTx := txns db !! gid.
Definition setGoroutineTx (tx : activeTx) (db : DB) : DB := set_txns (<[gid := tx]> (txns db)) db.
Definition clearGoroutineTx (db : DB) : DB := set_txns (delete gid (txns db)) db.
Definition InTransaction (db : DB) : bool := bool_decide (is_Some (goroutineTx db)).

Definition tx_key (k : Registry) (name : string) : string :=
  match k with OpenTbls => ToLower name | OpenIdxs => ("idx:" +:+ ToLower name)%string end.

(** [txPagerForTable] and [txPagerForIndex]; without a transaction the code
    dereferences a nil pointer. *)
Definition txPagerFor (k : Registry) (name : string) : M DB nat :=
  db ← get_state;
  match goroutineTx db with
  | None => lift Panic
  | Some tx =>
      let key := tx_key k name in
      match tx_pagers tx !! key with
      | Some ptr => mret ptr
      | None =>
          fid ← getOrOpen k name;
          ptr ← newTxPager fid;
          _ ← modify (setGoroutineTx (mkActiveTx (tx_xid tx) (tx_snap tx) (<[key := ptr]> (tx_pagers tx))));
          mret ptr
      end
  end.
Definition txPagerForTable : string → M DB nat := txPagerFor OpenTbls.
Definition txPagerForIndex : string → M DB nat := txPagerFor OpenIdxs.

Definition pageStoreFor (tableName : string) : M DB Handle :=
  db ← get_state;
  if InTransaction db then ptr ← txPagerForTable tableName; mret (HTx ptr)
  else fid ← getOrOpenTable tableName; mret (HBuf fid).
End goroutine.
End db.

(** ** Commit and rollback *)

(** The order in which loop number [n] of this component visits a map. *)
Class MapOrder : Type := {
  map_order : ∀ (n : nat) {A : Type}, list A → list A;
  map_order_perm n A (l : list A) : map_order n l ≡ₚ l
}.

Section commit.
Context `{Unicode} `{MapOrder}.

(** The name of the file a key of [tx.pagers] stands for. *)
Definition key_file (key : string) : list byte :=
  String.list_byte_of_string
    (if String.prefix "idx:" key then str_drop 4 key +:+ ".idx" else key +:+ ".db")%string.

(** The log records of one [TxPager]'s pages. *)
Fixpoint log_pages (xid : Z) (fileName : list byte) (ps : list Page) : M DB unit :=
  match ps with
  | [] => mret tt
  | p :: ps =>
      _ ← on_wal (AppendWrite xid fileName (Storage.PageID (Header p)) (Encode p));
      log_pages xid fileName ps
  end.

Fixpoint log_pagers (xid : Z) (kps : list (string * nat)) : M DB unit :=
  match kps with
  | [] => mret tt
  | (key, ptr) :: kps =>
      dirty ← on_tx ptr (λ tp, (Ok (DirtyPages tp), tp));
      _ ← log_pages xid (key_file key) (map_order 1 dirty);
      log_pagers xid kps
  end.

Fixpoint flush_pagers (ptrs : list nat) : M DB unit :=
  match ptrs with
  | [] => mret tt
  | ptr :: ptrs =>
      _ ← on_tx ptr (λ tp, Flush (map_order 3 (DirtyPages tp)) tp);
      flush_pagers ptrs
  end.

(** [wal.Sync]: the log's bytes are already in the file. *)
Definition wal_Sync : M WAL unit := λ w, (if f_open (f w) then Ok tt else Err ErrIO, w).

Definition commitTx (xid : Z) (pagers : gmap string nat) : M DB unit :=
  _ ← log_pagers xid (map_order 0 (map_to_list pagers));
  _ ← on_wal (AppendCommit xid);
  _ ← on_wal wal_Sync;
  flush_pagers (map_order 2 (map_to_list pagers).*2).

(** The loops that drop the buffered pages of every [TxPager]. *)
Fixpoint rollback_pagers (ptrs : list nat) : M DB unit :=
  match ptrs with
  | [] => mret tt
  | ptr :: ptrs => _ ← ignore_err (on_tx ptr Rollback); rollback_pagers ptrs
  end.

Definition rollbackAll (pagers : gmap string nat) : M DB unit :=
  rollback_pagers (map_order 4 (map_to_list pagers).*2).

Definition rollbackTx (tx : activeTx) : M DB unit :=
  _ ← rollbackAll (tx_pagers tx);
  on_wal (AppendRollback (tx_xid tx)).
End commit.
