(* ===== verification/Frame.v ===== *)
(** * Frame: what a call on one file leaves alone

    All files share the pool, so a read of one file moves, loads and evicts
    frames of others.  A call that only reads pages ([reads_only], closed under
    the constructions of the B-tree code) keeps what every file of the pool
    holds and what every [TxPager] has buffered; a call that writes a file
    keeps what the other files hold. *)
From S2P Require Import Prelude Storage Disk Store Pager TxPager BufferPool Node BTree Cursor Db.
From stdpp Require Import options.
Local Open Scope Z_scope.

(** ** Reads through the pool *)

Lemma FetchPage_frames fid id p k q :
  pool_inv p → frames (FetchPage fid id p).2 !! k = Some q →
  frames p !! k = Some q ∨
  (k = (fid, id) ∧ ∃ pg, files p !! fid = Some pg ∧ Pager.ReadPage id pg = (Ok q, pg)).
Proof.
  intros Hp. destruct (frames p !! (fid, id)) as [fr|] eqn:Hk.
  { rewrite (FetchPage_hit _ _ _ _ Hk). by left. }
  destruct (files p !! fid) as [pg|] eqn:Hpg.
  - destruct (FetchPage_miss fid id p pg Hp Hk Hpg) as (p1 & _ & _ & _ & Hsub & _ & _ & ->).
    pose proof (ReadPage_state id pg) as Hst.
    destruct (Pager.ReadPage id pg) as [[q'|e| |] pg'] eqn:E; cbn [snd] in *; subst pg'; cbn [frames add_frame set_frames set_files];
      try (intros Hl; left; by eapply lookup_weaken).
    rewrite lookup_insert. case_decide as Hd; [intros [= <-]; right; eauto|].
    intros Hl. left. by eapply lookup_weaken.
  - intros Hl. left. unfold FetchPage in Hl. revert Hl. M_run. rewrite Hk.
    case_decide as Hfull.
    + unfold evictOne. destruct (last _) as [k'|]; cbn [fst snd]; [|done].
      unfold on_file. cbn [files count_miss]. rewrite Hpg. cbn [snd frames]. rewrite lookup_delete_Some. tauto.
    + unfold on_file. cbn [files count_miss]. by rewrite Hpg.
Qed.

(** The pagers of a pool are the same, and what they hold is still there. *)
Definition same_files (p p' : Pool) : Prop :=
  files p' = files p ∧ ∀ fid v, bp_rep (mkBufPager p fid) v → bp_rep (mkBufPager p' fid) v.

#[export] Instance same_files_preorder : PreOrder same_files.
Proof.
  split; [by intros p|]. intros p1 p2 p3 [F1 H1] [F2 H2]. split; [congruence|]. intros fid v Hv. by apply H2, H1.
Qed.

Lemma FetchPage_same fid id p : same_files p (FetchPage fid id p).2.
Proof.
  split; [apply FetchPage_files|]. intros fid' v (pg & [Hi Hf Hc] & Hrep). cbn [bp_pool bp_fid] in *. exists pg. split; [|done].
  split; cbn [bp_pool bp_fid]; [by apply FetchPage_inv|by rewrite FetchPage_files|].
  intros j q Hj [Hl|(Hk & pg' & Hpg & Hr)]%FetchPage_frames; [by apply Hc| |done].
  injection Hk as <- <-. rewrite Hf in Hpg. injection Hpg as <-.
  destruct (decide (j < totalPages pg)) as [Hlt|Hge].
  - destruct (ReadPage_total pg v j Hrep ltac:(lia)) as (q' & E & Hq & Hd). rewrite E in Hr. by injection Hr as ->.
  - unfold Pager.ReadPage in Hr. revert Hr. M_run. by rewrite decide_True by lia.
Qed.

(** ** Calls that only read *)

Definition reads_only {A} (m : ∀ S : Type, PageStore S → M S A) : Prop :=
  ∀ S (PS : PageStore S) (I : S → Prop),
    (∀ id s, I s → I (ps_read id s).2) → ∀ s, I s → I (m S PS s).2.

Lemma reads_ret {A} (a : A) : reads_only (λ S PS, mret a).
Proof. by intros S PS I HI s Hs. Qed.
Lemma reads_lift {A} (r : res A) : reads_only (λ S PS, lift r).
Proof. by intros S PS I HI s Hs. Qed.
Lemma reads_fail {A} e : reads_only (A := A) (λ S PS, fail e).
Proof. by intros S PS I HI s Hs. Qed.
Lemma reads_read id : reads_only (λ S PS, ps_read id).
Proof. intros S PS I HI s Hs. by apply HI. Qed.
Lemma reads_wrap {A} fmt args (m : ∀ S : Type, PageStore S → M S A) :
  reads_only m → reads_only (λ S PS, wrap fmt args (m S PS)).
Proof. intros Hm S PS I HI s Hs. specialize (Hm S PS I HI s Hs). unfold wrap. by destruct (m S PS s). Qed.
Lemma reads_bind {A B} (m : ∀ S : Type, PageStore S → M S A) (f : ∀ S : Type, PageStore S → A → M S B) :
  reads_only m → (∀ a, reads_only (λ S PS, f S PS a)) → reads_only (λ S PS, m S PS ≫= f S PS).
Proof.
  intros Hm Hf S PS I HI s Hs. specialize (Hm S PS I HI s Hs). unfold mbind, M_bind.
  destruct (m S PS s) as [[a|e| |] s1]; cbn [snd] in *; try done. by apply (Hf a S PS I HI).
Qed.

Create HintDb reads discriminated.
#[export] Hint Resolve reads_ret reads_lift reads_fail reads_read reads_wrap : reads.

(** Walks through a call, splitting its binds and cases. *)
Ltac reads_step :=
  match goal with
  | |- reads_only (λ S PS, mbind _ _) => apply (reads_bind (λ S PS, _) (λ S PS, _)); [|intros]
  | |- reads_only (λ S PS, wrap _ _ _) => apply (reads_wrap _ _ (λ S PS, _))
  | |- reads_only (λ S PS, if decide ?P then _ else _) => destruct (decide P)
  | |- reads_only (λ S PS, if ?b then _ else _) => destruct b
  | |- reads_only (λ S PS, let '(_, _) := ?p in _) => destruct p
  | |- reads_only (λ S PS, match ?x with Some _ => _ | None => _ end) => destruct x
  | |- reads_only _ => auto with reads; fail
  end.
Ltac reads_auto := repeat reads_step.

Lemma reads_open id : reads_only (λ S PS, BTree.Open id).
Proof. unfold BTree.Open. reads_auto. Qed.

Lemma reads_search fuel id key : reads_only (λ S PS, search_loop fuel id key).
Proof. revert id. induction fuel as [|fuel IH]; intros id; cbn [search_loop]; reads_auto. Qed.

Lemma reads_seek fuel id lo hi : reads_only (λ S PS, cursor_seek fuel id lo hi).
Proof. revert id. induction fuel as [|fuel IH]; intros id; cbn [cursor_seek]; reads_auto. Qed.

Lemma reads_next c : reads_only (λ S PS, Cursor.Next c).
Proof. unfold Cursor.Next, cursor_yield. reads_auto. Qed.

(** ** Handles and trees of a database *)

(** The page store behind a handle holds [v]. *)
Definition handle_view (db : DB) (h : Handle) (v : pmap) : Prop :=
  match h with
  | HBuf fid => bp_rep (mkBufPager (pool db) fid) v
  | HTx ptr => ∃ b v0, txheap db !! ptr = Some b ∧
      tx_rep (mkTxPager (mkBufPager (pool db) (tb_fid b)) (tb_dirty b) (tb_allocated b)) v0 v
  end.

(** A [TxPager] begun when its file held [v0] shows [v]. *)
Definition tx_view (db : DB) (ptr : nat) (v0 v : pmap) : Prop := ∃ b, txheap db !! ptr = Some b ∧
  tx_rep (mkTxPager (mkBufPager (pool db) (tb_fid b)) (tb_dirty b) (tb_allocated b)) v0 v.

Lemma tx_view_handle db ptr v0 v : tx_view db ptr v0 v → handle_view db (HTx ptr) v.
Proof. intros (b & Hb & Hr). by exists b, v0. Qed.

(** A step that only reads: the pool's frames move, nothing else changes. *)
Definition read_step (db db' : DB) : Prop := ∃ p, same_files (pool db) p ∧ db' = set_pool p db.

#[export] Instance read_step_preorder : PreOrder read_step.
Proof.
  split.
  - intros db. exists (pool db). split; [done|by destruct db].
  - intros db1 db2 db3 (p1 & H1 & ->) (p2 & H2 & ->). exists p2. split; [by etrans|done].
Qed.

Lemma read_step_tx_view db db' ptr v0 v : read_step db db' → tx_view db ptr v0 v → tx_view db' ptr v0 v.
Proof.
  intros (p & Hp & ->) (b & Hb & [H1 H2 H3 H4 H5]). exists b. split; [done|]. split; cbn [base dirty allocated] in *; try done.
  by apply Hp.
Qed.

Lemma read_step_view db db' h v : read_step db db' → handle_view db h v → handle_view db' h v.
Proof.
  intros Hs. destruct h as [fid|ptr]; [destruct Hs as (p & Hp & ->); apply Hp|].
  intros (b & v0 & Hb & Hr). eapply tx_view_handle, read_step_tx_view; [exact Hs|by exists b].
Qed.

(** Calls that only read answer what any page store holding [v] answers. *)
Lemma on_store_reads {A} (m : ∀ S : Type, PageStore S → M S A) (Q : A → Prop) db h v :
  handle_view db h v → reads_only m →
  (∀ S (PS : PageStore S) (PSS : PageStoreSpec S) s, ps_rep s v → ∃ a s', m S PS s = (Ok a, s') ∧ Q a) →
  ∃ a db', on_store h m db = (Ok a, db') ∧ read_step db db' ∧ Q a.
Proof.
  intros Hv Hm Hok. destruct h as [fid|ptr]; cbn [handle_view on_store] in *.
  - destruct (Hok _ _ BufPager_pages_spec _ Hv) as (a & bp & E & HQ). unfold on_bp. rewrite E.
    eexists a, _. split; [done|]. split; [|done]. exists (bp_pool bp). split; [|done].
    pose proof (Hm BufPager _ (λ bp', bp_fid bp' = fid ∧ same_files (pool db) (bp_pool bp'))) as Hs.
    specialize (Hs ltac:(intros id [p f] [Hf Hs']; cbn [bp_pool bp_fid] in *; subst f; unfold ps_read, BufPager_pages, BufReadPage, on_pool;
      cbn [bp_pool bp_fid]; pose proof (FetchPage_same fid id p); destruct (FetchPage fid id p) as [r p']; cbn in *;
      split; [done|by etrans]) (mkBufPager (pool db) fid) ltac:(done)).
    rewrite E in Hs. by destruct Hs.
  - destruct Hv as (b & v0 & Hb & Hrep). unfold on_tx. rewrite Hb.
    destruct (Hok _ _ (TxPager_pages_spec (FSS := BufPager_full_spec)) _ ltac:(by exists v0)) as (a & tp & E & HQ). rewrite E.
    eexists a, _. split; [done|]. split; [|done].
    pose proof (Hm (TxPager BufPager) _ (λ tp', dirty tp' = tb_dirty b ∧ allocated tp' = tb_allocated b ∧
      bp_fid (base tp') = tb_fid b ∧ same_files (pool db) (bp_pool (base tp')))) as Hs.
    specialize (Hs ltac:(intros id [[p f] d al] (Hd & Ha & Hf & Hs'); cbn in *; subst d al f; unfold TxPager.ReadPage;
      M_run; cbn [dirty base allocated]; destruct (tb_dirty b !! id); [done|];
      unfold on_base; cbn [base dirty allocated ps_read fs_pages BufPager_full BufPager_pages]; unfold BufReadPage, on_pool; cbn [bp_pool bp_fid];
      pose proof (FetchPage_same (tb_fid b) id p); destruct (FetchPage (tb_fid b) id p) as [r p']; cbn in *;
      split_and!; [done..|by etrans]) (mkTxPager (mkBufPager (pool db) (tb_fid b)) (tb_dirty b) (tb_allocated b)) ltac:(done)).
    rewrite E in Hs. cbn [snd] in Hs. destruct Hs as (-> & -> & _ & Hs).
    exists (bp_pool (base tp)). split; [done|]. rewrite list_insert_id by (rewrite Hb; by destruct b). by destruct db.
Qed.

(** Page map [v] holds a tree with header page [hd] and these entries; no leaf
    of it is empty unless it is the root. *)
Definition holds_tree (v : pmap) (hd root : Z) (kvs : list Node.Entry) : Prop :=
  ∃ ne h fl fp, rep ne h v root 0 (2 ^ 64) fl 0 kvs fp ∧ (ne = true ∨ h = 0%nat) ∧
    hd ∉ fp ∧ v !! hd = Some (header_data root).

Lemma holds_tree_sorted v hd root kvs : holds_tree v hd root kvs → sorted_kvs kvs.
Proof. intros (ne & h & fl & fp & Hr & _). by eapply rep_kvs. Qed.

Lemma holds_tree_keys v hd root kvs : holds_tree v hd root kvs → Forall (λ e, is_u64 (Node.Key e)) kvs.
Proof. intros (ne & h & fl & fp & Hr & _). by eapply rep_kvs. Qed.

Lemma holds_tree_wf v hd root kvs : holds_tree v hd root kvs → Forall entry_wf kvs.
Proof. intros (ne & h & fl & fp & Hr & _). by eapply rep_entries_wf. Qed.

Lemma open_tree_ok db h v root kvs :
  handle_view db h v → holds_tree v 1 root kvs →
  ∃ db', open_tree h db = (Ok (mkTree h (1, root)), db') ∧ read_step db db'.
Proof.
  intros Hv (ne & ht & fl & fp & Hr & _ & Hhd & Hh).
  destruct (on_store_reads (λ S _, BTree.Open 1) (λ t, t = (1, root)) db h v Hv (reads_open 1)) as (t & db' & E & Hs & ->).
  - intros S PS PSS s Hs. destruct (BTree.Open_ok ne (mkBTree s 1 root) ht kvs) as (s' & E & _); [by exists v, fl, fp|eauto].
  - exists db'. split; [|done]. unfold open_tree. by erewrite M_bind_Ok by exact E.
Qed.

(** The full key range. *)
Lemma kv_range_all kvs : Forall (λ e, is_u64 (Node.Key e)) kvs → kv_range 0 MaxUint64 kvs = kvs.
Proof.
  unfold kv_range. induction 1 as [|e es He _ IH]; [done|]. by rewrite filter_cons_True, IH by (unfold MaxUint64; lia).
Qed.

(** What a cursor will still yield. *)
Definition cursor_yields (v : pmap) (c : Cursor) (es : list Node.Entry) : Prop :=
  (done c = true ∧ es = []) ∨
  ∃ rest, cursor_at v c rest ∧ sorted_kvs rest ∧ es = filter (λ e, Node.Key e ≤ maxKey c) rest.

(** On any page store: opening the tree, one step of a cursor, and its creation. *)
Lemma store_Open {S} {PS : PageStore S} {PSS : PageStoreSpec S} (s : S) v hd root kvs :
  ps_rep s v → holds_tree v hd root kvs → ∃ s', BTree.Open hd s = (Ok (hd, root), s') ∧ ps_rep s' v.
Proof.
  intros Hs (ne & h & fl & fp & Hr & _ & _ & Hh).
  destruct (Open_header s v hd root Hs Hh (rep_root_u32 _ _ _ _ _ _ _ _ _ _ _ Hs Hr)) as (s' & E & Hs' & _). eauto.
Qed.

Lemma store_Next {S} {PS : PageStore S} {PSS : PageStoreSpec S} (s : S) v c es :
  ps_rep s v → cursor_yields v c es →
  ∃ c' s', Cursor.Next c s = (Ok (head es, c'), s') ∧ ps_rep s' v ∧ (es ≠ [] → cursor_yields v c' (tail es)).
Proof.
  intros Hs [[Hd ->]|(rest & Hat & Hsort & ->)].
  - exists c, s. unfold Cursor.Next. by rewrite Hd.
  - destruct (Next_ok s v c rest Hs Hat) as (s' & c' & Hs' & HN). destruct rest as [|e rest].
    { exists c', s'. by rewrite HN. }
    rewrite filter_cons. cbn [fmap list_fmap] in Hsort. apply StronglySorted_cons in Hsort as [He Hsort].
    case_decide as Hm.
    * exists c', s'. rewrite HN, decide_False by lia. rewrite Forall_fmap in He.
      rewrite filter_none; [done|]. eapply Forall_impl; [exact He|]. cbn. lia.
    * destruct HN as (HN & Hat' & Hmax). exists c', s'. rewrite HN, decide_True by lia. cbn.
      split; [done|]. split; [done|]. intros _. right. exists rest. by rewrite Hmax.
Qed.

Lemma store_NewCursor {S} {PS : PageStore S} {PSS : PageStoreSpec S} (s : S) v hd root kvs tfuel lo hi :
  ps_rep s v → holds_tree v hd root kvs → is_u64 lo → (32 ≤ tfuel)%nat →
  ∃ c s', NewCursor tfuel lo hi (mkBTree s hd root) = (Ok c, mkBTree s' hd root) ∧ ps_rep s' v ∧
    cursor_yields v c (kv_range lo hi kvs).
Proof.
  intros Hs (ne & ht & fl & fp & Hr & Hne & Hhd & Hh) Hlo Hfuel. unfold NewCursor. M_run. cbn [rootID].
  case_decide as Hc.
  { eexists _, _. split; [done|]. split; [done|]. left. split; [done|]. unfold kv_range.
    apply filter_none, Forall_forall. intros e _. lia. }
  destruct (rep_bounds _ _ _ _ _ _ _ _ _ _ _ Hs Hr) as [Hht _].
  destruct (cursor_seek_ok ne ht s v root 0 (2 ^ 64) fl 0 kvs fp lo hi tfuel Hs Hr ltac:(lia) ltac:(lia))
    as (c & s' & lf & pre & post & E & Hs' & Hlf & Hd & Hm & Hk & Hpre & Hpost & Hch & Hroot).
  unfold on_pg. cbn [pg rootID]. rewrite E. eexists _, _. split; [done|]. split; [done|]. right.
  exists (drop (pos c) (Node.Entries lf) ++ post). split_and!.
  + exists lf, post. split_and!; try done. destruct Hne as [->| ->]; [by apply Hch|].
    destruct Hroot as [-> ->]; [done|]. constructor.
  + destruct (rep_kvs _ _ _ _ _ _ _ _ _ _ Hr) as [Hsort _]. rewrite Hk, fmap_app in Hsort.
    by apply StronglySorted_app_1_r in Hsort.
  + rewrite Hm, Hk. rewrite (kv_range_skip lo hi pre) by done. unfold kv_range.
    clear -Hpost. induction Hpost as [|e es He _ IH]; [done|]. rewrite !filter_cons, IH.
    repeat case_decide; done || lia.
Qed.

Lemma Next_yields db h v c es :
  handle_view db h v → cursor_yields v c es →
  ∃ c' db', on_store h (λ S _, Cursor.Next c) db = (Ok (head es, c'), db') ∧ read_step db db' ∧
    (es ≠ [] → cursor_yields v c' (tail es)).
Proof.
  intros Hv Hc.
  destruct (on_store_reads (λ S _, Cursor.Next c) (λ rc, rc.1 = head es ∧ (es ≠ [] → cursor_yields v rc.2 (tail es)))
    db h v Hv (reads_next c)) as ([r c'] & db' & E & Hs & Hr & Hq).
  - intros S PS PSS s Hs. destruct (store_Next s v c es Hs Hc) as (c' & s' & E & _ & Hy). by eexists _, _.
  - cbn in Hr. subst r. eauto.
Qed.

Lemma NewCursor_yields db t v kvs tfuel lo hi :
  handle_view db (t_store t) v → holds_tree v (t_pages t).1 (t_pages t).2 kvs → is_u64 lo → (32 ≤ tfuel)%nat →
  ∃ c t' db', on_bt t (λ S _, NewCursor (S := S) tfuel lo hi) db = (Ok (c, t'), db') ∧ read_step db db' ∧
    cursor_yields v c (kv_range lo hi kvs).
Proof.
  intros Hv Ht Hlo Hfuel. unfold on_bt.
  destruct (on_store_reads (λ S PS s,
      (let '(r, bt) := NewCursor (S := S) tfuel lo hi (mkBTree s (t_pages t).1 (t_pages t).2) in
      ((λ a, (a, mkTree (t_store t) (headerPage bt, rootID bt))) <$> r, pg bt)))
    (λ ct, cursor_yields v ct.1 (kv_range lo hi kvs)) db (t_store t) v Hv) as ([c t'] & db' & E & Hs & Hq).
  - intros S PS I HI s Hs. unfold NewCursor. M_run. cbn [rootID]. case_decide; [done|]. unfold on_pg. cbn [pg rootID].
    pose proof (reads_seek tfuel (t_pages t).2 lo hi S PS I HI s Hs) as Hi.
    cbn beta in Hi. destruct (cursor_seek tfuel (t_pages t).2 lo hi s) as [[] s']; exact Hi.
  - intros S PS PSS s Hs. destruct (store_NewCursor s v _ _ kvs tfuel lo hi Hs Ht Hlo Hfuel) as (c & s' & E & _ & Hy).
    rewrite E. by eexists _, _.
  - exists c, t', db'. done.
Qed.

Lemma Search_view db t v kvs tfuel key :
  handle_view db (t_store t) v → holds_tree v (t_pages t).1 (t_pages t).2 kvs → is_u64 key → (32 ≤ tfuel)%nat →
  ∃ db', on_bt t (λ S _, Search (S := S) tfuel key) db = (Ok (kv_map kvs !! key, t), db') ∧ read_step db db'.
Proof.
  intros Hv (ne & ht & fl & fp & Hr & Hne & Hhd & Hh) Hkey Hfuel. unfold on_bt.
  destruct (on_store_reads (λ S PS s,
      let '(r, bt) := Search (S := S) tfuel key (mkBTree s (t_pages t).1 (t_pages t).2) in
      ((λ a, (a, mkTree (t_store t) (headerPage bt, rootID bt))) <$> r, pg bt))
    (λ rt, rt.1 = kv_map kvs !! key ∧ rt.2 = t) db (t_store t) v Hv) as ([r t'] & db' & E & Hs & Hq).
  - intros S PS I HI s Hs. unfold Search. M_run. cbn [rootID]. unfold on_pg. cbn [pg].
    pose proof (reads_search tfuel (t_pages t).2 key S PS I HI s Hs) as Hi.
    cbn beta in Hi. destruct (search_loop tfuel (t_pages t).2 key s) as [[] s']; exact Hi.
  - intros S PS PSS s Hs. destruct (rep_bounds _ _ _ _ _ _ _ _ _ _ _ Hs Hr) as [Hht _].
    destruct (search_loop_ok ne ht s v (t_pages t).2 0 (2 ^ 64) fl 0 kvs fp key tfuel Hs Hr ltac:(lia) ltac:(lia)) as (s' & E & _).
    unfold Search. M_run. cbn [rootID]. unfold on_pg. cbn [pg]. rewrite E. eexists _, _. split; [reflexivity|]. by destruct t as [? []].
  - cbn in Hq. destruct Hq as [-> ->]. eauto.
Qed.
