(* ===== verification/AggSpec.v ===== *)
(** * AggSpec: what grouping, aggregates and sorting compute

    The loops of [Agg] against reference definitions: groups as the rows with
    equal keys, aggregates as sums, minima and maxima, ORDER BY as a stable
    sort by a lexicographic order. *)
From stdpp Require Import pretty.
From S2P Require Import Prelude BTree GoLib Catalog Ast Eval Agg Planner.
From stdpp Require Import options.
Local Open Scope Z_scope.

(** ** Groups *)

(** A row has the columns of the GROUP BY list. *)
Definition has_columns (idxs : list nat) (r : row) : Prop := Forall (λ i, i < length r)%nat idxs.

Definition group_key (idxs : list nat) (r : row) : string := match rowGroupKey r idxs with Ok k => k | _ => EmptyString end.

Definition key_rows (idxs : list nat) (k : string) (rows : list row) : list row :=
  List.filter (λ r, bool_decide (group_key idxs r = k)) rows.

(** The elements of [ks] in the order in which they first occur, less [seen]. *)
Fixpoint distinct {A} `{EqDecision A} (seen ks : list A) : list A :=
  match ks with
  | [] => []
  | k :: ks => if decide (k ∈ seen) then distinct seen ks else k :: distinct (k :: seen) ks
  end.

Lemma go_index_ok {A} (l : list A) i : (i < length l)%nat → ∃ x, go_index l i = Ok x ∧ l !! i = Some x.
Proof. intros [x Hx]%lookup_lt_is_Some_2. exists x. unfold go_index. by rewrite Hx. Qed.

Lemma render_rest_ok r idxs : has_columns idxs r → is_ok (render_rest r idxs) = true.
Proof.
  induction 1 as [|i idxs Hi _ IH]; cbn [render_rest]; [done|]. destruct (go_index_ok r i Hi) as (v & -> & _).
  cbn [mbind res_bind]. by destruct (render_rest r idxs).
Qed.

Lemma rowGroupKey_ok r idxs : has_columns idxs r → rowGroupKey r idxs = Ok (group_key idxs r).
Proof.
  unfold group_key. destruct 1 as [|i idxs Hi Hr]; cbn [rowGroupKey]; [done|].
  destruct (go_index_ok r i Hi) as (v & -> & _). cbn [mbind res_bind].
  pose proof (render_rest_ok r idxs Hr). by destruct (render_rest r idxs).
Qed.

Lemma distinct_ext {A} `{EqDecision A} (seen seen' ks : list A) : (∀ k, k ∈ seen ↔ k ∈ seen') → distinct seen ks = distinct seen' ks.
Proof.
  revert seen seen'. induction ks as [|k ks IH]; intros seen seen' Hs; cbn [distinct]; [done|].
  rewrite (decide_ext (k ∈ seen) (k ∈ seen')) by apply Hs. case_decide; [by apply IH|]. f_equal. apply IH. set_solver.
Qed.

Lemma distinct_spec {A} `{EqDecision A} (seen ks : list A) :
  NoDup (distinct seen ks) ∧ ∀ k, k ∈ distinct seen ks ↔ k ∈ ks ∧ k ∉ seen.
Proof.
  revert seen. induction ks as [|k0 ks IH]; intros seen; cbn [distinct]; [split; [constructor|set_solver]|].
  case_decide as Hk.
  - destruct (IH seen) as [Hn He]. split; [done|]. intros k. rewrite He. set_solver.
  - destruct (IH (k0 :: seen)) as [Hn He]. split.
    + constructor; [rewrite He; set_solver|done].
    + intros k. rewrite elem_of_cons, He. destruct (decide (k = k0)); set_solver.
Qed.

Lemma find_index_none {A} (p : A → bool) l : find_index p l = None → Forall (λ x, p x = false) l.
Proof. intros H. apply Forall_forall. intros x Hx. eapply find_index_None in H; [exact H|done]. Qed.

(** [gs] after the rows still to come: each group gets the rows with its key. *)
Definition grow (idxs : list nat) (rows : list row) (gs : groups) : groups :=
  (λ g, (g.1, g.2 ++ key_rows idxs g.1 rows)) <$> gs.

Lemma grow_other idxs r rows gs :
  Forall (λ g, g.1 ≠ group_key idxs r) gs → grow idxs (r :: rows) gs = grow idxs rows gs.
Proof.
  induction 1 as [|g gs Hg _ IH]; cbn; [done|]. f_equal; [|exact IH]. unfold key_rows. cbn [List.filter].
  rewrite bool_decide_eq_false_2 by congruence. done.
Qed.

Lemma alter_fst (f : string * list row → list row) pos (gs : groups) :
  (alter (λ g, (g.1, f g)) pos gs).*1 = gs.*1.
Proof. revert pos. induction gs as [|g gs IH]; intros [|pos]; [done..|]. cbn. f_equal. apply IH. Qed.

Lemma group_loop_grow idxs rows gs :
  Forall (has_columns idxs) rows → NoDup gs.*1 →
  group_loop idxs rows gs = Ok (grow idxs rows gs ++
    ((λ k, (k, key_rows idxs k rows)) <$> distinct gs.*1 (group_key idxs <$> rows))).
Proof.
  intros Hr. revert gs. induction Hr as [|r rows Hr Hrs IH]; intros gs Hnd; cbn [group_loop].
  { cbn. rewrite app_nil_r. f_equal. unfold grow, key_rows. cbn. rewrite <-(list_fmap_id gs) at 1.
    apply list_fmap_ext. intros _ [k l] _. cbn. by rewrite app_nil_r. }
  rewrite rowGroupKey_ok by done. cbn [mbind res_bind fmap list_fmap distinct]. set (k := group_key idxs r).
  unfold add_to_group. destruct (find_index _ gs) as [pos|] eqn:Ef.
  - destruct (find_index_Some _ _ _ Ef) as ([k' l] & Hpos & Hk & _). rewrite bool_decide_eq_true in Hk. cbn in Hk. subst k'.
    rewrite decide_True by (apply list_elem_of_fmap; exists (k, l); split; [done|by eapply list_elem_of_lookup_2]).
    pose proof (alter_fst (λ g, g.2 ++ [r]) pos gs) as Hk1.
    rewrite IH by (by rewrite Hk1). rewrite Hk1.
    assert (∀ ks, Forall (λ x, x ≠ k) ks →
      ((λ k, (k, key_rows idxs k (r :: rows))) <$> ks) = ((λ k, (k, key_rows idxs k rows)) <$> ks)) as Hext.
    { intros ks Hks. apply list_fmap_ext. intros i x Hx. rewrite Forall_lookup in Hks. specialize (Hks _ _ Hx).
      unfold key_rows. cbn [List.filter]. rewrite bool_decide_eq_false_2; [done|]. unfold k in Hks. congruence. }
    rewrite Hext.
    2: { apply Forall_forall. intros x Hx ->. apply distinct_spec in Hx as [_ Hx]. apply Hx.
         apply list_elem_of_fmap. exists (k, l). split; [done|by eapply list_elem_of_lookup_2]. }
    do 2 f_equal. apply list_eq. intros i. unfold grow. rewrite !list_lookup_fmap.
    destruct (decide (i = pos)) as [->|Hi].
    + rewrite list_lookup_alter_eq, Hpos. cbn. unfold key_rows. cbn [List.filter]. fold k.
      rewrite bool_decide_eq_true_2 by done. by rewrite <-app_assoc.
    + rewrite list_lookup_alter_ne by done. destruct (gs !! i) as [[k2 l2]|] eqn:E2; [|done]. cbn. do 2 f_equal.
      unfold key_rows. cbn [List.filter]. rewrite bool_decide_eq_false_2; [done|]. fold k. intros ->.
      apply Hi. apply (NoDup_lookup gs.*1 i pos k2); [done|..]; by rewrite list_lookup_fmap, ?E2, ?Hpos.
  - apply find_index_none in Ef.
    assert (Forall (λ g : string * list row, g.1 ≠ k) gs) as Hnk.
    { eapply Forall_impl; [exact Ef|]. intros g Hg. by rewrite bool_decide_eq_false in Hg. }
    assert (k ∉ gs.*1) as Hnk'.
    { intros (g & -> & Hg)%list_elem_of_fmap. rewrite Forall_forall in Hnk. by apply (Hnk g). }
    rewrite decide_False by done. rewrite IH by (rewrite fmap_app; cbn; by apply NoDup_snoc).
    rewrite fmap_app. cbn [fmap list_fmap fst]. rewrite (distinct_ext (gs.*1 ++ [k]) (k :: gs.*1)) by set_solver.
    unfold grow at 1. rewrite fmap_app. fold (grow idxs rows gs). rewrite grow_other by done.
    rewrite <-app_assoc. cbn [fmap list_fmap fst snd app]. do 2 f_equal. cbn. f_equal.
    + f_equal. unfold key_rows. cbn [List.filter]. fold k. by rewrite bool_decide_eq_true_2.
    + apply list_fmap_ext. intros i x Hx. unfold key_rows. cbn [List.filter]. fold k.
      rewrite bool_decide_eq_false_2; [done|]. intros <-. apply list_elem_of_lookup_2, distinct_spec in Hx as [_ Hx]. set_solver.
Qed.

Lemma group_loop_ok idxs rows :
  Forall (has_columns idxs) rows →
  group_loop idxs rows [] = Ok ((λ k, (k, key_rows idxs k rows)) <$> distinct [] (group_key idxs <$> rows)).
Proof. intros Hr. by rewrite group_loop_grow by (done || constructor). Qed.

(** ** Keys stand for values *)

Definition nul : ascii := "000"%char.
Definition nul_free (s : string) : Prop := string_all (λ c, negb (bool_decide (c = nul))) s = true.

(** A value of a column of type [ty] without a NUL byte. *)
Definition plain_value (ty : DataType) (v : Value) : Prop :=
  (ty = TypeInt ∧ ∃ n, v = VInt n ∧ is_u64 n) ∨ (ty = TypeText ∧ ∃ s, v = VText s ∧ nul_free s).

Lemma nul_free_pretty_go x s : nul_free s → nul_free (pretty_N_go x s).
Proof.
  revert s. induction (N.lt_wf_0 x) as [x _ IH]; intros s Hs.
  destruct (decide (x = 0)%N) as [->|Hx]; [by rewrite pretty_N_go_0|]. rewrite pretty_N_go_step by lia.
  apply IH; [apply N.div_lt; lia|]. unfold nul_free. cbn [string_all]. apply andb_true_iff. split; [|exact Hs].
  unfold pretty_N_char. by repeat case_match.
Qed.

Lemma nul_free_fmt_d n : nul_free (fmt_d n).
Proof.
  unfold fmt_d, pretty, pretty_N. case_decide; [done|]. by apply nul_free_pretty_go.
Qed.

Lemma nul_free_render ty v : plain_value ty v → nul_free (render_value v).
Proof.
  intros [(_ & n & -> & _)|(_ & s & -> & Hs)]; [apply nul_free_fmt_d|exact Hs].
Qed.

Lemma render_inj ty v w : plain_value ty v → plain_value ty w → render_value v = render_value w → v = w.
Proof.
  intros [(-> & n & -> & Hn)|(-> & s & -> & _)] [(Ht & m & -> & Hm)|(Ht & t & -> & _)] E; try done.
  - unfold render_value in E. cbn in E. injection E as E. f_equal. apply pretty_N_inj in E. lia.
  - unfold render_value in E. cbn [VText VType TextVal] in E. rewrite !decide_False in E by done. cbn in E. injection E as E. f_equal. exact E.
Qed.

Lemma nul_app_inj s t x y :
  nul_free s → nul_free t → (s +:+ String nul x = t +:+ String nul y)%string → s = t ∧ x = y.
Proof.
  unfold nul_free. revert t. induction s as [|c s IH]; intros [|d t]; cbn [string_all String.append]; intros Hs Ht E.
  - by injection E as ->.
  - injection E as <- _. done.
  - injection E as -> _. done.
  - injection E as <- E. apply andb_true_iff in Hs as [_ Hs], Ht as [_ Ht].
    destruct (IH t Hs Ht E) as [-> ->]. done.
Qed.

Lemma render_rest_nil r idxs s : render_rest r idxs = Ok s → idxs = [] ∧ s = EmptyString ∨ ∃ s', s = String nul s'.
Proof.
  destruct idxs as [|i idxs]; cbn [render_rest]; [intros [= <-]; by left|]. destruct (go_index r i); try done.
  cbn [mbind res_bind]. destruct (render_rest r idxs); try done. intros [= <-]. right. eexists. reflexivity.
Qed.

Lemma app_nil_string s : (s +:+ EmptyString)%string = s.
Proof. induction s as [|c s IH]; [done|]. change (String c (s +:+ EmptyString) = String c s)%string. by rewrite IH. Qed.

Lemma render_value_rest_inj ty v w idxs r r' s s' :
  plain_value ty v → plain_value ty w → render_rest r idxs = Ok s → render_rest r' idxs = Ok s' →
  (render_value v +:+ s = render_value w +:+ s')%string → v = w ∧ s = s'.
Proof.
  intros Hv Hw Hs Hs' E. pose proof (nul_free_render _ _ Hv). pose proof (nul_free_render _ _ Hw).
  destruct (render_rest_nil _ _ _ Hs) as [[-> ->]|[x ->]].
  - cbn in Hs'. injection Hs' as <-. rewrite !app_nil_string in E. split; [by eapply render_inj|done].
  - destruct (render_rest_nil _ _ _ Hs') as [[-> ->]|[y ->]]; [done|].
    apply nul_app_inj in E as [E ->]; [|done..]. split; [by eapply render_inj|done].
Qed.

(** Two rows agree on the columns. *)
Definition agree (idxs : list nat) (r r' : row) : Prop := ∀ i, i ∈ idxs → r !! i = r' !! i.

(** The row has values without NUL of the types [ty] in the columns. *)
Definition plain_row (ty : nat → DataType) (idxs : list nat) (r : row) : Prop :=
  Forall (λ i, ∃ v, r !! i = Some v ∧ plain_value (ty i) v) idxs.

Lemma go_index_lookup {A} (l : list A) i x : l !! i = Some x → go_index l i = Ok x.
Proof. unfold go_index. by intros ->. Qed.

Lemma render_rest_agree ty idxs r r' s s' :
  plain_row ty idxs r → plain_row ty idxs r' → render_rest r idxs = Ok s → render_rest r' idxs = Ok s' →
  s = s' → agree idxs r r'.
Proof.
  intros Hr. revert r' s s'. induction Hr as [|i idxs (v & Hv & Hpv) Hr IH]; intros r' s s' Hr' Hs Hs' E j Hj;
    [by apply not_elem_of_nil in Hj|].
  apply Forall_cons in Hr' as [(w & Hw & Hpw) Hr']. cbn [render_rest] in Hs, Hs'.
  rewrite (go_index_lookup _ _ _ Hv) in Hs. rewrite (go_index_lookup _ _ _ Hw) in Hs'. cbn [mbind res_bind] in Hs, Hs'.
  destruct (render_rest r idxs) as [t| | |] eqn:Et; try done. destruct (render_rest r' idxs) as [t'| | |] eqn:Et'; try done.
  injection Hs as <-. injection Hs' as <-. cbn in E. injection E as E.
  destruct (render_value_rest_inj _ _ _ _ _ _ _ _ Hpv Hpw Et Et' E) as [-> ->].
  apply elem_of_cons in Hj as [->|Hj]; [congruence|]. by apply (IH r' t' t').
Qed.

Lemma agree_render_rest idxs r r' : agree idxs r r' → render_rest r idxs = render_rest r' idxs.
Proof.
  intros Ha. induction idxs as [|i idxs IH]; cbn [render_rest]; [done|]. unfold go_index.
  rewrite (Ha i) by (by apply elem_of_cons; left). destruct (r' !! i); [|done]. cbn [mbind res_bind].
  rewrite IH; [done|]. intros j Hj. apply Ha. by apply elem_of_cons; right.
Qed.

Lemma plain_has_columns ty idxs r : plain_row ty idxs r → has_columns idxs r.
Proof. intros Hr. eapply Forall_impl; [exact Hr|]. intros i (v & Hv & _). by eapply lookup_lt_Some. Qed.

Lemma group_key_agree ty idxs r r' :
  plain_row ty idxs r → plain_row ty idxs r' → group_key idxs r = group_key idxs r' ↔ agree idxs r r'.
Proof.
  intros Hr Hr'. split.
  - intros E. pose proof (rowGroupKey_ok r idxs (plain_has_columns _ _ _ Hr)) as E1.
    pose proof (rowGroupKey_ok r' idxs (plain_has_columns _ _ _ Hr')) as E2. rewrite <-E in E2.
    destruct idxs as [|i idxs]; [intros j Hj; by apply not_elem_of_nil in Hj|].
    inversion Hr as [|? ? (v & Hv & Hpv) Hr1]; subst. inversion Hr' as [|? ? (w & Hw & Hpw) Hr1']; subst.
    cbn [rowGroupKey] in E1, E2. rewrite (go_index_lookup _ _ _ Hv) in E1. rewrite (go_index_lookup _ _ _ Hw) in E2.
    cbn [mbind res_bind] in E1, E2.
    destruct (render_rest r idxs) as [t| | |] eqn:Et; try done. destruct (render_rest r' idxs) as [t'| | |] eqn:Et'; try done.
    injection E1 as E1. injection E2 as E2. rewrite <-E1 in E2.
    destruct (render_value_rest_inj _ _ _ _ _ _ _ _ Hpw Hpv Et' Et E2) as [-> ->].
    intros j [->|Hj]%elem_of_cons; [congruence|]. by eapply (render_rest_agree ty idxs r r').
  - intros Ha. unfold group_key. f_equal. destruct idxs as [|i idxs]; cbn [rowGroupKey]; [done|]. unfold go_index.
    rewrite (Ha i) by (by apply elem_of_cons; left). destruct (r' !! i); [|done]. cbn [mbind res_bind].
    rewrite (agree_render_rest idxs r r'); [done|]. intros j Hj. apply Ha. by apply elem_of_cons; right.
Qed.

(** ** Grouping by value *)

Definition values_at (idxs : list nat) (r : row) : list (option Value) := (λ i, r !! i) <$> idxs.

(** The rows with the same values in the columns, in the order of the first of
    each group. *)
Definition value_groups (idxs : list nat) (rows : list row) : list (list row) :=
  (λ k, List.filter (λ r, bool_decide (values_at idxs r = k)) rows) <$> distinct [] (values_at idxs <$> rows).

Lemma agree_values idxs r r' : agree idxs r r' ↔ values_at idxs r = values_at idxs r'.
Proof.
  unfold agree, values_at. induction idxs as [|i idxs IH]; cbn.
  - split; [done|]. intros _ j Hj. by apply not_elem_of_nil in Hj.
  - split.
    + intros Ha. f_equal; [apply Ha; by apply elem_of_cons; left|]. apply IH. intros j Hj. apply Ha. by apply elem_of_cons; right.
    + intros [= E1 E2] j [->|Hj]%elem_of_cons; [done|]. by apply IH.
Qed.

(** Grouping by two functions with the same fibres gives the same groups. *)
Lemma distinct_fibres {A B C} `{EqDecision B} `{EqDecision C} (f : A → B) (g : A → C) (l all : list A) sf sg :
  (∀ x y, x ∈ all → y ∈ all → f x = f y ↔ g x = g y) → (∀ x, x ∈ l → x ∈ all) →
  (∀ x, x ∈ l → f x ∈ sf ↔ g x ∈ sg) →
  ((λ k, List.filter (λ x, bool_decide (f x = k)) all) <$> distinct sf (f <$> l)) =
  ((λ k, List.filter (λ x, bool_decide (g x = k)) all) <$> distinct sg (g <$> l)).
Proof.
  intros Hfg. revert sf sg. induction l as [|x l IH]; intros sf sg Hl Hs; cbn [fmap list_fmap distinct]; [done|].
  assert (x ∈ all) as Hx by (apply Hl; by apply elem_of_cons; left).
  assert (∀ y, y ∈ l → y ∈ all) as Hl' by (intros y Hy; apply Hl; by apply elem_of_cons; right).
  assert (∀ y, y ∈ l → f y ∈ sf ↔ g y ∈ sg) as Hs' by (intros y Hy; apply Hs; by apply elem_of_cons; right).
  rewrite (decide_ext (f x ∈ sf) (g x ∈ sg)) by (apply Hs; by apply elem_of_cons; left).
  case_decide; [by apply IH|]. cbn [fmap list_fmap]. f_equal.
  - assert (∀ m, (∀ y, y ∈ m → y ∈ all) → List.filter (λ y, bool_decide (f y = f x)) m = List.filter (λ y, bool_decide (g y = g x)) m)
      as Hm; [|by apply Hm].
    intros m. induction m as [|y m IHm]; intros Hm; [done|]. cbn [List.filter].
    rewrite (bool_decide_ext (f y = f x) (g y = g x)) by (apply Hfg; [apply Hm; by apply elem_of_cons; left|done]).
    rewrite IHm; [done|]. intros z Hz. apply Hm. by apply elem_of_cons; right.
  - apply IH; [done|]. intros y Hy. rewrite !elem_of_cons, (Hs' y Hy), (Hfg y x); [done|by apply Hl'|done].
Qed.

Lemma key_groups ty idxs rows :
  Forall (plain_row ty idxs) rows →
  ((λ k, key_rows idxs k rows) <$> distinct [] (group_key idxs <$> rows)) = value_groups idxs rows.
Proof.
  intros Hr. rewrite Forall_forall in Hr. apply distinct_fibres; [|done|intros; by rewrite !elem_of_nil].
  intros x y Hx Hy. rewrite (group_key_agree ty), agree_values by (by apply Hr). done.
Qed.

Lemma key_rows_nil rows : key_rows [] EmptyString rows = rows.
Proof. unfold key_rows. induction rows as [|r rows IH]; [done|]. cbn [List.filter].
  rewrite bool_decide_eq_true_2 by done. by rewrite IH.
Qed.

Section groups.
Context `{Unicode}.

Lemma group_out_mapM exprs gs rawIdx :
  group_out exprs gs rawIdx = mapM_res (λ g, computeGroupRow exprs g rawIdx) gs.*2.
Proof. induction gs as [|g gs IH]; cbn; [done|]. by rewrite IH. Qed.

Lemma resolve_group_by_nil cols rawIdx idxs :
  resolve_group_by cols rawIdx = Ok idxs → length idxs = length cols.
Proof.
  revert idxs. induction cols as [|c cols IH]; cbn; [by intros idxs [= <-]|]. intros idxs.
  destruct (rawIdx !! ToLower c); [|done]. destruct (resolve_group_by cols rawIdx) as [l| | |]; try done. intros [= <-].
  cbn. by rewrite (IH l eq_refl).
Qed.

(** C20. Aggregation groups by value: when the GROUP BY columns hold integers, or
    text without a NUL byte, [aggregateRows] computes one output row per group of
    rows that agree on these columns, in the order of their first rows, and a
    single row over all rows (even over none) without GROUP BY. *)
Theorem aggregateRows_groups_by_value s rows rawIdx idxs ty :
  resolve_group_by (GroupBy s) rawIdx = Ok idxs → Forall (plain_row ty idxs) rows →
  aggregateRows s rows rawIdx =
    (outs ← mapM_res (λ g, computeGroupRow (SColumns s) g rawIdx)
              (match GroupBy s with [] => [rows] | _ => value_groups idxs rows end);
     Ok (outs, OutputName <$> SColumns s)).
Proof.
  intros Hi Hr. unfold aggregateRows. rewrite Hi. cbn [mbind res_bind].
  assert (Forall (has_columns idxs) rows) as Hc by (eapply Forall_impl; [exact Hr|]; intros; by eapply plain_has_columns).
  rewrite group_loop_ok by done. cbn [mbind res_bind]. rewrite group_out_mapM. apply resolve_group_by_nil in Hi.
  destruct (GroupBy s) as [|g gb].
  - destruct idxs; [|done]. cbn [length]. destruct rows as [|r rows].
    + done.
    + rewrite decide_False by (intros [E _]; by rewrite length_fmap in E).
      rewrite <-list_fmap_compose. change (snd ∘ _) with (λ k, key_rows [] k (r :: rows)).
      assert (distinct [] (group_key [] <$> r :: rows) = [EmptyString]) as ->; [|cbn [fmap list_fmap]; by rewrite key_rows_nil].
      cbn. f_equal. clear. induction rows as [|r rows IH]; [done|]. cbn. exact IH.
  - rewrite decide_False by (intros [_ E]; done). rewrite <-list_fmap_compose.
    by rewrite <-(key_groups ty).
Qed.
End groups.

(** With a NUL byte in a text the key does not determine the values: these two
    rows differ in both GROUP BY columns and fall into one group. *)
Theorem group_key_collision :
  let r1 := [VText (String "a" (String nul "sb")); VText "c"] in
  let r2 := [VText "a"; VText (String "b" (String nul "sc"))] in
  rowGroupKey r1 [0%nat; 1%nat] = rowGroupKey r2 [0%nat; 1%nat] ∧
  ∀ i, i ∈ [0%nat; 1%nat] → r1 !! i ≠ r2 !! i.
Proof.
  split; [reflexivity|]. intros i [->|[->|[]%elem_of_nil]%elem_of_cons]%elem_of_cons; cbn; intros [=].
Qed.

(** ** Aggregates *)

Lemma sum_u64_ok vs acc : foldl (λ s v, u64 (s + v)) (u64 acc) vs = u64 (acc + foldr Z.add 0 vs).
Proof.
  revert acc. induction vs as [|v vs IH]; intros acc; cbn [foldl foldr]; [by rewrite Z.add_0_r|].
  replace (u64 (u64 acc + v)) with (u64 (acc + v)) by (unfold u64; by rewrite Zplus_mod_idemp_l).
  rewrite IH. f_equal. lia.
Qed.

Lemma min_u64_ok vs acc :
  let m := foldl (λ m v, if decide (v < m) then v else m) acc vs in
  (m = acc ∨ m ∈ vs) ∧ m ≤ acc ∧ Forall (λ v, m ≤ v) vs.
Proof.
  revert acc. induction vs as [|v vs IH]; intros acc; cbn [foldl]; [split_and!; [by left|lia|constructor]|].
  destruct (IH (if decide (v < acc) then v else acc)) as (Hin & Hle & HF).
  split_and!.
  - destruct Hin as [->|Hin]; [|right; by apply elem_of_cons; right].
    case_decide; [right; by apply elem_of_cons; left|by left].
  - etrans; [exact Hle|]. case_decide; lia.
  - constructor; [|exact HF]. etrans; [exact Hle|]. case_decide; lia.
Qed.

Lemma max_u64_ok vs acc :
  let m := foldl (λ m v, if decide (m < v) then v else m) acc vs in
  (m = acc ∨ m ∈ vs) ∧ acc ≤ m ∧ Forall (λ v, v ≤ m) vs.
Proof.
  revert acc. induction vs as [|v vs IH]; intros acc; cbn [foldl]; [split_and!; [by left|lia|constructor]|].
  destruct (IH (if decide (acc < v) then v else acc)) as (Hin & Hle & HF).
  split_and!.
  - destruct Hin as [->|Hin]; [|right; by apply elem_of_cons; right].
    case_decide; [right; by apply elem_of_cons; left|by left].
  - etrans; [|exact Hle]. case_decide; lia.
  - constructor; [|exact HF]. etrans; [|exact Hle]. case_decide; lia.
Qed.

Lemma int_column_ok idx rows ns :
  Forall2 (λ (r : row) n, r !! idx = Some (VInt n)) rows ns → int_column idx rows = Ok ns.
Proof.
  induction 1 as [|r n rows ns Hr _ IH]; cbn [int_column]; [done|]. rewrite (go_index_lookup _ _ _ Hr).
  cbn [mbind res_bind]. by rewrite IH.
Qed.

(** What ROADMAP.md documents an aggregate of the values [ns] to be; over no rows
    every aggregate is 0. *)
Definition total (ns : list Z) : Z := foldr Z.add 0 ns.
Definition agg_value (f : AggFunc) (ns : list Z) (n : Z) : Prop :=
  match f with
  | AggCount => n = Z.of_nat (length ns)
  | AggSum => n = total ns
  | AggAvg => n = total ns / Z.of_nat (length ns)
  | AggMin => if decide (ns = []) then n = 0 else n ∈ ns ∧ Forall (λ m, n ≤ m) ns
  | AggMax => if decide (ns = []) then n = 0 else n ∈ ns ∧ Forall (λ m, m ≤ n) ns
  end.

(** The sum is taken in 64 bits. *)
Definition agg_fits (f : AggFunc) (ns : list Z) : Prop :=
  match f with AggSum | AggAvg => total ns < 2 ^ 64 | _ => True end.
Definition agg_wrapped (f : AggFunc) (ns : list Z) (n : Z) : Prop :=
  match f with
  | AggSum => n = total ns mod 2 ^ 64
  | AggAvg => n = (total ns mod 2 ^ 64) / Z.of_nat (length ns)
  | _ => False
  end.

Lemma total_nonneg ns : (∀ n, n ∈ ns → is_u64 n) → 0 ≤ total ns.
Proof.
  induction ns as [|n ns IH]; intros Hin; [done|]. cbn. pose proof (Hin n ltac:(apply elem_of_cons; by left)).
  specialize (IH (λ m Hm, Hin m ltac:(apply elem_of_cons; by right))). unfold total in IH. lia.
Qed.

Lemma min_u64_value ns : (∀ n, n ∈ ns → is_u64 n) → ns ≠ [] → agg_value AggMin ns (min_u64 ns).
Proof.
  intros Hin Hne. unfold agg_value. rewrite decide_False by done.
  destruct (min_u64_ok ns MaxUint64) as (Hm & _ & HF). split; [|done]. unfold min_u64. destruct Hm as [Hm|Hm]; [|done].
  destruct ns as [|m ns]; [done|]. apply Forall_cons in HF as [Hmin _]. specialize (Hin m ltac:(apply elem_of_cons; by left)).
  rewrite Hm in *. replace MaxUint64 with m by (unfold MaxUint64 in *; lia). apply elem_of_cons. by left.
Qed.

Lemma max_u64_value ns : (∀ n, n ∈ ns → is_u64 n) → ns ≠ [] → agg_value AggMax ns (max_u64 ns).
Proof.
  intros Hin Hne. unfold agg_value. rewrite decide_False by done.
  destruct (max_u64_ok ns 0) as (Hm & _ & HF). split; [|done]. unfold max_u64. destruct Hm as [Hm|Hm]; [|done].
  destruct ns as [|m ns]; [done|]. apply Forall_cons in HF as [Hmax _]. specialize (Hin m ltac:(apply elem_of_cons; by left)).
  rewrite Hm in *. replace 0 with m by lia. apply elem_of_cons. by left.
Qed.

(** C31. An aggregate of an INT column that exists never fails, and is the count, the
    sum, the truncated average, the least or the greatest of the values, as
    documented, and 0 over no rows, with one exception the documents do not
    mention: SUM and AVG add in 64 bits, so where the sum is 2^64 or more SUM
    is the sum modulo 2^64 and AVG that divided by the number of rows. *)
Theorem evalAgg_spec `{Unicode} agg rows rawIdx idx ns :
  rawIdx !! ToLower (ACol agg) = Some idx →
  Forall2 (λ (r : row) n, r !! idx = Some (VInt n)) rows ns → Forall (λ n, is_u64 n) ns →
  ∃ n, evalAgg agg rows rawIdx = Ok (VInt n) ∧
    (agg_fits (AFunc agg) ns → agg_value (AFunc agg) ns n) ∧
    (¬ agg_fits (AFunc agg) ns → agg_wrapped (AFunc agg) ns n).
Proof.
  intros Hi Hr Hu. pose proof (int_column_ok _ _ _ Hr) as Hcol. pose proof (Forall2_length _ _ _ Hr) as Hlen.
  unfold evalAgg, resolveAggCol. rewrite Hi. cbn [mbind res_bind]. rewrite Hcol, Hlen. cbn [mbind res_bind].
  assert (∀ n, n ∈ ns → is_u64 n) as Hin by (by apply Forall_forall).
  assert (sum_u64 ns = u64 (total ns)) as Hsum by exact (sum_u64_ok ns 0). pose proof (total_nonneg ns Hin) as H0.
  assert (total ns < 2 ^ 64 → u64 (total ns) = total ns) as Hsmall by (intros ?; apply Z.mod_small; lia).
  assert (length ns = 0%nat → ns = []) as Hnil by apply nil_length_inv.
  destruct (AFunc agg); cbn [agg_fits agg_wrapped].
  - eexists. split; [done|]. split; [done|]. by intros [].
  - rewrite Hsum. eexists. split; [done|]. split; [|done]. intros Hf. by rewrite Hsmall.
  - rewrite Hsum. case_decide as Hl; [rewrite (Hnil Hl); exists 0; done|]. eexists. split; [done|]. split; [|done].
    intros Hf. by rewrite Hsmall.
  - case_decide as Hl; [rewrite (Hnil Hl); exists 0; split; [done|]; by split; [|intros []]|].
    eexists. split; [done|]. split; [|by intros []]. intros _. apply min_u64_value; [done|by intros ->].
  - case_decide as Hl; [rewrite (Hnil Hl); exists 0; split; [done|]; by split; [|intros []]|].
    eexists. split; [done|]. split; [|by intros []]. intros _. apply max_u64_value; [done|by intros ->].
Qed.

(** ** ORDER BY *)

(** A three-way comparison that is a total preorder on the values in [P]. *)
Record preorder_on {A} (P : A → Prop) (cmp : A → A → Z) : Prop := {
  po_anti a b : P a → P b → cmp b a = - cmp a b;
  po_trans a b c : P a → P b → P c → cmp a b ≤ 0 → cmp b c ≤ 0 → cmp a c ≤ 0
}.

Lemma po_refl {A} (P : A → Prop) cmp a : preorder_on P cmp → P a → cmp a a = 0.
Proof. intros Hp Ha. pose proof (po_anti _ _ Hp a a Ha Ha). lia. Qed.

Lemma po_zero {A} (P : A → Prop) cmp a b c : preorder_on P cmp → P a → P b → P c →
  cmp a b ≤ 0 → cmp b c ≤ 0 → cmp a c = 0 → cmp a b = 0 ∧ cmp b c = 0.
Proof.
  intros Hp Ha Hb Hc H1 H2 H3. pose proof (po_anti _ _ Hp a b Ha Hb). pose proof (po_anti _ _ Hp b c Hb Hc).
  pose proof (po_anti _ _ Hp a c Ha Hc).
  pose proof (po_trans _ _ Hp c a b Hc Ha Hb ltac:(lia) H1). pose proof (po_trans _ _ Hp b c a Hb Hc Ha H2 ltac:(lia)). lia.
Qed.

Lemma po_opp {A} (P : A → Prop) cmp : preorder_on P cmp → preorder_on P (λ a b, - cmp a b).
Proof.
  intros Hp. split.
  - intros a b Ha Hb. by rewrite (po_anti _ _ Hp a b).
  - intros a b c Ha Hb Hc H1 H2. pose proof (po_trans _ _ Hp c b a Hc Hb Ha) as Ht.
    rewrite (po_anti _ _ Hp b c), (po_anti _ _ Hp a b), (po_anti _ _ Hp a c) in Ht by done. lia.
Qed.

(** First [f], then [g] on a tie. *)
Lemma po_lex {A} (P : A → Prop) f g :
  preorder_on P f → preorder_on P g → preorder_on P (λ a b, if decide (f a b = 0) then g a b else f a b).
Proof.
  intros Hf Hg. split.
  - intros a b Ha Hb. cbn. rewrite (po_anti _ _ Hf a b), (po_anti _ _ Hg a b) by done. repeat case_decide; lia.
  - intros a b c Ha Hb Hc. cbn. pose proof (po_trans _ _ Hf a b c Ha Hb Hc) as Ht.
    pose proof (po_zero P f a b c Hf Ha Hb Hc) as Hz. pose proof (po_trans _ _ Hg a b c Ha Hb Hc) as Htg.
    repeat case_decide; intros; try lia.
Qed.

Lemma str_compare_po (P : string → Prop) : preorder_on P str_compare.
Proof.
  split.
  - intros s t _ _. unfold str_compare. rewrite String.compare_antisym. by destruct (String.compare s t).
  - intros s t u _ _ _. unfold str_compare. revert t u.
    induction s as [|a s IH]; intros [|b t] [|c u]; cbn [String.compare]; try done.
    specialize (IH t u). unfold Ascii.compare in *.
    destruct (N.compare_spec (N_of_ascii a) (N_of_ascii b)), (N.compare_spec (N_of_ascii b) (N_of_ascii c)),
      (N.compare_spec (N_of_ascii a) (N_of_ascii c)); try done; lia.
Qed.

(** Values of one type. *)
Definition of_type (ty : DataType) (v : Value) : Prop := VType v = ty.

Lemma cmpValue_po ty : preorder_on (of_type ty) cmpValue.
Proof.
  unfold of_type. split.
  - intros a b Ha Hb. unfold cmpValue. rewrite Ha, Hb. repeat case_decide; try lia.
    apply (po_anti (λ _, True)); [apply str_compare_po|done|done].
  - intros a b c Ha Hb Hc. unfold cmpValue. rewrite Ha, Hb. case_decide; [repeat case_decide; lia|].
    apply (po_trans (λ _, True)); [apply str_compare_po|done|done|done].
Qed.

(** The value of a sort key, and the order the keys define: lexicographic,
    reversed on the descending keys. *)
Definition key_value (k : sortKey) (r : row) : Value := default zeroValue (r !! sk_idx k).

Fixpoint row_cmp (keys : list sortKey) (a b : row) : Z :=
  match keys with
  | [] => 0
  | k :: keys =>
      let c := cmpValue (key_value k a) (key_value k b) in
      let c := if sk_desc k then - c else c in
      if decide (c = 0) then row_cmp keys a b else c
  end.

Lemma row_less_cmp keys a b : row_less keys a b = bool_decide (row_cmp keys a b < 0).
Proof.
  induction keys as [|k keys IH]; cbn [row_less row_cmp]; [done|]. fold (key_value k a) (key_value k b).
  rewrite IH. destruct (sk_desc k).
  - rewrite (decide_ext (- cmpValue (key_value k a) (key_value k b) = 0) (cmpValue (key_value k a) (key_value k b) = 0)) by lia.
    destruct (decide (cmpValue _ _ = 0)); [done|]. apply bool_decide_ext. lia.
  - by destruct (decide (cmpValue _ _ = 0)).
Qed.

(** Every row has a value of the key's column type under each key. *)
Definition sortable (tys : list DataType) (keys : list sortKey) (r : row) : Prop :=
  Forall2 (λ ty k, of_type ty (key_value k r)) tys keys.

Lemma row_cmp_po tys keys : preorder_on (sortable tys keys) (row_cmp keys).
Proof.
  revert tys. induction keys as [|k keys IH]; intros tys; cbn [row_cmp]; [by split|].
  destruct tys as [|ty tys]; [split; intros a b; intros; match goal with Hs : sortable _ _ _ |- _ => by inversion Hs end|].
  assert (∀ (Q : row → Prop), (∀ r, Q r → sortable (ty :: tys) (k :: keys) r) →
    preorder_on Q (λ a b, if sk_desc k then - cmpValue (key_value k a) (key_value k b) else cmpValue (key_value k a) (key_value k b))) as H1.
  { intros Q HQ. assert (preorder_on Q (λ a b, cmpValue (key_value k a) (key_value k b))) as Hc.
    { assert (∀ r, Q r → of_type ty (key_value k r)) as Hty by (intros r Hr%HQ; by inversion Hr).
      pose proof (cmpValue_po ty) as [Ha Ht].
      split; [intros a b Qa Qb; apply Ha; by apply Hty|intros a b c Qa Qb Qc; apply Ht; by apply Hty]. }
    destruct (sk_desc k); [by apply po_opp|done]. }
  assert (preorder_on (sortable (ty :: tys) (k :: keys)) (row_cmp keys)) as H2.
  { destruct (IH tys) as [Ha Ht]. assert (∀ r, sortable (ty :: tys) (k :: keys) r → sortable tys keys r) as Hs by (intros r Hr; by inversion Hr).
    split; [intros a b Qa Qb; apply Ha; by apply Hs|intros a b c Qa Qb Qc; apply Ht; by apply Hs]. }
  exact (po_lex _ _ _ (H1 _ (λ r Hr, Hr)) H2).
Qed.

Section sort.
Context {A} (P : A → Prop) (cmp : A → A → Z) (Hp : preorder_on P cmp).
Implicit Types (x y z : A) (l : list A).

Definition lt_of (x y : A) : bool := bool_decide (cmp x y < 0).
Definition le_of (x y : A) : Prop := cmp x y ≤ 0.

Lemma insert_perm x l : insert_stable lt_of x l ≡ₚ x :: l.
Proof.
  induction l as [|y l IH]; cbn [insert_stable]; [done|]. destruct (lt_of y x); [|done]. rewrite IH. constructor.
Qed.

Lemma sort_perm l : sort_stable lt_of l ≡ₚ l.
Proof. induction l as [|x l IH]; cbn; [done|]. by rewrite insert_perm, IH. Qed.

Lemma insert_sorted x l :
  P x → Forall P l → StronglySorted le_of l → StronglySorted le_of (insert_stable lt_of x l).
Proof using Hp.
  intros Hx HP. induction 1 as [|y l Hs IH Hy]; cbn [insert_stable]; [repeat constructor|].
  apply Forall_cons in HP as [HPy HP]. unfold lt_of at 1. case_bool_decide as Hyx.
  - constructor; [by apply IH|]. rewrite insert_perm. constructor; [unfold le_of; lia|done].
  - constructor; [by constructor|]. assert (le_of x y) as Hxy by (unfold le_of; rewrite (po_anti _ _ Hp y x) by done; lia).
    constructor; [done|]. apply Forall_forall. intros z Hz. rewrite Forall_forall in Hy, HP.
    apply (po_trans _ _ Hp x y z); [done|done|by apply HP|done|by apply Hy].
Qed.

Lemma sort_sorted l : Forall P l → StronglySorted le_of (sort_stable lt_of l).
Proof using Hp.
  induction 1 as [|x l Hx Hl IH]; cbn; [constructor|]. apply insert_sorted; [done| |exact IH].
  change (Forall P (sort_stable lt_of l)). by rewrite sort_perm.
Qed.

Lemma insert_ties z x l : P z → P x → Forall P l →
  filter (λ y, cmp z y = 0) (insert_stable lt_of x l) = filter (λ y, cmp z y = 0) (x :: l).
Proof using Hp.
  intros Hz Hx. induction 1 as [|y l Hy _ IH]; cbn [insert_stable]; [done|]. unfold lt_of at 1.
  case_bool_decide as Hyx; [|done]. rewrite !filter_cons, IH, !filter_cons.
  repeat case_decide; try done. exfalso.
  pose proof (po_anti _ _ Hp z y Hz Hy). pose proof (po_anti _ _ Hp y x Hy Hx).
  pose proof (po_trans _ _ Hp x z y Hx Hz Hy) as Ht. pose proof (po_anti _ _ Hp z x Hz Hx). lia.
Qed.

Lemma sort_ties z l : P z → Forall P l →
  filter (λ y, cmp z y = 0) (sort_stable lt_of l) = filter (λ y, cmp z y = 0) l.
Proof using Hp.
  intros Hz. induction 1 as [|x l Hx Hl IH]; [done|]. cbn [sort_stable foldr]. rewrite insert_ties, !filter_cons.
  - change (foldr (insert_stable lt_of) [] l) with (sort_stable lt_of l). by rewrite IH.
  - done.
  - done.
  - change (foldr (insert_stable lt_of) [] l) with (sort_stable lt_of l). by rewrite sort_perm.
Qed.
End sort.

Lemma sort_stable_ext {A} (f g : A → A → bool) l : (∀ x y, f x y = g x y) → sort_stable f l = sort_stable g l.
Proof.
  intros Hfg. induction l as [|x l IH]; [done|].
  change (insert_stable f x (sort_stable f l) = insert_stable g x (sort_stable g l)). rewrite IH.
  generalize (sort_stable g l). intros m.
  induction m as [|y m IHm]; cbn [insert_stable]; [done|]. by rewrite Hfg, IHm.
Qed.

(** C21. ORDER BY is a stable sort: the output is a permutation of the rows, no row
    comes before a smaller one in the lexicographic order of the keys (reversed
    on DESC), and rows that compare equal keep their order. *)
Theorem applyOrderBy_sorts `{Unicode} rows cols obs keys tys :
  resolve_order_by obs (name_index cols ∅) = Ok keys → Forall (sortable tys keys) rows →
  ∃ out, applyOrderBy rows cols obs = Ok out ∧ out ≡ₚ rows ∧ StronglySorted (λ a b, row_cmp keys a b ≤ 0) out ∧
    ∀ r, sortable tys keys r → filter (λ x, row_cmp keys r x = 0) out = filter (λ x, row_cmp keys r x = 0) rows.
Proof.
  intros Hk Hr. pose proof (row_cmp_po tys keys) as Hp. exists (sort_stable (lt_of (row_cmp keys)) rows). split_and!.
  - unfold applyOrderBy. rewrite Hk. cbn [mbind res_bind]. f_equal. apply sort_stable_ext. apply row_less_cmp.
  - apply sort_perm.
  - by apply (sort_sorted (sortable tys keys)).
  - intros r Hs. by apply (sort_ties (sortable tys keys)).
Qed.

(** ** Concrete instances *)

#[local] Existing Instance no_tables.

(** [SELECT name, COUNT( * ) ... GROUP BY name] over three rows. *)
Definition sample_rows : list row := [[VInt 1; VText "b"]; [VInt 2; VText "a"]; [VInt 3; VText "b"]].
Definition count_by_name : SelectStmt :=
  mkSelect [mkExpr "name" None EmptyString; mkExpr EmptyString (Some (mkAgg AggCount "*")) EmptyString]
    [mkRef "t" EmptyString] [] None ["name"%string] None [] 0.

Lemma aggregateRows_groups_by_value_witness :
  aggregateRows count_by_name sample_rows (name_index ["id"; "name"]%string ∅) =
    Ok ([[VText "b"; VInt 2]; [VText "a"; VInt 1]], ["name"; "COUNT(*)"]%string).
Proof.
  rewrite (aggregateRows_groups_by_value count_by_name sample_rows (name_index ["id"; "name"]%string ∅) [1%nat] (λ _, TypeText)).
  - reflexivity.
  - reflexivity.
  - repeat constructor; eexists; (split; [reflexivity|]); right; (split; [reflexivity|]); eexists; (split; [reflexivity|reflexivity]).
Defined.

(** Two values of 2^63: their sum and their average come out as 0. *)
Example sum_wraps :
  let rows := [[VInt (2 ^ 63)]; [VInt (2 ^ 63)]] in
  evalAgg (mkAgg AggSum "a") rows (name_index ["a"]%string ∅) = Ok (VInt 0) ∧
  evalAgg (mkAgg AggAvg "a") rows (name_index ["a"]%string ∅) = Ok (VInt 0) ∧ ¬ agg_value AggAvg [2 ^ 63; 2 ^ 63] 0.
Proof. split; [reflexivity|]. split; [reflexivity|]. discriminate. Qed.

Lemma evalAgg_spec_witness :
  ∃ n, evalAgg (mkAgg AggSum "id") sample_rows (name_index ["id"; "name"]%string ∅) = Ok (VInt n) ∧ n = 6.
Proof.
  destruct (evalAgg_spec (mkAgg AggSum "id") sample_rows (name_index ["id"; "name"]%string ∅) 0 [1; 2; 3]) as (n & E & Hv & _).
  - reflexivity.
  - repeat constructor.
  - repeat constructor; lia.
  - exists n. split; [exact E|]. apply Hv. reflexivity.
Defined.

Lemma applyOrderBy_sorts_witness :
  ∃ out, applyOrderBy sample_rows ["id"; "name"]%string [mkOrder "name" false; mkOrder "id" true] = Ok out ∧
    out ≡ₚ sample_rows.
Proof.
  destruct (applyOrderBy_sorts sample_rows ["id"; "name"]%string [mkOrder "name" false; mkOrder "id" true]
    [mkKey 1 false; mkKey 0 true] [TypeText; TypeInt]) as (out & E & Hp & _).
  - reflexivity.
  - repeat constructor.
  - exists out. exact (conj E Hp).
Defined.
