(* ===== verification/Sample.v ===== *)
(** * Sample: a table with one row and an open database that holds it

    The concrete instance on which the theorems about plans, operators and
    queries are applied. *)
From S2P Require Import Prelude Disk Storage Store Pager Mvcc TxPager BufferPool Node BTree Transaction.
From S2P Require Import Wal GoLib Catalog Rows Ast Db Frame.
From stdpp Require Import options.
Local Open Scope Z_scope.

(** The value slot of Ada's row, inserted by transaction 5. *)
Definition ada_slot : list byte :=
  match encodeRow people [VInt 7; VText "Ada"; VInt 36] 5 with Ok b => b | _ => [] end.
Definition ada : list Catalog.Value := [VInt 7; VText "Ada"; VInt 36].
Definition ada_entry : Entry := mkEntry 7 ada_slot.
Definition after5 : TxManager := mkTxManager {[5]}.

Lemma ada_decodes : decodeRow people ada_slot = Ok ada.
Proof. vm_compute. reflexivity. Qed.

Lemma ada_visible : IsVisible (TakeSnapshot XIDNone after5) (row_xmin ada_slot) (row_xmax ada_slot) = true.
Proof. vm_compute. reflexivity. Qed.

Lemma ada_entry_wf : entry_wf ada_entry.
Proof. split; [cbn; lia|vm_compute; reflexivity]. Qed.

(** ** The tree *)

Lemma Create_first {S} {PS : PageStore S} (s s' : S) hd root :
  Create s = (Ok (hd, root), s') → (ps_alloc s).1 = Ok hd.
Proof.
  unfold Create. M_run. destruct (ps_alloc s) as [[h| | |] s1]; cbn [wrap_err]; try done.
  repeat match goal with |- context [match ?x with _ => _ end] => destruct x end; cbn; congruence.
Qed.

Lemma buf0_first : (ps_alloc buf0).1 = Ok 1.
Proof.
  assert (files (bp_pool buf0) !! 0 = Some pager0) as Hf by reflexivity.
  change (ps_alloc buf0) with (BufAllocatePage buf0). unfold BufAllocatePage, own_pager, on_pool, on_file.
  change (bp_fid buf0) with 0. rewrite Hf.
  destruct pager1_rep as (id & pg & E & _). rewrite E.
  rewrite (AllocatePage_extend pager0 (OpenFile_ok _) eq_refl ltac:(by cbn) ltac:(by cbn)) in E.
  injection E as <- _. done.
Qed.

(** The tree with Ada's row; its header is page 1, where tables have it. *)
Lemma ada_tree_room : ∃ bt : BTree BufPager, ∃ h, headerPage bt = 1 ∧ tree_rep true bt h [ada_entry] ∧ 3300 ≤ ps_room (pg bt).
Proof.
  assert (ps_room buf0 = 2 ^ 32 - 2) as Hb by (change (ps_room buf0) with (pager_room pager0); unfold pager_room, pager0; simpl; lia).
  destruct (Create_ok buf0 ∅ buf0_rep) as (hd & root & s' & E & Hrep & Hr); [lia|].
  assert (hd = 1) as -> by (pose proof (Create_first _ _ _ _ E) as E1; rewrite buf0_first in E1; by injection E1).
  destruct (Insert_ok false true (mkBTree s' 1 root) 0 [] 7 ada_slot 32) as (bt & h & _ & Hbt & Hroom & Hh).
  - by right.
  - exact Hrep.
  - exact ada_entry_wf.
  - cbn [pg]. lia.
  - lia.
  - exists bt, h. split; [exact Hh|]. split; [exact Hbt|]. cbn [pg] in Hroom. lia.
Qed.

Lemma ada_tree : ∃ bt : BTree BufPager, ∃ h, headerPage bt = 1 ∧ tree_rep true bt h [ada_entry].
Proof. destruct ada_tree_room as (bt & h & Hh & Ht & _). eauto. Qed.

(** ** The database *)

Definition ada_catalog `{Unicode} : Catalog := mkCatalog {["people" := mkTableObj "people" (Columns people) (mkSlice 0 0)]} ∅ [[]] None.

(** The tree's file is open as table [people]; transaction 5 is committed. *)
Definition ada_db `{Unicode} (bt : BTree BufPager) : DB :=
  mkDB ∅ ada_catalog ∅ None (Wal.Open []) (bp_pool (pg bt)) after5 {["people"%string := bp_fid (pg bt)]} ∅ ∅ [].

Lemma ada_db_tree `{Unicode} bt h : headerPage bt = 1 → tree_rep true bt h [ada_entry] →
  ∃ v root, handle_view (ada_db bt) (HBuf (bp_fid (pg bt))) v ∧ holds_tree v 1 root [ada_entry].
Proof.
  intros Hh (v & fl & fp & Hs & Hrep & Hn & Hl). rewrite Hh in Hn, Hl. exists v, (rootID bt). split.
  - cbn. by destruct bt as [[] ? ?].
  - exists true, h, fl, fp. split_and!; [done|by left|done|done].
Qed.

(** ** A query *)

(** [SELECT name FROM people WHERE age >= 30] *)
Definition ada_query : SelectStmt :=
  mkSelect [mkExpr "name" None EmptyString] [mkRef "people" EmptyString] []
    (Some (mkWhere [[cond_val "age" OpGte (VInt 30)]])) [] None [] 0.
