(* ===== verification/StatsSpec.v ===== *)
(** * StatsSpec: the statistics file and what ANALYZE collects *)
From S2P Require Import Prelude Node BTree Store Cursor GoLib Catalog Rows Ast Eval Agg AggSpec Stats Frame Sample.
From stdpp Require Import options.
Local Open Scope Z_scope.

(** ** The file *)

Definition colstat_fits (c : ColumnStat) : Prop :=
  str_fits (SName c) ∧ is_u64 (NDistinct c) ∧ is_u64 (SMin c) ∧ is_u64 (SMax c).

(** Names below 256 bytes, at most 255 columns, 64-bit numbers. *)
Record stats_fit (ts : TableStats) : Prop := {
  sf_name : str_fits (STable ts);
  sf_rows : is_u64 (RowCount ts);
  sf_ncols : (length (SCols ts) < 256)%nat;
  sf_cols : Forall colstat_fits (SCols ts)
}.

Lemma read_u64_ok z rest : is_u64 z → read_u64 (le_enc 8 z ++ rest) = (Ok z, rest).
Proof.
  intros Hz. unfold read_u64. erewrite M_bind_Ok by (apply ReadFull_app, length_le_enc).
  by rewrite le_dec_enc_small.
Qed.

Lemma readColStat_ok c rest : colstat_fits c → readColStat (writeColStat c ++ rest) = (Ok c, rest).
Proof.
  intros (Hn & Hd & Hmn & Hmx). unfold readColStat, writeColStat. rewrite <-!app_assoc.
  erewrite M_bind_Ok by (by apply read_str_ok). do 3 erewrite M_bind_Ok by (by apply read_u64_ok). by destruct c.
Qed.

Lemma readTableStats_ok ts rest : stats_fit ts → readTableStats (writeTableStats ts ++ rest) = (Ok ts, rest).
Proof.
  intros [Hn Hr Hc HF]. unfold readTableStats, writeTableStats. rewrite <-!app_assoc.
  erewrite M_bind_Ok by (by apply read_str_ok). erewrite M_bind_Ok by (by apply read_u64_ok). cbn [app].
  erewrite M_bind_Ok by (apply read_byte_ok; lia). rewrite Nat2Z.id.
  erewrite M_bind_Ok by (by eapply (read_n_ok _ id); [apply readColStat_ok|exact HF]).
  rewrite list_fmap_id. by destruct ts.
Qed.

Section file.
Context `{Unicode}.

(** Each table is stored under its lower-case name. *)
Definition stats_wf (db : StatsDB) : Prop :=
  Z.of_nat (size db) < 2 ^ 16 ∧ ∀ k ts, db !! k = Some ts → k = ToLower (STable ts) ∧ stats_fit ts.

Definition stats_key (ts : TableStats) : string * TableStats := (ToLower (STable ts), ts).

Lemma read_stats_tables_ok ts i db0 rest :
  Forall stats_fit ts →
  read_tables (length ts) i db0 (concat (writeTableStats <$> ts) ++ rest) = (Ok (foldl (λ db t, Set_ t db) db0 ts), rest).
Proof.
  intros HF. revert i db0. induction HF as [|t ts Ht _ IH]; intros i db0; cbn [length read_tables fmap list_fmap concat foldl]; [done|].
  rewrite <-app_assoc. erewrite M_bind_Ok by (by apply wrap_Ok, readTableStats_ok). apply IH.
Qed.

Lemma foldl_Set ts db0 : NoDup (stats_key <$> ts).*1 →
  foldl (λ db t, Set_ t db) db0 ts = list_to_map (stats_key <$> ts) ∪ db0.
Proof.
  revert db0. induction ts as [|t ts IH]; intros db0 Hnd; cbn; [by rewrite (left_id_L ∅ (∪))|].
  cbn in Hnd. apply NoDup_cons in Hnd as [Hn Hnd]. rewrite IH by done. unfold Set_.
  rewrite <-insert_union_r; [by rewrite insert_union_l|]. by apply not_elem_of_list_to_map_1.
Qed.

(** The statistics file reads back what was written, whatever the order in
    which the tables are written. *)
Theorem stats_file_roundtrip db order path :
  stats_wf db → order ≡ₚ (map_to_list db).*2 → LoadStatsDB path (Some (serialize order)) = Ok db.
Proof.
  intros [Hsz Hwf] Ho.
  assert (∀ ts, ts ∈ order → db !! ToLower (STable ts) = Some ts ∧ stats_fit ts) as Hin.
  { intros ts. rewrite Ho. intros ([k t] & -> & Hk)%list_elem_of_fmap. apply elem_of_map_to_list in Hk.
    destruct (Hwf _ _ Hk) as [-> Hf]. done. }
  assert (stats_key <$> order ≡ₚ map_to_list db) as Hp.
  { rewrite Ho, <-list_fmap_compose. rewrite <-(list_fmap_id (map_to_list db)) at 2.
    apply reflexive_eq, list_fmap_ext. intros i [k t] Hk. apply list_elem_of_lookup_2, elem_of_map_to_list, Hwf in Hk as [-> _]. done. }
  assert (length order = size db) as Hlen.
  { rewrite Ho, length_fmap. apply length_map_to_list. }
  unfold LoadStatsDB, deserialize, serialize. erewrite M_bind_Ok by (apply wrap_Ok, ReadFull_app, length_le_enc).
  rewrite le_dec_enc_small by done. rewrite decide_False by congruence.
  erewrite M_bind_Ok by (apply wrap_Ok, ReadFull_app, length_le_enc).
  rewrite le_dec_enc_small by (cbn; lia). rewrite Nat2Z.id.
  rewrite <-(app_nil_r (concat _)), read_stats_tables_ok by (apply Forall_forall; apply Hin). cbn [fst wrap_err].
  f_equal. rewrite foldl_Set by (rewrite Hp; apply NoDup_fst_map_to_list).
  rewrite (list_to_map_proper (stats_key <$> order) (map_to_list db)); [|rewrite Hp; apply NoDup_fst_map_to_list|done].
  rewrite list_to_map_to_list. apply (right_id_L ∅ (∪)).
Qed.
End file.

Lemma stats_file_roundtrip_witness :
  LoadStatsDB (H := no_tables) "stats" (Some (serialize [mkTableStats "t" 3 [mkColStat "id" 3 1 9]]))
  = Ok {["t"%string := mkTableStats "t" 3 [mkColStat "id" 3 1 9]]}.
Proof.
  apply (stats_file_roundtrip (H := no_tables)).
  - split; [done|]. intros k ts (<- & <-)%lookup_singleton_Some. split; [reflexivity|].
    split; [cbn; lia|cbn; lia|cbn; lia|]. repeat constructor; cbn; lia.
  - by rewrite map_to_list_singleton.
Defined.

(** ** ANALYZE *)

(** The values of column [j]. *)
Definition column (j : nat) (rows : list row) : list Value := (λ r : row, default zeroValue (r !! j)) <$> rows.

(** The statistics of a column with these values: the number of distinct ones
    and, for integers, the least and the greatest (0 for an empty column). *)
Definition col_summary (c : ColumnDef) (vs : list Value) : ColumnStat :=
  if decide (CType c = TypeInt) then
    mkColStat (CName c) (Z.of_nat (size (list_to_set (IntVal <$> vs) : gset Z)))
      (if decide (vs = []) then 0 else min_u64 (IntVal <$> vs))
      (if decide (vs = []) then 0 else max_u64 (IntVal <$> vs))
  else mkColStat (CName c) (Z.of_nat (size (list_to_set (TextVal <$> vs) : gset string))) 0 0.

(** The tracker of a column after the values [vs]. *)
Definition tracker_of (c : ColumnDef) (vs : list Value) : colTracker :=
  if decide (CType c = TypeInt) then
    mkTracker (Some (list_to_set (IntVal <$> vs))) None (min_u64 (IntVal <$> vs)) (max_u64 (IntVal <$> vs))
      (negb (bool_decide (vs = [])))
  else mkTracker None (Some (list_to_set (TextVal <$> vs))) 0 0 false.

Lemma new_tracker_of c : new_tracker c = tracker_of c [].
Proof. unfold new_tracker, tracker_of. by case_decide. Qed.

Lemma set_snoc {A} `{Countable A} (x : A) l : {[x]} ∪ list_to_set l =@{gset A} list_to_set (l ++ [x]).
Proof. rewrite list_to_set_app_L. set_solver. Qed.

Lemma snoc_not_nil {A} (l : list A) x : bool_decide (l ++ [x] = []) = false.
Proof. apply bool_decide_eq_false_2. by destruct l. Qed.

Lemma track_of c v vs : typed c v → track v (tracker_of c vs) = Ok (tracker_of c (vs ++ [v])).
Proof.
  unfold track, tracker_of, min_u64, max_u64. rewrite !fmap_app. cbn [fmap list_fmap]. rewrite <-!set_snoc, snoc_not_nil.
  intros [(Hc & n & -> & _)|(Hc & s & -> )]; rewrite Hc; cbn [VInt VText VType IntVal TextVal intSet textSet tr_min tr_max];
    [rewrite !decide_True by done|rewrite !decide_False, decide_True by done].
  - by rewrite !foldl_app.
  - done.
Qed.

Lemma track_row_of cols (r : row) (f : nat → list Value) :
  Forall2 typed cols r →
  track_row r (imap (λ j c, tracker_of c (f j)) cols) =
  Ok (imap (λ j c, tracker_of c (f j ++ [default zeroValue (r !! j)])) cols).
Proof.
  intros HF. revert f. induction HF as [|c v cols r Ht _ IH]; intros f; [done|]. cbn [imap track_row].
  rewrite track_of by done. cbn [mbind res_bind]. specialize (IH (λ j, f (Datatypes.S j))).
  unfold compose. cbn beta in IH |- *. by rewrite IH.
Qed.

Lemma col_stat_of c vs : col_stat c (tracker_of c vs) = col_summary c vs.
Proof.
  unfold col_stat, tracker_of, col_summary. destruct (decide (CType c = TypeInt)); [|done].
  cbn [intSet from_option seenAny tr_min tr_max]. by case_bool_decide; case_decide.
Qed.

Lemma fmap_imap {A B} (f : A → B) (g : nat → A → B) l : (∀ j x, g j x = f x) → f <$> l = imap g l.
Proof.
  revert g. induction l as [|x l IH]; intros g Hg; [done|]. cbn. f_equal; [done|]. apply IH. intros; apply Hg.
Qed.

Lemma zip_imap {A B C} (f : A → B → C) (g : nat → A → B) (h : nat → A → C) l :
  (∀ j x, f x (g j x) = h j x) → zip_with f l (imap g l) = imap h l.
Proof.
  revert g h. induction l as [|x l IH]; intros g h Hgh; [done|]. cbn. f_equal; [done|]. apply IH. intros; apply Hgh.
Qed.

Section collect.
Context `{Unicode} {S : Type} {PS : PageStore S} {PSS : PageStoreSpec S}.

Lemma collect_loop_ok tbl v rows es c s seen n fuel :
  ps_rep s v → cursor_yields v c es → Forall2 (λ e r, Decode tbl (Node.Value e) = Ok r) es rows →
  Forall (Forall2 typed (Columns tbl)) rows → (length es < fuel)%nat →
  ∃ s', collect_loop fuel tbl c (imap (λ j c, tracker_of c (column j seen)) (Columns tbl)) (u64 n) s =
    (Ok (imap (λ j c, tracker_of c (column j (seen ++ rows))) (Columns tbl), u64 (n + Z.of_nat (length rows))), s') ∧
    ps_rep s' v.
Proof.
  intros Hs Hy HF. revert c s seen n fuel Hs Hy. induction HF as [|e r es rows Hd _ IH];
    intros c s seen n fuel Hs Hy Ht Hfuel; (destruct fuel as [|fuel]; [cbn in Hfuel; lia|]);
    cbn [collect_loop]; destruct (store_Next s v c _ Hs Hy) as (c' & s' & E & Hs' & Hy');
    (erewrite M_bind_Ok by (apply wrap_Ok; exact E)); cbn [head].
  - exists s'. split; [|done]. by rewrite app_nil_r, Z.add_0_r.
  - apply Forall_cons in Ht as [Hr Ht]. erewrite M_bind_Ok by (unfold lift; by rewrite Hd).
    erewrite M_bind_Ok by (unfold lift; by rewrite track_row_of).
    destruct (IH c' s' (seen ++ [r]) (n + 1) fuel Hs' (Hy' ltac:(done)) Ht) as (s'' & E' & Hs''); [cbn in Hfuel; lia|].
    exists s''. split; [|done]. rewrite <-app_assoc in E'. cbn [app] in E'.
    replace (u64 (u64 n + 1)) with (u64 (n + 1)) by (unfold u64; by rewrite Zplus_mod_idemp_l).
    replace (n + Z.of_nat (length (r :: rows))) with (n + 1 + Z.of_nat (length rows)) by (cbn [length]; lia).
    rewrite <-E'. f_equal. apply imap_ext. intros j col _. unfold column. by rewrite fmap_app.
Qed.

(** C32. ANALYZE counts every entry of the table's tree and summarises every column of
    what [Table.Decode] reads in its value slots (the entries of deleted and
    uncommitted rows included), without changing a page. *)
Theorem Collect_spec tbl v root kvs rows s fuel :
  ps_rep s v → holds_tree v 1 root kvs → Forall2 (λ e r, Decode tbl (Node.Value e) = Ok r) kvs rows →
  Forall (Forall2 typed (Columns tbl)) rows → (32 ≤ fuel)%nat → (length kvs < fuel)%nat →
  ∃ s', Collect fuel tbl s =
    (Ok (mkTableStats (ToLower (TName tbl)) (u64 (Z.of_nat (length kvs)))
           (imap (λ j c, col_summary c (column j rows)) (Columns tbl))), s') ∧ ps_rep s' v.
Proof.
  intros Hs Ht HF Htyped Hf1 Hf2. unfold Collect.
  destruct (store_Open s v 1 root kvs Hs Ht) as (s1 & E1 & Hs1).
  erewrite M_bind_Ok by (apply wrap_Ok; exact E1).
  destruct (store_NewCursor s1 v 1 root kvs fuel 0 MaxUint64 Hs1 Ht ltac:(lia) Hf1) as (c & s2 & E2 & Hs2 & Hy).
  rewrite kv_range_all in Hy by (by eapply holds_tree_keys).
  erewrite M_bind_Ok.
  2: { apply wrap_Ok. unfold on_tree. cbn [fst snd]. rewrite E2. done. }
  replace (new_tracker <$> Columns tbl) with (imap (λ j c, tracker_of c (column j [])) (Columns tbl)).
  2: { symmetry. apply fmap_imap. intros. by rewrite new_tracker_of. }
  destruct (collect_loop_ok tbl v rows kvs c s2 [] 0 fuel Hs2 Hy HF Htyped Hf2) as (s3 & E3 & Hs3).
  change (u64 0) with 0 in E3. erewrite M_bind_Ok by exact E3. cbn beta iota. exists s3. split; [|done].
  cbn [app]. rewrite Z.add_0_l, (Forall2_length _ _ _ HF). unfold mret, M_ret. do 3 f_equal. apply zip_imap. intros. apply col_stat_of.
Qed.
End collect.

(** A table of two columns, its row in a tree and the statistics of the row. *)
Definition pairs : Table := mkTable "Pairs" [mkCol "id" TypeInt; mkCol "n" TypeInt] [].
Definition pair_slot : list byte := le_enc 8 5 ++ le_enc 8 9 ++ zeros (ValueSize - 16).

Lemma Collect_spec_witness :
  ∃ (s s' : Mem), Collect (H := no_tables) 32 pairs s =
    (Ok (mkTableStats "pairs" 1 [mkColStat "id" 1 5 5; mkColStat "n" 1 9 9]), s').
Proof.
  destruct (Create_ok (mkMem ∅ 1) ∅ mem_new_rep) as (hd & root & s0 & E & Hrep & Hr); [cbn; lia|].
  assert (hd = 1) as -> by (pose proof (Create_first _ _ _ _ E) as E1; by injection E1).
  destruct (Insert_ok false true (mkBTree s0 1 root) 0 [] 7 pair_slot 32) as (bt & h & _ & (v & fl & fp & Hs & Hrp & Hn & Hl) & _ & Hh).
  - by right.
  - exact Hrep.
  - split; [cbn; lia|vm_compute; reflexivity].
  - cbn [pg]. rewrite Hr. cbn. lia.
  - lia.
  - cbn [headerPage] in Hh. rewrite Hh in Hn, Hl. exists (pg bt).
    destruct (Collect_spec (H := no_tables) pairs v (rootID bt) [mkEntry 7 pair_slot] [[VInt 5; VInt 9]] (pg bt) 32) as (s' & Ec & _).
    + exact Hs.
    + exists true, h, fl, fp. split_and!; [exact Hrp|by left|exact Hn|exact Hl].
    + constructor; [vm_compute; reflexivity|constructor].
    + constructor; [|constructor].
      constructor; [|constructor; [|constructor]]; left; (split; [reflexivity|]); eexists; (split; [reflexivity|lia]).
    + lia.
    + cbn. lia.
    + exists s'. rewrite Ec. reflexivity.
Defined.
