(* ===== verification/Operators.v ===== *)
(** * Operators: Volcano iterators over physical plans
    ([src/executor/operators.go])

    [buildOp] turns a plan into a tree of operators, [OpOpen], [OpNext] and
    [OpClose] are the methods of the interface, [execute] drives the root.  The
    loops of the [Next] methods run on fuel; [tfuel] bounds descents in a
    B-tree.  [OpClose] changes no database state (closing a cursor does
    nothing), so it is a function on operators. *)
From S2P Require Import Prelude Storage Store Mvcc TxPager BufferPool Node BTree Cursor GoLib.
From S2P Require Import Catalog Rows Ast Eval Stats Planner Db.
From stdpp Require Import options.
Local Open Scope Z_scope.

Inductive Operator : Type :=
  | scanOp (ps : Handle) (tbl : Table) (MinKey MaxKey : Z) (snap : Snapshot) (cursor : option Cursor)
  | indexLookupOp (ps idxPS : Handle) (tbl : Table) (MinKey MaxKey : Z) (snap : Snapshot)
      (cursor : option Cursor) (primary : option Tree)
  | unionOp (children : list Operator) (pkIdx cur : nat) (seen : gset Z)
  | filterOp (child : Operator) (preds : list Condition) (tbl : option Table)
  | limitOp (child : Operator) (n count : Z)
  | projectOp (child : Operator) (colIdxs : list nat)
  | nlJoinOp (left_ right_ : Operator) (on : list Condition) (leftSchema rightSchema : list string)
      (leftColMap rightColMap : gmap string nat) (leftRow : row) (rightOpen : bool).

(** [row[idx]] for every index of a list. *)
Fixpoint project (colIdxs : list nat) (r : row) : res row :=
  match colIdxs with
  | [] => Ok []
  | i :: colIdxs => v ← go_index r i; out ← project colIdxs r; Ok (v :: out)
  end.

Fixpoint baseTable (node : PhysicalNode) : option Table :=
  match node with
  | IndexScan tbl _ _ => Some tbl
  | IndexLookup tbl _ _ _ => Some tbl
  | Filter child _ => baseTable child
  | LimitN child _ => baseTable child
  | Union (child :: _) _ => baseTable child
  | _ => None
  end.

(** A row of the table as a scan sees it: [None] when it is not visible. *)
Definition visible_row (snap : Snapshot) (tbl : Table) (val : list byte) : res (option row) :=
  if IsVisible snap (row_xmin val) (row_xmax val) then Some <$> decodeRow tbl val else Ok None.

Section operators.
Context `{Unicode} (gid : Z) (tfuel : nat).

(** ** Join conditions *)

Definition buildColMap (schema : list string) : gmap string nat :=
  let bare := foldl (λ m si, match LastIndexByte "."%char si.1 with
    | Some dot =>
        let b := ToLower (str_drop (dot + 1) si.1) in
        match m !! b with Some _ => m | None => <[b := si.2]> m end
    | None => m
    end) ∅ (zip schema (seq 0 (length schema))) in
  foldl (λ m si, <[ToLower si.1 := si.2]> m) bare (zip schema (seq 0 (length schema))).

Definition resolveInMap (name : string) (m : gmap string nat) : option nat :=
  match m !! ToLower name with
  | Some idx => Some idx
  | None =>
      match LastIndexByte "."%char name with
      | Some dot => m !! ToLower (str_drop (dot + 1) name)
      | None => None
      end
  end.

Fixpoint evalOn (on : list Condition) (lm rm : gmap string nat) (l r : row) : res bool :=
  match on with
  | [] => Ok true
  | cond :: on =>
      match resolveInMap (Column cond) lm, resolveInMap (RHSCol cond) rm with
      | Some i, Some j =>
          a ← go_index l i; b ← go_index r j;
          if compareVals a b (Op cond) then evalOn on lm rm l r else Ok false
      | _, _ =>
          match resolveInMap (Column cond) rm, resolveInMap (RHSCol cond) lm with
          | Some i, Some j =>
              a ← go_index r i; b ← go_index l j;
              if compareVals a b (Op cond) then evalOn on lm rm l r else Ok false
          | _, _ => evalOn on lm rm l r
          end
      end
  end.

(** ** [buildOp] *)

Fixpoint buildOp (snap : Snapshot) (node : PhysicalNode) : M DB Operator :=
  match node with
  | IndexScan tbl mn mx =>
      ps ← wrap "open table %q: %w" [GStr (TName tbl)] (pageStoreFor gid (TName tbl));
      mret (scanOp ps tbl mn mx snap None)
  | IndexLookup tbl idx mn mx =>
      ps ← wrap "open table %q: %w" [GStr (TName tbl)] (pageStoreFor gid (TName tbl));
      idxPS ← wrap "open secondary index %q: %w" [GStr (IName idx)] (getOrOpenIndex (IName idx));
      mret (indexLookupOp ps (HBuf idxPS) tbl mn mx snap None None)
  | Filter child preds => c ← buildOp snap child; mret (filterOp c preds (baseTable child))
  | LimitN child n => c ← buildOp snap child; mret (limitOp c n 0)
  | Project child _ colIdxs => c ← buildOp snap child; mret (projectOp c colIdxs)
  | Union children pkIdx =>
      cs ← (fix build (nodes : list PhysicalNode) : M DB (list Operator) :=
              match nodes with
              | [] => mret []
              | node :: nodes => c ← buildOp snap node; cs ← build nodes; mret (c :: cs)
              end) children;
      mret (unionOp cs pkIdx 0 ∅)
  | NestedLoopJoin l r on ls rs =>
      lo ← buildOp snap l; ro ← buildOp snap r;
      mret (nlJoinOp lo ro on ls rs ∅ ∅ [] false)
  end.

(** ** Open, Close, Next *)

Fixpoint OpOpen (op : Operator) : M DB Operator :=
  match op with
  | scanOp ps tbl mn mx snap _ =>
      bt ← wrap "scanOp: open B-Tree: %w" [] (open_tree ps);
      '(c, _) ← wrap "scanOp: new cursor: %w" [] (on_bt bt (λ S _, NewCursor (S := S) tfuel mn mx));
      mret (scanOp ps tbl mn mx snap (Some c))
  | indexLookupOp ps idxPS tbl mn mx snap _ _ =>
      idxBT ← wrap "indexLookupOp: open secondary index: %w" [] (open_tree idxPS);
      '(c, _) ← wrap "indexLookupOp: cursor: %w" [] (on_bt idxBT (λ S _, NewCursor (S := S) tfuel mn mx));
      primary ← wrap "indexLookupOp: open primary: %w" [] (open_tree ps);
      mret (indexLookupOp ps idxPS tbl mn mx snap (Some c) (Some primary))
  | unionOp children pkIdx _ _ =>
      cs ← (fix open (ops : list Operator) : M DB (list Operator) :=
              match ops with
              | [] => mret []
              | op :: ops => c ← OpOpen op; cs ← open ops; mret (c :: cs)
              end) children;
      mret (unionOp cs pkIdx 0 ∅)
  | filterOp child preds tbl => c ← OpOpen child; mret (filterOp c preds tbl)
  | limitOp child n _ => c ← OpOpen child; mret (limitOp c n 0)
  | projectOp child colIdxs => c ← OpOpen child; mret (projectOp c colIdxs)
  | nlJoinOp l r on ls rs _ _ leftRow _ =>
      lo ← OpOpen l; mret (nlJoinOp lo r on ls rs (buildColMap ls) (buildColMap rs) leftRow false)
  end.

Fixpoint OpClose (op : Operator) : Operator :=
  match op with
  | unionOp children pkIdx cur seen => unionOp (OpClose <$> children) pkIdx cur seen
  | filterOp child preds tbl => filterOp (OpClose child) preds tbl
  | limitOp child n count => limitOp (OpClose child) n count
  | projectOp child colIdxs => projectOp (OpClose child) colIdxs
  | nlJoinOp l r on ls rs lm rm leftRow rightOpen =>
      nlJoinOp (OpClose l) (if rightOpen then OpClose r else r) on ls rs lm rm leftRow false
  | op => op
  end.

Fixpoint OpNext (fuel : nat) (op : Operator) : M DB (option row * Operator) :=
  match fuel with
  | O => lift OutOfFuel
  | S fuel =>
      match op with
      | scanOp ps tbl mn mx snap cursor =>
          match cursor with
          | None => lift Panic
          | Some c =>
              '(e, c) ← on_store ps (λ S _, Cursor.Next (S := S) c);
              let op := scanOp ps tbl mn mx snap (Some c) in
              match e with
              | None => mret (None, op)
              | Some e =>
                  v ← lift (visible_row snap tbl (Node.Value e));
                  match v with Some r => mret (Some r, op) | None => OpNext fuel op end
              end
          end
      | indexLookupOp ps idxPS tbl mn mx snap cursor primary =>
          match cursor, primary with
          | Some c, Some bt =>
              '(e, c) ← on_store idxPS (λ S _, Cursor.Next (S := S) c);
              let op := indexLookupOp ps idxPS tbl mn mx snap (Some c) primary in
              match e with
              | None => mret (None, op)
              | Some e =>
                  let pk := get_u64 0 (Node.Value e) in
                  '(val, _) ← wrap "indexLookupOp: primary lookup pk=%d: %w" [GInt pk]
                               (on_bt bt (λ S _, Search (S := S) tfuel pk));
                  match val with
                  | None => OpNext fuel op
                  | Some val =>
                      v ← lift (visible_row snap tbl val);
                      match v with Some r => mret (Some r, op) | None => OpNext fuel op end
                  end
              end
          | _, _ => lift Panic
          end
      | unionOp children pkIdx cur seen =>
          match children !! cur with
          | None => mret (None, op)
          | Some child =>
              '(r, child) ← OpNext fuel child;
              let children := <[cur := child]> children in
              match r with
              | None => OpNext fuel (unionOp children pkIdx (cur + 1)%nat seen)
              | Some r =>
                  v ← lift (go_index r pkIdx);
                  if decide (IntVal v ∈ seen) then OpNext fuel (unionOp children pkIdx cur seen)
                  else mret (Some r, unionOp children pkIdx cur ({[IntVal v]} ∪ seen))
              end
          end
      | filterOp child preds tbl =>
          '(r, child) ← OpNext fuel child;
          let op := filterOp child preds tbl in
          match r with
          | None => mret (None, op)
          | Some r =>
              b ← lift (evalPreds r tbl preds);
              if (b : bool) then mret (Some r, op) else OpNext fuel op
          end
      | limitOp child n count =>
          if decide (n ≤ count) then mret (None, op)
          else
            '(r, child) ← OpNext fuel child;
            match r with
            | None => mret (None, limitOp child n count)
            | Some r => mret (Some r, limitOp child n (count + 1))
            end
      | projectOp child colIdxs =>
          '(r, child) ← OpNext fuel child;
          match r with
          | None => mret (None, projectOp child colIdxs)
          | Some r => out ← lift (project colIdxs r); mret (Some out, projectOp child colIdxs)
          end
      | nlJoinOp l r on ls rs lm rm leftRow rightOpen =>
          if rightOpen : bool then
            '(rr, r) ← OpNext fuel r;
            match rr with
            | None => OpNext fuel (nlJoinOp l r on ls rs lm rm leftRow false)
            | Some rightRow =>
                let op := nlJoinOp l r on ls rs lm rm leftRow true in
                b ← lift (evalOn on lm rm leftRow rightRow);
                if (b : bool) then mret (Some (leftRow ++ rightRow), op) else OpNext fuel op
            end
          else
            '(lr, l) ← OpNext fuel l;
            match lr with
            | None => mret (None, nlJoinOp l r on ls rs lm rm leftRow false)
            | Some leftRow =>
                r ← wrap "nlJoinOp: reopen right: %w" [] (OpOpen (OpClose r));
                OpNext fuel (nlJoinOp l r on ls rs lm rm leftRow true)
            end
      end
  end.

(** ** [execute] *)

(** At most [n] rows of an open operator. *)
Fixpoint drain (n fuel : nat) (op : Operator) : M DB (list row) :=
  match n with
  | O => lift OutOfFuel
  | S n =>
      '(r, op) ← OpNext fuel op;
      match r with
      | None => mret []
      | Some r => rows ← drain n fuel op; mret (r :: rows)
      end
  end.

Definition execute (fuel : nat) (snap : Snapshot) (plan : PhysicalNode) : M DB (list row) :=
  op ← buildOp snap plan;
  op ← OpOpen op;
  drain fuel fuel op.
End operators.
