(* ===== verification/Plans.v ===== *)
(** * Plans: what a physical plan means, and that the planner's choices are sound

    [plan_rows] gives every plan its list of rows over the contents of the
    tables and secondary indexes, without operators, cursors or pages.  The
    planner may serve an AND group by narrowing the primary-key range or
    through a secondary index; both return the rows that satisfy the group. *)
From S2P Require Import Prelude Node BTree Mvcc GoLib Catalog Rows Ast Eval Stats Planner Db Frame Sample Operators.
From stdpp Require Import options.
Local Open Scope Z_scope.

(** The entries of the tables and of the secondary indexes, in key order. *)
Record Contents : Type := mkContents {
  ct_table : Table → list Entry;
  ct_index : IndexDef → list Entry
}.

(** The row in a value slot, when the snapshot sees it. *)
Definition seen_row (snap : Snapshot) (tbl : Table) (val : list byte) : option row :=
  match visible_row snap tbl val with Ok o => o | _ => None end.

(** Keeps the first row of every primary key; the accumulator [seen] of the code. *)
Fixpoint dedup (pkIdx : nat) (seen : gset Z) (rs : list row) : list row :=
  match rs with
  | [] => []
  | r :: rs =>
      let pk := IntVal (default zeroValue (r !! pkIdx)) in
      if decide (pk ∈ seen) then dedup pkIdx seen rs else r :: dedup pkIdx ({[pk]} ∪ seen) rs
  end.

Definition pick (colIdxs : list nat) (r : row) : row := (λ i, default zeroValue (r !! i)) <$> colIdxs.

Section plans.
Context `{Unicode} (snap : Snapshot) (ct : Contents).

Definition scan_rows (tbl : Table) (mn mx : Z) : list row :=
  omap (λ e, seen_row snap tbl (Node.Value e)) (kv_range mn mx (ct_table ct tbl)).

Definition lookup_rows (tbl : Table) (def : IndexDef) (mn mx : Z) : list row :=
  omap (λ e, kv_map (ct_table ct tbl) !! get_u64 0 (Node.Value e) ≫= seen_row snap tbl)
    (kv_range mn mx (ct_index ct def)).

Definition join_rows (on : list Condition) (ls rs : list string) (lrows rrows : list row) : list row :=
  lrows ≫= λ l, (λ r, l ++ r) <$>
    List.filter (λ r, match evalOn on (buildColMap ls) (buildColMap rs) l r with Ok b => b | _ => false end) rrows.

Fixpoint plan_rows (node : PhysicalNode) : list row :=
  match node with
  | IndexScan tbl mn mx => scan_rows tbl mn mx
  | IndexLookup tbl def mn mx => lookup_rows tbl def mn mx
  | Filter child preds => List.filter (λ r, forallb (cond_holds r (baseTable child)) preds) (plan_rows child)
  | LimitN child n => take (Z.to_nat n) (plan_rows child)
  | Project child _ idxs => pick idxs <$> plan_rows child
  | Union children pkIdx => dedup pkIdx ∅ (concat (plan_rows <$> children))
  | NestedLoopJoin l r on ls rs => join_rows on ls rs (plan_rows l) (plan_rows r)
  end.

(** All rows of a table the snapshot sees, in primary-key order. *)
Definition table_rows (tbl : Table) : list row :=
  omap (λ e, seen_row snap tbl (Node.Value e)) (ct_table ct tbl).
End plans.

#[export] Instance VInt_inj : Inj (=) (=) VInt.
Proof. by intros a b [= ->]. Qed.

(** ** Key ranges *)

Definition in_range (range : Z * Z) (k : Z) : Prop := range.1 ≤ k ≤ range.2.

Lemma compareVals_int a b op :
  compareVals (VInt a) (VInt b) op =
    match op with
    | OpEq => bool_decide (a = b) | OpGt => bool_decide (b < a) | OpLt => bool_decide (a < b)
    | OpGte => bool_decide (b ≤ a) | OpLte => bool_decide (a ≤ b)
    end.
Proof. by destruct op. Qed.

(** A literal of type INT as the parser builds it. *)
Definition int_literal (v : Catalog.Value) : Prop := VType v = TypeInt → ∃ n, v = VInt n ∧ is_u64 n.

Ltac range_solver :=
  unfold in_range, max64, min64, MaxUint64 in *; repeat case_decide; simplify_eq; cbn [fst snd] in *;
  rewrite ?bool_decide_eq_true; lia.

Lemma condToRange_ok c n k :
  Val c = VInt n → is_u64 n → is_u64 k →
  in_range (condToRange c) k ↔ evalCond (VInt k) c = true.
Proof.
  intros Hv Hn Hk. unfold evalCond. rewrite Hv, compareVals_int. unfold condToRange. rewrite Hv. cbn [IntVal VInt].
  destruct (Op c); range_solver.
Qed.

(** One narrowing step keeps exactly the keys that satisfy the condition. *)
Lemma narrow_ok c n range k :
  Val c = VInt n → is_u64 n → is_u64 k →
  in_range (narrow c range) k ↔ in_range range k ∧ evalCond (VInt k) c = true.
Proof.
  intros Hv Hn Hk. destruct range as [mn mx]. unfold evalCond. rewrite Hv, compareVals_int. unfold narrow.
  rewrite Hv. cbn [IntVal VInt]. destruct (Op c); range_solver.
Qed.

(** ** Lists of rows *)

Definition row_pk (i : nat) (r : row) : Z := IntVal (default zeroValue (r !! i)).

Lemma filter_bool {A} (f : A → bool) (P : A → Prop) `{∀ x, Decision (P x)} (l : list A) :
  (∀ x, x ∈ l → f x = true ↔ P x) → List.filter f l = filter P l.
Proof.
  induction l as [|x l IH]; intros Hf; [done|]. cbn [List.filter]. rewrite filter_cons.
  assert (f x = true ↔ P x) as Hx by (apply Hf; by left).
  rewrite IH by (intros y Hy; apply Hf; by right).
  destruct (f x); case_decide as HP; try done; [exfalso; tauto|]. apply Hx in HP. done.
Qed.

Lemma find_index_first {A} (p : A → bool) l i x :
  l !! i = Some x → p x = true → ∃ j, find_index p l = Some j ∧ (j ≤ i)%nat.
Proof.
  revert i. induction l as [|y l IH]; intros [|i] Hi Hp; cbn in *; simplify_eq.
  - rewrite Hp. by exists O.
  - destruct (p y); [exists O; split; [done|lia]|]. destruct (IH i Hi Hp) as (j & -> & ?).
    exists (S j). split; [done|lia].
Qed.

Lemma NoDup_omap {A B} (f : A → option B) l :
  NoDup l → (∀ x y z, x ∈ l → y ∈ l → f x = Some z → f y = Some z → x = y) → NoDup (omap f l).
Proof.
  induction 1 as [|x l Hx Hl IH]; intros Hf; cbn; [constructor|].
  assert (NoDup (omap f l)) by (apply IH; intros y1 y2 z Hy1 Hy2; apply Hf; by right).
  destruct (f x) as [z|] eqn:E; [|done]. constructor; [|done].
  intros (y & Hy & Hz)%list_elem_of_omap. apply Hx.
  by rewrite (Hf x y z ltac:(by left) ltac:(by right) E Hz).
Qed.

Lemma sorted_entries_NoDup kvs : sorted_kvs kvs → NoDup kvs.
Proof. intros Hs. by apply (NoDup_fmap_1 Key), sorted_kvs_NoDup. Qed.

Lemma sorted_kvs_inj kvs e1 e2 : sorted_kvs kvs → e1 ∈ kvs → e2 ∈ kvs → Key e1 = Key e2 → e1 = e2.
Proof.
  intros Hs H1 H2 Hk. destruct e1 as [k v1], e2 as [k2 v2]; cbn in *; subst k2.
  apply kv_map_lookup in H1, H2; [|done..]. congruence.
Qed.

Lemma forallb_withoutIdx (f : Condition → bool) conds i c :
  conds !! i = Some c → forallb f conds = f c && forallb f (withoutIdx conds i).
Proof.
  intros Hi. unfold withoutIdx. case_decide as Hl.
  - destruct conds as [|d [|]]; try done. destruct i; [|done]. injection Hi as ->. done.
  - rewrite <-(take_drop_middle conds i c Hi) at 1. rewrite !forallb_app. cbn [forallb].
    rewrite Nat.add_1_r. destruct (f c), (forallb f (take i conds)); done.
Qed.

Lemma dedup_elem i seen rs r :
  (∀ r1 r2, r1 ∈ rs → r2 ∈ rs → row_pk i r1 = row_pk i r2 → r1 = r2) →
  r ∈ dedup i seen rs ↔ r ∈ rs ∧ row_pk i r ∉ seen.
Proof.
  revert seen. induction rs as [|r0 rs IH]; intros seen Hinj; cbn [dedup]; [set_solver|]. fold (row_pk i r0).
  assert (∀ r1 r2, r1 ∈ rs → r2 ∈ rs → row_pk i r1 = row_pk i r2 → r1 = r2) as Hinj'
    by (intros; apply Hinj; [by right|by right|done]).
  case_decide as Hs.
  - rewrite IH, elem_of_cons by done. split; [tauto|]. intros [[->|?] ?]; [done|tauto].
  - rewrite elem_of_cons, IH, elem_of_cons by done. rewrite not_elem_of_union, not_elem_of_singleton.
    split; [intros [->|(Hr & _ & Hn)]; tauto|]. intros [[->|Hr] Hn]; [by left|].
    destruct (decide (r = r0)) as [->|Hne]; [by left|]. right. split_and!; [done| |done].
    intros He. apply Hne, Hinj; [by right|by left|done].
Qed.

Lemma dedup_NoDup i seen rs : NoDup (dedup i seen rs) ∧ ∀ r, r ∈ dedup i seen rs → row_pk i r ∉ seen.
Proof.
  revert seen. induction rs as [|r0 rs IH]; intros seen; cbn [dedup]; [split; [constructor|set_solver]|].
  fold (row_pk i r0). case_decide as Hs; [apply IH|]. destruct (IH ({[row_pk i r0]} ∪ seen)) as [Hnd Hn]. split.
  - constructor; [|done]. intros Hin. apply Hn in Hin. set_solver.
  - intros r [->|Hr]%elem_of_cons; [done|]. apply Hn in Hr. set_solver.
Qed.

(** ** Tables and indexes the planner may rely on *)

Section sound.
Context `{Unicode} `{Math} (snap : Snapshot) (ct : Contents).

(** The rows of a table have its columns, and their primary key is the key they
    are stored under; no two columns have the same name. *)
Record table_ok (tbl : Table) : Prop := {
  tk_names : NoDup ((λ c, ToLower (CName c)) <$> Columns tbl);
  tk_sorted : sorted_kvs (ct_table ct tbl);
  tk_keys : Forall (λ e, is_u64 (Key e)) (ct_table ct tbl);
  tk_typed e r : e ∈ ct_table ct tbl → seen_row snap tbl (Node.Value e) = Some r → Forall2 typed (Columns tbl) r;
  tk_pk e r i : e ∈ ct_table ct tbl → seen_row snap tbl (Node.Value e) = Some r →
    PrimaryKeyIndex tbl = Some i → r !! i = Some (VInt (Key e))
}.

(** An index on an INT column maps the value of every row the snapshot sees to
    its primary key, and nothing else that leads to such a row. *)
Record index_ok (tbl : Table) (def : IndexDef) : Prop := {
  ik_sorted : sorted_kvs (ct_index ct def);
  ik_complete e r i n : e ∈ ct_table ct tbl → seen_row snap tbl (Node.Value e) = Some r →
    ColIndex (IColumn def) tbl = Some i → r !! i = Some (VInt n) →
    ∃ ie, ie ∈ ct_index ct def ∧ Key ie = n ∧ get_u64 0 (Node.Value ie) = Key e;
  ik_sound ie r i : ie ∈ ct_index ct def → ColIndex (IColumn def) tbl = Some i →
    kv_map (ct_table ct tbl) !! get_u64 0 (Node.Value ie) ≫= seen_row snap tbl = Some r →
    r !! i = Some (VInt (Key ie))
}.

(** A condition of a single-table WHERE clause. *)
Definition plain_cond (c : Condition) : Prop := IsJoinCond c = false ∧ int_literal (Val c).

Context (tbl : Table) (Htbl : table_ok tbl).

Lemma seen_rows_lookup r : r ∈ table_rows snap ct tbl →
  ∃ e, e ∈ ct_table ct tbl ∧ seen_row snap tbl (Node.Value e) = Some r.
Proof. intros (e & He & Hr)%list_elem_of_omap. eauto. Qed.

Lemma row_pk_u64 r i : r ∈ table_rows snap ct tbl → PrimaryKeyIndex tbl = Some i → is_u64 (row_pk i r).
Proof using Htbl.
  intros (e & He & Hs)%seen_rows_lookup Hi. unfold row_pk. rewrite (tk_pk _ Htbl e r i He Hs Hi). cbn.
  pose proof (tk_keys _ Htbl) as Hk. rewrite Forall_forall in Hk. by apply Hk.
Qed.

(** A range scan keeps the rows whose primary key is in the range. *)
Lemma scan_rows_filter mn mx i :
  PrimaryKeyIndex tbl = Some i →
  scan_rows snap ct tbl mn mx = filter (λ r, in_range (mn, mx) (row_pk i r)) (table_rows snap ct tbl).
Proof using Htbl.
  intros Hi. unfold scan_rows, table_rows, kv_range.
  assert (∀ e r, e ∈ ct_table ct tbl → seen_row snap tbl (Node.Value e) = Some r → row_pk i r = Key e) as Hpk.
  { intros e r He Hs. unfold row_pk. by rewrite (tk_pk _ Htbl e r i He Hs Hi). }
  revert Hpk. induction (ct_table ct tbl) as [|e es IH]; intros Hpk; [done|].
  rewrite filter_cons. cbn [omap list_omap].
  assert (∀ e' r, e' ∈ es → seen_row snap tbl (Node.Value e') = Some r → row_pk i r = Key e') as Hpk'.
  { intros e' r He'. apply Hpk. by apply elem_of_cons; right. }
  specialize (IH Hpk'). destruct (seen_row snap tbl (Node.Value e)) as [r|] eqn:Es.
  - rewrite filter_cons. rewrite (Hpk e r (proj2 (elem_of_cons _ _ _) (or_introl eq_refl)) Es).
    unfold in_range; cbn [fst snd]. case_decide as Hd; cbn [omap list_omap]; [|exact IH].
    rewrite Es. f_equal. exact IH.
  - case_decide; cbn [omap list_omap]; rewrite ?Es; exact IH.
Qed.

Lemma ColIndex_unique i c name :
  Columns tbl !! i = Some c → ToLower (CName c) = ToLower name → ColIndex name tbl = Some i.
Proof using Htbl.
  intros Hi Hn. unfold ColIndex.
  destruct (find_index_first (λ c, bool_decide (ToLower (CName c) = ToLower name)) (Columns tbl) i c) as (j & E & Hj);
    [done|by rewrite bool_decide_eq_true|].
  rewrite E. f_equal. apply find_index_Some in E as (c' & Hj' & Hp & _). rewrite bool_decide_eq_true in Hp.
  apply (NoDup_lookup ((λ c, ToLower (CName c)) <$> Columns tbl) j i (ToLower name)); [apply tk_names; exact Htbl|..];
    rewrite list_lookup_fmap; [rewrite Hj'|rewrite Hi]; cbn; congruence.
Qed.

(** A condition on the primary key only looks at the key of the row. *)
Lemma pk_cond_holds i pk c r :
  PrimaryKeyIndex tbl = Some i → Columns tbl !! i = Some pk → r ∈ table_rows snap ct tbl →
  is_pk_cond (ToLower (CName pk)) c = true → plain_cond c →
  cond_holds r (Some tbl) c = evalCond (VInt (row_pk i r)) c ∧ ∃ n, Val c = VInt n ∧ is_u64 n.
Proof using Htbl.
  intros Hi Hpk Hr Hc [Hj Hl]. unfold is_pk_cond, isSimpleCond in Hc.
  rewrite !andb_true_iff, !bool_decide_eq_true in Hc. destruct Hc as [[[[[[Haf Hin] _] _] _] Hcol] Hty].
  split; [|by apply Hl]. unfold cond_holds. rewrite Haf, Hj. cbn [andb orb].
  unfold cond_column. cbn [mbind option_bind]. rewrite (ColIndex_unique i pk) by done.
  cbn [mbind option_bind].
  destruct (seen_rows_lookup r Hr) as (e & He & Hs).
  unfold row_pk. rewrite (tk_pk _ Htbl e r i He Hs Hi). cbn [default].
  destruct (InList c); [exfalso; apply Hin; eauto|]. done.
Qed.

Lemma classify_loop_ok i pk conds range post r :
  PrimaryKeyIndex tbl = Some i → Columns tbl !! i = Some pk → r ∈ table_rows snap ct tbl →
  Forall plain_cond conds →
  let '(range', post') := classify_loop (ToLower (CName pk)) conds range post in
  in_range range' (row_pk i r) ∧ forallb (cond_holds r (Some tbl)) post' = true ↔
  in_range range (row_pk i r) ∧ forallb (cond_holds r (Some tbl)) post = true ∧
    forallb (cond_holds r (Some tbl)) conds = true.
Proof using Htbl.
  intros Hi Hpk Hr Hc. revert range post. induction Hc as [|c conds Hc _ IH]; intros range post; cbn [classify_loop].
  { cbn [forallb]. tauto. }
  destruct (is_pk_cond _ c) eqn:Ep.
  - specialize (IH (narrow c range) post). destruct (classify_loop _ conds _ _) as [range' post'].
    destruct (pk_cond_holds i pk c r Hi Hpk Hr Ep Hc) as (Hh & n & Hv & Hn).
    rewrite IH, (narrow_ok c n) by eauto using row_pk_u64. cbn [forallb]. rewrite Hh, andb_true_iff. tauto.
  - specialize (IH range (post ++ [c])). destruct (classify_loop _ conds _ _) as [range' post'].
    rewrite IH, forallb_app. cbn [forallb]. rewrite !andb_true_iff. tauto.
Qed.

Lemma scan_all : Forall (λ e, is_u64 (Key e)) (ct_table ct tbl) → scan_rows snap ct tbl 0 MaxUint64 = table_rows snap ct tbl.
Proof. intros Hk. unfold scan_rows, table_rows. by rewrite kv_range_all.
Qed.

Definition group_rows (conds : list Condition) : list row :=
  List.filter (λ r, forallb (cond_holds r (Some tbl)) conds) (table_rows snap ct tbl).

Lemma with_filter_rows node preds :
  baseTable node = Some tbl →
  plan_rows snap ct (with_filter node preds) =
  List.filter (λ r, forallb (cond_holds r (Some tbl)) preds) (plan_rows snap ct node).
Proof.
  intros Hb. unfold with_filter. case_decide as Hp; cbn [plan_rows]; [by rewrite Hb|].
  destruct preds; [|cbn in Hp; lia]. cbn [forallb]. symmetry. induction (plan_rows snap ct node) as [|r rs IH]; [done|].
  cbn. by rewrite IH.
Qed.

(** The scan of a range with the remaining conditions as a filter returns
    exactly the rows of the group, in primary-key order. *)
Lemma scan_plan_sound conds :
  Forall plain_cond conds → plan_rows snap ct (scan_plan tbl conds) = group_rows conds.
Proof using Htbl.
  intros Hc. unfold scan_plan, classifyGroup.
  destruct (PrimaryKeyIndex tbl) as [i|] eqn:Hi; cbn [mbind option_bind].
  2: { rewrite with_filter_rows by done. cbn [plan_rows]. by rewrite scan_all by apply Htbl. }
  destruct (find_index_Some _ _ _ Hi) as (pk & Hpk & _). rewrite Hpk.
  destruct (classify_loop _ conds _ _) as [[mn mx] post] eqn:Ec. rewrite with_filter_rows by done.
  cbn [plan_rows]. rewrite (scan_rows_filter mn mx i Hi). unfold group_rows.
  rewrite (filter_bool _ (λ r, forallb (cond_holds r (Some tbl)) post = true ∧ in_range (mn, mx) (row_pk i r)) (table_rows _ _ _)).
  - rewrite (filter_bool _ (λ r, forallb (cond_holds r (Some tbl)) post = true) (filter _ _)) by done.
    rewrite list_filter_filter. done.
  - intros r Hr. pose proof (classify_loop_ok i pk conds (0, MaxUint64) [] r Hi Hpk Hr Hc) as Hok.
    rewrite Ec in Hok. rewrite (and_comm (forallb _ post = true)), Hok. cbn [forallb]. pose proof (row_pk_u64 r i Hr Hi).
    unfold in_range, MaxUint64; cbn [fst snd]. intuition lia.
Qed.

(** ** Secondary indexes *)

(** Every index of the table is on an INT column and in step with the rows. *)
Definition indexes_ok : Prop :=
  ∀ def, def ∈ Indexes tbl → index_ok tbl def ∧
    ∃ j c, ColIndex (IColumn def) tbl = Some j ∧ Columns tbl !! j = Some c ∧ CType c = TypeInt.

Context (Hidx : indexes_ok).

Lemma table_rows_typed r : r ∈ table_rows snap ct tbl → Forall2 typed (Columns tbl) r.
Proof using Htbl. intros (e & He & Hs)%seen_rows_lookup. by eapply tk_typed. Qed.

Lemma row_int_column r j c :
  r ∈ table_rows snap ct tbl → Columns tbl !! j = Some c → CType c = TypeInt →
  ∃ n, r !! j = Some (VInt n) ∧ is_u64 n.
Proof using Htbl.
  intros Hr Hj Hc. destruct (Forall2_lookup_l _ _ _ _ _ (table_rows_typed r Hr) Hj) as (v & Hv & Ht).
  destruct Ht as [(_ & n & -> & Hn)|(Hc' & _)]; [eauto|]. rewrite Hc in Hc'. done.
Qed.

Lemma table_rows_row_fits r : r ∈ table_rows snap ct tbl → row_fits (Some tbl) r.
Proof using Htbl.
  intros Hr t [= <-]. by rewrite (Forall2_length _ _ _ (table_rows_typed r Hr)).
Qed.

(** A lookup in the index returns the rows whose column is in the range. *)
Lemma lookup_rows_filter def j mn mx :
  def ∈ Indexes tbl → ColIndex (IColumn def) tbl = Some j → NoDup (table_rows snap ct tbl) →
  lookup_rows snap ct tbl def mn mx ≡ₚ
  filter (λ r, in_range (mn, mx) (row_pk j r)) (table_rows snap ct tbl).
Proof using Htbl Hidx.
  intros Hd Hj Hnd. destruct (Hidx def Hd) as ([Hsort Hcomp Hsound] & j' & c & Hj' & Hc & Hty).
  rewrite Hj in Hj'. injection Hj' as <-. pose proof (tk_sorted _ Htbl) as Hts.
  assert (∀ ie r, ie ∈ ct_index ct def →
    kv_map (ct_table ct tbl) !! get_u64 0 (Node.Value ie) ≫= seen_row snap tbl = Some r → row_pk j r = Key ie) as Hkey.
  { intros ie r Hie Hr. unfold row_pk. by rewrite (Hsound ie r j Hie Hj Hr). }
  apply NoDup_Permutation.
  - apply NoDup_omap.
    + by apply NoDup_filter, sorted_entries_NoDup.
    + intros e1 e2 r [_ H1]%list_elem_of_filter [_ H2]%list_elem_of_filter Hr1 Hr2.
      apply (sorted_kvs_inj (ct_index ct def)); [done..|].
      by rewrite <-(Hkey e1 r H1 Hr1), <-(Hkey e2 r H2 Hr2).
  - by apply NoDup_filter.
  - intros r. unfold lookup_rows, kv_range. rewrite list_elem_of_omap, list_elem_of_filter. split.
    + intros (ie & [Hrange Hie]%list_elem_of_filter & Hr). split.
      * unfold in_range. by rewrite (Hkey ie r Hie Hr).
      * apply bind_Some in Hr as (val & Hval & Hs). apply kv_map_lookup in Hval; [|done].
        unfold table_rows. apply list_elem_of_omap. by exists (mkEntry (get_u64 0 (Node.Value ie)) val).
    + intros [Hrange Hr]. pose proof Hr as Hr0. apply seen_rows_lookup in Hr as (e & He & Hs).
      destruct (row_int_column r j c Hr0 Hc Hty) as (n & Hn & _).
      destruct (Hcomp e r j n He Hs Hj Hn) as (ie & Hie & <- & Hpk).
      exists ie. rewrite list_elem_of_filter. unfold row_pk in Hrange. rewrite Hn in Hrange.
      split; [by split|]. rewrite Hpk.
      assert (kv_map (ct_table ct tbl) !! Key e = Some (Node.Value e)) as ->; [|done].
      apply kv_map_lookup; [done|]. by destruct e.
Qed.

Lemma table_rows_NoDup i : PrimaryKeyIndex tbl = Some i → NoDup (table_rows snap ct tbl).
Proof using Htbl.
  intros Hi. pose proof (tk_sorted _ Htbl) as Hts. apply NoDup_omap; [by apply sorted_entries_NoDup|].
  intros e1 e2 r H1 H2 Hr1 Hr2. apply (sorted_kvs_inj (ct_table ct tbl)); [done..|].
  pose proof (tk_pk _ Htbl e1 r i H1 Hr1 Hi). pose proof (tk_pk _ Htbl e2 r i H2 Hr2 Hi).
  apply VInt_inj. congruence.
Qed.

Lemma index_pk def : def ∈ Indexes tbl → is_Some (PrimaryKeyIndex tbl).
Proof using Hidx.
  intros (_ & j & c & _ & Hc & Hty)%Hidx. unfold PrimaryKeyIndex.
  destruct (find_index_first (λ c, bool_decide (CType c = TypeInt)) (Columns tbl) j c) as (i & -> & _);
    [done|by rewrite bool_decide_eq_true|eauto].
Qed.

(** The plan that goes through an index returns the rows of the group. *)
Lemma lookup_plan_sound def conds i cond :
  conds !! i = Some cond → plain_cond cond → cond_index tbl cond = Some def →
  plan_rows snap ct (lookup_plan tbl def conds i cond) ≡ₚ group_rows conds.
Proof using Htbl Hidx.
  intros Hi [Hjoin Hlit] Hci. unfold cond_index in Hci.
  destruct (isSimpleCond cond) eqn:Hsimple; [|done]. rewrite Hjoin in Hci. cbn [negb orb] in Hci.
  destruct (IndexForColumn (Column cond) tbl) as [d|] eqn:Hif; [|done].
  case_decide as Hty; [done|]. injection Hci as ->.
  destruct (Hlit Hty) as (n & Hn & Hnu). unfold IndexForColumn in Hif.
  destruct (list_find _ _) as [[k d']|] eqn:Hlf; [|done]. injection Hif as ->.
  apply list_find_Some in Hlf as (Hk & Hname & _). apply list_elem_of_lookup_2 in Hk.
  destruct (Hidx def Hk) as (_ & j & c & Hj & Hc & Hct).
  assert (ColIndex (Column cond) tbl = Some j) as Hj'.
  { unfold ColIndex in Hj |- *. by rewrite <-Hname. }
  destruct (index_pk def Hk) as [pk Hpk]. pose proof (table_rows_NoDup pk Hpk) as Hnd.
  unfold lookup_plan. destruct (condToRange cond) as [mn mx] eqn:Hr. rewrite with_filter_rows by done.
  cbn [plan_rows]. rewrite (filter_bool _ (λ r, forallb (cond_holds r (Some tbl)) (withoutIdx conds i) = true)) by done.
  rewrite (lookup_rows_filter def j mn mx Hk Hj Hnd). rewrite list_filter_filter. unfold group_rows.
  rewrite (filter_bool (λ r, forallb (cond_holds r (Some tbl)) conds)
    (λ r, forallb (cond_holds r (Some tbl)) (withoutIdx conds i) = true ∧ in_range (mn, mx) (row_pk j r))); [done|].
  intros r Hin. rewrite (forallb_withoutIdx _ _ _ _ Hi), andb_true_iff.
  destruct (row_int_column r j c Hin Hc Hct) as (m & Hm & Hmu).
  assert (in_range (mn, mx) (row_pk j r) ↔ cond_holds r (Some tbl) cond = true) as ->; [|tauto].
  unfold row_pk. rewrite <-Hr. rewrite Hm. cbn [default IntVal VInt]. rewrite (condToRange_ok cond n m) by done.
  unfold cond_holds, cond_column. unfold isSimpleCond in Hsimple.
  rewrite !andb_true_iff, !bool_decide_eq_true in Hsimple. destruct Hsimple as [[[[Haf Hil] _] _] _].
  rewrite Haf, Hjoin. cbn [andb orb mbind option_bind]. rewrite Hj'. cbn [mbind option_bind]. rewrite Hm.
  destruct (InList cond); [exfalso; apply Hil; eauto|done].
Qed.

(** ** The choice of an access path *)

Lemma rule_loop_sound conds0 conds i :
  drop i conds0 = conds → Forall plain_cond conds0 →
  plan_rows snap ct (rule_loop tbl conds0 conds i) ≡ₚ group_rows conds0.
Proof using Htbl Hidx.
  revert i. induction conds as [|c conds IH]; intros i Hd Hp; cbn [rule_loop]; [by rewrite scan_plan_sound|].
  assert (conds0 !! i = Some c) as Hc by (rewrite <-(Nat.add_0_r i), <-lookup_drop, Hd; done).
  destruct (cond_index tbl c) as [def|] eqn:Hci.
  - apply lookup_plan_sound; [done| |done]. rewrite Forall_forall in Hp. by eapply Hp, list_elem_of_lookup_2.
  - apply IH; [|done]. by rewrite <-drop_drop, Hd.
Qed.

Lemma cost_loop_index ts conds0 conds i cost best k :
  drop i conds0 = conds →
  (∀ k, best = Some k → ∃ c def, conds0 !! k = Some c ∧ cond_index tbl c = Some def) →
  cost_loop tbl ts conds i cost best = Some k →
  ∃ c def, conds0 !! k = Some c ∧ cond_index tbl c = Some def.
Proof.
  revert i cost best. induction conds as [|c conds IH]; intros i cost best Hd Hb; cbn [cost_loop]; [by apply Hb|].
  assert (conds0 !! i = Some c) as Hc by (rewrite <-(Nat.add_0_r i), <-lookup_drop, Hd; done).
  assert (drop (i + 1) conds0 = conds) as Hd' by (by rewrite <-drop_drop, Hd).
  destruct (cond_index tbl c) as [def|] eqn:Hci; [|by apply IH].
  case_match; apply IH; try done. intros k' [= <-]. eauto.
Qed.

Lemma cond_index_column c def : cond_index tbl c = Some def → IndexForColumn (Column c) tbl = Some def.
Proof. unfold cond_index. repeat case_match; by intros [= ->]. Qed.

Lemma planGroup_sound conds ts :
  Forall plain_cond conds →
  ∃ p, planGroup tbl conds ts = Ok p ∧ plan_rows snap ct p ≡ₚ group_rows conds.
Proof using Htbl Hidx.
  intros Hp. destruct ts as [ts|]; cbn [planGroup].
  2: { eexists. split; [done|]. unfold ruleBasedPlanGroup. by apply rule_loop_sound. }
  unfold costBasedPlanGroup. destruct (cost_loop tbl ts conds 0 _ None) as [k|] eqn:Ek.
  2: { eexists. split; [done|]. by rewrite scan_plan_sound. }
  apply (cost_loop_index ts conds) in Ek as (c & def & Hc & Hci); [|done|done].
  rewrite Hc, (cond_index_column _ _ Hci). eexists. split; [done|]. apply lookup_plan_sound; [done| |done].
  rewrite Forall_forall in Hp. by eapply Hp, list_elem_of_lookup_2.
Qed.

(** Without indexes every group is served by a scan, so its rows also come in
    primary-key order. *)
Lemma planGroup_scan conds ts : Indexes tbl = [] → planGroup tbl conds ts = Ok (scan_plan tbl conds).
Proof.
  intros Hi. assert (∀ c, cond_index tbl c = None) as Hno.
  { intros c. unfold cond_index, IndexForColumn. rewrite Hi. cbn. by destruct (_ || _). }
  destruct ts as [ts|]; cbn [planGroup].
  - unfold costBasedPlanGroup. assert (∀ l i cost, cost_loop tbl ts l i cost None = None) as ->; [|done].
    intros l. induction l as [|c l IH]; intros i cost; cbn [cost_loop]; [done|]. by rewrite Hno.
  - f_equal. unfold ruleBasedPlanGroup. generalize 0%nat. assert (∀ l i, rule_loop tbl conds l i = scan_plan tbl conds) as Hr;
      [|auto]. intros l. induction l as [|c l IH]; intros i; cbn [rule_loop]; [done|]. by rewrite Hno.
Qed.

Lemma planGroup_no_index conds ts :
  Forall plain_cond conds → Indexes tbl = [] →
  ∃ p, planGroup tbl conds ts = Ok p ∧ plan_rows snap ct p = group_rows conds.
Proof using Htbl. intros Hp Hi. exists (scan_plan tbl conds). split; [by apply planGroup_scan|by apply scan_plan_sound]. Qed.

(** ** OR groups *)

Lemma table_rows_pk_inj i r1 r2 :
  PrimaryKeyIndex tbl = Some i → r1 ∈ table_rows snap ct tbl → r2 ∈ table_rows snap ct tbl →
  row_pk i r1 = row_pk i r2 → r1 = r2.
Proof using Htbl.
  intros Hi (e1 & H1 & Hs1)%seen_rows_lookup (e2 & H2 & Hs2)%seen_rows_lookup. unfold row_pk.
  rewrite (tk_pk _ Htbl e1 r1 i H1 Hs1 Hi), (tk_pk _ Htbl e2 r2 i H2 Hs2 Hi). cbn. intros Hk.
  rewrite (sorted_kvs_inj (ct_table ct tbl) e1 e2) in Hs1 by (done || apply Htbl). congruence.
Qed.

Definition where_rows (w : option WhereClause) : list row :=
  List.filter (λ r, where_holds r tbl w) (table_rows snap ct tbl).

(** A union of branches, each returning the rows of its group, returns every row
    that satisfies some group once. *)
Lemma union_sound i groups branches :
  PrimaryKeyIndex tbl = Some i →
  Forall2 (λ g b, plan_rows snap ct b ≡ₚ group_rows g) groups branches →
  plan_rows snap ct (Union branches i) ≡ₚ where_rows (Some (mkWhere groups)).
Proof using Htbl Hidx.
  intros Hi HF. cbn [plan_rows].
  assert (∀ r, r ∈ concat (plan_rows snap ct <$> branches) ↔
    r ∈ table_rows snap ct tbl ∧ existsb (forallb (cond_holds r (Some tbl))) groups = true) as Hin.
  { intros r. induction HF as [|g b groups branches Hg _ IH]; cbn; [set_solver|].
    rewrite elem_of_app, IH, Hg, orb_true_iff. unfold group_rows.
    rewrite list_elem_of_In, filter_In, <-list_elem_of_In. tauto. }
  unfold where_rows, where_holds. rewrite (filter_bool _ (λ r, existsb (forallb (cond_holds r (Some tbl))) groups = true)) by done.
  apply NoDup_Permutation.
  - apply dedup_NoDup.
  - by eapply NoDup_filter, table_rows_NoDup.
  - intros r. rewrite dedup_elem, Hin, list_elem_of_filter; [set_solver|].
    intros r1 r2 [H1 _]%Hin [H2 _]%Hin. by apply (table_rows_pk_inj i).
Qed.

(** ** Single-table SELECT *)

Definition plain_where (w : option WhereClause) : Prop :=
  ∀ w', w = Some w' → Forall (Forall plain_cond) (Groups w').

Lemma mapM_res_Forall2 {A B} (f : A → res B) (R : A → B → Prop) l :
  Forall (λ x, ∃ y, f x = Ok y ∧ R x y) l → ∃ ys, mapM_res f l = Ok ys ∧ Forall2 R l ys.
Proof.
  induction 1 as [|x l (y & Hy & Hr) _ (ys & Hys & HR)]; cbn [mapM_res]; [by exists []|].
  rewrite Hy. cbn. rewrite Hys. cbn. exists (y :: ys). by split; [|constructor].
Qed.

Lemma with_limit_rows s root :
  plan_rows snap ct (with_limit s root) =
  if decide (0 < Limit s) then take (Z.to_nat (Limit s)) (plan_rows snap ct root) else plan_rows snap ct root.
Proof. unfold with_limit. by case_decide. Qed.

(** The plan below the LIMIT and the projection, whatever path each group takes. *)
Lemma where_plan_sound s ts :
  plain_where (Where s) → is_Some (PrimaryKeyIndex tbl) →
  ∃ root,
    (branches ← match Where s with
                | None => Ok [IndexScan tbl 0 MaxUint64]
                | Some w => mapM_res (λ group, planGroup tbl group ts) (Groups w)
                end;
     match branches with
     | [b] => Ok b
     | _ =>
         match PrimaryKeyIndex tbl with
         | None => Err (Errorf "planner: OR queries require a primary key column" [])
         | Some pkIdx => Ok (Union branches pkIdx)
         end
     end) = Ok root ∧ plan_rows snap ct root ≡ₚ where_rows (Where s).
Proof using Htbl Hidx.
  intros Hp [i Hi]. destruct (Where s) as [[groups]|] eqn:Ew; cbn [Groups].
  2: { eexists. split; [done|]. cbn [plan_rows]. rewrite scan_all by apply Htbl. unfold where_rows, where_holds.
       induction (table_rows snap ct tbl); cbn; [done|]. by constructor. }
  destruct (mapM_res_Forall2 (λ g, planGroup tbl g ts) (λ g b, plan_rows snap ct b ≡ₚ group_rows g) groups)
    as (bs & Hbs & HF).
  { specialize (Hp _ eq_refl). eapply Forall_impl; [exact Hp|]. intros g Hg. by apply planGroup_sound. }
  rewrite Hbs. cbn [mbind res_bind]. rewrite Hi.
  assert (∃ root, match bs with [b] => Ok b | _ => Ok (Union bs i) end = Ok root ∧
    plan_rows snap ct root ≡ₚ where_rows (Some (mkWhere groups))) as (root & Hr & Hrows).
  { destruct bs as [|b [|b2 bs]]; [| |eexists; split; [done|by apply union_sound]].
    - eexists. split; [done|by apply union_sound].
    - exists b. split; [done|]. inversion HF as [|g ? gs ? Hg HF' Hgs]; subst. inversion HF'; subst.
      rewrite Hg. unfold group_rows, where_rows, where_holds. cbn [Groups existsb].
      erewrite List.filter_ext; [done|]. intros r. cbn. by rewrite orb_false_r. }
  exists root. split; [|done]. destruct bs as [|? [|]]; exact Hr.
Qed.

(** Without indexes and without OR the rows are in primary-key order. *)
Lemma where_plan_ordered s ts :
  plain_where (Where s) → Indexes tbl = [] → (∀ w, Where s = Some w → length (Groups w) = 1%nat) →
  ∃ root,
    match Where s with
    | None => Ok [IndexScan tbl 0 MaxUint64]
    | Some w => mapM_res (λ group, planGroup tbl group ts) (Groups w)
    end = Ok [root] ∧ plan_rows snap ct root = where_rows (Where s).
Proof using Htbl.
  intros Hp Hi H1. destruct (Where s) as [[groups]|] eqn:Ew; cbn [Groups].
  - destruct groups as [|g [|]]; try (by discriminate (H1 _ eq_refl)).
    destruct (planGroup_no_index g ts) as (b & Hb & Hrows); [|done|].
    + specialize (Hp _ eq_refl). by apply Forall_cons in Hp as [? _].
    + exists b. cbn [mapM_res]. rewrite Hb. cbn. split; [done|]. rewrite Hrows.
      unfold group_rows, where_rows, where_holds. cbn [Groups existsb]. apply List.filter_ext.
      intros r. by rewrite orb_false_r.
  - eexists. split; [done|]. cbn [plan_rows]. rewrite scan_all by apply Htbl. unfold where_rows, where_holds.
    clear. induction (table_rows snap ct tbl) as [|r rs IH]; cbn; [done|]. by rewrite <-IH.
Qed.
End sound.

Section plan.
Context `{Unicode} `{Math}.

(** C14. Planning a single-table SELECT is sound, for a table with a primary key
    whose secondary indexes are in step with its rows ([indexes_ok], which
    UPDATE does not ensure) and a WHERE clause that compares columns with
    literals only, 64-bit numbers or text (a comparison of the primary key with
    another column is planned as a lookup of key 0): whether a group is served
    by the primary-key range, by a secondary index chosen by rule or by one
    chosen by cost, and whatever the statistics say, the plan's rows are the
    selected columns of the visible rows that satisfy the WHERE clause, each
    once, cut to the LIMIT; without secondary indexes and without OR they come
    in primary-key order. A condition on a column that the table does not have
    counts as satisfied. *)
Theorem planSingleTable_sound snap ct tbl s ts cols idxs :
  table_ok snap ct tbl → indexes_ok snap ct tbl → is_Some (PrimaryKeyIndex tbl) →
  plain_where (Where s) → resolveColumnsSingle tbl (exprCols (SColumns s)) = Ok (cols, idxs) →
  ∃ p l, planSingleTable s tbl ts = Ok p ∧
    l ≡ₚ List.filter (λ r, where_holds r tbl (Where s)) (table_rows snap ct tbl) ∧
    plan_rows snap ct p = (pick idxs <$> if decide (0 < Limit s) then take (Z.to_nat (Limit s)) l else l) ∧
    (Indexes tbl = [] → (∀ w, Where s = Some w → length (Groups w) = 1%nat) →
     l = List.filter (λ r, where_holds r tbl (Where s)) (table_rows snap ct tbl)).
Proof.
  intros Htbl Hidx Hpk Hw Hcols. destruct (where_plan_sound snap ct tbl Htbl Hidx s ts Hw Hpk) as (root & Hr & Hrows).
  exists (Project (with_limit s root) cols idxs), (plan_rows snap ct root). split_and!; [|done| |].
  - unfold planSingleTable. rewrite Hcols. cbn [mbind res_bind]. unfold mbind, res_bind in Hr |- *.
    destruct (match Where s with Some _ => _ | None => _ end) as [bs|e| |]; try done. by rewrite Hr.
  - cbn [plan_rows]. by rewrite with_limit_rows.
  - intros Hi H1. destruct (where_plan_ordered snap ct tbl Htbl s ts Hw Hi H1) as (root' & E & Hrows').
    rewrite E in Hr. injection Hr as <-. exact Hrows'.
Qed.
End plan.

(** A condition between the primary key and another column is planned as a
    lookup of key 0: [classifyGroup] reads the condition's unused literal, so
    whatever the other column holds, the plan returns the rows with key 0. *)
Theorem pk_column_condition_scans_key_zero `{Unicode} `{Math} snap ct tbl i pk other :
  table_ok snap ct tbl → PrimaryKeyIndex tbl = Some i → Columns tbl !! i = Some pk → other ≠ EmptyString →
  planGroup tbl [cond_col (CName pk) OpEq other] None = Ok (IndexScan tbl 0 0) ∧
  plan_rows snap ct (IndexScan tbl 0 0) = filter (λ r, row_pk i r = 0) (table_rows snap ct tbl).
Proof.
  intros Htbl Hi Hpk Ho. split.
  - unfold planGroup, ruleBasedPlanGroup. cbn [rule_loop]. unfold cond_index, IsJoinCond. cbn [RHSCol cond_col].
    rewrite bool_decide_eq_true_2 by done. rewrite orb_true_r. unfold scan_plan, classifyGroup.
    rewrite Hi. cbn [mbind option_bind]. rewrite Hpk. cbn [classify_loop]. unfold is_pk_cond. cbn [Column cond_col Val].
    rewrite (bool_decide_eq_true_2 (ToLower _ = _)) by done. reflexivity.
  - cbn [plan_rows]. rewrite (scan_rows_filter snap ct tbl Htbl 0 0 i Hi). apply list_filter_iff. intros r.
    unfold in_range. cbn [fst snd]. lia.
Qed.

(** ** A concrete instance *)

#[local] Existing Instance no_tables.
#[local] Existing Instance some_math.

Definition ada_contents : Contents := mkContents (λ _, [ada_entry]) (λ _, []).
Definition ada_snap : Snapshot := TakeSnapshot XIDNone after5.

Lemma ada_seen : seen_row ada_snap people ada_slot = Some ada.
Proof. unfold seen_row, visible_row. change ada_snap with (TakeSnapshot XIDNone after5). by rewrite ada_visible, ada_decodes. Qed.

Lemma ada_rows : table_rows ada_snap ada_contents people = [ada].
Proof. unfold table_rows. cbn [ada_contents ct_table omap list_omap ada_entry Node.Value]. by rewrite ada_seen. Qed.

Lemma ada_table_ok : table_ok ada_snap ada_contents people.
Proof.
  split; cbn [ada_contents ct_table].
  - apply (bool_decide_unpack _). vm_compute. exact I.
  - repeat constructor.
  - repeat constructor; cbn; lia.
  - intros e r ->%list_elem_of_singleton. cbn [ada_entry Node.Value]. rewrite ada_seen. intros [= <-]. exact ada_typed.
  - intros e r i ->%list_elem_of_singleton. cbn [ada_entry Node.Value Key]. rewrite ada_seen. by intros [= <-] [= <-].
Qed.

(** The same table with an index on the age, and [SELECT name FROM people WHERE
    age = 36], which goes through it. *)
Definition people_by_age : Table := mkTable "people" (Columns people) [mkIndex "by_age" "people" "age"].
Definition age_contents : Contents := mkContents (λ _, [ada_entry]) (λ _, [mkEntry 36 (le_enc 8 7)]).
Definition age_query : SelectStmt :=
  mkSelect [mkExpr "name" None EmptyString] [mkRef "people" EmptyString] []
    (Some (mkWhere [[cond_val "age" OpEq (VInt 36)]])) [] None [] 0.

Lemma by_age_seen : seen_row ada_snap people_by_age ada_slot = Some ada.
Proof. exact ada_seen. Qed.

Lemma by_age_table_ok : table_ok ada_snap age_contents people_by_age.
Proof. destruct ada_table_ok as [H1 H2 H3 H4 H5]. split; [exact H1|exact H2|exact H3|exact H4|exact H5]. Qed.

Lemma by_age_indexes_ok : indexes_ok ada_snap age_contents people_by_age.
Proof.
  intros def ->%list_elem_of_singleton. split; [|exists 2%nat, (mkCol "age" TypeInt); done]. split.
  - apply (bool_decide_unpack _). vm_compute. exact I.
  - intros e r i n ->%list_elem_of_singleton Hr [= <-] Hn. change (seen_row ada_snap people_by_age ada_slot = Some r) in Hr.
    rewrite by_age_seen in Hr. injection Hr as <-. injection Hn as <-. eexists. split; [by apply list_elem_of_singleton|]. done.
  - intros ie r i ->%list_elem_of_singleton [= <-] Hr. change (seen_row ada_snap people_by_age ada_slot = Some r) in Hr.
    rewrite by_age_seen in Hr. by injection Hr as <-.
Qed.

Lemma planSingleTable_sound_witness :
  ∃ p l, planSingleTable age_query people_by_age None = Ok p ∧ l ≡ₚ [ada] ∧
    plan_rows ada_snap age_contents p = pick [1%nat] <$> l.
Proof.
  destruct (planSingleTable_sound ada_snap age_contents people_by_age age_query None ["name"%string] [1%nat])
    as (p & l & Hp & Hl & Hr & _).
  - exact by_age_table_ok.
  - exact by_age_indexes_ok.
  - by eexists.
  - intros w [= <-]. repeat constructor. intros _. exists 36. split; [reflexivity|lia].
  - reflexivity.
  - exists p, l. split; [exact Hp|]. split; [|exact Hr].
    change (table_rows ada_snap age_contents people_by_age) with (table_rows ada_snap ada_contents people) in Hl.
    rewrite ada_rows in Hl. exact Hl.
Defined.

(** Its plan is the lookup. *)
Example age_query_uses_index :
  planSingleTable age_query people_by_age None =
    Ok (Project (IndexLookup people_by_age (mkIndex "by_age" "people" "age") 36 36) ["name"%string] [1%nat]).
Proof. reflexivity. Qed.

Lemma pk_column_condition_scans_key_zero_witness :
  planGroup people [cond_col "id" OpEq "age"] None = Ok (IndexScan people 0 0) ∧
  plan_rows ada_snap ada_contents (IndexScan people 0 0) = [].
Proof.
  destruct (pk_column_condition_scans_key_zero ada_snap ada_contents people 0 (mkCol "id" TypeInt) "age") as [Hp Hr].
  - exact ada_table_ok.
  - reflexivity.
  - reflexivity.
  - done.
  - split; [exact Hp|]. rewrite Hr, ada_rows. reflexivity.
Defined.
