(* ===== verification/Volcano.v ===== *)
(** * Volcano: the operators compute what their plan means

    [yields N rows op db]: from any state reached by reads, an operator hands
    out exactly [rows], one per call, with [N] units of fuel for each call.
    The relation is compositional, one lemma per operator. *)
From S2P Require Import Prelude Storage Store Mvcc TxPager BufferPool Node BTree Cursor GoLib.
From S2P Require Import Catalog Rows Ast Eval Stats Planner Db Frame Sample Operators Plans.
From stdpp Require Import options.
Local Open Scope Z_scope.

(** An operator without its run-time state: what [OpOpen] looks at. *)
Fixpoint skel (op : Operator) : Operator :=
  match op with
  | scanOp ps tbl mn mx snap _ => scanOp ps tbl mn mx snap None
  | indexLookupOp ps idxPS tbl mn mx snap _ _ => indexLookupOp ps idxPS tbl mn mx snap None None
  | unionOp children pkIdx _ _ => unionOp (skel <$> children) pkIdx 0 ∅
  | filterOp child preds tbl => filterOp (skel child) preds tbl
  | limitOp child n _ => limitOp (skel child) n 0
  | projectOp child colIdxs => projectOp (skel child) colIdxs
  | nlJoinOp l r on ls rs _ _ _ _ => nlJoinOp (skel l) (skel r) on ls rs ∅ ∅ [] false
  end.

Fixpoint skel_OpClose (op : Operator) : skel (OpClose op) = skel op.
Proof.
  destruct op; cbn [OpClose skel]; rewrite ?skel_OpClose; try done.
  - f_equal. induction children as [|c cs IH]; [done|]. cbn. by rewrite skel_OpClose, IH.
  - destruct rightOpen; [by rewrite skel_OpClose|done].
Qed.

Lemma get_u64_range off d : is_u64 (get_u64 off d).
Proof.
  unfold get_u64. pose proof (le_dec_range (slice off 8 d)) as Hr.
  assert (length (slice off 8 d) ≤ 8)%nat by (unfold slice; rewrite length_take; lia).
  assert (2 ^ (8 * Z.of_nat (length (slice off 8 d))) ≤ 2 ^ 64) by (apply Z.pow_le_mono_r; lia). lia.
Qed.

Section volcano.
Context `{Unicode} (gid : Z) (tfuel : nat).

Fixpoint yields (N : nat) (rows : list row) (op : Operator) (db : DB) : Prop :=
  ∀ fuel db1, (N ≤ fuel)%nat → read_step db db1 →
  ∃ op' db2, OpNext tfuel fuel op db1 = (Ok (head rows, op'), db2) ∧ read_step db1 db2 ∧ skel op' = skel op ∧
    match rows with [] => True | _ :: rows' => yields N rows' op' db end.

(** Opening an operator with this skeleton makes it yield the rows. *)
Definition opens (N : nat) (rows : list row) (sk : Operator) (db : DB) : Prop :=
  ∀ op db1, skel op = sk → read_step db db1 →
  ∃ op' db2, OpOpen tfuel op db1 = (Ok op', db2) ∧ read_step db1 db2 ∧ skel op' = sk ∧ yields N rows op' db.

Lemma yields_le N N' rows op db : (N ≤ N')%nat → yields N rows op db → yields N' rows op db.
Proof.
  intros Hle. revert op. induction rows as [|r rows IH]; intros op Hy fuel db1 Hf Hs;
    destruct (Hy fuel db1 ltac:(lia) Hs) as (op' & db2 & E & Hs' & Hsk & Hy'); exists op', db2; auto.
Qed.

Lemma opens_le N N' rows sk db : (N ≤ N')%nat → opens N rows sk db → opens N' rows sk db.
Proof.
  intros Hle Ho op db1 Hsk Hs. destruct (Ho op db1 Hsk Hs) as (op' & db2 & E & Hs' & Hsk' & Hy).
  exists op', db2. eauto using yields_le.
Qed.

(** One call: the head of the rows, then an operator that yields the tail. *)
Lemma yields_next N rows op db fuel db1 :
  yields N rows op db → (N ≤ fuel)%nat → read_step db db1 →
  ∃ op' db2, OpNext tfuel fuel op db1 = (Ok (head rows, op'), db2) ∧ read_step db1 db2 ∧ skel op' = skel op ∧
    (rows ≠ [] → yields N (tail rows) op' db).
Proof.
  intros Hy Hf Hs. destruct rows as [|r rows]; destruct (Hy fuel db1 Hf Hs) as (op' & db2 & ? & ? & ? & ?);
    exists op', db2; by split_and!.
Qed.

Lemma yields_intro N rows op db :
  (∀ fuel db1, (N ≤ fuel)%nat → read_step db db1 →
    ∃ op' db2, OpNext tfuel fuel op db1 = (Ok (head rows, op'), db2) ∧ read_step db1 db2 ∧ skel op' = skel op ∧
      (rows ≠ [] → yields N (tail rows) op' db)) →
  yields N rows op db.
Proof.
  intros Hy. destruct rows as [|r rows]; intros fuel db1 Hf Hs;
    destruct (Hy fuel db1 Hf Hs) as (op' & db2 & ? & ? & ? & Hr); exists op', db2; split_and!; try done.
  by apply Hr.
Qed.

(** Draining an operator collects its rows. *)
Lemma drain_yields N rows op db n fuel db1 :
  yields N rows op db → (N ≤ fuel)%nat → (length rows < n)%nat → read_step db db1 →
  ∃ db2, drain tfuel n fuel op db1 = (Ok rows, db2) ∧ read_step db1 db2.
Proof.
  revert op n db1. induction rows as [|r rows IH]; intros op n db1 Hy Hf Hn Hs;
    (destruct n as [|n]; [cbn in Hn; lia|]); cbn [drain];
    destruct (yields_next _ _ _ _ _ _ Hy Hf Hs) as (op' & db2 & E & Hs' & _ & Hy');
    erewrite M_bind_Ok by exact E; cbn [head].
  - by exists db2.
  - cbn [length] in Hn. destruct (IH op' n db2) as (db3 & E3 & Hs3); [by apply Hy'|done|lia|by etrans|].
    erewrite M_bind_Ok by exact E3. exists db3. split; [done|by etrans].
Qed.

(** ** Scans *)

(** Every visible row of the slot decodes. *)
Definition slot_ok (snap : Snapshot) (tbl : Table) (val : list byte) : Prop := is_ok (visible_row snap tbl val) = true.

Lemma slot_ok_seen snap tbl val : slot_ok snap tbl val → visible_row snap tbl val = Ok (seen_row snap tbl val).
Proof. unfold slot_ok, seen_row. by destruct (visible_row snap tbl val). Qed.

Lemma yields_scan ps tbl mn mx snap v es c db N :
  handle_view db ps v → cursor_yields v c es → Forall (λ e, slot_ok snap tbl (Node.Value e)) es →
  (length es < N)%nat →
  yields N (omap (λ e, seen_row snap tbl (Node.Value e)) es) (scanOp ps tbl mn mx snap (Some c)) db.
Proof.
  intros Hv. revert c N. induction es as [|e es IH]; intros c N Hc Hok HN; apply yields_intro;
    intros fuel db1 Hf Hs; (destruct fuel as [|fuel]; [lia|]); cbn [OpNext];
    destruct (Next_yields db1 ps v c _ (read_step_view _ _ _ _ Hs Hv) Hc) as (c' & db2 & E & Hs2 & Hc');
    erewrite M_bind_Ok by exact E; cbn [head omap list_omap].
  - by eexists _, db2.
  - specialize (Hc' ltac:(done)). cbn [tail] in Hc'. apply Forall_cons in Hok as [He Hok]. cbn [length] in HN.
    rewrite (slot_ok_seen _ _ _ He). unfold lift at 1. unfold mbind at 1, M_bind at 1.
    destruct (seen_row snap tbl (Node.Value e)) as [r|].
    + eexists _, db2. split; [done|]. split; [done|]. split; [done|]. intros _. apply IH; [done..|lia].
    + destruct (yields_next (N - 1) _ _ db fuel db2 (IH c' (N - 1)%nat Hc' Hok ltac:(lia)) ltac:(lia) ltac:(by etrans))
        as (op' & db3 & E3 & Hs3 & Hsk & Hy).
      exists op', db3. split_and!; [exact E3|by etrans|exact Hsk|].
      intros Hne. eapply yields_le; [|by apply Hy]. lia.
Qed.

(** ** Filter, Limit, Project *)

Lemma yields_filter N N' rows child preds tbl db :
  yields N rows child db → Forall (row_fits tbl) rows → (N + length rows < N')%nat →
  yields N' (List.filter (λ r, forallb (cond_holds r tbl) preds) rows) (filterOp child preds tbl) db.
Proof.
  revert child N'. induction rows as [|r rows IH]; intros child N' Hy Hfit HN; apply yields_intro;
    intros fuel db1 Hf Hs; (destruct fuel as [|fuel]; [lia|]); cbn [OpNext]; cbn [length] in HN;
    destruct (yields_next _ _ _ _ fuel db1 Hy ltac:(lia) Hs) as (c' & db2 & E & Hs2 & Hsk & Hy');
    erewrite M_bind_Ok by exact E; cbn [head List.filter].
  - eexists _, db2. split; [done|]. split; [done|]. cbn [skel]. by rewrite Hsk.
  - specialize (Hy' ltac:(done)). cbn [tail] in Hy'. apply Forall_cons in Hfit as [Hr Hfit].
    rewrite evalPreds_ok by done. unfold lift at 1. unfold mbind at 1, M_bind at 1.
    destruct (forallb (cond_holds r tbl) preds).
    + eexists _, db2. split; [done|]. split; [done|]. split; [cbn [skel]; by rewrite Hsk|]. intros _. apply IH; [done..|lia].
    + destruct (yields_next (N' - 1) _ _ db fuel db2 (IH c' (N' - 1)%nat Hy' Hfit ltac:(lia)) ltac:(lia) ltac:(by etrans))
        as (op' & db3 & E3 & Hs3 & Hsk3 & Hy3).
      exists op', db3. split_and!; [exact E3|by etrans|rewrite Hsk3; cbn [skel]; by rewrite Hsk|].
      intros Hne. eapply yields_le; [|by apply Hy3]. lia.
Qed.

Lemma yields_limit N rows child n count db :
  yields N rows child db → yields (S N) (take (Z.to_nat (n - count)) rows) (limitOp child n count) db.
Proof.
  revert child count. induction rows as [|r rows IH]; intros child count Hy; apply yields_intro;
    intros fuel db1 Hf Hs; (destruct fuel as [|fuel]; [lia|]); cbn [OpNext]; case_decide as Hn;
    try (replace (Z.to_nat (n - count)) with O by lia; eexists _, db1; by split_and!);
    destruct (yields_next _ _ _ _ fuel db1 Hy ltac:(lia) Hs) as (c' & db2 & E & Hs2 & Hsk & Hy');
    erewrite M_bind_Ok by exact E; cbn [head].
  - eexists _, db2. rewrite take_nil. split; [done|]. split; [done|]. cbn [skel]. by rewrite Hsk.
  - replace (Z.to_nat (n - count)) with (S (Z.to_nat (n - (count + 1)))) by lia. cbn [take head tail].
    eexists _, db2. split; [done|]. split; [done|]. split; [cbn [skel]; by rewrite Hsk|].
    intros _. apply IH. by apply Hy'.
Qed.

(** The columns a projection picks are there. *)
Definition picks_ok (idxs : list nat) (r : row) : Prop := Forall (λ i, (i < length r)%nat) idxs.

Lemma project_ok idxs r : picks_ok idxs r → project idxs r = Ok (pick idxs r).
Proof.
  induction 1 as [|i idxs Hi _ IH]; [done|]. cbn [project]. unfold go_index.
  destruct (lookup_lt_is_Some_2 r i Hi) as [v Hv]. rewrite Hv. cbn [mbind res_bind]. rewrite IH.
  unfold pick. cbn [fmap list_fmap]. by rewrite Hv.
Qed.

Lemma yields_project N rows child idxs db :
  yields N rows child db → Forall (picks_ok idxs) rows → yields (S N) (pick idxs <$> rows) (projectOp child idxs) db.
Proof.
  revert child. induction rows as [|r rows IH]; intros child Hy Hok; apply yields_intro;
    intros fuel db1 Hf Hs; (destruct fuel as [|fuel]; [lia|]); cbn [OpNext];
    destruct (yields_next _ _ _ _ fuel db1 Hy ltac:(lia) Hs) as (c' & db2 & E & Hs2 & Hsk & Hy');
    erewrite M_bind_Ok by exact E; cbn [head fmap list_fmap].
  - eexists _, db2. split; [done|]. split; [done|]. cbn [skel]. by rewrite Hsk.
  - apply Forall_cons in Hok as [Hr Hok]. rewrite (project_ok _ _ Hr). unfold lift at 1. unfold mbind at 1, M_bind at 1.
    eexists _, db2. split; [done|]. split; [done|]. split; [cbn [skel]; by rewrite Hsk|].
    intros _. apply IH; [by apply Hy'|done].
Qed.

(** ** Union *)

Lemma yields_union_end N children pkIdx cur seen db :
  (length children ≤ cur)%nat → (0 < N)%nat → yields N [] (unionOp children pkIdx cur seen) db.
Proof.
  intros Hc HN fuel db1 Hf Hs. destruct fuel as [|fuel]; [lia|]. cbn [OpNext].
  rewrite (proj2 (lookup_ge_None children cur)) by lia. by eexists _, db1.
Qed.

Lemma yields_union N N' rows rowss pre c cs pkIdx seen db :
  yields N rows c db → Forall2 (λ rs c, yields N rs c db) rowss cs →
  Forall (λ r : row, (pkIdx < length r)%nat) (rows ++ concat rowss) →
  (N + length rows + length (concat rowss) + length rowss + 1 < N')%nat →
  yields N' (dedup pkIdx seen (rows ++ concat rowss)) (unionOp (pre ++ c :: cs) pkIdx (length pre) seen) db.
Proof.
  revert rows pre c cs seen N'. induction rowss as [|rows2 rowss IHs]; intros rows;
  induction rows as [|r rows IH]; intros pre c cs seen N' Hy HF Hpk HN; apply yields_intro;
    intros fuel db1 Hf Hs; (destruct fuel as [|fuel]; [lia|]); cbn [OpNext]; cbn [length] in HN;
    rewrite list_lookup_middle by done;
    destruct (yields_next _ _ _ _ fuel db1 Hy ltac:(lia) Hs) as (c' & db2 & E & Hs2 & Hsk & Hy');
    erewrite M_bind_Ok by exact E; cbn [head]; rewrite insert_app_r_alt, Nat.sub_diag by lia; cbn [insert list_insert].
  all: assert (∀ cur seen', skel (unionOp (pre ++ c' :: cs) pkIdx cur seen') = skel (unionOp (pre ++ c :: cs) pkIdx (length pre) seen))
    as Hskel by (intros; cbn [skel]; by rewrite !fmap_app, !fmap_cons, Hsk).
  (* the current child is exhausted *)
  1: { apply Forall2_nil_inv_l in HF as ->. cbn [app concat dedup head].
    destruct (yields_next (N' - 1) [] (unionOp (pre ++ [c']) pkIdx (length pre + 1) seen) db fuel db2)
      as (op' & db3 & E3 & Hs3 & Hsk3 & _); [apply yields_union_end; [rewrite length_app; cbn; lia|lia]|lia|by etrans|].
    exists op', db3. split_and!; [exact E3|by etrans|rewrite Hsk3; apply Hskel|done]. }
  2: { inversion HF as [|? c2 ? cs2 Hy2 HF2]; subst. cbn [app concat] in *. cbn [length] in HN. rewrite length_app in HN.
    specialize (IHs rows2 (pre ++ [c']) c2 cs2 seen (N' - 1)%nat Hy2 HF2 Hpk ltac:(lia)).
    rewrite <-(assoc_L (++)) in IHs. cbn [app] in IHs. rewrite length_app in IHs. cbn [length] in IHs.
    destruct (yields_next _ _ _ db fuel db2 IHs ltac:(lia) ltac:(by etrans)) as (op' & db3 & E3 & Hs3 & Hsk3 & Hy3).
    exists op', db3. split_and!; [exact E3|by etrans|rewrite Hsk3; apply Hskel|].
    intros Hne. eapply yields_le; [|by apply Hy3]. lia. }
  (* a row of the current child *)
  all: cbn [length] in IH; specialize (Hy' ltac:(done)); cbn [tail] in Hy'; cbn [app] in Hpk; apply Forall_cons in Hpk as [Hr Hpk];
    destruct (lookup_lt_is_Some_2 r pkIdx Hr) as [v Hv]; unfold go_index; rewrite Hv;
    unfold lift at 1; unfold mbind at 1, M_bind at 1; cbn [app dedup]; rewrite Hv; unfold from_option, id; case_decide as Hin;
    [|eexists _, db2; split; [done|]; split; [done|]; split; [apply Hskel|]; intros _; exact (IH pre c' cs ({[IntVal v]} ∪ seen) N' Hy' HF Hpk ltac:(lia))];
    specialize (IH pre c' cs seen (N' - 1)%nat Hy' HF Hpk ltac:(lia));
    destruct (yields_next _ _ _ db fuel db2 IH ltac:(lia) ltac:(by etrans)) as (op' & db3 & E3 & Hs3 & Hsk3 & Hy3);
    exists op', db3; (split_and!; [exact E3|by etrans|rewrite Hsk3; apply Hskel|]);
    intros Hne; eapply yields_le; [|by apply Hy3]; lia.
Qed.

(** ** Nested-loop join *)

Section join.
Context (on : list Condition) (ls rs : list string) (NL NR : nat) (rrows : list row) (rsk : Operator) (db : DB).

Definition on_match (l r : row) : bool :=
  match evalOn on (buildColMap ls) (buildColMap rs) l r with Ok b => b | _ => false end.
Definition on_ok (l r : row) : Prop := is_ok (evalOn on (buildColMap ls) (buildColMap rs) l r) = true.
Definition matches (l : row) (rr : list row) : list row := (λ r, l ++ r) <$> List.filter (on_match l) rr.

Lemma join_rows_cons l lrows : join_rows on ls rs (l :: lrows) rrows = matches l rrows ++ join_rows on ls rs lrows rrows.
Proof. done. Qed.

Lemma matches_cons l r rr : matches l (r :: rr) = if on_match l r then (l ++ r) :: matches l rr else matches l rr.
Proof. unfold matches. cbn [List.filter]. by destruct (on_match l r). Qed.

Context (Hopen : opens NR rrows rsk db).

Definition join_op (l r : Operator) (leftRow : row) (rightOpen : bool) : Operator :=
  nlJoinOp l r on ls rs (buildColMap ls) (buildColMap rs) leftRow rightOpen.

(** The right side is open on [leftRow] and still has [rr]. *)
Lemma yields_join_inner lrows M0 rr :
  (∀ l r leftRow M, yields NL lrows l db → skel r = rsk → (M0 < M)%nat →
     yields M (join_rows on ls rs lrows rrows) (join_op l r leftRow false) db) →
  ∀ l r leftRow M, yields NL lrows l db → skel r = rsk → yields NR rr r db → Forall (on_ok leftRow) rr →
    (M0 + NR + length rr + 1 < M)%nat →
    yields M (matches leftRow rr ++ join_rows on ls rs lrows rrows) (join_op l r leftRow true) db.
Proof.
  intros HA. induction rr as [|r0 rr IH]; intros l r leftRow M Hl Hsk Hr Hok HM; apply yields_intro;
    intros fuel db1 Hf Hs; (destruct fuel as [|fuel]; [lia|]); cbn [OpNext join_op]; cbn [length] in HM;
    destruct (yields_next _ _ _ _ fuel db1 Hr ltac:(lia) Hs) as (r' & db2 & E & Hs2 & Hsk2 & Hr');
    erewrite M_bind_Ok by exact E; cbn [head].
  - destruct (yields_next _ _ _ db fuel db2 (HA l r' leftRow (M - 1)%nat Hl ltac:(congruence) ltac:(lia)) ltac:(lia)
      ltac:(by etrans)) as (op' & db3 & E3 & Hs3 & Hsk3 & Hy3).
    exists op', db3. split_and!; [exact E3|by etrans|rewrite Hsk3; cbn [skel join_op]; by rewrite Hsk2|].
    intros Hne. eapply yields_le; [|by apply Hy3]. lia.
  - specialize (Hr' ltac:(done)). cbn [tail] in Hr'. apply Forall_cons in Hok as [Hok0 Hok].
    rewrite matches_cons. unfold on_match. unfold on_ok in Hok0.
    destruct (evalOn on _ _ leftRow r0) as [b|e| |] eqn:Eb; try done. unfold lift at 1. unfold mbind at 1, M_bind at 1.
    destruct b; cbn [app head].
    + eexists _, db2. split; [done|]. split; [done|]. split; [cbn [skel]; by rewrite Hsk2|].
      intros _. cbn [tail]. apply IH; [done|congruence|done|done|lia].
    + destruct (yields_next _ _ _ db fuel db2 (IH l r' leftRow (M - 1)%nat Hl ltac:(congruence) Hr' Hok ltac:(lia)) ltac:(lia)
        ltac:(by etrans)) as (op' & db3 & E3 & Hs3 & Hsk3 & Hy3).
      exists op', db3. split_and!; [exact E3|by etrans|rewrite Hsk3; cbn [skel join_op]; by rewrite Hsk2|].
      intros Hne. eapply yields_le; [|by apply Hy3]. lia.
Qed.

Lemma yields_join lrows :
  Forall (λ l, Forall (on_ok l) rrows) lrows →
  ∀ l r leftRow M, yields NL lrows l db → skel r = rsk →
    (NL + length lrows * (NR + length rrows + 3) < M)%nat →
    yields M (join_rows on ls rs lrows rrows) (join_op l r leftRow false) db.
Proof using Hopen.
  induction lrows as [|l0 lrows IH]; intros Hok l r leftRow M Hl Hsk HM; apply yields_intro;
    intros fuel db1 Hf Hs; (destruct fuel as [|fuel]; [lia|]); cbn [OpNext join_op];
    destruct (yields_next _ _ _ _ fuel db1 Hl ltac:(lia) Hs) as (l' & db2 & E & Hs2 & Hsk2 & Hl');
    erewrite M_bind_Ok by exact E; cbn [head].
  - eexists _, db2. split; [done|]. split; [done|]. split; [cbn [skel]; by rewrite Hsk2|done].
  - specialize (Hl' ltac:(done)). cbn [tail] in Hl'. apply Forall_cons in Hok as [Hok0 Hok]. cbn [length] in HM.
    destruct (Hopen (OpClose r) db2) as (r' & db3 & E3 & Hs3 & Hsk3 & Hr'); [by rewrite skel_OpClose|by etrans|].
    erewrite M_bind_Ok by (apply wrap_Ok; exact E3). rewrite join_rows_cons.
    assert (read_step db1 db3) as Hs13 by (by etrans).
    destruct (yields_next (M - 1) (matches l0 rrows ++ join_rows on ls rs lrows rrows) (join_op l' r' l0 true) db fuel db3)
      as (op' & db4 & E4 & Hs4 & Hsk4 & Hy4); [|lia|by etrans|].
    { eapply (yields_join_inner lrows (NL + length lrows * (NR + length rrows + 3))); [|done..|lia].
      intros l1 r1 lr1 M1 Hl1 Hsk1 HM1. by apply IH. }
    exists op', db4. split_and!; [exact E4|by etrans|rewrite Hsk4; cbn [skel join_op]; congruence|].
    intros Hne. eapply yields_le; [|by apply Hy4]. lia.
Qed.

Lemma opens_join lrows lsk :
  opens NL lrows lsk db → Forall (λ l, Forall (on_ok l) rrows) lrows →
  opens (S (NL + length lrows * (NR + length rrows + 3))) (join_rows on ls rs lrows rrows)
    (nlJoinOp lsk rsk on ls rs ∅ ∅ [] false) db.
Proof using Hopen.
  intros Hl Hok op db1 Hsk Hs. destruct op as [| | | | | |l r on' ls' rs' lm rm leftRow ro]; try done. cbn [skel] in Hsk.
  injection Hsk as Hskl Hskr -> -> ->. cbn [OpOpen].
  destruct (Hl l db1 Hskl Hs) as (l' & db2 & E & Hs2 & Hsk2 & Hy).
  erewrite M_bind_Ok by exact E. eexists _, db2. split; [done|]. split; [done|].
  split; [cbn [skel]; congruence|]. apply (yields_join lrows); [done|done|done|lia].
Qed.
End join.

(** ** Opening *)

Lemma opens_filter N rows child preds tbl db :
  opens N rows child db → Forall (row_fits tbl) rows →
  opens (S (N + length rows)) (List.filter (λ r, forallb (cond_holds r tbl) preds) rows) (filterOp child preds tbl) db.
Proof.
  intros Ho Hfit op db1 Hsk Hs. destruct op as [| | |c p t| | |]; try done. cbn [skel] in Hsk. injection Hsk as Hsk -> ->.
  cbn [OpOpen]. destruct (Ho c db1 Hsk Hs) as (c' & db2 & E & Hs2 & Hsk2 & Hy). erewrite M_bind_Ok by exact E.
  eexists _, db2. split; [done|]. split; [done|]. split; [cbn [skel]; congruence|].
  eapply yields_filter; [done|done|lia].
Qed.

Lemma opens_limit N rows child n db :
  opens N rows child db → opens (S N) (take (Z.to_nat n) rows) (limitOp child n 0) db.
Proof.
  intros Ho op db1 Hsk Hs. destruct op as [| | | |c n' k| |]; try done. cbn [skel] in Hsk. injection Hsk as Hsk ->.
  cbn [OpOpen]. destruct (Ho c db1 Hsk Hs) as (c' & db2 & E & Hs2 & Hsk2 & Hy). erewrite M_bind_Ok by exact E.
  eexists _, db2. split; [done|]. split; [done|]. split; [cbn [skel]; congruence|].
  pose proof (yields_limit N rows c' n 0 db Hy) as Hlim. by rewrite Z.sub_0_r in Hlim.
Qed.

Lemma opens_project N rows child idxs db :
  opens N rows child db → Forall (picks_ok idxs) rows → opens (S N) (pick idxs <$> rows) (projectOp child idxs) db.
Proof.
  intros Ho Hok op db1 Hsk Hs. destruct op as [| | | | |c is'|]; try done. cbn [skel] in Hsk. injection Hsk as Hsk ->.
  cbn [OpOpen]. destruct (Ho c db1 Hsk Hs) as (c' & db2 & E & Hs2 & Hsk2 & Hy). erewrite M_bind_Ok by exact E.
  eexists _, db2. split; [done|]. split; [done|]. split; [cbn [skel]; congruence|]. by apply yields_project.
Qed.

Lemma opens_union N rowss sks pkIdx db :
  Forall2 (λ rs sk, opens N rs sk db) rowss sks → Forall (λ r : row, (pkIdx < length r)%nat) (concat rowss) →
  opens (N + length (concat rowss) + length rowss + 3) (dedup pkIdx ∅ (concat rowss)) (unionOp sks pkIdx 0 ∅) db.
Proof.
  intros HF Hpk op db1 Hsk Hs. destruct op as [| |cs pk cur seen| | | |]; try done. cbn [skel] in Hsk. injection Hsk as Hsk ->.
  cbn [OpOpen].
  assert (∃ cs' db2, (fix open (ops : list Operator) : M DB (list Operator) :=
              match ops with
              | [] => mret []
              | op :: ops => c ← OpOpen tfuel op; cs ← open ops; mret (c :: cs)
              end) cs db1 = (Ok cs', db2) ∧ read_step db1 db2 ∧ skel <$> cs' = skel <$> cs ∧
            Forall2 (λ rs c, yields N rs c db) rowss cs') as (cs' & db2 & E & Hs2 & Hsk2 & HF').
  { clear Hpk. revert cs db1 Hsk Hs. induction HF as [|rs sk rowss sks Ho HF IH]; intros [|c cs] db1 Hsk Hs; try done.
    - exists [], db1. done.
    - cbn in Hsk. injection Hsk as Hskc Hsk. destruct (Ho c db1 Hskc Hs) as (c' & db2 & E & Hs2 & Hsk2 & Hy).
      destruct (IH cs db2 Hsk ltac:(by etrans)) as (cs' & db3 & E3 & Hs3 & Hsk3 & HF3).
      exists (c' :: cs'), db3. erewrite M_bind_Ok by exact E. erewrite M_bind_Ok by exact E3.
      split_and!; [done|by etrans|cbn; congruence|by constructor]. }
  erewrite M_bind_Ok by exact E. eexists _, db2. split; [done|]. split; [done|]. split; [cbn [skel]; congruence|].
  destruct HF' as [|rs c rowss cs' Hy HF'].
  - apply yields_union_end; cbn; lia.
  - cbn [concat length] in *. apply (yields_union N _ rs rowss [] c cs' pkIdx ∅); [done..|rewrite length_app; lia].
Qed.

(** ** Opening scans and lookups *)

(** Deep enough for any tree. *)
Context (Htfuel : (32 ≤ tfuel)%nat).

Lemma opens_scan ps tbl mn mx snap v root kvs db :
  handle_view db ps v → holds_tree v 1 root kvs → Forall (λ e, slot_ok snap tbl (Node.Value e)) kvs → is_u64 mn →
  opens (S (length kvs)) (omap (λ e, seen_row snap tbl (Node.Value e)) (kv_range mn mx kvs))
    (scanOp ps tbl mn mx snap None) db.
Proof using Htfuel.
  intros Hv Ht Hok Hmn op db1 Hsk Hs. destruct op; try done. cbn [skel] in Hsk. simplify_eq. cbn [OpOpen].
  destruct (open_tree_ok db1 ps v root kvs) as (db2 & E2 & Hs2); [by eapply read_step_view|done|].
  erewrite M_bind_Ok by (apply wrap_Ok; exact E2).
  destruct (NewCursor_yields db2 (mkTree ps (1, root)) v kvs tfuel mn mx) as (c & t' & db3 & E3 & Hs3 & Hc);
    [eapply read_step_view; [|exact Hv]; by etrans|done..|].
  erewrite M_bind_Ok by (apply wrap_Ok; exact E3).
  eexists _, db3. split; [done|]. split; [by etrans|]. split; [done|].
  eapply yields_scan; [exact Hv|exact Hc| |].
  - apply Forall_forall. intros e [_ He]%list_elem_of_filter. rewrite Forall_forall in Hok. by apply Hok.
  - unfold kv_range. pose proof (length_filter (λ e, mn ≤ Key e ≤ mx) kvs). lia.
Qed.

(** ** Index lookups *)

Lemma yields_lookup ps idxPS tbl mn mx snap v vi root kvs es c db N :
  handle_view db ps v → handle_view db idxPS vi → holds_tree v 1 root kvs →
  Forall (λ e, slot_ok snap tbl (Node.Value e)) kvs → cursor_yields vi c es → (length es < N)%nat →
  yields N (omap (λ e, kv_map kvs !! get_u64 0 (Node.Value e) ≫= seen_row snap tbl) es)
    (indexLookupOp ps idxPS tbl mn mx snap (Some c) (Some (mkTree ps (1, root)))) db.
Proof using Htfuel.
  intros Hv Hvi Ht Hok. revert c N. induction es as [|e es IH]; intros c N Hc HN; apply yields_intro;
    intros fuel db1 Hf Hs; (destruct fuel as [|fuel]; [lia|]); cbn [OpNext];
    destruct (Next_yields db1 idxPS vi c _ (read_step_view _ _ _ _ Hs Hvi) Hc) as (c' & db2 & E & Hs2 & Hc');
    erewrite M_bind_Ok by exact E; cbn [head omap list_omap].
  { by eexists _, db2. }
  specialize (Hc' ltac:(done)). cbn [tail] in Hc'. cbn [length] in HN.
  destruct (Search_view db2 (mkTree ps (1, root)) v kvs tfuel (get_u64 0 (Node.Value e))) as (db3 & E3 & Hs3);
    [eapply read_step_view; [|exact Hv]; by etrans|done|apply get_u64_range|done|].
  erewrite M_bind_Ok by (apply wrap_Ok; exact E3).
  assert (read_step db1 db3) as Hs13 by (by etrans).
  assert (∃ op' db4, OpNext tfuel fuel (indexLookupOp ps idxPS tbl mn mx snap (Some c') (Some (mkTree ps (1, root)))) db3 =
    (Ok (head (omap (λ e, kv_map kvs !! get_u64 0 (Node.Value e) ≫= seen_row snap tbl) es), op'), db4) ∧
    read_step db1 db4 ∧ skel op' = indexLookupOp ps idxPS tbl mn mx snap None None ∧
    (omap (λ e, kv_map kvs !! get_u64 0 (Node.Value e) ≫= seen_row snap tbl) es ≠ [] →
     yields N (tail (omap (λ e, kv_map kvs !! get_u64 0 (Node.Value e) ≫= seen_row snap tbl) es)) op' db)) as Hskip.
  { destruct (yields_next (N - 1) _ _ db fuel db3 (IH c' (N - 1)%nat Hc' ltac:(lia)) ltac:(lia) ltac:(by etrans))
      as (op' & db4 & E4 & Hs4 & Hsk & Hy).
    exists op', db4. split_and!; [exact E4|by etrans|exact Hsk|].
    intros Hne. eapply yields_le; [|by apply Hy]. lia. }
  destruct (kv_map kvs !! get_u64 0 (Node.Value e)) as [val|] eqn:Eval; cbn [mbind option_bind]; [|exact Hskip].
  assert (slot_ok snap tbl val) as He.
  { apply kv_map_lookup in Eval; [|by eapply holds_tree_sorted]. rewrite Forall_forall in Hok. exact (Hok _ Eval). }
  rewrite (slot_ok_seen _ _ _ He). unfold lift at 1. unfold mbind at 1, M_bind at 1.
  destruct (seen_row snap tbl val) as [r|]; [|exact Hskip].
  eexists _, db3. split; [done|]. split; [done|]. split; [done|]. intros _. apply IH; [done..|lia].
Qed.

Lemma opens_lookup ps idxPS tbl mn mx snap v vi root iroot kvs ikvs db :
  handle_view db ps v → handle_view db idxPS vi → holds_tree v 1 root kvs → holds_tree vi 1 iroot ikvs →
  Forall (λ e, slot_ok snap tbl (Node.Value e)) kvs → is_u64 mn →
  opens (S (length ikvs))
    (omap (λ e, kv_map kvs !! get_u64 0 (Node.Value e) ≫= seen_row snap tbl) (kv_range mn mx ikvs))
    (indexLookupOp ps idxPS tbl mn mx snap None None) db.
Proof using Htfuel.
  intros Hv Hvi Ht Hti Hok Hmn op db1 Hsk Hs. destruct op; try done. cbn [skel] in Hsk. injection Hsk as -> -> -> -> -> ->. cbn [OpOpen].
  destruct (open_tree_ok db1 idxPS vi iroot ikvs) as (db2 & E2 & Hs2); [by eapply read_step_view|done|].
  erewrite M_bind_Ok by (apply wrap_Ok; exact E2).
  destruct (NewCursor_yields db2 (mkTree idxPS (1, iroot)) vi ikvs tfuel mn mx) as (c & t' & db3 & E3 & Hs3 & Hc);
    [eapply read_step_view; [|exact Hvi]; by etrans|done..|].
  erewrite M_bind_Ok by (apply wrap_Ok; exact E3).
  assert (read_step db1 db3) as Hs13 by (by etrans).
  destruct (open_tree_ok db3 ps v root kvs) as (db4 & E4 & Hs4); [eapply read_step_view; [|exact Hv]; by etrans|done|].
  erewrite M_bind_Ok by (apply wrap_Ok; exact E4).
  eexists _, db4. split; [done|]. split; [by etrans|]. split; [done|].
  eapply yields_lookup; [exact Hv|exact Hvi|exact Ht|exact Hok|exact Hc|].
  unfold kv_range. pose proof (length_filter (λ e, mn ≤ Key e ≤ mx) ikvs). lia.
Qed.


(** ** Plans *)

Section plans.
Context (snap : Snapshot) (ct : Contents) (db : DB).

(** The table is open and its tree holds [ct_table ct tbl]. *)
Definition table_ready (tbl : Table) : Prop :=
  ∃ h v root, pageStoreFor gid (TName tbl) db = (Ok h, db) ∧ handle_view db h v ∧
    holds_tree v 1 root (ct_table ct tbl) ∧ Forall (λ e, slot_ok snap tbl (Node.Value e)) (ct_table ct tbl).

Definition index_ready (def : IndexDef) : Prop :=
  ∃ fid v root, getOrOpenIndex (IName def) db = (Ok fid, db) ∧ handle_view db (HBuf fid) v ∧
    holds_tree v 1 root (ct_index ct def).

(** The plan's tables and indexes are open, and its nodes refer to columns their
    rows have. *)
Fixpoint plan_ready (node : PhysicalNode) : Prop :=
  match node with
  | IndexScan tbl mn _ => table_ready tbl ∧ is_u64 mn
  | IndexLookup tbl def mn _ => table_ready tbl ∧ index_ready def ∧ is_u64 mn
  | Filter child _ => plan_ready child ∧ Forall (row_fits (baseTable child)) (plan_rows snap ct child)
  | LimitN child _ => plan_ready child
  | Project child _ idxs => plan_ready child ∧ Forall (picks_ok idxs) (plan_rows snap ct child)
  | Union children pkIdx =>
      (fix all (nodes : list PhysicalNode) : Prop :=
         match nodes with [] => True | node :: nodes => plan_ready node ∧ all nodes end) children ∧
      Forall (λ r : row, (pkIdx < length r)%nat) (concat (plan_rows snap ct <$> children))
  | NestedLoopJoin l r on ls rs =>
      plan_ready l ∧ plan_ready r ∧
      Forall (λ lr, Forall (on_ok on ls rs lr) (plan_rows snap ct r)) (plan_rows snap ct l)
  end.

(** Fuel that is enough for one call of the plan's operator. *)
Fixpoint plan_fuel (node : PhysicalNode) : nat :=
  match node with
  | IndexScan tbl _ _ => S (length (ct_table ct tbl))
  | IndexLookup _ def _ _ => S (length (ct_index ct def))
  | Filter child _ => S (plan_fuel child + length (plan_rows snap ct child))
  | LimitN child _ | Project child _ _ => S (plan_fuel child)
  | Union children _ =>
      sum_list (plan_fuel <$> children) + length (concat (plan_rows snap ct <$> children)) + length children + 3
  | NestedLoopJoin l r _ _ _ =>
      S (plan_fuel l + length (plan_rows snap ct l) * (plan_fuel r + length (plan_rows snap ct r) + 3))
  end.

(** Fuel that is enough for its execution. *)
Definition exec_fuel (node : PhysicalNode) : nat := S (plan_fuel node + length (plan_rows snap ct node)).

(** [buildOp] returns an operator that, once opened, yields the rows of the plan. *)
Definition builds (node : PhysicalNode) : Prop :=
  ∃ op, buildOp gid snap node db = (Ok op, db) ∧ skel op = op ∧ opens (plan_fuel node) (plan_rows snap ct node) op db.

Fixpoint build_ok (node : PhysicalNode) : plan_ready node → builds node.
Proof using Htfuel.
  destruct node as [tbl mn mx|child preds|child cols idxs|child n|tbl def mn mx|children pkIdx|l r on ls rs];
    cbn [plan_ready]; intros Hr; unfold builds; cbn [buildOp plan_rows plan_fuel].
  - destruct Hr as ((h & v & root & E & Hv & Ht & Hok) & Hmn).
    erewrite M_bind_Ok by (apply wrap_Ok; exact E). eexists. split; [done|]. split; [done|].
    by eapply opens_scan.
  - destruct Hr as [Hc Hfit]. destruct (build_ok child Hc) as (c & E & Hsk & Ho).
    erewrite M_bind_Ok by exact E. eexists. split; [done|]. split; [cbn; by rewrite Hsk|].
    by apply opens_filter.
  - destruct Hr as [Hc Hok]. destruct (build_ok child Hc) as (c & E & Hsk & Ho).
    erewrite M_bind_Ok by exact E. eexists. split; [done|]. split; [cbn; by rewrite Hsk|].
    by apply opens_project.
  - destruct (build_ok child Hr) as (c & E & Hsk & Ho).
    erewrite M_bind_Ok by exact E. eexists. split; [done|]. split; [cbn; by rewrite Hsk|].
    by apply opens_limit.
  - destruct Hr as ((h & v & root & E & Hv & Ht & Hok) & (fid & vi & iroot & Ei & Hvi & Hti) & Hmn).
    erewrite M_bind_Ok by (apply wrap_Ok; exact E). erewrite M_bind_Ok by (apply wrap_Ok; exact Ei).
    eexists. split; [done|]. split; [done|]. by eapply opens_lookup.
  - destruct Hr as [Hcs Hpk].
    assert (∃ cs, (fix build (nodes : list PhysicalNode) : M DB (list Operator) :=
              match nodes with
              | [] => mret []
              | node :: nodes => c ← buildOp gid snap node; cs ← build nodes; mret (c :: cs)
              end) children db = (Ok cs, db) ∧ skel <$> cs = cs ∧
            Forall2 (λ rs sk, opens (sum_list (plan_fuel <$> children)) rs sk db) (plan_rows snap ct <$> children) cs)
      as (cs & E & Hsk & HF).
    { clear Hpk. induction children as [|node nodes IH]; [exists []; done|].
      destruct Hcs as [Hn Hcs]. destruct (build_ok node Hn) as (c & E1 & Hsk1 & Ho1).
      destruct (IH Hcs) as (cs & E2 & Hsk2 & HF). exists (c :: cs).
      erewrite M_bind_Ok by exact E1. erewrite M_bind_Ok by exact E2. split; [done|]. split; [cbn; congruence|].
      change (sum_list (plan_fuel <$> node :: nodes)) with (plan_fuel node + sum_list (plan_fuel <$> nodes))%nat.
      rewrite fmap_cons. constructor; [eapply opens_le; [|exact Ho1]; lia|].
      eapply Forall2_impl; [exact HF|]. intros rs sk Hrs. eapply opens_le; [|exact Hrs]. lia. }
    erewrite M_bind_Ok by exact E. eexists. split; [done|]. split; [cbn; by rewrite Hsk|].
    rewrite <-(length_fmap (plan_rows snap ct) children). by apply opens_union.
  - destruct Hr as (Hl & Hr & Hok). destruct (build_ok l Hl) as (lo & El & Hskl & Hol).
    destruct (build_ok r Hr) as (ro & Er & Hskr & Hor).
    erewrite M_bind_Ok by exact El. erewrite M_bind_Ok by exact Er. eexists. split; [done|].
    split; [cbn; by rewrite Hskl, Hskr|]. by apply opens_join.
Qed.

Lemma execute_ok node : plan_ready node → ∀ fuel, (exec_fuel node ≤ fuel)%nat →
  ∃ db', execute gid tfuel fuel snap node db = (Ok (plan_rows snap ct node), db') ∧ read_step db db'.
Proof using Htfuel.
  intros Hr fuel Hf. unfold exec_fuel in Hf. destruct (build_ok node Hr) as (op & E & Hsk & Ho). unfold execute.
  erewrite M_bind_Ok by exact E. destruct (Ho op db Hsk ltac:(done)) as (op' & db1 & E1 & Hs1 & _ & Hy).
  erewrite M_bind_Ok by exact E1.
  destruct (drain_yields _ _ op' db fuel fuel db1 Hy) as (db2 & E2 & Hs2); [lia|lia|done|].
  exists db2. split; [done|by etrans].
Qed.
End plans.
End volcano.

(** C11. The operators are correct: on a database whose tables and indexes are open,
    executing any plan (scans, index lookups, filters, unions, joins, limits,
    projections, nested in any way), with the fuel [exec_fuel] or more, ends
    without an error or a panic, returns exactly the rows the plan means, and
    changes nothing but which pages the buffer pool has cached. *)
Theorem execute_correct `{Unicode} gid tfuel snap ct db node fuel :
  (32 ≤ tfuel)%nat → plan_ready gid snap ct db node → (exec_fuel snap ct node ≤ fuel)%nat →
  ∃ db', execute gid tfuel fuel snap node db = (Ok (plan_rows snap ct node), db') ∧ read_step db db'.
Proof. intros. by apply execute_ok. Qed.

(** ** A concrete instance *)

#[local] Existing Instance no_tables.

Lemma ada_table_ready bt h :
  headerPage bt = 1 → tree_rep true bt h [ada_entry] → table_ready 1 ada_snap ada_contents (ada_db bt) people.
Proof.
  intros Hh Ht. destruct (ada_db_tree bt h Hh Ht) as (v & root & Hv & Hr).
  exists (HBuf (bp_fid (pg bt))), v, root. split_and!; [reflexivity|done|done|].
  constructor; [|done]. unfold slot_ok, visible_row. cbn [ada_entry Node.Value].
  change ada_snap with (TakeSnapshot XIDNone after5). by rewrite ada_visible, ada_decodes.
Qed.

Lemma execute_correct_witness :
  ∃ db fuel db', execute 1 32 fuel ada_snap
    (Project (Filter (IndexScan people 0 MaxUint64) [cond_val "age" OpGte (VInt 30)]) ["name"%string] [1%nat]) db
    = (Ok [[VText "Ada"]], db').
Proof.
  destruct ada_tree as (bt & h & Hh & Ht). exists (ada_db bt).
  assert (scan_rows ada_snap ada_contents people 0 MaxUint64 = [ada]) as Hs.
  { rewrite scan_all; [exact ada_rows|apply ada_table_ok]. }
  destruct (execute_correct 1 32 ada_snap ada_contents (ada_db bt)
    (Project (Filter (IndexScan people 0 MaxUint64) [cond_val "age" OpGte (VInt 30)]) ["name"%string] [1%nat])
    100%nat) as (db' & E & _).
  - lia.
  - cbn [plan_ready plan_rows]. rewrite Hs. split_and!.
    + exact (ada_table_ready bt h Hh Ht).
    + lia.
    + lia.
    + constructor; [|constructor]. intros t [= <-]. cbn. lia.
    + repeat constructor.
  - unfold exec_fuel. cbn [plan_fuel plan_rows]. rewrite Hs. apply Nat.leb_le. vm_compute. reflexivity.
  - exists 100%nat, db'. rewrite E. cbn [plan_rows]. rewrite Hs. reflexivity.
Defined.
