(* ===== verification/Select.v ===== *)
(** * Select: SELECT and EXPLAIN ([src/executor/executor.go],
    [src/executor/agg.go], [src/executor/subquery.go])

    Subqueries run first and leave plain conditions behind; then the statement
    is planned and executed, or, with aggregates, its raw rows are grouped.
    [fuel] bounds the operators' loops, [tfuel] the descents in a B-tree and
    the argument [depth] the nesting of subqueries. *)
From S2P Require Import Prelude Store Mvcc Cursor GoLib Catalog Ast Eval Agg Stats Planner Db Operators.
From stdpp Require Import options.
Local Open Scope Z_scope.

(** What [Exec] returns for a statement. *)
Record Result : Type := mkResult { RColumns : list string; RRows : list row; Message : string }.
Definition message (m : string) : Result := mkResult [] [] m.

Definition set_Where (w : option WhereClause) (s : SelectStmt) : SelectStmt :=
  mkSelect (SColumns s) (From s) (Joins s) w (GroupBy s) (Having s) (OrderBy s) (Limit s).
Definition set_Having (w : option WhereClause) (s : SelectStmt) : SelectStmt :=
  mkSelect (SColumns s) (From s) (Joins s) (Where s) (GroupBy s) w (OrderBy s) (Limit s).
Definition set_Columns (cols : list SelectExpr) (s : SelectStmt) : SelectStmt :=
  mkSelect cols (From s) (Joins s) (Where s) (GroupBy s) (Having s) (OrderBy s) (Limit s).
Definition set_Limit (n : Z) (s : SelectStmt) : SelectStmt :=
  mkSelect (SColumns s) (From s) (Joins s) (Where s) (GroupBy s) (Having s) (OrderBy s) n.

Definition star : SelectExpr := mkExpr "*" None EmptyString.

(** The statement of the raw scan below an aggregate. *)
Definition raw_stmt (s : SelectStmt) : SelectStmt :=
  mkSelect [star] (From s) (Joins s) (Where s) [] None [] 0.

(** The planner must not apply LIMIT before ORDER BY. *)

Definition plan_stmt (s : SelectStmt) : SelectStmt :=
  if decide ((0 < length (OrderBy s))%nat ∧ 0 < Limit s) then set_Limit 0 s else s.

(** ** Subqueries *)

Definition firstColumnValues (rows : list row) : list Value := omap head rows.

Definition set_InList (vs : list Value) (c : Condition) : Condition :=
  mkCond (Column c) (Op c) (Val c) (RHSCol c) (Some vs) None (ExistsQuery c) (ScalarQuery c)
    (Negated c) (AlwaysFalse c).
Definition set_Scalar (v : Value) (c : Condition) : Condition :=
  mkCond (Column c) (Op c) v (RHSCol c) (InList c) (InQuery c) (ExistsQuery c) None
    (Negated c) (AlwaysFalse c).

Section flatten.
Context (run : SelectStmt → M DB Result).

(** One condition: [None] when its group fails, [Some []] when it is dropped. *)
Definition flatten_cond (c : Condition) : M DB (option (list Condition)) :=
  match InQuery c with
  | Some q =>
      r ← wrap "IN subquery: %w" [] (run q);
      mret (Some [set_InList (firstColumnValues (RRows r)) c])
  | None =>
      match ScalarQuery c with
      | Some q =>
          r ← wrap "scalar subquery: %w" [] (run q);
          match RRows r with
          | [] => mret None
          | [vs] => v ← lift (BTree.go_index vs 0); mret (Some [set_Scalar v c])
          | _ => fail (Errorf "scalar subquery returned more than one row" [])
          end
      | None =>
          match ExistsQuery c with
          | Some q =>
              r ← wrap "EXISTS subquery: %w" [] (run (set_Columns [star] q));
              let hasRows := bool_decide (0 < length (RRows r))%nat in
              mret (if Bool.eqb hasRows (Negated c) then None else Some [])
          | None => mret (Some [c])
          end
      end
  end.

(** One AND group; a failed group becomes the condition that is always false. *)
Fixpoint flatten_group (group kept : list Condition) : M DB (list Condition) :=
  match group with
  | [] => mret kept
  | c :: group =>
      r ← flatten_cond c;
      match r with
      | None => mret [cond_false]
      | Some cs => flatten_group group (kept ++ cs)
      end
  end.

Fixpoint flatten_groups (groups : list (list Condition)) : M DB (list (list Condition)) :=
  match groups with
  | [] => mret []
  | g :: groups => g ← flatten_group g []; gs ← flatten_groups groups; mret (g :: gs)
  end.

Definition flattenSubqueries (wc : option WhereClause) : M DB (option WhereClause) :=
  match wc with
  | None => mret None
  | Some w => gs ← flatten_groups (Groups w); mret (Some (mkWhere gs))
  end.
End flatten.

Section select.
Context `{Unicode} `{Math} (gid : Z) (fuel tfuel : nat).

(** ** The tables of a statement *)

Fixpoint collect_refs (refs : list TableRef) (db : DB) (ts : list Table) (m : StatsDB)
    : res (list Table * StatsDB) :=
  match refs with
  | [] => Ok (ts, m)
  | ref :: refs =>
      match GetTable (RName ref) (cat db) with
      | None => Err (Errorf "table %q does not exist" [GStr (RName ref)])
      | Some tbl =>
          let m := match Get (RName ref) (statsDB db) with
                   | Some st => <[ToLower (RName ref) := st]> m
                   | None => m
                   end in
          collect_refs refs db (ts ++ [tbl]) m
      end
  end.

Definition collectTablesForSelect (s : SelectStmt) : M DB (list Table * StatsDB) :=
  db ← get_state; lift (collect_refs (allTableRefs s) db [] ∅).

(** Plan and run; [plan.( *planner.Project).Columns] are the column names. *)
Definition run_plan (s : SelectStmt) (snap : Snapshot) : M DB (list row * list string) :=
  '(ts, m) ← collectTablesForSelect s;
  plan ← lift (Plan s ts (Some m));
  rows ← execute gid tfuel fuel snap plan;
  match plan with
  | Project _ cols _ => mret (rows, cols)
  | _ => lift Panic
  end.

Definition execAggSelect (s : SelectStmt) (snap : Snapshot) : M DB Result :=
  '(rawRows, rawSchema) ← run_plan (raw_stmt s) snap;
  '(outRows, outCols) ← lift (aggregateRows s rawRows (name_index rawSchema ∅));
  outRows ← lift (match Having s with
                  | Some h => applyHaving outRows outCols h (SColumns s)
                  | None => Ok outRows
                  end);
  outRows ← lift (match OrderBy s with
                  | [] => Ok outRows
                  | _ => applyOrderBy outRows outCols (OrderBy s)
                  end);
  mret (mkResult outCols (apply_limit (Limit s) outRows) EmptyString).

Definition execSelectWithSnap (s : SelectStmt) (snap : Snapshot) : M DB Result :=
  if selectHasAgg s then execAggSelect s snap
  else
    '(rows, colNames) ← run_plan (plan_stmt s) snap;
    rows ← lift (match OrderBy s with
                 | [] => Ok rows
                 | _ => apply_limit (Limit s) <$> applyOrderBy rows colNames (OrderBy s)
                 end);
    mret (mkResult colNames rows EmptyString).

Fixpoint execSelectFlattened (depth : nat) (snap : Snapshot) (s : SelectStmt) : M DB Result :=
  match depth with
  | O => lift OutOfFuel
  | Datatypes.S depth =>
      w ← flattenSubqueries (execSelectFlattened depth snap) (Where s);
      h ← flattenSubqueries (execSelectFlattened depth snap) (Having s);
      execSelectWithSnap (set_Having h (set_Where w s)) snap
  end.

(** The snapshot a statement reads under. *)
Definition statement_snap : M DB Snapshot :=
  db ← get_state;
  mret (match goroutineTx gid db with
        | Some tx => tx_snap tx
        | None => TakeSnapshot XIDNone (txMgr db)
        end).

Definition execSelect (depth : nat) (s : SelectStmt) : M DB Result :=
  snap ← statement_snap; execSelectFlattened depth snap s.

Definition flattenDMLSubqueries (depth : nat) (wc : option WhereClause) : M DB (option WhereClause) :=
  match wc with
  | None => mret None
  | Some _ => snap ← statement_snap; flattenSubqueries (execSelectFlattened depth snap) wc
  end.

Definition execExplain (s : SelectStmt) : M DB Result :=
  '(ts, m) ← collectTablesForSelect s;
  plan ← lift (Plan s ts (Some m));
  mret (message (Explain plan)).
End select.
