(* ===== verification/Queries.v ===== *)
(** * Queries: what a SELECT on one table returns

    The planner's soundness and the operators' correctness put together with
    subquery flattening, aggregation, ORDER BY and LIMIT: executing a SELECT on
    one table is a function of the rows its snapshot sees. *)
From S2P Require Import Prelude Store Mvcc TxPager BufferPool Node BTree GoLib Catalog Rows Ast Eval Agg.
From S2P Require Import Stats Planner Db Frame Sample Operators Plans Volcano Select.
From stdpp Require Import options.
Local Open Scope Z_scope.

(** Fuel for a SELECT with this WHERE clause on a table of [n] slots without
    secondary indexes. *)
Definition select_fuel (w : option WhereClause) (n : nat) : nat :=
  (match w with None => 1 | Some w => length (Groups w) end * (4 * n + 3) + 6)%nat.

(** ** The access paths the planner chooses are ready to run *)

(** A scan or an index lookup of the table, perhaps under a filter. *)
Inductive access_path `{Unicode} (tbl : Table) : PhysicalNode → Prop :=
  | ap_scan mn mx preds : is_u64 mn → access_path tbl (with_filter (IndexScan tbl mn mx) preds)
  | ap_lookup def mn mx preds : def ∈ Indexes tbl → is_u64 mn →
      access_path tbl (with_filter (IndexLookup tbl def mn mx) preds).

Section access.
Context `{Unicode} `{Math} (tbl : Table).

Lemma narrow_u64 c range : plain_cond c → VType (Val c) = TypeInt → is_u64 range.1 → is_u64 (narrow c range).1.
Proof.
  intros [_ Hl] Ht Hr. destruct (Hl Ht) as (n & Hn & Hu). destruct range as [a b]. cbn [fst] in Hr. unfold narrow.
  rewrite Hn. cbn [IntVal VInt]. destruct (Op c); repeat case_decide; cbn [fst]; unfold max64; unfold MaxUint64 in *;
    try case_decide; lia.
Qed.

Lemma classify_loop_u64 pk conds range post :
  Forall plain_cond conds → is_u64 range.1 → is_u64 (classify_loop pk conds range post).1.1.
Proof.
  intros Hc. revert range post. induction Hc as [|c conds Hc _ IH]; intros range post Hr; cbn [classify_loop]; [done|].
  destruct (is_pk_cond pk c) eqn:Ep; apply IH; [|done]. apply narrow_u64; [done| |done].
  unfold is_pk_cond in Ep. rewrite !andb_true_iff, !bool_decide_eq_true in Ep. tauto.
Qed.

Lemma scan_plan_access conds : Forall plain_cond conds → access_path tbl (scan_plan tbl conds).
Proof.
  intros Hc. unfold scan_plan, classifyGroup. destruct (PrimaryKeyIndex tbl ≫= _) as [pk|].
  - pose proof (classify_loop_u64 (ToLower (CName pk)) conds (0, MaxUint64) [] Hc ltac:(cbn; lia)) as Hu.
    destruct (classify_loop _ _ _ _) as [[mn mx] post]. by constructor.
  - constructor. lia.
Qed.

Lemma lookup_plan_access def conds i c :
  plain_cond c → cond_index tbl c = Some def → access_path tbl (lookup_plan tbl def conds i c).
Proof.
  intros [Hj Hl] Hci. unfold cond_index in Hci. destruct (_ || _); [done|].
  destruct (IndexForColumn (Column c) tbl) as [d|] eqn:Hif; [|done]. case_decide as Hty; [done|]. injection Hci as ->.
  unfold IndexForColumn in Hif. destruct (list_find _ _) as [[k d']|] eqn:Hlf; [|done]. injection Hif as ->.
  apply list_find_Some in Hlf as (Hk & _). apply list_elem_of_lookup_2 in Hk. unfold lookup_plan.
  destruct (condToRange c) as [mn mx] eqn:Er. constructor; [done|].
  change mn with (mn, mx).1. rewrite <-Er. destruct (Hl Hty) as (n & Hn & Hu). unfold condToRange. rewrite Hn.
  cbn [IntVal VInt]. destruct (Op c); repeat case_decide; cbn; unfold MaxUint64 in *; lia.
Qed.

Lemma planGroup_access conds ts p :
  Forall plain_cond conds → planGroup tbl conds ts = Ok p → access_path tbl p.
Proof.
  intros Hp. pose proof Hp as HF. rewrite Forall_forall in HF. destruct ts as [ts|]; cbn [planGroup].
  - unfold costBasedPlanGroup. destruct (cost_loop tbl ts conds 0 _ None) as [k|] eqn:Ek.
    + apply (cost_loop_index tbl ts conds) in Ek as (c & def & Hc & Hci); [|done|done].
      rewrite Hc, (cond_index_column _ _ _ Hci). intros [= <-]. apply lookup_plan_access; [|done].
      by eapply HF, list_elem_of_lookup_2.
    + intros [= <-]. by apply scan_plan_access.
  - intros [= <-]. unfold ruleBasedPlanGroup.
    assert (∀ l i, (∀ c, c ∈ l → plain_cond c) → access_path tbl (rule_loop tbl conds l i)) as Hr; [|by apply Hr].
    intros l. induction l as [|c l IH]; intros i Hl; cbn [rule_loop]; [by apply scan_plan_access|].
    destruct (cond_index tbl c) as [def|] eqn:Hci.
    + apply lookup_plan_access; [|done]. apply Hl. by apply elem_of_cons; left.
    + apply IH. intros c' Hc'. apply Hl. by apply elem_of_cons; right.
Qed.
End access.

(** ** Plans of single-table SELECTs *)

(** The table and its indexes are open, hold the contents [ct], and these are
    rows of the table with the indexes in step. *)
Record query_ready `{Unicode} (gid : Z) (snap : Snapshot) (ct : Contents) (db : DB) (tbl : Table) : Prop := {
  qr_table : table_ready gid snap ct db tbl;
  qr_index def : def ∈ Indexes tbl → index_ready ct db def;
  qr_rows : table_ok snap ct tbl;
  qr_indexes : indexes_ok snap ct tbl;
  qr_pk : is_Some (PrimaryKeyIndex tbl)
}.

Section single.
Context `{Unicode} `{Math} (gid : Z) (snap : Snapshot) (ct : Contents) (db : DB) (tbl : Table).
Context (Hq : query_ready gid snap ct db tbl).

Lemma scan_rows_seen mn mx r : r ∈ scan_rows snap ct tbl mn mx → r ∈ table_rows snap ct tbl.
Proof.
  intros (e & [_ He]%list_elem_of_filter & Hr)%list_elem_of_omap. apply list_elem_of_omap. eauto.
Qed.

Lemma lookup_rows_seen def mn mx r : r ∈ lookup_rows snap ct tbl def mn mx → r ∈ table_rows snap ct tbl.
Proof using Hq.
  intros (ie & _ & (val & Hval & Hr)%bind_Some)%list_elem_of_omap.
  apply kv_map_lookup in Hval; [|apply Hq]. apply list_elem_of_omap. by exists (mkEntry (get_u64 0 (Node.Value ie)) val).
Qed.

Lemma with_filter_ready node preds :
  baseTable node = Some tbl → plan_ready gid snap ct db node →
  (∀ r, r ∈ plan_rows snap ct node → r ∈ table_rows snap ct tbl) →
  plan_ready gid snap ct db (with_filter node preds).
Proof using Hq.
  intros Hb Hr Hin. unfold with_filter. case_decide; [|done]. cbn [plan_ready]. split; [done|]. rewrite Hb.
  apply Forall_forall. intros r Hrow. eapply table_rows_row_fits; [apply Hq|by apply Hin].
Qed.

Lemma access_ready p : access_path tbl p → plan_ready gid snap ct db p.
Proof using Hq.
  intros [mn mx preds Hmn|def mn mx preds Hd Hmn]; apply with_filter_ready; try done.
  - split; [apply Hq|done].
  - apply scan_rows_seen.
  - split_and!; [apply Hq|by apply Hq|lia..].
  - apply lookup_rows_seen.
Qed.

Lemma row_length r : r ∈ table_rows snap ct tbl → length r = length (Columns tbl).
Proof using Hq. intros Hr. symmetry. eapply Forall2_length, table_rows_typed; [apply Hq|done]. Qed.

(** The plan below LIMIT and the projection is ready. *)
Lemma where_plan_ready s ts root :
  plain_where (Where s) →
  (branches ← match Where s with
              | None => Ok [IndexScan tbl 0 MaxUint64]
              | Some w => mapM_res (λ group, planGroup tbl group ts) (Groups w)
              end;
   match branches with
   | [b] => Ok b
   | _ => match PrimaryKeyIndex tbl with
          | None => Err (Errorf "planner: OR queries require a primary key column" [])
          | Some pkIdx => Ok (Union branches pkIdx)
          end
   end) = Ok root →
  plan_ready gid snap ct db root.
Proof using Hq.
  intros Hp Hr. destruct (qr_pk _ _ _ _ _ Hq) as [i Hi]. rewrite Hi in Hr.
  destruct (match Where s with Some _ => _ | None => _ end) as [bs|e| |] eqn:Eb; try done.
  assert (Forall (access_path tbl) bs) as Hbs.
  { destruct (Where s) as [[groups]|]; [|injection Eb as <-; constructor; [|done]; by apply (ap_scan tbl 0 MaxUint64 []); lia].
    specialize (Hp _ eq_refl). cbn [Groups] in *. clear Hr. revert bs Eb.
    induction Hp as [|g groups Hg _ IH]; intros bs Eb; cbn [mapM_res] in Eb; [by injection Eb as <-|].
    destruct (planGroup tbl g ts) as [b|e| |] eqn:Eg; try done. cbn [mbind res_bind] in Eb.
    destruct (mapM_res _ groups) as [bs'|e| |]; try done. injection Eb as <-.
    constructor; [by eapply planGroup_access|by apply IH]. }
  cbn [mbind res_bind] in Hr.
  assert (plan_ready gid snap ct db (Union bs i)) as HU.
  { cbn [plan_ready]. split.
    - clear -Hbs Hq. induction Hbs as [|b bs Hb _ IH]; [done|]. split; [by apply access_ready|done].
    - apply Forall_forall. intros r Hin. rewrite row_length.
      + apply find_index_lt in Hi. exact Hi.
      + clear -Hbs Hin Hq. induction Hbs as [|b bs Hb _ IH]; cbn in Hin; [by apply not_elem_of_nil in Hin|].
        apply elem_of_app in Hin as [Hin|Hin]; [|by apply IH].
        destruct Hb as [mn mx preds _|def mn mx preds Hd _]; rewrite (with_filter_rows snap ct tbl) in Hin by done;
          rewrite list_elem_of_In, filter_In, <-list_elem_of_In in Hin; destruct Hin as [Hin _];
          [by eapply scan_rows_seen|by eapply lookup_rows_seen]. }
  destruct bs as [|b [|b2 bs]]; injection Hr as <-; [exact HU| |exact HU].
  apply Forall_cons in Hbs as [Hb _]. by apply access_ready.
Qed.

(** *** The fuel of such a plan *)

Lemma length_omap {A B} (f : A → option B) l : (length (omap f l) ≤ length l)%nat.
Proof. induction l as [|x l IH]; [done|]. cbn [omap list_omap]. destruct (f x); cbn [length]; lia. Qed.

Lemma length_filter_bool {A} (f : A → bool) l : (length (List.filter f l) ≤ length l)%nat.
Proof. induction l as [|x l IH]; [done|]. cbn [List.filter]. destruct (f x); cbn [length]; lia. Qed.

Lemma length_dedup i seen l : (length (dedup i seen l) ≤ length l)%nat.
Proof. revert seen. induction l as [|r l IH]; intros seen; [done|]. cbn [dedup length]. case_decide; [|cbn [length]]; pose proof (IH seen); pose proof (IH ({[IntVal (default zeroValue (r !! i))]} ∪ seen)); lia. Qed.


Lemma scan_branch_fuel mn mx preds : let node := with_filter (IndexScan tbl mn mx) preds in
  (plan_fuel snap ct node ≤ 2 * length (ct_table ct tbl) + 2 ∧ length (plan_rows snap ct node) ≤ length (ct_table ct tbl))%nat.
Proof.
  assert (length (scan_rows snap ct tbl mn mx) ≤ length (ct_table ct tbl))%nat as Hs.
  { unfold scan_rows. etrans; [apply length_omap|]. apply length_filter. }
  unfold with_filter. case_decide; cbn [plan_fuel plan_rows]; [|lia].
  split; [lia|]. etrans; [apply length_filter_bool|exact Hs].
Qed.

Lemma where_plan_fuel s ts root : Indexes tbl = [] →
  (branches ← match Where s with
              | None => Ok [IndexScan tbl 0 MaxUint64]
              | Some w => mapM_res (λ group, planGroup tbl group ts) (Groups w)
              end;
   match branches with
   | [b] => Ok b
   | _ => match PrimaryKeyIndex tbl with
          | None => Err (Errorf "planner: OR queries require a primary key column" [])
          | Some pkIdx => Ok (Union branches pkIdx)
          end
   end) = Ok root →
  let n := length (ct_table ct tbl) in let g := match Where s with None => 1%nat | Some w => length (Groups w) end in
  (plan_fuel snap ct root ≤ g * (3 * n + 3) + 3 ∧ length (plan_rows snap ct root) ≤ g * n)%nat.
Proof using Hq.
  intros Hi Hr n g. destruct (qr_pk _ _ _ _ _ Hq) as [i Hpk]. rewrite Hpk in Hr.
  destruct (match Where s with Some _ => _ | None => _ end) as [bs|e| |] eqn:Eb; try done. cbn [mbind res_bind] in Hr.
  assert (length bs = g ∧ Forall (λ b, plan_fuel snap ct b ≤ 2 * n + 2 ∧ length (plan_rows snap ct b) ≤ n)%nat bs) as [Hl Hbs].
  { unfold g. destruct (Where s) as [[groups]|]; cbn [Groups] in *.
    - clear Hr. revert bs Eb. induction groups as [|gr groups IH]; intros bs Eb; cbn [mapM_res] in Eb; [by injection Eb as <-|].
      rewrite planGroup_scan in Eb by done. cbn [mbind res_bind] in Eb. destruct (mapM_res _ groups) as [bs'|e| |]; try done.
      injection Eb as <-. destruct (IH bs' eq_refl) as [Hl Hb]. split; [cbn; by rewrite Hl|]. constructor; [|done].
      unfold scan_plan. destruct (classifyGroup tbl gr) as [[mn mx] post]. apply scan_branch_fuel.
    - injection Eb as <-. split; [done|]. constructor; [|constructor]. apply (scan_branch_fuel 0 MaxUint64 []). }
  assert (plan_fuel snap ct (Union bs i) ≤ g * (3 * n + 3) + 3 ∧ length (concat (plan_rows snap ct <$> bs)) ≤ g * n)%nat as [HU1 HU2].
  { rewrite <-Hl. clear Hr Hl Eb g. cbn [plan_fuel]. induction Hbs as [|b bs [Hb1 Hb2] _ IH]; [cbn; lia|].
    change (sum_list (plan_fuel snap ct <$> b :: bs)) with (plan_fuel snap ct b + sum_list (plan_fuel snap ct <$> bs))%nat.
    rewrite fmap_cons. cbn [concat length]. rewrite length_app. lia. }
  assert (length (plan_rows snap ct (Union bs i)) ≤ g * n)%nat by (cbn [plan_rows]; etrans; [apply length_dedup|exact HU2]).
  destruct bs as [|b [|b2 bs]]; injection Hr as <-; [done| |done].
  apply Forall_cons in Hbs as [Hb _]. cbn [length] in Hl. split; nia.
Qed.

Lemma resolve_fold_range cols acc names idxs :
  foldl (λ acc col,
      '(names, idxs) ← acc;
      match ColIndex col tbl with
      | None => Err (Errorf "column %q not found in table %q" [GStr col; GStr (TName tbl)])
      | Some idx =>
          match Columns tbl !! idx with
          | None => Panic
          | Some c => Ok (names ++ [CName c], idxs ++ [idx])
          end
      end) acc cols = Ok (names, idxs) →
  (∀ names idxs, acc = Ok (names, idxs) → Forall (λ i, i < length (Columns tbl))%nat idxs) →
  Forall (λ i, i < length (Columns tbl))%nat idxs.
Proof.
  revert acc. induction cols as [|col cols IH]; intros acc Hf Ha; cbn [foldl] in Hf; [by eapply Ha|].
  apply (IH _ Hf). intros names' idxs' E. destruct acc as [[ns is_]|e| |]; try done. cbn [mbind res_bind] in E.
  destruct (ColIndex col tbl) as [j|] eqn:Ej; [|done]. destruct (Columns tbl !! j) as [c|] eqn:Ec; [|done].
  injection E as <- <-. apply Forall_app. split; [by eapply Ha|]. constructor; [|done].
  by apply lookup_lt_Some in Ec.
Qed.

Lemma resolve_range cols names idxs :
  resolveColumnsSingle tbl cols = Ok (names, idxs) → Forall (λ i, i < length (Columns tbl))%nat idxs.
Proof.
  unfold resolveColumnsSingle. destruct (is_star cols).
  - intros [= _ <-]. apply Forall_forall. intros i Hi%elem_of_seq. lia.
  - intros E. eapply resolve_fold_range; [exact E|]. intros ns is_ [= _ <-]. constructor.
Qed.

(** The plan of a single-table SELECT and the rows below its LIMIT. *)
Lemma single_plan s ts cols idxs :
  plain_where (Where s) → resolveColumnsSingle tbl (exprCols (SColumns s)) = Ok (cols, idxs) →
  ∃ root, planSingleTable s tbl ts = Ok (Project (with_limit s root) cols idxs) ∧
    plan_ready gid snap ct db (Project (with_limit s root) cols idxs) ∧
    plan_rows snap ct root ≡ₚ where_rows snap ct tbl (Where s) ∧
    (Indexes tbl = [] → (∀ w, Where s = Some w → length (Groups w) = 1%nat) →
     plan_rows snap ct root = where_rows snap ct tbl (Where s)) ∧
    (Indexes tbl = [] → (exec_fuel snap ct (Project (with_limit s root) cols idxs) ≤ select_fuel (Where s) (length (ct_table ct tbl)))%nat).
Proof using Hq.
  intros Hw Hcols. pose proof Hq as [_ _ Htbl Hidx Hpk].
  destruct (where_plan_sound snap ct tbl Htbl Hidx s ts Hw Hpk) as (root & Hr & Hrows).
  exists root. split_and!; [| |done| |].
  - unfold planSingleTable. rewrite Hcols. cbn [mbind res_bind]. unfold mbind, res_bind in Hr |- *.
    destruct (match Where s with Some _ => _ | None => _ end) as [bs|e| |]; try done. by rewrite Hr.
  - assert (∀ r, r ∈ plan_rows snap ct root → r ∈ table_rows snap ct tbl) as Hin.
    { intros r. rewrite Hrows. unfold where_rows. rewrite list_elem_of_In, filter_In, <-list_elem_of_In. tauto. }
    cbn [plan_ready]. split.
    + pose proof (where_plan_ready s ts root Hw Hr). unfold with_limit. by case_decide.
    + apply Forall_forall. intros r Hrow. rewrite with_limit_rows in Hrow.
      assert (r ∈ table_rows snap ct tbl) as Hrt by (apply Hin; case_decide; [by apply elem_of_take in Hrow as (? & ?%list_elem_of_lookup_2 & _)|done]).
      unfold picks_ok. rewrite (row_length r Hrt). by eapply resolve_range.
  - intros Hi H1. destruct (where_plan_ordered snap ct tbl Htbl s ts Hw Hi H1) as (root' & E & Hrows').
    rewrite E in Hr. injection Hr as <-. exact Hrows'.
  - intros Hi. destruct (where_plan_fuel s ts root Hi Hr) as [H1 H2]. cbv zeta in *. unfold exec_fuel, select_fuel.
    cbn [plan_fuel plan_rows]. rewrite length_fmap.
    assert (plan_fuel snap ct (with_limit s root) ≤ S (plan_fuel snap ct root))%nat by (unfold with_limit; case_decide; cbn [plan_fuel]; lia).
    assert (length (plan_rows snap ct (with_limit s root)) ≤ length (plan_rows snap ct root))%nat
      by (rewrite with_limit_rows; case_decide; [rewrite length_take|]; lia). lia.
Qed.
End single.

(** ** The reference semantics of a SELECT on one table *)

Definition order_rows `{Unicode} (s : SelectStmt) (rows : list row) (cols : list string) : res (list row) :=
  match OrderBy s with
  | [] => Ok rows
  | _ => applyOrderBy rows cols (OrderBy s)
  end.

(** The result as a function of the rows that satisfy the WHERE clause. *)
Definition select_spec `{Unicode} (s : SelectStmt) (tbl : Table) (l : list row) : res Result :=
  if selectHasAgg s then
    '(rows, cols) ← aggregateRows s l (name_index (CName <$> Columns tbl) ∅);
    rows ← match Having s with Some h => applyHaving rows cols h (SColumns s) | None => Ok rows end;
    rows ← order_rows s rows cols;
    Ok (mkResult cols (apply_limit (Limit s) rows) EmptyString)
  else
    '(cols, idxs) ← resolveColumnsSingle tbl (exprCols (SColumns s));
    rows ← order_rows s (pick idxs <$> l) cols;
    Ok (mkResult cols (apply_limit (Limit s) rows) EmptyString).

(** A clause without subqueries. *)
Definition flat_cond (c : Condition) : Prop := InQuery c = None ∧ ScalarQuery c = None ∧ ExistsQuery c = None.
Definition flat_where (w : option WhereClause) : Prop := ∀ w', w = Some w' → Forall (Forall flat_cond) (Groups w').

Lemma flatten_flat run w db : flat_where w → flattenSubqueries run w db = (Ok w, db).
Proof.
  intros Hw. destruct w as [[gs]|]; [|done]. specialize (Hw _ eq_refl). cbn [flattenSubqueries Groups] in *.
  assert (flatten_groups run gs db = (Ok gs, db)) as E; [|by erewrite M_bind_Ok by exact E].
  induction Hw as [|g gs Hg _ IH]; cbn [flatten_groups]; [done|].
  assert (∀ kept, flatten_group run g kept db = (Ok (kept ++ g), db)) as Eg.
  { clear -Hg. induction Hg as [|c g (Hi & Hs & He) _ IH]; intros kept; cbn [flatten_group]; [by rewrite app_nil_r|].
    erewrite M_bind_Ok by (unfold flatten_cond; rewrite Hi, Hs, He; done). cbn beta iota. rewrite IH, <-app_assoc. done. }
  erewrite M_bind_Ok by apply Eg. by erewrite M_bind_Ok by exact IH.
Qed.

Lemma apply_limit_take n l : apply_limit n l = if decide (0 < n) then take (Z.to_nat n) l else l.
Proof. unfold apply_limit. repeat case_decide; try lia; try done. rewrite take_ge; [done|lia]. Qed.

Lemma apply_limit_0 l : apply_limit 0 l = l.
Proof. done. Qed.

Lemma pick_all l n : Forall (λ r : row, length r = n) l → pick (seq 0 n) <$> l = l.
Proof.
  induction 1 as [|r l Hr _ IH]; [done|]. cbn [fmap list_fmap]. rewrite IH. f_equal. unfold pick. rewrite <-Hr. clear.
  induction r as [|v r IH]; [done|]. cbn. f_equal. rewrite <-(fmap_S_seq 0), <-list_fmap_compose. exact IH.
Qed.

Section select.
Context `{Unicode} `{Math} (gid : Z) (tfuel : nat) (Htf : (32 ≤ tfuel)%nat).
Context (snap : Snapshot) (ct : Contents) (db : DB) (tbl : Table).
Context (Hq : query_ready gid snap ct db tbl).

(** What holds of the rows a plan hands to the rest of the statement. *)
Definition matching (s : SelectStmt) (l : list row) : Prop :=
  l ≡ₚ where_rows snap ct tbl (Where s) ∧
  (Indexes tbl = [] → (∀ w, Where s = Some w → length (Groups w) = 1%nat) → l = where_rows snap ct tbl (Where s)).

(** The fuel needed, on a table without secondary indexes. *)
Definition fuel_bound (s : SelectStmt) (N : nat) : Prop :=
  Indexes tbl = [] → (N ≤ select_fuel (Where s) (length (ct_table ct tbl)))%nat.

Lemma collect_one s ref :
  From s = [ref] → Joins s = [] → GetTable (RName ref) (cat db) = Some tbl →
  ∃ m, collectTablesForSelect s db = (Ok ([tbl], m), db).
Proof.
  intros Hf Hj Ht. unfold collectTablesForSelect, allTableRefs. rewrite Hf, Hj. M_run. cbn [app fmap list_fmap collect_refs].
  rewrite Ht. eauto.
Qed.

Lemma run_plan_ok s ref cols idxs :
  From s = [ref] → Joins s = [] → GetTable (RName ref) (cat db) = Some tbl → plain_where (Where s) →
  resolveColumnsSingle tbl (exprCols (SColumns s)) = Ok (cols, idxs) →
  ∃ l N, matching s l ∧ fuel_bound s N ∧ ∀ fuel, (N ≤ fuel)%nat →
    ∃ db', run_plan gid fuel tfuel s snap db = (Ok (apply_limit (Limit s) (pick idxs <$> l), cols), db') ∧ read_step db db'.
Proof using Htf Hq.
  intros Hf Hj Ht Hw Hc. destruct (collect_one s ref Hf Hj Ht) as (m & Em).
  destruct (single_plan gid snap ct db tbl Hq s (statsForTable (Some m) (RName ref)) cols idxs Hw Hc)
    as (root & Ep & Hready & Hl & Ho & Hfu).
  pose proof (execute_ok gid tfuel Htf snap ct db _ Hready) as HN.
  eexists (plan_rows snap ct root), _. split; [by split|]. split; [exact Hfu|]. intros fuel Hfuel.
  destruct (HN fuel Hfuel) as (db' & E & Hs). exists db'. split; [|done]. unfold run_plan.
  erewrite M_bind_Ok by exact Em. cbn beta iota. unfold Plan. rewrite Hf, Hj. rewrite Ep.
  erewrite M_bind_Ok by done. erewrite M_bind_Ok by exact E. cbn [plan_rows]. rewrite with_limit_rows, apply_limit_take.
  case_decide; [by rewrite fmap_take|done].
Qed.

Lemma run_plan_fails s ref fuel :
  From s = [ref] → Joins s = [] → GetTable (RName ref) (cat db) = Some tbl →
  is_ok (resolveColumnsSingle tbl (exprCols (SColumns s))) = false →
  run_plan gid fuel tfuel s snap db = (resolveColumnsSingle tbl (exprCols (SColumns s)) ≫= λ _, Panic, db).
Proof.
  intros Hf Hj Ht Hc. destruct (collect_one s ref Hf Hj Ht) as (m & Em). unfold run_plan.
  erewrite M_bind_Ok by exact Em. cbn beta iota. unfold Plan. rewrite Hf, Hj. unfold planSingleTable.
  by destruct (resolveColumnsSingle tbl (exprCols (SColumns s))).
Qed.

(** [order_rows] of the reference is the code's ORDER BY step. *)
Lemma agg_ok s ref :
  From s = [ref] → Joins s = [] → GetTable (RName ref) (cat db) = Some tbl → plain_where (Where s) →
  selectHasAgg s = true →
  ∃ l N, matching s l ∧ fuel_bound s N ∧ ∀ fuel, (N ≤ fuel)%nat →
    ∃ db', execSelectWithSnap gid fuel tfuel s snap db = (select_spec s tbl l, db') ∧ read_step db db'.
Proof using Htf Hq.
  intros Hf Hj Ht Hw Ha.
  destruct (run_plan_ok (raw_stmt s) ref (CName <$> Columns tbl) (seq 0 (length (Columns tbl))) Hf Hj Ht Hw eq_refl)
    as (l & N & Hl & Hfu & HN).
  exists l, N. split; [exact Hl|]. split; [exact Hfu|]. intros fuel Hfuel. destruct (HN fuel Hfuel) as (db' & E & Hs). exists db'.
  split; [|done]. unfold execSelectWithSnap, select_spec, execAggSelect. rewrite Ha.
  erewrite M_bind_Ok by exact E. cbn beta iota. rewrite (apply_limit_0 _), pick_all.
  2: { apply Forall_forall. intros r Hr. eapply row_length; [exact Hq|]. destruct Hl as [Hl _].
       rewrite Hl in Hr. unfold where_rows in Hr. rewrite list_elem_of_In, filter_In, <-list_elem_of_In in Hr. tauto. }
  destruct (aggregateRows s l _) as [[rows cols]|e| |]; [|done..]. M_run. cbn [res_bind].
  destruct (match Having s with Some _ => _ | None => _ end) as [rows'|e| |]; [|done..]. unfold order_rows.
  cbn [res_bind]. destruct (OrderBy s); [done|]. by destruct (applyOrderBy _ _ _).
Qed.

Lemma plain_ok s ref :
  From s = [ref] → Joins s = [] → GetTable (RName ref) (cat db) = Some tbl → plain_where (Where s) →
  selectHasAgg s = false →
  ∃ l N, matching s l ∧ fuel_bound s N ∧ ∀ fuel, (N ≤ fuel)%nat →
    ∃ db', execSelectWithSnap gid fuel tfuel s snap db = (select_spec s tbl l, db') ∧ read_step db db'.
Proof using Htf Hq.
  intros Hf Hj Ht Hw Ha.
  assert (From (plan_stmt s) = [ref] ∧ Joins (plan_stmt s) = [] ∧ Where (plan_stmt s) = Where s ∧
    SColumns (plan_stmt s) = SColumns s) as (Hf' & Hj' & Hw' & Hc') by (unfold plan_stmt; by case_decide).
  destruct (resolveColumnsSingle tbl (exprCols (SColumns s))) as [[cols idxs]|e| |] eqn:Hc.
  1: { destruct (run_plan_ok (plan_stmt s) ref cols idxs) as (l & N & Hl & Hfu & HN); [done|done|done|by rewrite Hw'|by rewrite Hc'|].
       exists l, N. split; [unfold matching in *; by rewrite Hw' in Hl|]. split; [unfold fuel_bound in *; by rewrite Hw' in Hfu|]. intros fuel Hfuel.
       destruct (HN fuel Hfuel) as (db' & E & Hs). exists db'. split; [|done].
       unfold execSelectWithSnap, select_spec, order_rows. rewrite Ha, Hc. erewrite M_bind_Ok by exact E. cbn beta iota.
       cbn [mbind res_bind]. unfold plan_stmt. destruct (OrderBy s) as [|ob obs] eqn:Eo.
       - cbn [length]. rewrite decide_False by (intros [? _]; lia). done.
       - assert (apply_limit (Limit (if decide ((0 < length (ob :: obs))%nat ∧ 0 < Limit s) then set_Limit 0 s else s)) (pick idxs <$> l)
           = pick idxs <$> l) as ->.
         { case_decide as Hd; [done|]. rewrite apply_limit_take, decide_False; [done|]. intros Hlim. apply Hd. cbn. split; [lia|done]. }
         M_run. by destruct (applyOrderBy _ _ _). }
  all: exists (where_rows snap ct tbl (Where s)), 0%nat; (split; [by split|]); (split; [intros _; lia|]); intros fuel _; exists db; split; [|done];
    unfold execSelectWithSnap, select_spec; rewrite Ha, Hc; unfold mbind at 1, M_bind at 1;
    rewrite (run_plan_fails (plan_stmt s) ref) by (done || by rewrite Hc', Hc); by rewrite Hc', Hc.
Qed.
End select.

Lemma select_ok `{Unicode} `{Math} gid tfuel snap ct db tbl s ref :
  (32 ≤ tfuel)%nat → query_ready gid snap ct db tbl →
  From s = [ref] → Joins s = [] → GetTable (RName ref) (cat db) = Some tbl →
  plain_where (Where s) → flat_where (Where s) → flat_where (Having s) →
  ∃ l N, matching snap ct tbl s l ∧ fuel_bound ct tbl s N ∧ ∀ fuel depth, (N ≤ fuel)%nat →
    ∃ db', execSelectFlattened gid fuel tfuel (Datatypes.S depth) snap s db = (select_spec s tbl l, db') ∧ read_step db db'.
Proof.
  intros Htf Hq Hf Hj Ht Hw Hfw Hfh.
  assert (∃ l N, matching snap ct tbl s l ∧ fuel_bound ct tbl s N ∧ ∀ fuel, (N ≤ fuel)%nat →
    ∃ db', execSelectWithSnap gid fuel tfuel s snap db = (select_spec s tbl l, db') ∧ read_step db db') as (l & N & Hl & Hfu & HN).
  { destruct (selectHasAgg s) eqn:Ha; [by eapply agg_ok|by eapply plain_ok]. }
  exists l, N. split; [done|]. split; [done|]. intros fuel depth Hfuel. destruct (HN fuel Hfuel) as (db' & E & Hs). exists db'.
  split; [|done]. cbn [execSelectFlattened]. erewrite M_bind_Ok by by apply flatten_flat.
  erewrite M_bind_Ok by by apply flatten_flat. by destruct s.
Qed.

(** C4. A SELECT on one table with a primary key, with or without aggregates,
    HAVING, ORDER BY and LIMIT, returns what the reference semantics computes
    from the visible rows that satisfy its WHERE clause: for enough fuel
    ([select_fuel] without secondary indexes) it ends, it fails exactly when the
    reference fails, with the same error, and it changes nothing but which pages
    are cached. Without OR and secondary indexes those rows come in primary-key
    order. The clauses have no subqueries, so that flattening leaves them as
    they are; the WHERE clause compares columns with literals only, 64-bit
    numbers or text, not with other columns (such a condition on the primary key
    is misread), and a condition on a column that the table does not have counts
    as satisfied; the table's secondary indexes, if it has any, are in step with
    its rows ([indexes_ok]), which UPDATE does not ensure. *)
Theorem select_correct `{Unicode} `{Math} gid tfuel snap ct db tbl s ref :
  (32 ≤ tfuel)%nat → query_ready gid snap ct db tbl →
  From s = [ref] → Joins s = [] → GetTable (RName ref) (cat db) = Some tbl →
  plain_where (Where s) → flat_where (Where s) → flat_where (Having s) →
  ∃ l N, matching snap ct tbl s l ∧ fuel_bound ct tbl s N ∧ ∀ fuel depth, (N ≤ fuel)%nat →
    ∃ db', execSelectFlattened gid fuel tfuel (Datatypes.S depth) snap s db = (select_spec s tbl l, db') ∧ read_step db db'.
Proof. apply select_ok. Qed.

(** ** A concrete instance *)

#[local] Existing Instance no_tables.
#[local] Existing Instance some_math.

Lemma ada_query_ready bt h :
  headerPage bt = 1 → tree_rep true bt h [ada_entry] → query_ready 1 ada_snap ada_contents (ada_db bt) people.
Proof.
  intros Hh Ht. split.
  - exact (ada_table_ready bt h Hh Ht).
  - intros def Hd. by apply not_elem_of_nil in Hd.
  - exact ada_table_ok.
  - intros def Hd. by apply not_elem_of_nil in Hd.
  - by eexists.
Qed.

Lemma ada_plain : plain_where (Where ada_query).
Proof. intros w [= <-]. repeat constructor. intros _. exists 30. split; [reflexivity|lia]. Qed.

Lemma select_correct_witness :
  ∃ db fuel db', execSelectFlattened 1 fuel 32 1 ada_snap ada_query db =
    (Ok (mkResult ["name"%string] [[VText "Ada"]] EmptyString), db').
Proof.
  destruct ada_tree as (bt & h & Hh & Ht). exists (ada_db bt).
  destruct (select_correct 1 32 ada_snap ada_contents (ada_db bt) people ada_query (mkRef "people" EmptyString))
    as (l & N & [_ Hl] & _ & HN).
  - lia.
  - exact (ada_query_ready bt h Hh Ht).
  - reflexivity.
  - reflexivity.
  - reflexivity.
  - exact ada_plain.
  - intros w [= <-]. repeat constructor.
  - intros w [=].
  - destruct (HN N 0%nat ltac:(lia)) as (db' & E & _). exists N, db'. rewrite E.
    rewrite Hl; [|reflexivity|by intros w [= <-]]. unfold where_rows. rewrite ada_rows. reflexivity.
Defined.
