(* ===== verification/Joins.v ===== *)
(** * Joins: what a SELECT on several tables returns

    The planner gives every table the conditions of the WHERE clause that are
    about it alone and joins the tables from left to right, each join with the
    conditions that connect its table with those before it.  The rows of the plan
    are those of the cross product that satisfy all conditions, as long as every
    join condition names first the column of the earlier table, or columns whose
    names do not occur on the other side. *)
From S2P Require Import Prelude Store Mvcc TxPager BufferPool Node BTree GoLib Catalog Rows Ast Eval Agg.
From S2P Require Import Stats Planner Db Frame Sample Operators Plans Volcano Select Queries.
From stdpp Require Import options.
Local Open Scope Z_scope.

(** ** Names *)

(** A name of ASCII characters without a dot, and two of them with a dot between. *)
Definition name_char (c : ascii) : bool := is_ascii_char c && negb (bool_decide (c = "."%char)).
Definition ident (s : string) : Prop := string_all name_char s = true.
Definition qualified (q c : string) : string := (q +:+ "." +:+ c)%string.
Definition dotted (s : string) : Prop := ∃ q c, s = qualified q c ∧ ident q ∧ ident c.

(** The part after the last dot. *)
Definition bare (s : string) : string := match LastIndexByte "."%char s with Some dot => str_drop (dot + 1) s | None => s end.

Lemma qualified_cons a q c : qualified (String a q) c = String a (qualified q c).
Proof. reflexivity. Qed.

Lemma ident_last s : ident s → LastIndexByte "."%char s = None ∧ IndexByte "."%char s = None.
Proof.
  unfold ident. induction s as [|a s IH]; [done|]. cbn [string_all LastIndexByte IndexByte]. unfold name_char at 1.
  rewrite !andb_true_iff, negb_true_iff, bool_decide_eq_false. intros [[_ Hd] Hs]. destruct (IH Hs) as [-> ->]. rewrite !decide_False by done. done.
Qed.

Lemma qualified_last q c : ident c → LastIndexByte "."%char (qualified q c) = Some (String.length q).
Proof.
  intros Hc. induction q as [|a q IH]; [|rewrite qualified_cons; cbn [LastIndexByte]; by rewrite IH].
  change (qualified EmptyString c) with (String "."%char c). cbn [LastIndexByte]. by rewrite (proj1 (ident_last c Hc)).
Qed.

Lemma qualified_first q c : ident q → IndexByte "."%char (qualified q c) = Some (String.length q).
Proof.
  unfold ident. induction q as [|a q IH]; [done|]. cbn [string_all]. unfold name_char at 1.
  rewrite qualified_cons, !andb_true_iff, negb_true_iff, bool_decide_eq_false. intros [[_ Hd] Hq]. cbn [IndexByte String.length].
  rewrite decide_False by done. by rewrite (IH Hq).
Qed.

Lemma qualified_drop q c : str_drop (String.length q + 1) (qualified q c) = c ∧ str_take (String.length q) (qualified q c) = q.
Proof.
  induction q as [|a q [IH1 IH2]]; [done|]. rewrite qualified_cons. cbn [String.length str_drop str_take Nat.add]. by rewrite IH1, IH2.
Qed.

Lemma bare_qualified q c : ident c → bare (qualified q c) = c.
Proof. intros Hc. unfold bare. rewrite (qualified_last q c Hc). apply qualified_drop. Qed.

Lemma string_all_append p a b : string_all p (a +:+ b)%string = string_all p a && string_all p b.
Proof. induction a as [|x a IH]; [done|]. rewrite app_String. cbn [string_all]. by rewrite IH, andb_assoc. Qed.

Lemma string_map_append f a b : string_map f (a +:+ b)%string = (string_map f a +:+ string_map f b)%string.
Proof. induction a as [|x a IH]; [done|]. rewrite app_String. cbn [string_map]. by rewrite IH, app_String. Qed.

Lemma ident_ascii s : ident s → is_ascii s = true.
Proof.
  unfold ident, is_ascii. induction s as [|a s IH]; [done|]. cbn [string_all]. rewrite !andb_true_iff. unfold name_char. rewrite andb_true_iff. tauto.
Qed.

Lemma dotted_ascii s : dotted s → is_ascii s = true.
Proof.
  intros (q & c & -> & Hq & Hc). unfold is_ascii, qualified. rewrite !string_all_append.
  pose proof (ident_ascii q Hq) as H1. pose proof (ident_ascii c Hc) as H2. unfold is_ascii in H1, H2. by rewrite H1, H2.
Qed.

Lemma ident_lower s : ident s → ident (string_map lower_char s).
Proof.
  unfold ident. induction s as [|a s IH]; [done|]. cbn [string_all string_map]. intros [Ha Hs]%andb_true_iff. rewrite IH, andb_true_r by done.
  revert Ha. clear. by destruct a as [[] [] [] [] [] [] [] []].
Qed.

Section names.
Context `{Unicode}.

Lemma ToLower_ascii s : is_ascii s = true → ToLower s = string_map lower_char s.
Proof. unfold ToLower. by intros ->. Qed.

Lemma ToLower_qualified q c : ident q → ident c → ToLower (qualified q c) = qualified (ToLower q) (ToLower c).
Proof.
  intros Hq Hc. assert (dotted (qualified q c)) as Hd by (by exists q, c).
  rewrite (ToLower_ascii _ (dotted_ascii _ Hd)), (ToLower_ascii _ (ident_ascii _ Hq)), (ToLower_ascii _ (ident_ascii _ Hc)).
  unfold qualified. by rewrite !string_map_append.
Qed.

Lemma ident_ToLower s : ident s → ident (ToLower s).
Proof. intros Hs. rewrite ToLower_ascii by by apply ident_ascii. by apply ident_lower. Qed.

Lemma qualified_inj q c q' c' : ident c → ident c' → qualified q c = qualified q' c' → q = q' ∧ c = c'.
Proof.
  intros Hc Hc' E. pose proof (qualified_last q c Hc) as E1. pose proof (qualified_last q' c' Hc') as E2. rewrite E, E2 in E1. injection E1 as EL.
  destruct (qualified_drop q c) as [D1 T1], (qualified_drop q' c') as [D2 T2]. rewrite E, <-EL in D1, T1. split; congruence.
Qed.

Lemma ToLower_dotted s t : dotted s → ident t → ToLower s ≠ ToLower t.
Proof.
  intros (q & c & -> & Hq & Hc) Ht E. rewrite ToLower_qualified in E by done. pose proof (qualified_last (ToLower q) (ToLower c) (ident_ToLower c Hc)) as E1.
  rewrite E, (proj1 (ident_last _ (ident_ToLower t Ht))) in E1. discriminate.
Qed.

Lemma bare_ident s : dotted s → ident (bare s).
Proof. intros (q & c & -> & Hq & Hc). by rewrite bare_qualified. Qed.

Lemma EqualFold_ascii s t : is_ascii s = true → is_ascii t = true → EqualFold s t = bool_decide (ToLower s = ToLower t).
Proof. intros Hs Ht. unfold EqualFold, ToLower. by rewrite Hs, Ht. Qed.
End names.

(** ** Schemas *)

Lemma find_index_app {A} (p : A → bool) l1 l2 :
  find_index p (l1 ++ l2) = match find_index p l1 with Some i => Some i | None => (λ i, length l1 + i)%nat <$> find_index p l2 end.
Proof.
  induction l1 as [|x l1 IH]; [cbn; by destruct (find_index p l2)|]. cbn [app find_index length]. destruct (p x); [done|]. rewrite IH.
  destruct (find_index p l1); [done|]. by destruct (find_index p l2).
Qed.

Lemma find_index_ext {A} (p q : A → bool) l : (∀ x, x ∈ l → p x = q x) → find_index p l = find_index q l.
Proof.
  induction l as [|x l IH]; intros E; [done|]. cbn [find_index]. rewrite (E x) by by left. rewrite IH; [done|]. intros y Hy. apply E. by right.
Qed.

Lemma find_index_range {A} (p : A → bool) l i : find_index p l = Some i → (i < length l)%nat.
Proof. intros (x & Hx & _)%find_index_Some. by apply lookup_lt_Some in Hx. Qed.

Section schema.
Context `{Unicode}.

(** Where the column with this qualified name is, and the first one with this
    bare name. *)
Definition column_at (schema : list string) (name : string) : option nat :=
  find_index (λ s, bool_decide (ToLower s = ToLower name)) schema.
Definition bare_at (schema : list string) (name : string) : option nat :=
  find_index (λ s, bool_decide (ToLower (bare s) = ToLower (bare name))) schema.

Lemma column_at_elem schema name : is_Some (column_at schema name) ↔ ToLower name ∈ ToLower <$> schema.
Proof.
  unfold column_at. split.
  - intros [i (s & Hs & E & _)%find_index_Some]. rewrite bool_decide_eq_true in E. apply list_elem_of_fmap. exists s. split; [done|].
    by eapply list_elem_of_lookup_2.
  - intros (s & E & Hs)%list_elem_of_fmap. eapply find_index_lookup; [exact Hs|]. by rewrite bool_decide_eq_true.
Qed.

Lemma column_at_not schema name : ToLower name ∉ ToLower <$> schema → column_at schema name = None.
Proof. intros Hn. apply eq_None_not_Some. by rewrite column_at_elem. Qed.

(** The two loops of [buildColMap]. *)
Lemma full_names schema n m k : NoDup (ToLower <$> schema) →
  foldl (λ (m : gmap string nat) si, <[ToLower si.1 := si.2]> m) m (zip schema (seq n (length schema))) !! k =
  match find_index (λ s, bool_decide (ToLower s = k)) schema with Some i => Some (n + i)%nat | None => m !! k end.
Proof.
  revert n m. induction schema as [|s schema IH]; intros n m Hnd; [done|]. rewrite fmap_cons in Hnd. apply NoDup_cons in Hnd as [Hs Hnd].
  cbn [length seq zip zip_with foldl fst snd find_index]. rewrite IH by done. case_bool_decide as E.
  - subst k. assert (find_index (λ s0, bool_decide (ToLower s0 = ToLower s)) schema = None) as -> by by apply column_at_not.
    by rewrite lookup_insert_eq, Nat.add_0_r.
  - destruct (find_index _ schema); cbn [fmap option_fmap option_map]; [f_equal; lia|]. by rewrite lookup_insert_ne.
Qed.

Lemma bare_names schema n m k : Forall dotted schema →
  foldl (λ (m : gmap string nat) si, match LastIndexByte "."%char si.1 with
    | Some dot => let b := ToLower (str_drop (dot + 1) si.1) in match m !! b with Some _ => m | None => <[b := si.2]> m end
    | None => m
    end) m (zip schema (seq n (length schema))) !! k =
  match m !! k with Some i => Some i | None => (λ i, n + i)%nat <$> find_index (λ s, bool_decide (ToLower (bare s) = k)) schema end.
Proof.
  intros Hd. revert n m. induction Hd as [|s schema (q & c & -> & Hq & Hc) _ IH]; intros n m; [cbn; by destruct (m !! k)|].
  cbn [length seq zip zip_with foldl fst snd find_index]. rewrite IH, (qualified_last q c Hc), bare_qualified by done. cbv zeta.
  rewrite (proj1 (qualified_drop q c)). case_bool_decide as E.
  - subst k. destruct (m !! ToLower c) as [j|] eqn:Ej; [by rewrite Ej|]. rewrite lookup_insert_eq. cbn. by rewrite Nat.add_0_r.
  - assert (match m !! ToLower c with Some _ => m | None => <[ToLower c := n]> m end !! k = m !! k) as ->.
    { destruct (m !! ToLower c); [done|]. by rewrite lookup_insert_ne. }
    destruct (m !! k); [done|]. destruct (find_index _ schema); [|done]. cbn. f_equal. lia.
Qed.

(** What a qualified name is looked up to: the column of that name, or else the
    first one with the same part after the dot. *)
Lemma resolve_dotted schema name : Forall dotted schema → NoDup (ToLower <$> schema) → dotted name →
  resolveInMap name (buildColMap schema) = match column_at schema name with Some i => Some i | None => bare_at schema name end.
Proof.
  intros Hs Hnd Hn. unfold resolveInMap, buildColMap. rewrite !full_names by done. fold (column_at schema name).
  destruct (column_at schema name) as [i|] eqn:E; [done|]. rewrite !bare_names, lookup_empty by done. cbn [Nat.add].
  pose proof Hn as (q & c & En & Hq & Hc).
  assert (find_index (λ s, bool_decide (ToLower (bare s) = ToLower name)) schema = None) as ->.
  { apply find_index_None. intros s Hin. rewrite bool_decide_eq_false. rewrite Forall_forall in Hs. intros E'.
    by eapply ToLower_dotted; [exact Hn|apply bare_ident, Hs, Hin|]. }
  cbn [fmap option_fmap option_map]. rewrite En, (qualified_last q c Hc). rewrite (proj1 (qualified_drop q c)), full_names by done.
  assert (find_index (λ s, bool_decide (ToLower s = ToLower c)) schema = None) as ->.
  { apply find_index_None. intros s Hin. rewrite bool_decide_eq_false. rewrite Forall_forall in Hs. by apply ToLower_dotted, Hc; apply Hs. }
  rewrite bare_names, lookup_empty by done. unfold bare_at. rewrite bare_qualified by done. by destruct (find_index _ schema).
Qed.
End schema.

(** ** What a condition says of a row of the cross product *)

Section conditions.
Context `{Unicode}.

(** The column that a name means: the one with that qualified name, or else the
    one with that bare name. *)
Definition column_pos (schema : list string) (name : string) : option nat :=
  match column_at schema name with Some i => Some i | None => bare_at schema name end.

Definition value_holds (v : Value) (c : Condition) : bool :=
  match InList c with
  | Some l => negb (Bool.eqb (Negated c) (inListContains v l))
  | None => evalCond v c
  end.

(** The columns of row [r] have the names [schema]. *)
Definition holds (schema : list string) (r : row) (c : Condition) : bool :=
  if IsJoinCond c then
    match column_at schema (Column c) ≫= (r !!.), column_at schema (RHSCol c) ≫= (r !!.) with
    | Some a, Some b => compareVals a b (Op c)
    | _, _ => false
    end
  else negb (AlwaysFalse c) && match column_pos schema (Column c) ≫= (r !!.) with Some v => value_holds v c | None => false end.

(** *** Join conditions *)

(** The condition relates a column of [L] to one of [R], and the code reads it so:
    it names the column of [L] first, or one of the names does not occur on the
    other side even without its qualifier. *)
Definition reads (L R : list string) (c : Condition) : Prop :=
  (is_Some (column_at L (Column c)) ∧ is_Some (column_at R (RHSCol c))) ∨
  (is_Some (column_at R (Column c)) ∧ is_Some (column_at L (RHSCol c)) ∧ (bare_at L (Column c) = None ∨ bare_at R (RHSCol c) = None)).

Definition join_cond (c : Condition) : Prop := IsJoinCond c = true ∧ dotted (Column c) ∧ dotted (RHSCol c).

(** It does so when one of the tables [Rs] is joined to those before it. *)
Fixpoint joined_at (L : list string) (Rs : list (list string)) (c : Condition) : Prop :=
  match Rs with
  | [] => False
  | R :: Rs => reads L R c ∨ joined_at (L ++ R) Rs c
  end.

Definition schema_ok (schema : list string) : Prop := Forall dotted schema ∧ NoDup (ToLower <$> schema).

Lemma schema_ok_app L R : schema_ok (L ++ R) → schema_ok L ∧ schema_ok R ∧ ∀ name, is_Some (column_at L name) → column_at R name = None.
Proof.
  intros [Hd Hn]. apply Forall_app in Hd as [HL HR]. rewrite fmap_app in Hn. apply NoDup_app in Hn as (NL & Hx & NR).
  split; [done|]. split; [done|]. intros name Hs%column_at_elem. by apply column_at_not, Hx.
Qed.

Lemma colInSchema_dotted schema name : Forall dotted schema → dotted name → colInSchema name schema = true ↔ is_Some (column_at schema name).
Proof.
  intros Hs Hn. rewrite column_at_elem. unfold colInSchema. rewrite existsb_exists, Forall_forall in *.
  assert (∀ s, s ∈ schema → EqualFold s name || bare_is name s = bool_decide (ToLower s = ToLower name)) as E.
  { intros s Hin. pose proof (Hs s Hin) as Hds. rewrite EqualFold_ascii by by apply dotted_ascii.
    assert (bare_is name s = false) as ->; [|apply orb_false_r]. destruct Hds as (q & c & -> & Hq & Hc).
    unfold bare_is. rewrite (qualified_last q c Hc), (proj1 (qualified_drop q c)), EqualFold_ascii by (done || (by apply ident_ascii) || (by apply dotted_ascii)).
    rewrite bool_decide_eq_false. intros E'. by apply (ToLower_dotted name c). }
  split.
  - intros (s & Hin & Et). rewrite <-list_elem_of_In in Hin. rewrite E, bool_decide_eq_true in Et by done. apply list_elem_of_fmap. eauto.
  - intros (s & Et & Hin)%list_elem_of_fmap. exists s. rewrite <-list_elem_of_In. split; [done|]. by rewrite E, bool_decide_eq_true.
Qed.

Lemma condConnects_dotted L R c : schema_ok (L ++ R) → join_cond c →
  condConnects c L R = true ↔
    (is_Some (column_at L (Column c)) ∧ is_Some (column_at R (RHSCol c))) ∨ (is_Some (column_at R (Column c)) ∧ is_Some (column_at L (RHSCol c))).
Proof.
  intros Hok (_ & H1 & H2). destruct (schema_ok_app L R Hok) as ([HL _] & [HR _] & _).
  unfold condConnects. by rewrite orb_true_iff, !andb_true_iff, !colInSchema_dotted.
Qed.

Lemma reads_connects L R c : schema_ok (L ++ R) → join_cond c → reads L R c → condConnects c L R = true.
Proof. intros Hok Hc. rewrite condConnects_dotted by done. unfold reads. tauto. Qed.

(** A condition that a later table is joined with has a column that is not there yet. *)
Lemma joined_later L Rs c : schema_ok (L ++ concat Rs) → joined_at L Rs c → column_at L (Column c) = None ∨ column_at L (RHSCol c) = None.
Proof.
  revert L. induction Rs as [|R Rs IH]; intros L Hok; cbn [joined_at concat] in *; [done|]. rewrite (assoc_L (++)) in Hok.
  destruct (schema_ok_app _ _ (proj1 (schema_ok_app _ _ Hok))) as (_ & _ & Hx).
  assert (∀ n, is_Some (column_at R n) → column_at L n = None) as Hx'.
  { intros n Hn. apply eq_None_not_Some. intros Hs. destruct Hn as [? Hn]. rewrite Hx in Hn; [discriminate|done]. }
  intros [[[_ Hr]|(Hr & _)]|Hj]; [right; auto|left; auto|].
  assert (∀ n, column_at (L ++ R) n = None → column_at L n = None) as Ha.
  { intros n. unfold column_at. rewrite find_index_app. by destruct (find_index _ L). }
  destruct (IH (L ++ R) Hok Hj); auto.
Qed.

Lemma joined_not_connects L R Rs c : schema_ok (L ++ R ++ concat Rs) → join_cond c → joined_at (L ++ R) Rs c → condConnects c L R = false.
Proof.
  intros Hok Hc Hj. rewrite (assoc_L (++)) in Hok. pose proof (joined_later _ _ _ Hok Hj) as Hn. apply not_true_iff_false.
  rewrite condConnects_dotted by (done || apply (schema_ok_app _ _ Hok)).
  assert (∀ n, column_at (L ++ R) n = None → column_at L n = None ∧ column_at R n = None) as Ha.
  { intros n. unfold column_at. rewrite find_index_app. destruct (find_index _ L); [done|]. by destruct (find_index _ R). }
  intros Hx. destruct Hn as [[E1 E2]%Ha|[E1 E2]%Ha]; rewrite E1, E2 in Hx; destruct Hx as [[[? ?] [? ?]]|[[? ?] [? ?]]]; discriminate.
Qed.
End conditions.

(** ** Joins *)

Section rows.
Context `{Unicode}.

Lemma column_left L R n (l x : row) : length l = length L → is_Some (column_at L n) →
  ∃ i a, column_at L n = Some i ∧ l !! i = Some a ∧ column_at (L ++ R) n ≫= ((l ++ x) !!.) = Some a.
Proof.
  intros Hl [i Hi]. pose proof (find_index_range _ _ _ Hi) as Hr. rewrite <-Hl in Hr. destruct (lookup_lt_is_Some_2 l i Hr) as [a Ha].
  exists i, a. split; [done|]. split; [done|]. unfold column_at in *. rewrite find_index_app, Hi. cbn [mbind option_bind].
  by apply lookup_app_l_Some.
Qed.

Lemma column_right L R T n (l r t : row) : length l = length L → length r = length R → column_at L n = None → is_Some (column_at R n) →
  ∃ j b, column_at R n = Some j ∧ r !! j = Some b ∧ column_at (L ++ R ++ T) n ≫= ((l ++ r ++ t) !!.) = Some b.
Proof.
  intros Hl Hr HL HR. destruct (column_left R T n r t Hr HR) as (j & b & Hj & Hb & E). exists j, b. split; [done|]. split; [done|].
  unfold column_at in *. rewrite find_index_app, HL. destruct (find_index _ (R ++ T)) as [k|]; [|done]. cbn [fmap option_fmap option_map mbind option_bind] in *.
  rewrite <-Hl, lookup_app_r by lia. by replace (length l + k - length l)%nat with k by lia.
Qed.

(** The operator's verdict is the meaning of the conditions. *)
Lemma evalOn_holds L R T on (l r t : row) : schema_ok (L ++ R ++ T) → length l = length L → length r = length R →
  Forall (λ c, join_cond c ∧ reads L R c) on →
  evalOn on (buildColMap L) (buildColMap R) l r = Ok (forallb (holds (L ++ R ++ T) (l ++ r ++ t)) on).
Proof.
  intros Hok Hl Hr Hon. pose proof Hok as Hok'. rewrite (assoc_L (++)) in Hok'. destruct (schema_ok_app _ _ Hok') as (Hok2 & _ & _).
  destruct (schema_ok_app _ _ Hok2) as ([HL NL] & [HR NR] & Hx).
  assert (∀ n, is_Some (column_at R n) → column_at L n = None) as Hx'.
  { intros n Hn. apply eq_None_not_Some. intros Hs. destruct Hn as [? Hn]. rewrite Hx in Hn; [discriminate|done]. }
  induction Hon as [|c on [(Hj & H1 & H2) Hreads] _ IH]; [done|]. cbn [evalOn forallb]. rewrite !resolve_dotted by done. unfold holds at 1. rewrite Hj.
  destruct Hreads as [[Hc1 Hc2]|(Hc1 & Hc2 & Hb)].
  - destruct (column_left L (R ++ T) _ l (r ++ t) Hl Hc1) as (i & a & Ei & Ha & ->).
    destruct (column_right L R T _ l r t Hl Hr (Hx' _ Hc2) Hc2) as (j & b & Ej & Hb & ->). rewrite Ei, Ej. unfold BTree.go_index. rewrite Ha, Hb.
    cbn [mbind res_bind]. destruct (compareVals a b (Op c)); [exact IH|done].
  - destruct (column_right L R T _ l r t Hl Hr (Hx' _ Hc1) Hc1) as (i & a & Ei & Ha & ->).
    destruct (column_left L (R ++ T) _ l (r ++ t) Hl Hc2) as (j & b & Ej & Hb' & ->). rewrite Ei, Ej, (Hx' _ Hc1), (Hx _ Hc2).
    assert (match bare_at L (Column c), bare_at R (RHSCol c) with Some _, Some _ => False | _, _ => True end) as Hn
      by (destruct Hb as [-> | ->]; [done|by destruct (bare_at L _)]).
    destruct (bare_at L (Column c)), (bare_at R (RHSCol c)); try done; unfold BTree.go_index; rewrite Ha, Hb';
      cbn [mbind res_bind]; (destruct (compareVals a b (Op c)); [exact IH|done]).
Qed.

(** *** The cross product *)

Fixpoint product (ls : list (list row)) : list row :=
  match ls with
  | [] => [[]]
  | l :: ls => l ≫= λ r, (λ x, r ++ x) <$> product ls
  end.

Lemma filter_bind {A B} (p : B → bool) (f : A → list B) l : List.filter p (l ≫= f) = l ≫= λ x, List.filter p (f x).
Proof. induction l as [|x l IH]; [done|]. cbn [mbind list_bind]. by rewrite List.filter_app, IH. Qed.

Lemma bind_filter {A B} (p : A → bool) (f : A → list B) l : List.filter p l ≫= f = l ≫= λ x, if p x then f x else [].
Proof. induction l as [|x l IH]; [done|]. cbn [List.filter mbind list_bind]. destruct (p x); cbn [mbind list_bind app]; by rewrite IH. Qed.

Lemma bind_assoc {A B C} (f : A → list B) (g : B → list C) l : (l ≫= f) ≫= g = l ≫= λ x, f x ≫= g.
Proof. induction l as [|x l IH]; [done|]. cbn [mbind list_bind]. by rewrite bind_app, IH. Qed.

Lemma bind_fmap {A B C} (f : A → B) (g : B → list C) l : (f <$> l) ≫= g = l ≫= λ x, g (f x).
Proof. induction l as [|x l IH]; [done|]. cbn [fmap list_fmap mbind list_bind]. by rewrite IH. Qed.

Lemma bind_ext_in {A B} (f g : A → list B) l : (∀ x, x ∈ l → f x = g x) → l ≫= f = l ≫= g.
Proof. induction l as [|x l IH]; intros E; [done|]. cbn [mbind list_bind]. rewrite (E x ltac:(by left)), IH; [done|]. intros y Hy. apply E. by right. Qed.

Lemma filter_all_false {A} (p : A → bool) l : (∀ x, x ∈ l → p x = false) → List.filter p l = [].
Proof. induction l as [|x l IH]; intros E; [done|]. cbn [List.filter]. rewrite (E x ltac:(by left)). apply IH. intros y Hy. apply E. by right. Qed.

Lemma filter_ext_elem {A} (p q : A → bool) l : (∀ x, x ∈ l → p x = q x) → List.filter p l = List.filter q l.
Proof. induction l as [|x l IH]; intros E; [done|]. cbn [List.filter]. rewrite (E x ltac:(by left)), IH; [done|]. intros y Hy. apply E. by right. Qed.

#[export] Instance list_filter_proper {A} (p : A → bool) : Proper ((≡ₚ) ==> (≡ₚ)) (List.filter p).
Proof.
  intros l l'. induction 1 as [|x l l' _ IH|x y l|l1 l2 l3 _ IH1 _ IH2]; cbn [List.filter]; [done| | |by etrans].
  - destruct (p x); by rewrite IH.
  - destruct (p x), (p y); try done. apply Permutation_swap.
Qed.

Lemma forallb_partition {A} (p q : A → bool) l :
  forallb p l = forallb p (List.filter q l) && forallb p (List.filter (λ x, negb (q x)) l).
Proof.
  induction l as [|x l IH]; [done|]. cbn [forallb List.filter]. rewrite IH. destruct (q x); cbn [negb forallb]; [by rewrite andb_assoc|].
  destruct (p x); [done|]. by rewrite andb_false_r.
Qed.
End rows.

(** *** The left-deep tree *)

Section tree.
Context `{Unicode} (gid : Z) (db : DB) (snap : Snapshot) (ct : Contents).
Notation rows := (plan_rows snap ct).
Notation ready := (plan_ready gid snap ct db).
Abbreviation fits schema := (Forall (λ r : row, length r = length schema)).

Lemma fmap_bind_rows (f : row → row) (g : row → list row) l : f <$> (l ≫= g) = l ≫= λ x, f <$> g x.
Proof using Type. induction l as [|x l IH]; [done|]. cbn [mbind list_bind]. by rewrite fmap_app, IH. Qed.

(** Which conditions go to the join with [R]. *)
Lemma split_conds L R Rs conds : schema_ok (L ++ R ++ concat Rs) → Forall (λ c, join_cond c ∧ joined_at L (R :: Rs) c) conds →
  Forall (λ c, join_cond c ∧ reads L R c) (List.filter (λ c, condConnects c L R) conds) ∧
  Forall (λ c, join_cond c ∧ joined_at (L ++ R) Rs c) (List.filter (λ c, negb (condConnects c L R)) conds).
Proof using Type.
  intros Hok Hc. pose proof Hok as Hok'. rewrite (assoc_L (++)) in Hok'. pose proof (proj1 (schema_ok_app _ _ Hok')) as Hok2.
  rewrite !Forall_forall in *. split; intros c Hin; rewrite list_elem_of_In, filter_In, <-list_elem_of_In in Hin; destruct Hin as [Hin Hcon];
    destruct (Hc c Hin) as [Hj [Hr|Hl]]; (split; [done|]); try done; exfalso.
  - by rewrite (joined_not_connects L R Rs c Hok Hj Hl) in Hcon.
  - by rewrite (reads_connects L R c Hok2 Hj Hr) in Hcon.
Qed.

Lemma join_tree_rows leaves : ∀ root L conds, let S := L ++ concat leaves.*2 in
  schema_ok S → fits L (rows root) → Forall (λ ls, fits ls.2 (rows ls.1)) leaves →
  Forall (λ c, join_cond c ∧ joined_at L leaves.*2 c) conds →
  let t := join_tree leaves root L conds in
  rows t.1 = List.filter (λ x, forallb (holds S x) conds) (rows root ≫= λ l, (l ++.) <$> product ((λ ls, rows ls.1) <$> leaves)) ∧ t.2 = S ∧
  (ready root → Forall (λ ls, ready ls.1) leaves → ready t.1).
Proof.
  induction leaves as [|[leaf R] leaves IH]; intros root L conds S Hok HL Hleaves Hconds; cbn [join_tree].
  { split; [|split; [unfold S; by rewrite app_nil_r|done]]. destruct conds as [|c conds]; [|by apply Forall_cons in Hconds as [[_ []] _]].
    cbn [fmap list_fmap product forallb fst]. clear. induction (rows root) as [|l rs IH]; [done|].
    cbn [mbind list_bind fmap list_fmap app List.filter]. by rewrite <-IH, app_nil_r. }
  apply Forall_cons in Hleaves as [HR Hleaves]. cbn [fst snd] in HR. rewrite !fmap_cons in Hconds. cbn [snd] in Hconds.
  assert (S = (L ++ R) ++ concat leaves.*2) as ES by (unfold S; rewrite fmap_cons; cbn [concat snd]; by rewrite (assoc_L (++))).
  destruct (split_conds L R leaves.*2 conds) as [Hon Hrest]; [by rewrite (assoc_L (++)), <-ES|done|].
  set (on := List.filter (λ c, condConnects c L R) conds) in *. set (rest := List.filter (λ c, negb (condConnects c L R)) conds) in *.
  assert (∀ l r t, l ∈ rows root → r ∈ rows leaf →
    evalOn on (buildColMap L) (buildColMap R) l r = Ok (forallb (holds S (l ++ r ++ t)) on)) as Hev.
  { intros l r t Hl Hr. rewrite Forall_forall in HL, HR. rewrite ES, <-(assoc_L (++)). apply evalOn_holds; [|auto..].
    by rewrite (assoc_L (++)), <-ES. }
  destruct (IH (NestedLoopJoin root leaf on L R) (L ++ R) rest) as (Erows & Eschema & Hready); rewrite <-?ES; try done.
  { cbn [plan_rows]. unfold join_rows. apply Forall_forall. rewrite Forall_forall in HL, HR.
    intros x (l & (r & -> & Hr)%list_elem_of_fmap & Hl)%list_elem_of_bind. rewrite list_elem_of_In, filter_In, <-list_elem_of_In in Hr.
    rewrite !length_app. f_equal; [by apply HL|by apply HR, Hr]. }
  cbv zeta in Erows, Eschema, Hready. split; [|split; [by rewrite Eschema, ES|]].
  2: { intros Hr [Hr1 Hr2]%Forall_cons. apply Hready; [|done]. cbn [plan_ready]. split; [done|]. split; [done|].
       apply Forall_forall. intros l Hl. apply Forall_forall. intros r Hlr. unfold on_ok. by rewrite (Hev l r [] Hl Hlr). }
  rewrite Erows, <-ES. cbn [plan_rows fmap list_fmap product fst]. unfold join_rows.
  rewrite bind_assoc, !filter_bind. apply bind_ext_in. intros l Hl. rewrite bind_fmap, bind_filter, fmap_bind_rows, !filter_bind.
  apply bind_ext_in. intros r Hr. rewrite <-list_fmap_compose. set (P := product _).
  assert ((app l ∘ λ x : row, r ++ x) <$> P = app (l ++ r) <$> P) as -> by (apply list_fmap_ext; intros i x _; cbn; by rewrite (assoc_L (++))).
  rewrite (Hev l r [] Hl Hr). destruct (forallb _ on) eqn:Eb.
  - apply filter_ext_elem. intros x (t & -> & _)%list_elem_of_fmap. rewrite (forallb_partition _ (λ c, condConnects c L R) conds). fold on rest.
    pose proof (Hev l r t Hl Hr) as Et. rewrite (Hev l r [] Hl Hr), Eb in Et. injection Et as Et. by rewrite <-(assoc_L (++)), <-Et.
  - cbn [List.filter]. symmetry. apply filter_all_false. intros x (t & -> & _)%list_elem_of_fmap.
    rewrite (forallb_partition _ (λ c, condConnects c L R) conds). fold on rest.
    pose proof (Hev l r t Hl Hr) as Et. rewrite (Hev l r [] Hl Hr), Eb in Et. injection Et as Et. by rewrite <-(assoc_L (++)), <-Et.
Qed.
End tree.

(** ** The conditions of single tables *)

Section positions.
Context {A B : Type}.

(** Where the lists of a list of lists begin in their concatenation. *)
Definition offset (ls : list (list A)) (k : nat) : nat := length (concat (take k ls)).

Lemma concat_lookup (ls : list (list A)) p s : concat ls !! p = Some s → ∃ k j l, ls !! k = Some l ∧ l !! j = Some s ∧ p = (offset ls k + j)%nat.
Proof.
  unfold offset. revert p. induction ls as [|l ls IH]; intros p; cbn [concat]; [done|]. intros [Hl|[Hp Hl]]%lookup_app_Some.
  - by exists 0%nat, p, l.
  - destruct (IH _ Hl) as (k & j & l' & H1 & H2 & H3). exists (S k), j, l'. split_and!; [done|done|]. cbn [take concat]. rewrite length_app. lia.
Qed.

Lemma lookup_concat (ls : list (list A)) k j l s : ls !! k = Some l → l !! j = Some s → concat ls !! (offset ls k + j)%nat = Some s.
Proof.
  unfold offset. revert k. induction ls as [|l' ls IH]; intros [|k] Hk Hj; try done; cbn [concat take length] in *.
  - injection Hk as ->. by apply lookup_app_l_Some.
  - rewrite length_app, lookup_app_r by lia. rewrite <-(IH k Hk Hj). f_equal. lia.
Qed.

Lemma offset_inj (ls : list (list A)) k j l s k' j' l' s' : ls !! k = Some l → l !! j = Some s → ls !! k' = Some l' → l' !! j' = Some s' →
  (offset ls k + j = offset ls k' + j')%nat → k = k' ∧ j = j'.
Proof.
  intros H1 H2 H3 H4. apply lookup_lt_Some in H2, H4. unfold offset. revert k k' H1 H3.
  induction ls as [|l0 ls IH]; intros [|k] [|k'] H1 H3 E; cbn in H1, H3, E; rewrite ?length_app in E; simplify_eq; [lia..|].
  destruct (IH k k' H1 H3); lia.
Qed.

Lemma offset_same (ls : list (list A)) (xs : list (list B)) k : Forall2 (λ l x, length x = length l) ls xs → offset ls k = length (concat (take k xs)).
Proof.
  unfold offset. intros Hf. revert k. induction Hf as [|l x ls xs E _ IH]; intros [|k]; try done. cbn [take concat]. by rewrite !length_app, IH, E.
Qed.
End positions.

Section combos.

(** The rows of the cross product, one row for each table. *)
Fixpoint combos (ls : list (list row)) : list (list row) :=
  match ls with
  | [] => [[]]
  | l :: ls => l ≫= λ r, (λ x, r :: x) <$> combos ls
  end.

Lemma product_combos ls : product ls = (λ x, concat x) <$> combos ls.
Proof.
  induction ls as [|l ls IH]; [done|]. cbn [product combos]. rewrite IH. induction l as [|r l IHl]; [done|]. cbn [mbind list_bind].
  rewrite fmap_app, IHl, <-!list_fmap_compose. done.
Qed.

Lemma elem_of_combos ls x : x ∈ combos ls → Forall2 (λ l r, r ∈ l) ls x.
Proof.
  revert x. induction ls as [|l ls IH]; intros x; cbn [combos]; [by intros ->%list_elem_of_singleton|].
  intros (r & (y & -> & Hy)%list_elem_of_fmap & Hr)%list_elem_of_bind. constructor; [done|by apply IH].
Qed.

Lemma product_perm ls ls' : Forall2 (≡ₚ) ls ls' → product ls ≡ₚ product ls'.
Proof.
  induction 1 as [|l l' ls ls' Hl _ IH]; [done|]. cbn [product]. rewrite Hl. clear Hl. induction l' as [|r l' IHl]; [done|].
  cbn [mbind list_bind]. apply Permutation_app; [by rewrite IH|exact IHl].
Qed.
End combos.

Section filters.
Context `{Unicode}.

(** The rows pass the conditions that each table has been given. *)
Fixpoint rows_pass (tables : list Table) (fs : list (list Condition)) (x : list row) : bool :=
  match tables, fs, x with
  | t :: tables, f :: fs, r :: x => forallb (cond_holds r (Some t)) f && rows_pass tables fs x
  | _, _, _ => true
  end.

Fixpoint filtered (tables : list Table) (fs : list (list Condition)) (ls : list (list row)) : list (list row) :=
  match tables, fs, ls with
  | t :: tables, f :: fs, l :: ls => List.filter (λ r, forallb (cond_holds r (Some t)) f) l :: filtered tables fs ls
  | _, _, _ => []
  end.

Lemma combos_filtered tables fs ls : length fs = length tables → length ls = length tables →
  combos (filtered tables fs ls) = List.filter (rows_pass tables fs) (combos ls).
Proof.
  revert fs ls. induction tables as [|t tables IH]; intros [|f fs] [|l ls] Hf Hl; try done. cbn [filtered combos rows_pass length] in *.
  rewrite IH by lia. rewrite bind_filter, filter_bind. apply bind_ext_in. intros r _. clear IH Hf Hl. induction (combos ls) as [|x xs IH].
  - by destruct (forallb _ f).
  - cbn [fmap list_fmap List.filter rows_pass]. destruct (forallb (cond_holds r (Some t)) f); cbn [andb].
    + rewrite <-IH. by destruct (rows_pass tables fs x).
    + exact IH.
Qed.

Lemma rows_pass_alter tables fs x k t f r c : tables !! k = Some t → fs !! k = Some f → x !! k = Some r →
  rows_pass tables (alter (λ l, l ++ [c]) k fs) x = rows_pass tables fs x && cond_holds r (Some t) c.
Proof.
  revert fs x k. induction tables as [|t' tables IH]; intros [|f' fs] [|r' x] [|k] Ht Hf Hr; try done; cbn in Ht, Hf, Hr; simplify_eq.
  - cbn [alter list_alter rows_pass]. rewrite forallb_app. cbn [forallb]. rewrite andb_true_r, <-!andb_assoc. f_equal. apply andb_comm.
  - cbn [alter list_alter rows_pass]. change (list_alter ?g k fs) with (alter g k fs). rewrite IH by done. by rewrite andb_assoc.
Qed.
End filters.

(** ** The tables of a query *)

Section sources.
Context `{Unicode} (tables : list Table) (refs : list TableRef).

(** The names are ASCII, each table has another qualifier, and no two columns of
    a table have the same name. *)
Record sources_ok : Prop := {
  so_length : length refs = length tables;
  so_refs : Forall (λ ref, ident (Qualifier ref)) refs;
  so_columns : Forall (λ t, Forall (λ c, ident (CName c)) (Columns t)) tables;
  so_qualifiers : NoDup ((λ ref, ToLower (Qualifier ref)) <$> refs);
  so_names : Forall (λ t, NoDup ((λ c, ToLower (CName c)) <$> Columns t)) tables
}.

Definition schemas : list (list string) := zip_with (λ tbl ref, qualifySchema tbl (Qualifier ref)) tables refs.
Definition schema : list string := concat schemas.

Context (Hso : sources_ok).

Lemma schemas_lookup k l : schemas !! k = Some l ↔ ∃ tbl ref, tables !! k = Some tbl ∧ refs !! k = Some ref ∧ l = qualifySchema tbl (Qualifier ref).
Proof using Type. unfold schemas. rewrite lookup_zip_with_Some. naive_solver. Qed.

Lemma qualify_lookup tbl q j s : qualifySchema tbl q !! j = Some s ↔ ∃ c, Columns tbl !! j = Some c ∧ s = qualified q (CName c).
Proof using Type. unfold qualifySchema. rewrite list_lookup_fmap, fmap_Some. done. Qed.

(** A column of the schema. *)
Lemma schema_lookup p s : schema !! p = Some s ↔ ∃ k j tbl ref c, tables !! k = Some tbl ∧ refs !! k = Some ref ∧
  Columns tbl !! j = Some c ∧ s = qualified (Qualifier ref) (CName c) ∧ p = (offset schemas k + j)%nat.
Proof using Type.
  split.
  - intros (k & j & l & (tbl & ref & Ht & Hr & ->)%schemas_lookup & (c & Hc & ->)%qualify_lookup & ->)%concat_lookup. by exists k, j, tbl, ref, c.
  - intros (k & j & tbl & ref & c & Ht & Hr & Hc & -> & ->). eapply lookup_concat; [by apply schemas_lookup; eauto|]. apply qualify_lookup. eauto.
Qed.

Lemma column_ident k tbl j c : tables !! k = Some tbl → Columns tbl !! j = Some c → ident (CName c).
Proof using Hso.
  intros Ht Hc. pose proof (so_columns Hso) as HF. eapply Forall_lookup_1 in HF; [|exact Ht]. by eapply Forall_lookup_1 in HF; [|exact Hc].
Qed.

Lemma ref_ident k ref : refs !! k = Some ref → ident (Qualifier ref).
Proof using Hso. intros Hr. pose proof (so_refs Hso) as HF. by eapply Forall_lookup_1 in HF; [|exact Hr]. Qed.

Lemma qualifier_inj k ref k' ref' : refs !! k = Some ref → refs !! k' = Some ref' → ToLower (Qualifier ref) = ToLower (Qualifier ref') → k = k'.
Proof using Hso.
  intros Hr Hr' E. eapply (NoDup_lookup _ k k' (ToLower (Qualifier ref)) (so_qualifiers Hso)); rewrite list_lookup_fmap; [by rewrite Hr|rewrite Hr'; cbn; congruence].
Qed.

Lemma column_inj k tbl j c j' c' : tables !! k = Some tbl → Columns tbl !! j = Some c → Columns tbl !! j' = Some c' →
  ToLower (CName c) = ToLower (CName c') → j = j'.
Proof using Hso.
  intros Ht Hj Hj' E. pose proof (so_names Hso) as HF. eapply Forall_lookup_1 in HF; [|exact Ht].
  eapply (NoDup_lookup _ j j' (ToLower (CName c)) HF); rewrite list_lookup_fmap; [by rewrite Hj|rewrite Hj'; cbn; congruence].
Qed.

Lemma sources_schema : schema_ok schema.
Proof using Hso.
  assert (Forall dotted schema) as Hd.
  { apply Forall_lookup_2. intros p s (k & j & tbl & ref & c & Ht & Hr & Hc & -> & _)%schema_lookup. exists (Qualifier ref), (CName c).
    split; [done|]. split; [by eapply ref_ident|by eapply column_ident]. }
  split; [done|]. apply NoDup_alt. intros p p' n H1 H2. rewrite list_lookup_fmap, fmap_Some in H1, H2.
  destruct H1 as (s & (k & j & tbl & ref & c & Ht & Hr & Hc & -> & ->)%schema_lookup & E1),
    H2 as (s' & (k' & j' & tbl' & ref' & c' & Ht' & Hr' & Hc' & -> & ->)%schema_lookup & E2).
  pose proof (column_ident k tbl j c Ht Hc) as I1. pose proof (column_ident k' tbl' j' c' Ht' Hc') as I1'.
  rewrite ToLower_qualified in E1 by (done || by eapply ref_ident). rewrite ToLower_qualified in E2 by (done || by eapply ref_ident).
  rewrite E1 in E2. apply qualified_inj in E2 as [Eq Ec]; [|by apply ident_ToLower..].
  pose proof (qualifier_inj k ref k' ref' Hr Hr' Eq) as <-. rewrite Ht in Ht'. injection Ht' as <-.
  by rewrite (column_inj k tbl j c j' c' Ht Hc Hc' Ec).
Qed.

Lemma ColIndex_at k tbl j c name : tables !! k = Some tbl → Columns tbl !! j = Some c → ToLower (CName c) = ToLower name → ColIndex name tbl = Some j.
Proof using Hso.
  intros Ht Hj E. unfold ColIndex. destruct (find_index_lookup (λ c, bool_decide (ToLower (CName c) = ToLower name)) (Columns tbl) c) as [i Hi].
  - by eapply list_elem_of_lookup_2.
  - by rewrite bool_decide_eq_true.
  - rewrite Hi. apply find_index_Some in Hi as (c' & Hc' & Hp & _). rewrite bool_decide_eq_true in Hp. f_equal.
    eapply (column_inj k tbl i c' j c); [done..|congruence].
Qed.

(** *** The table a name is about *)

(** A column of the schema, by its qualified name or by a bare name that only one
    column has. *)
Definition names_column (name : string) : Prop :=
  (dotted name ∧ is_Some (column_at schema name)) ∨
  (ident name ∧ is_Some (bare_at schema name) ∧
   ∀ p p' s s', schema !! p = Some s → schema !! p' = Some s' → ToLower (bare s) = ToLower name → ToLower (bare s') = ToLower name → p = p').

Lemma find_bare_unique name ts k tbl i : ts !! k = Some tbl → is_Some (ColIndex name tbl) →
  (∀ k' tbl', ts !! k' = Some tbl' → is_Some (ColIndex name tbl') → k' = k) → find_bare name ts i (-1) = i + Z.of_nat k.
Proof using Type.
  assert (∀ ts i found, (∀ k' tbl', ts !! k' = Some tbl' → ColIndex name tbl' = None) → find_bare name ts i found = found) as Hnone.
  { clear. intros ts. induction ts as [|t ts IH]; intros i found Hn; [done|]. cbn [find_bare]. rewrite (Hn 0%nat t eq_refl). apply IH.
    intros k' tbl' Hk. exact (Hn (S k') tbl' Hk). }
  revert k i. induction ts as [|t ts IH]; intros k i Hk Hs Hu; [done|]. cbn [find_bare]. destruct k as [|k].
  - injection Hk as ->. destruct Hs as [j Hj]. rewrite Hj, decide_False by lia. rewrite Hnone; [lia|]. intros k' tbl' Hk'.
    apply eq_None_not_Some. intros Hs'. by pose proof (Hu (S k') tbl' Hk' Hs').
  - destruct (ColIndex name t) as [j|] eqn:Ej; [by pose proof (Hu 0%nat t eq_refl ltac:(eauto))|].
    rewrite (IH k (i + 1)); [lia|done|done|]. intros k' tbl' Hk' Hs'. by injection (Hu (S k') tbl' Hk' Hs').
Qed.

Lemma names_column_at name : names_column name →
  ∃ k j tbl, tables !! k = Some tbl ∧ (j < length (Columns tbl))%nat ∧ findTableForCond name refs tables = Z.of_nat k ∧
    ColIndex (bareCol name) tbl = Some j ∧ column_pos schema name = Some (offset schemas k + j)%nat.
Proof using Hso.
  intros [[Hd [p Hp]]|(Hi & [p Hp] & Hu)].
  - unfold column_pos. rewrite Hp. apply find_index_Some in Hp as (s & Hs & E & _). rewrite bool_decide_eq_true in E.
    apply schema_lookup in Hs as (k & j & tbl & ref & c & Ht & Hr & Hc & -> & ->). destruct Hd as (q & c' & -> & Hq & Hc').
    pose proof (column_ident k tbl j c Ht Hc) as Ic. pose proof (ref_ident k ref Hr) as Ir. rewrite !ToLower_qualified in E by done.
    apply qualified_inj in E as [Eq Ec]; [|by apply ident_ToLower..]. exists k, j, tbl. split; [done|]. split; [by eapply lookup_lt_Some|].
    unfold findTableForCond, bareCol. rewrite (qualified_first q c' Hq). destruct (qualified_drop q c') as [-> ->]. split; [|split; [by eapply ColIndex_at|done]].
    destruct (find_index_lookup (λ ref, bool_decide (ToLower (Qualifier ref) = ToLower q)) refs ref) as [i Ei];
      [by eapply list_elem_of_lookup_2|by rewrite bool_decide_eq_true|]. rewrite Ei.
    apply find_index_Some in Ei as (ref' & Hr' & Hp & _). rewrite bool_decide_eq_true in Hp.
    by rewrite (qualifier_inj i ref' k ref Hr' Hr ltac:(congruence)).
  - destruct (ident_last name Hi) as [El Ef]. assert (bare name = name) as Eb by (unfold bare; by rewrite El).
    assert (column_at schema name = None) as En.
    { apply find_index_None. intros s Hs. rewrite bool_decide_eq_false. pose proof (proj1 sources_schema) as HF. rewrite Forall_forall in HF.
      by apply ToLower_dotted; [apply HF|]. }
    unfold column_pos. rewrite En, Hp. apply find_index_Some in Hp as (s & Hs & E & _). rewrite bool_decide_eq_true, Eb in E.
    pose proof Hs as Hs0. apply schema_lookup in Hs as (k & j & tbl & ref & c & Ht & Hr & Hc & -> & ->). pose proof (column_ident k tbl j c Ht Hc) as Ic.
    pose proof E as E0. rewrite bare_qualified in E by done. exists k, j, tbl. split; [done|]. split; [by eapply lookup_lt_Some|].
    unfold findTableForCond, bareCol. rewrite Ef. pose proof (ColIndex_at k tbl j c name Ht Hc E) as Ej. split; [|by split].
    rewrite (find_bare_unique name tables k tbl 0 Ht); [lia|by eexists|]. intros k' tbl' Ht' [j' Hj'].
    apply find_index_Some in Hj' as (c' & Hc' & Hp' & _). rewrite bool_decide_eq_true in Hp'.
    destruct (lookup_lt_is_Some_2 refs k') as [ref' Hr']; [rewrite (so_length Hso); by eapply lookup_lt_Some|].
    assert (schema !! (offset schemas k' + j')%nat = Some (qualified (Qualifier ref') (CName c'))) as Hs' by (apply schema_lookup; eauto 10).
    pose proof (column_ident k' tbl' j' c' Ht' Hc') as Ic'.
    pose proof (Hu _ _ _ _ Hs0 Hs' E0 ltac:(by rewrite bare_qualified)) as Ep.
    destruct (offset_inj schemas k j (qualifySchema tbl (Qualifier ref)) (qualified (Qualifier ref) (CName c))
      k' j' (qualifySchema tbl' (Qualifier ref')) (qualified (Qualifier ref') (CName c'))) as [? _]; [..|done|done];
      (apply schemas_lookup; eauto) || (apply qualify_lookup; eauto).
Qed.

(** ** WHERE *)

Definition filter_cond (c : Condition) : Prop := plain_cond c ∧ names_column (Column c).

(** A row of each table, as many values as the table has columns. *)
Definition row_of_each (x : list row) : Prop := Forall2 (λ l r, length r = length l) schemas x.

Lemma holds_filter c : filter_cond c → ∃ k tbl, tables !! k = Some tbl ∧ findTableForCond (Column c) refs tables = Z.of_nat k ∧
  ∀ x, row_of_each x → ∃ r, x !! k = Some r ∧ holds schema (concat x) c = cond_holds r (Some tbl) (set_Column (bareCol (Column c)) c).
Proof using Hso.
  intros [[Hj _] (k & j & tbl & Ht & Hlt & Ef & Ej & Ep)%names_column_at]. exists k, tbl. split; [done|]. split; [done|]. intros x Hx.
  destruct (lookup_lt_is_Some_2 refs k) as [ref Hr]; [rewrite (so_length Hso); by eapply lookup_lt_Some|].
  assert (schemas !! k = Some (qualifySchema tbl (Qualifier ref))) as Hk by (apply schemas_lookup; eauto).
  destruct (Forall2_lookup_l _ _ _ _ _ Hx Hk) as (r & Hxr & Hlen). unfold qualifySchema in Hlen. rewrite length_fmap in Hlen.
  destruct (lookup_lt_is_Some_2 r j) as [v Hv]; [lia|]. exists r. split; [done|].
  assert (concat x !! (offset schemas k + j)%nat = Some v) as Hc by (rewrite (offset_same schemas x k Hx); exact (lookup_concat x k j r v Hxr Hv)).
  unfold holds, cond_holds. change (IsJoinCond (set_Column ?n c)) with (IsJoinCond c). rewrite Hj, Ep. cbn [mbind option_bind orb set_Column Column].
  rewrite Hc. unfold cond_column. cbn [mbind option_bind]. rewrite Ej. cbn [mbind option_bind]. by rewrite Hv.
Qed.

Lemma plain_set_Column n c : plain_cond c → plain_cond (set_Column n c).
Proof using Type. done. Qed.

Lemma classify_ok g : Forall (λ c, IsJoinCond c = true ∨ filter_cond c) g → ∀ jc fs,
  length fs = length tables → Forall (Forall plain_cond) fs →
  ∃ fs', classify_where refs tables g jc fs = Ok (jc ++ List.filter IsJoinCond g, fs') ∧
    length fs' = length tables ∧ Forall (Forall plain_cond) fs' ∧
    ∀ x, row_of_each x → rows_pass tables fs' x = rows_pass tables fs x && forallb (holds schema (concat x)) (List.filter (λ c, negb (IsJoinCond c)) g).
Proof using Hso.
  induction 1 as [|c g Hc _ IH]; intros jc fs Hfs Hp; cbn [classify_where List.filter].
  { exists fs. rewrite app_nil_r. split_and!; try done. intros x _. by rewrite andb_true_r. }
  destruct (IsJoinCond c) eqn:Ej; cbn [negb].
  - destruct (IH (jc ++ [c]) fs Hfs Hp) as (fs' & E & H1 & H2 & H3). exists fs'. rewrite E, <-(assoc_L (++)). by split_and!.
  - destruct Hc as [Hc|Hc]; [congruence|]. destruct (holds_filter c Hc) as (k & tbl & Ht & Ef & Hx). cbv zeta. rewrite Ef, decide_False, Nat2Z.id by lia.
    set (c' := set_Column (bareCol (Column c)) c) in *.
    destruct (lookup_lt_is_Some_2 fs k) as [f Hf]; [rewrite Hfs; by eapply lookup_lt_Some|].
    destruct (IH jc (alter (λ l, l ++ [c']) k fs)) as (fs' & E & H1 & H2 & H3).
    + by rewrite length_alter.
    + apply Forall_alter; [done|]. intros f' Hf' Hp'. apply Forall_app. split; [done|]. constructor; [apply plain_set_Column, Hc|constructor].
    + exists fs'. rewrite E. split_and!; try done. intros x Hrow. destruct (Hx x Hrow) as (r & Hr & Eh).
      rewrite (H3 x Hrow), (rows_pass_alter _ _ _ _ _ _ _ _ Ht Hf Hr). cbn [forallb]. by rewrite Eh, andb_assoc.
Qed.
End sources.

(** ** The plan *)

Section leaf.
Context `{Unicode} `{Math} (snap : Snapshot) (ct : Contents).

Lemma leaf_ok sm tbl f : table_ok snap ct tbl → indexes_ok snap ct tbl → Forall plain_cond f →
  ∃ p, leaf_plan sm (tbl, f) = Ok p ∧ access_path tbl p ∧
    plan_rows snap ct p ≡ₚ List.filter (λ r, forallb (cond_holds r (Some tbl)) f) (table_rows snap ct tbl) ∧
    (Indexes tbl = [] → plan_rows snap ct p = List.filter (λ r, forallb (cond_holds r (Some tbl)) f) (table_rows snap ct tbl)).
Proof.
  intros Ht Hi Hf. unfold leaf_plan. destruct (decide (0 < length f)%nat) as [Hl|Hl].
  - destruct (planGroup_sound snap ct tbl Ht Hi f (statsForTable sm (TName tbl)) Hf) as (p & E & Hp). exists p. split; [done|].
    split; [by eapply planGroup_access|]. split; [exact Hp|]. intros Hn.
    destruct (planGroup_no_index snap ct tbl Ht f (statsForTable sm (TName tbl)) Hf Hn) as (p' & E' & Hp'). rewrite E in E'. by injection E' as <-.
  - destruct f; [|cbn in Hl; lia]. exists (IndexScan tbl 0 MaxUint64). split; [done|]. split; [by apply (ap_scan tbl 0 MaxUint64 []); lia|].
    assert (plan_rows snap ct (IndexScan tbl 0 MaxUint64) = List.filter (λ r, forallb (cond_holds r (Some tbl)) []) (table_rows snap ct tbl)) as ->; [|done].
    cbn [plan_rows]. rewrite scan_all by by apply (tk_keys _ _ _ Ht). clear. induction (table_rows snap ct tbl) as [|r l IH]; [done|].
    cbn in *. by rewrite <-IH.
Qed.
End leaf.

Section plan.
Context `{Unicode} `{Math} (gid : Z) (snap : Snapshot) (ct : Contents) (db : DB).

(** All conditions of a statement with at most one group. *)
Definition query_conds (s : SelectStmt) : list Condition :=
  match Where s with None => [] | Some w => concat (Groups w) end ++ (JOn <$> Joins s).

(** The rows of the cross product that satisfy all conditions. *)
Definition joined_rows (tables : list Table) (refs : list TableRef) (conds : list Condition) : list row :=
  List.filter (λ r, forallb (holds (schema tables refs) r) conds) (product (table_rows snap ct <$> tables)).

(** A condition between two tables, read as it is meant. *)
Definition joins_tables (tables : list Table) (refs : list TableRef) (c : Condition) : Prop :=
  match schemas tables refs with [] => False | L :: Rs => join_cond c ∧ joined_at L Rs c end.

(** One AND group of conditions on single columns and between tables; ON is
    followed by a condition between tables. *)
Record conds_ok (tables : list Table) (s : SelectStmt) : Prop := {
  co_where w : Where s = Some w → ∃ g, Groups w = [g] ∧
    Forall (λ c, joins_tables tables (allTableRefs s) c ∨ filter_cond tables (allTableRefs s) c) g;
  co_on : Forall (λ j, joins_tables tables (allTableRefs s) (JOn j)) (Joins s)
}.

Context (tables : list Table) (s : SelectStmt).
Notation refs := (allTableRefs s).
Context (Hso : sources_ok tables refs) (Hne : tables ≠ []).
Context (Htables : Forall (λ t, table_ok snap ct t ∧ indexes_ok snap ct t) tables).

Lemma table_rows_length t r : t ∈ tables → r ∈ table_rows snap ct t → length r = length (Columns t).
Proof using Htables.
  intros Ht Hr. rewrite Forall_forall in Htables. destruct (Htables t Ht) as [Hok _]. symmetry. by eapply Forall2_length, table_rows_typed.
Qed.

Lemma schemas_Forall2 {A} (l : list A) (R : Table → A → Prop) : Forall2 R tables l →
  Forall2 (λ sc x, ∃ t, t ∈ tables ∧ length sc = length (Columns t) ∧ R t x) (schemas tables refs) l.
Proof using Hso.
  intros Hf. apply Forall2_same_length_lookup. pose proof (Forall2_length _ _ _ Hf) as Hl. pose proof (so_length _ _ Hso) as Hr. split.
  - unfold schemas. rewrite length_zip_with. lia.
  - intros k sc x (tbl & ref & Ht & _ & ->)%schemas_lookup Hx. exists tbl. split; [by eapply list_elem_of_lookup_2|].
    unfold qualifySchema. rewrite length_fmap. split; [done|]. by eapply Forall2_lookup_lr.
Qed.

Lemma combos_rows x : x ∈ combos (table_rows snap ct <$> tables) → row_of_each tables refs x.
Proof using Hso Htables.
  intros Hx%elem_of_combos. rewrite Forall2_fmap_l in Hx. apply schemas_Forall2 in Hx. eapply Forall2_impl; [exact Hx|].
  cbn. intros sc r (t & Ht & Hl & Hr). rewrite Hl. by apply table_rows_length.
Qed.

Lemma rows_pass_nil ts x : rows_pass ts (replicate (length ts) []) x = true.
Proof using Type. revert x. induction ts as [|t ts IH]; intros [|r x]; try done. cbn [length replicate rows_pass forallb]. apply IH. Qed.

(** The filters and the join conditions that [planMultiTable] finds. *)
Lemma where_conds : conds_ok tables s →
  ∃ jc fs fl, (match Where s with
      | None => Ok ([], replicate (length tables) [])
      | Some w => match Groups w with
                  | [] => Panic
                  | [g] => classify_where refs tables g [] (replicate (length tables) [])
                  | _ => Err (Errorf "planner: OR in WHERE is not supported for multi-table queries (use separate queries)" [])
                  end
      end) = Ok (jc, fs) ∧ length fs = length tables ∧ Forall (Forall plain_cond) fs ∧
    Forall (joins_tables tables refs) (jc ++ (JOn <$> Joins s)) ∧
    (∀ x, row_of_each tables refs x → rows_pass tables fs x = forallb (holds (schema tables refs) (concat x)) fl) ∧
    ∀ r, forallb (holds (schema tables refs) r) (query_conds s) =
      forallb (holds (schema tables refs) r) (jc ++ (JOn <$> Joins s)) && forallb (holds (schema tables refs) r) fl.
Proof using Hso.
  intros [Hw Hon]. assert (Forall (joins_tables tables refs) (JOn <$> Joins s)) as Hon' by by apply Forall_fmap. unfold query_conds.
  destruct (Where s) as [w|].
  2: { exists [], (replicate (length tables) []), []. split_and!; try done.
       - by rewrite length_replicate.
       - apply Forall_replicate. constructor.
       - intros x _. by rewrite rows_pass_nil.
       - intros r. by rewrite andb_true_r. }
  destruct (Hw w eq_refl) as (g & -> & Hg).
  assert (∀ c, joins_tables tables refs c → IsJoinCond c = true) as Hj by (unfold joins_tables; intros c; destruct (schemas _ _); [done|by intros [[? _] _]]).
  destruct (classify_ok tables refs Hso g) with (jc := @nil Condition) (fs := replicate (length tables) (@nil Condition)) as (fs & E & H1 & H2 & H3).
  - eapply Forall_impl; [exact Hg|]. cbn. intros c [Hc|Hc]; auto.
  - by rewrite length_replicate.
  - apply Forall_replicate. constructor.
  - exists (List.filter IsJoinCond g), fs, (List.filter (λ c, negb (IsJoinCond c)) g). split_and!; try done.
    + apply Forall_app. split; [|done]. apply Forall_forall. intros c Hc. rewrite list_elem_of_In, filter_In, <-list_elem_of_In in Hc.
      destruct Hc as [Hc Hb]. rewrite Forall_forall in Hg. destruct (Hg c Hc) as [?|[[Hp _] _]]; [done|]. by rewrite Hp in Hb.
    + intros x Hx. by rewrite H3, rows_pass_nil.
    + intros r. cbn [concat]. rewrite app_nil_r, !forallb_app, (forallb_partition _ IsJoinCond g), <-!andb_assoc. f_equal. apply andb_comm.
Qed.

(** A plan of one table: its rows are among those of the table. *)
Definition table_plan (t : Table) (p : PhysicalNode) : Prop :=
  access_path t p ∧ ∀ r, r ∈ plan_rows snap ct p → r ∈ table_rows snap ct t.

Lemma leaves_ok sm fs : length fs = length tables → Forall (Forall plain_cond) fs →
  ∃ leaves, mapM_res (leaf_plan sm) (zip tables fs) = Ok leaves ∧ Forall2 table_plan tables leaves ∧
    Forall2 (≡ₚ) (plan_rows snap ct <$> leaves) (filtered tables fs (table_rows snap ct <$> tables)) ∧
    (Forall (λ t, Indexes t = []) tables → plan_rows snap ct <$> leaves = filtered tables fs (table_rows snap ct <$> tables)).
Proof using Htables.
  pose proof Htables as HT. clear Htables Hso Hne. revert fs.
  induction HT as [|t ts [Ht Hi] _ IH]; intros [|f fs] Hl Hf; try done; [by exists []|].
  apply Forall_cons in Hf as [Hf Hfs]. destruct (IH fs) as (leaves & E & Ha & Hp & He); [by injection Hl|done|].
  destruct (leaf_ok snap ct sm t f Ht Hi Hf) as (p & Ep & Hacc & Hperm & Heq). exists (p :: leaves). cbn [zip zip_with mapM_res].
  change (zip_with pair ts fs) with (zip ts fs). rewrite Ep, E. split; [done|]. split; [|split; [by constructor|]].
  - constructor; [|done]. split; [done|]. intros r. rewrite Hperm, list_elem_of_In, filter_In, <-list_elem_of_In. tauto.
  - intros [Hn Hns]%Forall_cons. cbn [fmap list_fmap filtered]. f_equal; [auto|]. exact (He Hns).
Qed.

Lemma leaves_fit leaves : Forall2 table_plan tables leaves →
  Forall2 (λ sc p, Forall (λ r : row, length r = length sc) (plan_rows snap ct p)) (schemas tables refs) leaves.
Proof using Hso Htables.
  intros Ha. eapply Forall2_impl; [by apply (schemas_Forall2 leaves table_plan)|]. cbn. intros sc p (t & Ht & -> & _ & Hp).
  apply Forall_forall. intros r Hr. apply table_rows_length; auto.
Qed.

(** The joins above them: with or without indexes, the rows are those of the
    cross product that satisfy all conditions. *)
Lemma plan_rows_joined leaves jc fs fl : Forall2 table_plan tables leaves → length fs = length tables →
  Forall2 (≡ₚ) (plan_rows snap ct <$> leaves) (filtered tables fs (table_rows snap ct <$> tables)) →
  (∀ x, row_of_each tables refs x → rows_pass tables fs x = forallb (holds (schema tables refs) (concat x)) fl) →
  (∀ r, forallb (holds (schema tables refs) r) (query_conds s) =
      forallb (holds (schema tables refs) r) jc && forallb (holds (schema tables refs) r) fl) →
  let l := List.filter (λ x, forallb (holds (schema tables refs) x) jc) (product (plan_rows snap ct <$> leaves)) in
  l ≡ₚ joined_rows tables refs (query_conds s) ∧
  (plan_rows snap ct <$> leaves = filtered tables fs (table_rows snap ct <$> tables) → l = joined_rows tables refs (query_conds s)).
Proof using Hso Htables.
  intros Ha Hfs Hp Hpass Hconds. cbv zeta.
  assert (List.filter (λ x, forallb (holds (schema tables refs) x) jc) (product (filtered tables fs (table_rows snap ct <$> tables))) =
    joined_rows tables refs (query_conds s)) as E.
  { unfold joined_rows. rewrite !product_combos, combos_filtered by (rewrite ?length_fmap; done).
    pose proof combos_rows as Hrow. induction (combos (table_rows snap ct <$> tables)) as [|x xs IH]; [done|]. cbn [fmap list_fmap List.filter].
    rewrite (Hpass x), (Hconds (concat x)) by (apply Hrow; by left).
    specialize (IH ltac:(intros y Hy; apply Hrow; by right)). destruct (forallb _ fl); cbn [fmap list_fmap List.filter];
      rewrite ?andb_true_r, ?andb_false_r; [|exact IH]. destruct (forallb _ jc); [f_equal|]; exact IH. }
  split; [|intros ->; exact E]. rewrite <-E. by rewrite (product_perm _ _ Hp).
Qed.

(** A SELECT on several tables is planned, and its rows below LIMIT and the
    projection are these. *)
Lemma multi_plan sm : conds_ok tables s →
  ∃ root, planMultiTable s tables sm =
      ('(cols, idxs) ← resolveColumnsMulti (exprCols (SColumns s)) (schema tables refs); Ok (Project (with_limit s root) cols idxs)) ∧
    plan_rows snap ct root ≡ₚ joined_rows tables refs (query_conds s) ∧
    (Forall (λ t, Indexes t = []) tables → plan_rows snap ct root = joined_rows tables refs (query_conds s)) ∧
    (Forall (query_ready gid snap ct db) tables → plan_ready gid snap ct db root).
Proof using Hso Hne Htables.
  intros Hc. destruct (where_conds Hc) as (jc & fs & fl & Ew & Hfs & Hpl & Hjc & Hpass & Hconds).
  destruct (leaves_ok sm fs Hfs Hpl) as (leaves & El & Ha & Hp & He). pose proof (leaves_fit leaves Ha) as Hfit.
  pose proof (sources_schema tables refs Hso) as Hok.
  destruct (plan_rows_joined leaves (jc ++ (JOn <$> Joins s)) fs fl Ha Hfs Hp Hpass Hconds) as [Hperm Heq].
  unfold planMultiTable. rewrite decide_False by (intros Hl; apply Hl, (so_length _ _ Hso)). cbv zeta.
  fold (schemas tables refs). unfold mbind at 1, res_bind at 1. rewrite Ew. cbn [mbind res_bind]. rewrite El. cbn [mbind res_bind].
  unfold joins_tables in Hjc. unfold schema in *. destruct (schemas tables refs) as [|L Rs] eqn:Es.
  { apply Forall2_nil_inv_l in Hfit as ->. apply Forall2_nil_inv_r in Ha. done. }
  destruct leaves as [|root leaves]; [by inversion Hfit|]. apply Forall2_cons in Hfit as [HL Hfit].
  change (zip (root :: leaves) (L :: Rs)) with ((root, L) :: zip leaves Rs). cbv beta iota.
  assert ((zip leaves Rs).*2 = Rs ∧ (zip leaves Rs).*1 = leaves) as [E2 E1].
  { pose proof (Forall2_length _ _ _ Hfit). split; [apply snd_zip|apply fst_zip]; lia. }
  destruct (join_tree_rows gid db snap ct (zip leaves Rs) root L (jc ++ (JOn <$> Joins s))) as (Erows & Eschema & Hready); rewrite ?E2; try done.
  { clear -Hfit. induction Hfit as [|R p Rs leaves Hp _ IH]; [constructor|]. constructor; [done|exact IH]. }
  cbv zeta in Erows, Eschema, Hready. rewrite E2 in Erows, Eschema. destruct (join_tree _ _ _ _) as [t sc]. cbn [fst snd] in *. subst sc.
  change (concat (L :: Rs)) with (L ++ concat Rs) in *. exists t. split; [done|].
  assert ((λ ls : PhysicalNode * list string, plan_rows snap ct ls.1) <$> zip leaves Rs = plan_rows snap ct <$> leaves) as E3
    by (rewrite <-E1 at 2; by rewrite <-list_fmap_compose).
  rewrite E3 in Erows. change (plan_rows snap ct root ≫= _) with (product (plan_rows snap ct <$> root :: leaves)) in Erows.
  rewrite Erows. split; [exact Hperm|]. split; [intros Hi; apply Heq, He, Hi|]. intros Hq.
  assert (Forall (plan_ready gid snap ct db) (root :: leaves)) as [Hr Hrs]%Forall_cons.
  { clear -Ha Hq. induction Ha as [|t p ts ps [Hacc _] _ IH]; [constructor|]. apply Forall_cons in Hq as [Hq Hqs].
    constructor; [by eapply access_ready|by apply IH]. }
  apply Hready; [done|]. apply Forall_forall. intros ls Hls. rewrite Forall_forall in Hrs. apply Hrs. rewrite <-E1. by apply list_elem_of_fmap_2.
Qed.

Lemma joined_rows_length r conds : r ∈ joined_rows tables refs conds → length r = length (schema tables refs).
Proof using Hso Htables.
  unfold joined_rows. rewrite list_elem_of_In, filter_In, <-list_elem_of_In, product_combos. intros [(x & -> & Hx%combos_rows)%list_elem_of_fmap _].
  unfold schema. clear -Hx. induction Hx as [|sc r scs x Hr _ IH]; [done|]. cbn [concat]. by rewrite !length_app, Hr, IH.
Qed.
End plan.

(** ** The columns of the result *)

Section columns.
Context `{Unicode}.

Lemma find_suffix_range name sc n m j : find_suffix name sc n m = Ok j → (∀ i, m = Some i → i < n + length sc)%nat → (j < n + length sc)%nat.
Proof.
  revert n m. induction sc as [|s sc IH]; intros n m; cbn [find_suffix length].
  - destruct m as [i|]; [|done]. intros [= ->] Hm. by apply Hm.
  - destruct (bare_is name s).
    + destruct m; [done|]. intros E _. specialize (IH _ _ E). assert (j < n + 1 + length sc)%nat; [|lia]. apply IH. intros i [= ->]. lia.
    + intros E Hm. specialize (IH _ _ E). assert (j < n + 1 + length sc)%nat; [|lia]. apply IH. intros i Hi. specialize (Hm i Hi). lia.
Qed.

Lemma resolve_one_range sc col ns is_ : resolve_one sc col = Ok (ns, is_) → Forall (λ i, i < length sc)%nat is_.
Proof.
  unfold resolve_one. destruct (HasSuffix ".*" col).
  - destruct (qualified_by _ sc) as [|si sis] eqn:E; [done|]. intros [= _ <-]. change (Forall (λ i, i < length sc)%nat ((si :: sis).*2)). rewrite <-E.
    apply Forall_fmap, Forall_forall. unfold qualified_by. intros [s i]. rewrite list_elem_of_In, filter_In, <-list_elem_of_In. intros [Hin _].
    apply elem_of_zip_r in Hin. apply elem_of_seq in Hin. cbn. lia.
  - destruct (findInSchema col sc) as [j|e| |] eqn:E; try done. intros [= _ <-]. constructor; [|constructor]. unfold findInSchema in E.
    destruct (find_index _ sc) as [i|] eqn:Ei; [injection E as <-; by eapply find_index_range|].
    by apply (find_suffix_range col sc 0 None j E).
Qed.

Lemma resolve_multi_range cols sc names idxs : resolveColumnsMulti cols sc = Ok (names, idxs) → Forall (λ i, i < length sc)%nat idxs.
Proof.
  unfold resolveColumnsMulti. destruct (is_star cols).
  { intros [= _ <-]. apply Forall_forall. intros i Hi%elem_of_seq. lia. }
  assert (∀ acc, (∀ ns is_, acc = Ok (ns, is_) → Forall (λ i, i < length sc)%nat is_) → ∀ names idxs,
    foldl (λ acc col, '(names, idxs) ← acc; '(ns, is_) ← resolve_one sc col; Ok (names ++ ns, idxs ++ is_)) acc cols = Ok (names, idxs) →
    Forall (λ i, i < length sc)%nat idxs) as Hf; [|apply Hf; by intros ns is_ [= _ <-]].
  clear names idxs. induction cols as [|col cols IH]; intros acc Ha names idxs; cbn [foldl]; [apply Ha|]. apply IH. intros ns is_ E.
  destruct acc as [[ns0 is0]|e| |]; try done. cbn [mbind res_bind] in E. destruct (resolve_one sc col) as [[ns1 is1]|e| |] eqn:E1; try done.
  injection E as _ <-. apply Forall_app. split; [by eapply Ha|by eapply resolve_one_range].
Qed.
End columns.

(** ** The statement *)

(** The result as a function of the rows that satisfy the conditions. *)
Definition join_spec `{Unicode} (s : SelectStmt) (sc : list string) (l : list row) : res Result :=
  if selectHasAgg s then
    '(rows, cols) ← aggregateRows s l (name_index sc ∅);
    rows ← match Having s with Some h => applyHaving rows cols h (SColumns s) | None => Ok rows end;
    rows ← order_rows s rows cols;
    Ok (mkResult cols (apply_limit (Limit s) rows) EmptyString)
  else
    '(cols, idxs) ← resolveColumnsMulti (exprCols (SColumns s)) sc;
    rows ← order_rows s (pick idxs <$> l) cols;
    Ok (mkResult cols (apply_limit (Limit s) rows) EmptyString).

(** The tables of the statement, two at least, are open and have these contents. *)
Record join_ready `{Unicode} `{Math} (gid : Z) (snap : Snapshot) (ct : Contents) (db : DB) (tables : list Table) (s : SelectStmt) : Prop := {
  jr_tables : Forall2 (λ ref t, GetTable (RName ref) (cat db) = Some t) (allTableRefs s) tables;
  jr_several : (2 ≤ length tables)%nat;
  jr_open : Forall (query_ready gid snap ct db) tables;
  jr_names : sources_ok tables (allTableRefs s);
  jr_conds : conds_ok tables s
}.

Section select.
Context `{Unicode} `{Math} (gid : Z) (tfuel : nat) (Htf : (32 ≤ tfuel)%nat).
Context (snap : Snapshot) (ct : Contents) (db : DB) (tables : list Table).

(** The rows a plan hands on: those of the cross product, in its order when no
    table has secondary indexes. *)
Definition join_matching (s : SelectStmt) (l : list row) : Prop :=
  l ≡ₚ joined_rows snap ct tables (allTableRefs s) (query_conds s) ∧
  (Forall (λ t, Indexes t = []) tables → l = joined_rows snap ct tables (allTableRefs s) (query_conds s)).

Lemma collect_several refs ts m : Forall2 (λ ref t, GetTable (RName ref) (cat db) = Some t) refs tables →
  ∃ m', collect_refs refs db ts m = Ok (ts ++ tables, m').
Proof.
  intros Hf. revert ts m. induction Hf as [|ref t refs tables' Hr _ IH]; intros ts m; cbn [collect_refs]; [rewrite app_nil_r; eauto|].
  rewrite Hr. destruct (IH (ts ++ [t]) (match Get (RName ref) (statsDB db) with Some st => <[ToLower (RName ref) := st]> m | None => m end)) as (m' & E).
  exists m'. rewrite E. by rewrite <-(assoc_L (++)).
Qed.

Lemma run_join s : join_ready gid snap ct db tables s →
  ∃ l N, join_matching s l ∧ ∀ fuel, (N ≤ fuel)%nat →
    match resolveColumnsMulti (exprCols (SColumns s)) (schema tables (allTableRefs s)) with
    | Ok (cols, idxs) => ∃ db', run_plan gid fuel tfuel s snap db = (Ok (apply_limit (Limit s) (pick idxs <$> l), cols), db') ∧ read_step db db'
    | r => run_plan gid fuel tfuel s snap db = (r ≫= λ _, Panic, db)
    end.
Proof using Htf.
  intros [Ht Hn Hq Hs Hc]. assert (Forall (λ t, table_ok snap ct t ∧ indexes_ok snap ct t) tables) as Htables
    by (eapply Forall_impl; [exact Hq|]; by intros t []).
  destruct (collect_several (allTableRefs s) [] ∅ Ht) as (m & Em). rewrite app_nil_l in Em.
  destruct (multi_plan gid snap ct db tables s Hs ltac:(by intros ->; cbn in Hn; lia) Htables (Some m) Hc) as (root & Ep & Hperm & Heq & Hready).
  specialize (Hready Hq).
  assert (Plan s tables (Some m) = planMultiTable s tables (Some m)) as EP.
  { pose proof (Forall2_length _ _ _ Ht) as Hl. unfold Plan, allTableRefs in *. destruct (From s) as [|r [|]]; try done. destruct (Joins s); [|done].
    cbn in Hl. lia. }
  assert (∀ fuel, run_plan gid fuel tfuel s snap db = (plan ← lift (planMultiTable s tables (Some m));
    rows ← execute gid tfuel fuel snap plan; match plan with Project _ cols _ => mret (rows, cols) | _ => lift Panic end) db) as Er.
  { intros fuel. unfold run_plan. rewrite (M_bind_Ok _ _ db (tables, m) db); [by rewrite EP|]. unfold collectTablesForSelect, get_state, lift.
    unfold mbind at 1, M_bind at 1. by rewrite Em. }
  destruct (resolveColumnsMulti _ _) as [[cols idxs]|e| |] eqn:Ecols.
  2-4: exists (plan_rows snap ct root), 0%nat; (split; [by split|]); intros fuel _; rewrite Er, Ep; done.
  cbn [mbind res_bind] in Ep.
  assert (plan_ready gid snap ct db (Project (with_limit s root) cols idxs)) as Hp.
  { cbn [plan_ready]. split; [unfold with_limit; by case_decide|]. apply Forall_forall. intros r Hr. rewrite with_limit_rows in Hr.
    assert (r ∈ plan_rows snap ct root) as Hin by (case_decide; [by apply elem_of_take in Hr as (? & ?%list_elem_of_lookup_2 & _)|done]).
    unfold picks_ok. rewrite Hperm in Hin. rewrite (joined_rows_length snap ct tables s Hs Htables r _ Hin). by eapply resolve_multi_range. }
  pose proof (execute_ok gid tfuel Htf snap ct db _ Hp) as HN. eexists (plan_rows snap ct root), _. split; [by split|]. intros fuel Hfuel.
  destruct (HN fuel Hfuel) as (db' & E & Hstep). exists db'. split; [|done]. rewrite Er, Ep.
  erewrite M_bind_Ok by done. erewrite M_bind_Ok by exact E. cbn [plan_rows]. rewrite with_limit_rows, apply_limit_take.
  case_decide; [by rewrite fmap_take|done].
Qed.

Lemma join_ready_same s s' : From s' = From s → Joins s' = Joins s → Where s' = Where s →
  join_ready gid snap ct db tables s → join_ready gid snap ct db tables s'.
Proof.
  intros Hf Hj Hw [H1 H2 H3 H4 [H5 H6]]. assert (allTableRefs s' = allTableRefs s) as E by (unfold allTableRefs; by rewrite Hf, Hj).
  split; rewrite ?E; try done. split; rewrite ?E, ?Hw, ?Hj; done.
Qed.

Lemma join_matching_same s s' l : From s' = From s → Joins s' = Joins s → Where s' = Where s → join_matching s' l → join_matching s l.
Proof. intros Hf Hj Hw. unfold join_matching, allTableRefs, query_conds. by rewrite Hf, Hj, Hw. Qed.

Lemma join_agg_ok s : join_ready gid snap ct db tables s → selectHasAgg s = true →
  ∃ l N, join_matching s l ∧ ∀ fuel, (N ≤ fuel)%nat →
    ∃ db', execSelectWithSnap gid fuel tfuel s snap db = (join_spec s (schema tables (allTableRefs s)) l, db') ∧ read_step db db'.
Proof using Htf.
  intros Hr Ha. destruct (run_join (raw_stmt s) (join_ready_same s (raw_stmt s) eq_refl eq_refl eq_refl Hr)) as (l & N & Hl & HN).
  exists l, N. split; [exact Hl|]. intros fuel Hfuel. specialize (HN fuel Hfuel). change (allTableRefs (raw_stmt s)) with (allTableRefs s) in HN.
  set (sc := schema tables (allTableRefs s)) in *. change (resolveColumnsMulti (exprCols (SColumns (raw_stmt s))) sc) with (Ok (sc, seq 0 (length sc))) in HN.
  destruct HN as (db' & E & Hs). exists db'. split; [|done]. unfold execSelectWithSnap, join_spec, execAggSelect. rewrite Ha.
  erewrite M_bind_Ok by exact E. cbn beta iota. rewrite (apply_limit_0 _), pick_all.
  2: { apply Forall_forall. intros r Hin. destruct Hl as [Hl _]. rewrite Hl in Hin. eapply joined_rows_length; [exact (jr_names _ _ _ _ _ _ Hr)| |exact Hin].
       eapply Forall_impl; [exact (jr_open _ _ _ _ _ _ Hr)|]. by intros t []. }
  destruct (aggregateRows s l _) as [[rows cols]|e| |]; [|done..]. M_run. cbn [res_bind].
  destruct (match Having s with Some _ => _ | None => _ end) as [rows'|e| |]; [|done..]. unfold order_rows.
  cbn [res_bind]. destruct (OrderBy s); [done|]. by destruct (applyOrderBy _ _ _).
Qed.

Lemma join_plain_ok s : join_ready gid snap ct db tables s → selectHasAgg s = false →
  ∃ l N, join_matching s l ∧ ∀ fuel, (N ≤ fuel)%nat →
    ∃ db', execSelectWithSnap gid fuel tfuel s snap db = (join_spec s (schema tables (allTableRefs s)) l, db') ∧ read_step db db'.
Proof using Htf.
  intros Hr Ha. assert (From (plan_stmt s) = From s ∧ Joins (plan_stmt s) = Joins s ∧ Where (plan_stmt s) = Where s ∧
    SColumns (plan_stmt s) = SColumns s) as (Hf & Hj & Hw & Hc) by (unfold plan_stmt; by case_decide).
  destruct (run_join (plan_stmt s) (join_ready_same s _ Hf Hj Hw Hr)) as (l & N & Hl & HN). exists l, N.
  split; [by eapply join_matching_same|]. intros fuel Hfuel. specialize (HN fuel Hfuel).
  assert (allTableRefs (plan_stmt s) = allTableRefs s) as Er by (unfold allTableRefs; by rewrite Hf, Hj). rewrite Hc, Er in HN.
  set (sc := schema tables (allTableRefs s)) in *. unfold execSelectWithSnap, join_spec, order_rows. rewrite Ha.
  destruct (resolveColumnsMulti (exprCols (SColumns s)) sc) as [[cols idxs]|e| |].
  2-4: exists db; split; [|done]; unfold mbind at 1, M_bind at 1; by rewrite HN.
  destruct HN as (db' & E & Hs). exists db'. split; [|done]. erewrite M_bind_Ok by exact E. cbn beta iota. cbn [mbind res_bind]. unfold plan_stmt.
  destruct (OrderBy s) as [|ob obs] eqn:Eo; [cbn [length]; rewrite decide_False by (intros [? _]; lia); done|].
  assert (apply_limit (Limit (if decide ((0 < length (ob :: obs))%nat ∧ 0 < Limit s) then set_Limit 0 s else s)) (pick idxs <$> l)
    = pick idxs <$> l) as ->.
  { case_decide as Hd; [done|]. rewrite apply_limit_take, decide_False; [done|]. intros Hlim. apply Hd. cbn. split; [lia|done]. }
  M_run. by destruct (applyOrderBy _ _ _).
Qed.
End select.

(** C5. A SELECT on two or more tables, by a list in FROM or by JOIN ... ON, the
    same table twice included, with or without aggregates, HAVING, ORDER BY and
    LIMIT, returns what the reference semantics computes from those rows of the
    cross product of the tables' visible rows that satisfy all conditions of
    WHERE and ON: for enough fuel it ends, it fails exactly when the reference
    fails, with the same error, and it changes nothing but which pages are
    cached. Without secondary indexes the rows come in the order of the cross
    product. This is for queries that the code reads as they are meant
    ([join_ready]): the tables have a primary key and indexes in step with their
    rows; the qualifiers differ, and all names are ASCII without a dot; the
    WHERE clause is a single group of AND (OR is an error) and has no subquery,
    nor has HAVING; each of its conditions compares a column of one table with a
    literal, and names the column so that it is found, or connects two tables,
    as ON does, with the earlier table's column first or with names that do not
    occur on the other side. Other conditions are read differently or dropped:
    one between two columns of one table has no effect, and one that names the
    later table first can compare the wrong columns. *)
Theorem join_select_correct `{Unicode} `{Math} gid tfuel snap ct db tables s :
  (32 ≤ tfuel)%nat → join_ready gid snap ct db tables s → flat_where (Where s) → flat_where (Having s) →
  ∃ l N, join_matching snap ct tables s l ∧ ∀ fuel depth, (N ≤ fuel)%nat →
    ∃ db', execSelectFlattened gid fuel tfuel (Datatypes.S depth) snap s db =
      (join_spec s (schema tables (allTableRefs s)) l, db') ∧ read_step db db'.
Proof.
  intros Htf Hr Hfw Hfh.
  assert (∃ l N, join_matching snap ct tables s l ∧ ∀ fuel, (N ≤ fuel)%nat →
    ∃ db', execSelectWithSnap gid fuel tfuel s snap db = (join_spec s (schema tables (allTableRefs s)) l, db') ∧ read_step db db') as (l & N & Hl & HN).
  { destruct (selectHasAgg s) eqn:Ha; [by apply join_agg_ok|by apply join_plain_ok]. }
  exists l, N. split; [done|]. intros fuel depth Hfuel. destruct (HN fuel Hfuel) as (db' & E & Hs). exists db'.
  split; [|done]. cbn [execSelectFlattened]. erewrite M_bind_Ok by by apply flatten_flat.
  erewrite M_bind_Ok by by apply flatten_flat. by destruct s.
Qed.

(** ** Conditions that are read differently *)

(** A condition that names the column of the later table first compares other
    columns, if the first table has a column with the one bare name and the later
    table one with the other: the qualifiers are dropped before the two sides are
    exchanged. *)
Theorem swapped_condition_drops_qualifiers `{Unicode} L R c (l r : row) i j a b :
  schema_ok (L ++ R) → join_cond c → is_Some (column_at R (Column c)) → is_Some (column_at L (RHSCol c)) →
  bare_at L (Column c) = Some i → bare_at R (RHSCol c) = Some j → l !! i = Some a → r !! j = Some b →
  evalOn [c] (buildColMap L) (buildColMap R) l r = Ok (compareVals a b (Op c)).
Proof.
  intros Hok (_ & H1 & H2) HR HL Hi Hj Ha Hb. destruct (schema_ok_app L R Hok) as ([DL NL] & [DR NR] & Hx).
  assert (column_at L (Column c) = None) as EL.
  { apply eq_None_not_Some. intros Hs. destruct HR as [? HR]. rewrite Hx in HR; [discriminate|done]. }
  cbn [evalOn]. rewrite !resolve_dotted, EL, Hi, (Hx _ HL), Hj by done. unfold BTree.go_index. rewrite Ha, Hb. cbn [mbind res_bind].
  by destruct (compareVals a b (Op c)).
Qed.

(** A condition between two columns of the table that is joined goes to no join. *)
Theorem same_table_condition_ignored `{Unicode} L R c :
  schema_ok (L ++ R) → join_cond c → is_Some (column_at R (Column c)) → is_Some (column_at R (RHSCol c)) → condConnects c L R = false.
Proof.
  intros Hok Hc H1 H2. destruct (schema_ok_app L R Hok) as (_ & _ & Hx). apply not_true_iff_false. rewrite condConnects_dotted by done.
  intros [[Hs _]|[_ Hs]]; apply Hx in Hs; [destruct H1|destruct H2]; congruence.
Qed.

(** ** Concrete instances *)

#[local] Existing Instance no_tables.
#[local] Existing Instance some_math.

(** [SELECT a.name, b.age FROM people a JOIN people b ON a.id = b.id WHERE b.age >= 30] *)
Definition ada_join : SelectStmt :=
  mkSelect [mkExpr "a.name" None EmptyString; mkExpr "b.age" None EmptyString] [mkRef "people" "a"]
    [mkJoin (mkRef "people" "b") (cond_col "a.id" OpEq "b.id")]
    (Some (mkWhere [[cond_val "b.age" OpGte (VInt 30)]])) [] None [] 0.

Lemma ada_join_names : sources_ok [people; people] (allTableRefs ada_join).
Proof.
  split; [reflexivity|by repeat constructor|by repeat constructor| |].
  - apply (bool_decide_unpack _). vm_compute. exact I.
  - repeat (apply Forall_cons_2; [apply (bool_decide_unpack _); vm_compute; exact I|]). constructor.
Qed.

Lemma ada_join_conds : conds_ok [people; people] ada_join.
Proof.
  split.
  - intros w [= <-]. eexists. split; [reflexivity|]. constructor; [|constructor]. right. split.
    + split; [reflexivity|]. intros _. exists 30. split; [reflexivity|lia].
    + left. split; [by exists "b"%string, "age"%string|]. eexists. vm_compute. reflexivity.
  - constructor; [|constructor]. split; [split; [reflexivity|split; [by exists "a"%string, "id"%string|by exists "b"%string, "id"%string]]|].
    left. left. split; eexists; vm_compute; reflexivity.
Qed.

Lemma join_select_correct_witness : ∃ db fuel db',
  execSelectFlattened 1 fuel 32 1 ada_snap ada_join db = (Ok (mkResult ["name"; "age"]%string [[VText "Ada"; VInt 36]] EmptyString), db').
Proof.
  destruct ada_tree as (bt & h & Hh & Ht). exists (ada_db bt).
  destruct (join_select_correct 1 32 ada_snap ada_contents (ada_db bt) [people; people] ada_join) as (l & N & [_ Hl] & HN).
  - lia.
  - split.
    + repeat constructor.
    + cbn. lia.
    + pose proof (ada_query_ready bt h Hh Ht) as Hq. apply Forall_cons_2; [exact Hq|]. apply Forall_cons_2; [exact Hq|constructor].
    + exact ada_join_names.
    + exact ada_join_conds.
  - intros w [= <-]. repeat constructor.
  - intros w [=].
  - specialize (Hl ltac:(by repeat constructor)). destruct (HN N 0%nat ltac:(lia)) as (db' & E & _). exists N, db'. rewrite E. f_equal.
    rewrite Hl. unfold joined_rows. cbn [fmap list_fmap]. rewrite ada_rows. vm_compute. reflexivity.
Defined.

(** [FROM emp e JOIN emp m ON m.id = e.boss]: Ann (1) works for Bob (2), who works
    for Cid (3). *)
Definition emp_schema (q : string) : list string := [qualified q "id"; qualified q "name"; qualified q "boss"].

Example boss_not_found :
  let c := cond_col "m.id" OpEq "e.boss" in let ann := [VInt 1; VText "Ann"; VInt 2] in let bob := [VInt 2; VText "Bob"; VInt 3] in
  holds (emp_schema "e" ++ emp_schema "m") (ann ++ bob) c = true ∧
  evalOn [c] (buildColMap (emp_schema "e")) (buildColMap (emp_schema "m")) ann bob = Ok false.
Proof. split; vm_compute; reflexivity. Qed.
