(* ===== verification/Opening.v ===== *)
(** * Opening: a query that opens its table

    Inside a transaction the first operator that is built for a table creates the
    table's [TxPager].  Nothing a SELECT does before that depends on it, so the
    statement answers what it would answer if the [TxPager] had been there, and
    leaves it behind if it has come that far. *)
From S2P Require Import Prelude Store Mvcc GoLib Catalog Ast Eval Agg Stats Planner Db Frame Operators Plans Volcano Select Queries.
From stdpp Require Import options.
Local Open Scope Z_scope.

(** ** Computations that do not tell two states apart *)

Section alike.
Context {S : Type} (s1 s2 : S).

(** From [s1] as from [s2], except that a computation that ends early may leave
    [s1] or [s2] as it was. *)
Definition alike {A} (m : M S A) : Prop := m s1 = m s2 ∨ ∃ r, m s1 = (r, s1) ∧ m s2 = (r, s2).

Lemma alike_lift {A} (r : res A) : alike (lift r).
Proof. right. by exists r. Qed.
Lemma alike_ret {A} (a : A) : alike (mret a).
Proof. right. by exists (Ok a). Qed.

Lemma alike_bind {A B} (m : M S A) (k : A → M S B) : alike m → (∀ a, alike (k a)) → alike (m ≫= k).
Proof.
  intros [E|(r & E1 & E2)] Hk; unfold alike, mbind, M_bind; [left; by rewrite E|]. rewrite E1, E2.
  destruct r as [a|e| |]; [exact (Hk a)|right; eauto..].
Qed.

Lemma alike_wrap {A} fmt args (m : M S A) : alike m → alike (wrap fmt args m).
Proof. intros [E|(r & E1 & E2)]; unfold alike, wrap; [left; by rewrite E|right]. rewrite E1, E2. eauto. Qed.
End alike.

Create HintDb alike.
#[export] Hint Resolve alike_lift alike_ret alike_bind alike_wrap : alike.

(** ** Plans *)

(** Building the plan opens table [nm] before anything else. *)
Fixpoint opens_first (nm : string) (node : PhysicalNode) : Prop :=
  match node with
  | IndexScan tbl _ _ | IndexLookup tbl _ _ _ => TName tbl = nm
  | Filter child _ | LimitN child _ | Project child _ _ | Union (child :: _) _ | NestedLoopJoin child _ _ _ _ => opens_first nm child
  | Union [] _ => False
  end.

(** To open the table makes of [db2] what it makes of [db1], because it is open
    in [db2] already, say. *)
Record opened `{Unicode} (gid : Z) (nm : string) (db1 db2 : DB) : Prop := {
  od_store : pageStoreFor gid nm db1 = pageStoreFor gid nm db2;
  od_cat : cat db2 = cat db1;
  od_stats : statsDB db2 = statsDB db1;
  od_snap : (statement_snap gid db2).1 = (statement_snap gid db1).1
}.

Section opening.
Context `{Unicode} `{Math} (gid : Z) (fuel tfuel : nat) (nm : string) (db1 db2 : DB).
Hypothesis Ho : opened gid nm db1 db2.

Lemma build_opens snap : ∀ node, opens_first nm node → buildOp gid snap node db1 = buildOp gid snap node db2.
Proof using Ho.
  pose proof (od_store _ _ _ _ Ho) as E.
  fix IH 1. intros [tbl mn mx|child preds|child cols idxs|child n|tbl def mn mx|[|child cs] pk|l r on ls rs] Hn;
    cbn [opens_first buildOp] in *; try done; unfold mbind, M_bind, wrap;
    first [by rewrite Hn, E|by rewrite (IH _ Hn)].
Qed.

Lemma access_opens tbl node : access_path tbl node → opens_first (TName tbl) node.
Proof. intros [mn mx preds _|def mn mx preds _ _]; unfold with_filter; by case_decide. Qed.

(** A plan of one table opens it first, but for the plan of a clause without
    groups, which opens nothing. *)
Lemma planSingleTable_opens s tbl ts node : plain_where (Where s) → planSingleTable s tbl ts = Ok node →
  opens_first (TName tbl) node ∨ ∃ i cols idxs, node = Project (with_limit s (Union [] i)) cols idxs.
Proof.
  intros Hw. unfold planSingleTable. destruct (resolveColumnsSingle _ _) as [[cols idxs]|e| |]; try done. cbn [mbind res_bind].
  destruct (match Where s with Some _ => _ | None => _ end) as [bs|e| |] eqn:Eb; try done. cbn [mbind res_bind].
  assert (Forall (opens_first (TName tbl)) bs) as Hbs.
  { destruct (Where s) as [w|]; [|injection Eb as <-; by repeat constructor]. specialize (Hw _ eq_refl). revert bs Eb.
    induction Hw as [|g groups Hg _ IH]; intros bs Eb; cbn [mapM_res] in Eb; [by injection Eb as <-|].
    destruct (planGroup tbl g ts) as [b|e| |] eqn:Eg; try done. cbn [mbind res_bind] in Eb.
    destruct (mapM_res _ groups) as [bs'|e| |]; try done. injection Eb as <-.
    constructor; [by eapply access_opens, planGroup_access|by apply IH]. }
  assert (∀ root, opens_first (TName tbl) root → opens_first (TName tbl) (Project (with_limit s root) cols idxs)) as Hp
    by (intros root Hr; unfold with_limit; by case_decide).
  destruct bs as [|b [|b2 bs]]; [|cbn [mbind res_bind]; intros [= <-]; left; by apply Hp, (Forall_cons_1 _ _ _ Hbs)|];
    (destruct (PrimaryKeyIndex tbl) as [i|]; [|done]); cbn [mbind res_bind]; intros [= <-]; [right; eauto|left].
  apply Hp. cbn [opens_first]. by apply Forall_cons in Hbs as [? _].
Qed.

(** ** Statements *)

Lemma execute_opens snap node : opens_first nm node → alike db1 db2 (execute gid tfuel fuel snap node).
Proof using Ho. intros Hn. left. unfold execute, mbind at 1 3, M_bind at 1 3. by rewrite (build_opens snap node Hn). Qed.

(** An operator that has no rows and needs no pages. *)
Definition idle (op : Operator) : Prop :=
  ∀ n, ∃ r : res (option row * Operator), (∀ db, OpNext tfuel n op db = (r, db)) ∧ ∀ p, r = Ok p → p.1 = None.

Lemma idle_union i cur seen : idle (unionOp [] i cur seen).
Proof. intros [|n]; [by exists OutOfFuel|]. eexists (Ok (None, _)). by split; [|intros p [= <-]]. Qed.

(** An operator that asks an idle one for its row first. *)
Lemma idle_ask child (k : option row * Operator → M DB (option row * Operator)) n :
  idle child → (∀ child', ∃ op, ∀ db, k (None, child') db = (Ok (None, op), db)) →
  ∃ r : res (option row * Operator), (∀ db, (OpNext tfuel n child ≫= k) db = (r, db)) ∧ ∀ p, r = Ok p → p.1 = None.
Proof.
  intros Hc Hk. destruct (Hc n) as (r & E & Hr). unfold mbind, M_bind. destruct r as [[o child']|e| |].
  - pose proof (Hr _ eq_refl) as Hn. cbn in Hn. subst o. destruct (Hk child') as (op & Eo).
    exists (Ok (None, op)). split; [intros db; by rewrite E|by intros p [= <-]].
  - exists (Err e). split; [intros db; by rewrite E|done].
  - exists Panic. split; [intros db; by rewrite E|done].
  - exists OutOfFuel. split; [intros db; by rewrite E|done].
Qed.

Lemma idle_limit child n count : idle child → idle (limitOp child n count).
Proof.
  intros Hc [|k]; [by exists OutOfFuel|]. cbn [OpNext]. case_decide; [|apply idle_ask; eauto].
  eexists (Ok (None, _)). by split; [|intros p [= <-]].
Qed.

Lemma idle_project child idxs : idle child → idle (projectOp child idxs).
Proof. intros Hc [|k]; [by exists OutOfFuel|]. cbn [OpNext]. apply idle_ask; eauto. Qed.

Lemma drain_idle op n k : idle op → ∃ r, ∀ db, drain tfuel n k op db = (r, db).
Proof.
  intros Hop. destruct n as [|n]; [by exists OutOfFuel|]. cbn [drain]. destruct (Hop k) as (r & E & Hr). unfold mbind, M_bind.
  destruct r as [[o op']|e| |].
  - pose proof (Hr _ eq_refl) as Hn. cbn in Hn. subst o. exists (Ok []). intros db. by rewrite E.
  - exists (Err e). intros db. by rewrite E.
  - exists Panic. intros db. by rewrite E.
  - exists OutOfFuel. intros db. by rewrite E.
Qed.

Lemma execute_nothing snap s i cols idxs : alike db1 db2 (execute gid tfuel fuel snap (Project (with_limit s (Union [] i)) cols idxs)).
Proof.
  assert (∃ op, idle op ∧ ∀ db, execute gid tfuel fuel snap (Project (with_limit s (Union [] i)) cols idxs) db = drain tfuel fuel fuel op db) as (op & Hop & E).
  { unfold with_limit. case_decide; eexists (projectOp _ idxs); (split; [|reflexivity]); apply idle_project; [apply idle_limit|]; apply idle_union. }
  destruct (drain_idle op fuel fuel Hop) as (r & Er). right. exists r. by rewrite !E, !Er.
Qed.

Lemma collect_alike s : ∃ r, collectTablesForSelect s db1 = (r, db1) ∧ collectTablesForSelect s db2 = (r, db2).
Proof using Ho.
  unfold collectTablesForSelect. M_run. eexists. split; [done|]. f_equal. generalize (allTableRefs s) ([] : list Table) (∅ : StatsDB).
  intros refs. induction refs as [|ref refs IH]; intros ts m; cbn [collect_refs]; [done|].
  rewrite (od_cat _ _ _ _ Ho), (od_stats _ _ _ _ Ho). by destruct (GetTable _ _).
Qed.

Lemma execute_alike snap s ref tbl m plan : From s = [ref] → Joins s = [] → plain_where (Where s) → TName tbl = nm →
  Plan s [tbl] m = Ok plan → alike db1 db2 (execute gid tfuel fuel snap plan).
Proof using Ho.
  intros Hf Hj Hw Hn. unfold Plan. rewrite Hf, Hj. intros Hp.
  destruct (planSingleTable_opens _ _ _ _ Hw Hp) as [Hfirst|(i & cols & idxs & ->)]; [|apply execute_nothing].
  apply execute_opens. by rewrite <-Hn.
Qed.

Lemma run_plan_alike s snap ref tbl : From s = [ref] → Joins s = [] → plain_where (Where s) →
  GetTable (RName ref) (cat db1) = Some tbl → TName tbl = nm → alike db1 db2 (run_plan gid fuel tfuel s snap).
Proof using Ho.
  intros Hf Hj Hw Ht Hn. destruct (collect_one db1 tbl s ref Hf Hj Ht) as (m & E1). destruct (collect_alike s) as (r & E1' & E2).
  rewrite E1 in E1'. injection E1' as <-. unfold alike, run_plan. rewrite !(M_bind_Ok _ _ _ _ _ E1), !(M_bind_Ok _ _ _ _ _ E2). cbn beta iota.
  destruct (Plan s [tbl] (Some m)) as [plan|e| |] eqn:Ep; [|right; by eexists..].
  rewrite !(M_bind_Ok (lift (Ok plan)) _ _ _ _ eq_refl). apply alike_bind; [by eapply execute_alike|].
  intros rows. destruct plan; auto with alike.
Qed.

Lemma select_alike s snap ref tbl : From s = [ref] → Joins s = [] → plain_where (Where s) →
  GetTable (RName ref) (cat db1) = Some tbl → TName tbl = nm → alike db1 db2 (execSelectWithSnap gid fuel tfuel s snap).
Proof using Ho.
  intros Hf Hj Hw Ht Hn. unfold execSelectWithSnap. destruct (selectHasAgg s).
  - apply alike_bind; [by eapply run_plan_alike|]. intros [rawRows rawSchema].
    apply alike_bind; [auto with alike|]. intros [outRows outCols]. auto with alike.
  - apply alike_bind.
    + unfold plan_stmt. case_decide; by eapply run_plan_alike.
    + intros [rows colNames]. auto with alike.
Qed.

(** A SELECT on one table answers from [db1] as from [db2]. *)
Lemma execSelect_alike depth s ref tbl : From s = [ref] → Joins s = [] → plain_where (Where s) → flat_where (Where s) → flat_where (Having s) →
  GetTable (RName ref) (cat db1) = Some tbl → TName tbl = nm → alike db1 db2 (execSelect gid fuel tfuel depth s).
Proof using Ho.
  intros Hf Hj Hw Hfw Hfh Ht Hn. unfold execSelect. pose proof (od_snap _ _ _ _ Ho) as Es. unfold statement_snap, get_state in *.
  unfold alike, mbind, M_bind, mret, M_ret in *. cbn [fst] in Es. injection Es as ->.
  destruct depth as [|depth]; [right; by eexists|]. cbn [execSelectFlattened].
  pose proof (λ q db, flatten_flat (execSelectFlattened gid fuel tfuel depth q) (Where s) db Hfw) as E1.
  pose proof (λ q db, flatten_flat (execSelectFlattened gid fuel tfuel depth q) (Having s) db Hfh) as E2.
  unfold mbind, M_bind. rewrite !E1, !E2. by eapply select_alike.
Qed.
End opening.
