(* ===== verification/Dml.v ===== *)
(** * Dml: INSERT, DELETE and UPDATE ([src/executor/executor.go],
    [src/executor/dml.go])

    Every statement changes its B-trees through [TxPager]s: those of the
    goroutine's transaction, or, outside a transaction, fresh ones that it
    commits itself. *)
From S2P Require Import Prelude Storage Store Mvcc TxPager BufferPool Node BTree Cursor Wal.
From S2P Require Import GoLib Catalog Rows Ast Eval Stats Planner Db Operators Select.
From stdpp Require Import options.
Local Open Scope Z_scope.

(** [values[i] = v] *)
Definition go_set {A} (i : nat) (v : A) (l : list A) : res (list A) :=
  if decide (i < length l)%nat then Ok (<[i := v]> l) else Panic.

(** A row found by the scan of a DELETE or UPDATE. *)
Record scannedRow : Type := mkScanned { pk : Z; values : row }.

Record updatePlan : Type := mkUpdate { colIdx : nat; newVal : Value }.

(** The column of an index that a row has an entry for, and the entry's key. *)
Definition index_key `{Unicode} (tbl : Table) (vals : row) (idx : IndexDef) : res (option (nat * Z)) :=
  match ColIndex (IColumn idx) tbl with
  | None => Ok None
  | Some i => v ← go_index vals i; Ok (if decide (VType v ≠ TypeInt) then None else Some (i, IntVal v))
  end.

(** The value slot of an index entry. *)
Definition index_slot (pk : Z) : list byte := put_u64 0 pk (zeros ValueSize).

(** The message of a changed row count. *)
Definition count_message (n : nat) (what : string) : Result :=
  message (fmt_d (Z.of_nat n) +:+ " row(s) " +:+ what)%string.

(** ** The lazily opened indexes of a statement *)

(** [cache] of the provider, and the pagers [idxPagerCache] of a statement
    outside a transaction. *)
Record Provider : Type := mkProvider { p_cache : gmap string Tree; p_pagers : gmap string nat }.

Definition on_db {A} (m : M DB A) : M (DB * Provider) A := λ s,
  let '(r, db) := m s.1 in (r, (db, s.2)).
Definition on_prov (f : Provider → Provider) : M (DB * Provider) unit := modify (λ s, (s.1, f s.2)).
Definition set_cache (name : string) (t : Tree) (p : Provider) : Provider :=
  mkProvider (<[name := t]> (p_cache p)) (p_pagers p).
Definition set_pager (name : string) (ptr : nat) (p : Provider) : Provider :=
  mkProvider (p_cache p) (<[name := ptr]> (p_pagers p)).

(** A computation with an empty provider; its outcome is a value, so that the
    provider can still be undone. *)
Definition with_prov {A} (m : M (DB * Provider) A) : M DB (res A * Provider) := λ db,
  let '(r, (db, p)) := m (db, mkProvider ∅ ∅) in (Ok (r, p), db).

Section dml.
Context `{Unicode} `{Math} `{MapOrder} (gid : Z) (fuel tfuel : nat).

(** The [open] of a provider; [auto]: outside a transaction. *)
Definition idx_open (auto : bool) (indexName : string) : M (DB * Provider) Tree :=
  if auto then
    let lower := ToLower indexName in
    s ← get_state;
    match p_pagers s.2 !! lower with
    | Some ptr => on_db (open_tree (HTx ptr))
    | None =>
        fid ← on_db (wrap "open index %q: %w" [GStr indexName] (getOrOpenIndex indexName));
        ptr ← on_db (newTxPager fid);
        _ ← on_prov (set_pager lower ptr);
        on_db (open_tree (HTx ptr))
    end
  else
    ptr ← on_db (txPagerForIndex gid indexName);
    on_db (open_tree (HTx ptr)).

Definition prov_get (auto : bool) (indexName : string) : M (DB * Provider) Tree :=
  let lower := ToLower indexName in
  s ← get_state;
  match p_cache s.2 !! lower with
  | Some t => mret t
  | None => t ← idx_open auto indexName; _ ← on_prov (set_cache lower t); mret t
  end.

(** A call on an index tree of the provider: the tree is shared by pointer, so
    its new root goes back to the cache. *)
Definition on_index {A} (indexName : string) (t : Tree) (fmt : string) (args : list garg)
    (m : ∀ S : Type, PageStore S → M (BTree S) A) : M (DB * Provider) (A * Tree) :=
  '(a, t) ← on_db (wrap fmt args (on_bt t m));
  _ ← on_prov (set_cache (ToLower indexName) t);
  mret (a, t).

(** ** The scan *)

Fixpoint scan_loop (n : nat) (ps : Handle) (tbl : Table) (snap : Snapshot) (where_ : option WhereClause)
    (c : Cursor) : M DB (list scannedRow) :=
  match n with
  | O => lift OutOfFuel
  | Datatypes.S n =>
      '(e, c) ← wrap "scan: %w" [] (on_store ps (λ S _, Cursor.Next (S := S) c));
      match e with
      | None => mret []
      | Some e =>
          v ← lift (visible_row snap tbl (Node.Value e));
          match v with
          | None => scan_loop n ps tbl snap where_ c
          | Some vals =>
              b ← lift (matchesWhere vals tbl where_);
              rows ← scan_loop n ps tbl snap where_ c;
              mret (if (b : bool) then mkScanned (Key e) vals :: rows else rows)
          end
      end
  end.

Definition scanVisible (bt : Tree) (tbl : Table) (snap : Snapshot) (where_ : option WhereClause)
    : M DB (list scannedRow) :=
  '(c, _) ← wrap "scan: open cursor: %w" [] (on_bt bt (λ S _, NewCursor (S := S) tfuel 0 MaxUint64));
  scan_loop fuel (t_store bt) tbl snap where_ c.

(** ** DELETE *)

Fixpoint delete_index_entries (auto : bool) (tbl : Table) (vals : row) (idxs : list IndexDef)
    : M (DB * Provider) unit :=
  match idxs with
  | [] => mret tt
  | idx :: idxs =>
      k ← lift (index_key tbl vals idx);
      _ ← match k with
          | None => mret tt
          | Some (_, idxKey) =>
              t ← prov_get auto (IName idx);
              _ ← on_index (IName idx) t "delete: remove index %s=%d: %w" [GStr (IColumn idx); GInt idxKey]
                    (λ S _, Delete (S := S) tfuel idxKey);
              mret tt
          end;
      delete_index_entries auto tbl vals idxs
  end.

Fixpoint delete_rows (auto : bool) (tbl : Table) (xid : Z) (rows : list scannedRow) (bt : Tree)
    : M (DB * Provider) unit :=
  match rows with
  | [] => mret tt
  | r :: rows =>
      '(raw, bt) ← on_db (wrap "delete: search pk=%d: %w" [GInt (pk r)]
                            (on_bt bt (λ S _, Search (S := S) tfuel (pk r))));
      match raw with
      | None => delete_rows auto tbl xid rows bt
      | Some raw =>
          '(_, bt) ← on_db (wrap "delete: write xmax pk=%d: %w" [GInt (pk r)]
                              (on_bt bt (λ S _, Insert (S := S) tfuel (pk r) (put_u32 4 xid raw))));
          _ ← delete_index_entries auto tbl (values r) (Indexes tbl);
          delete_rows auto tbl xid rows bt
      end
  end.

Definition applyDelete (auto : bool) (bt : Tree) (tbl : Table) (xid : Z) (rows : list scannedRow)
    : M (DB * Provider) nat :=
  _ ← delete_rows auto tbl xid rows bt; mret (length rows).

(** ** UPDATE *)

Fixpoint build_plans (tbl : Table) (pkIdx : option nat) (assignments : list Assignment)
    (plans : list updatePlan) : res (list updatePlan) :=
  match assignments with
  | [] => Ok plans
  | a :: assignments =>
      match ColIndex (AColumn a) tbl with
      | None => Err (Errorf "column %q does not exist in table %q" [GStr (AColumn a); GStr (TName tbl)])
      | Some i =>
          if decide (pkIdx = Some i) then
            Err (Errorf "cannot update primary key column %q" [GStr (AColumn a)])
          else
            c ← go_index (Columns tbl) i;
            if decide (VType (AValue a) ≠ CType c) then
              Err (Errorf "column %q expects %s, got %s"
                     [GStr (AColumn a); GStr (DataType_String (CType c)); GStr (DataType_String (VType (AValue a)))])
            else build_plans tbl pkIdx assignments (plans ++ [mkUpdate i (AValue a)])
      end
  end.

Definition buildUpdatePlans (tbl : Table) (assignments : list Assignment) : res (list updatePlan) :=
  build_plans tbl (PrimaryKeyIndex tbl) assignments [].

Fixpoint assign (plans : list updatePlan) (vals : row) : res row :=
  match plans with
  | [] => Ok vals
  | p :: plans => vals ← go_set (colIdx p) (newVal p) vals; assign plans vals
  end.

Fixpoint update_index_entries (auto : bool) (tbl : Table) (pk : Z) (old new : row) (idxs : list IndexDef)
    : M (DB * Provider) unit :=
  match idxs with
  | [] => mret tt
  | idx :: idxs =>
      k ← lift (index_key tbl old idx);
      _ ← match k with
          | None => mret tt
          | Some (i, oldKey) =>
              v ← lift (go_index new i);
              let newKey := IntVal v in
              if decide (oldKey = newKey) then mret tt
              else
                t ← prov_get auto (IName idx);
                '(_, t) ← on_index (IName idx) t "update: remove old index %s=%d: %w"
                            [GStr (IColumn idx); GInt oldKey] (λ S _, Delete (S := S) tfuel oldKey);
                _ ← on_index (IName idx) t "update: insert new index %s=%d: %w"
                      [GStr (IColumn idx); GInt newKey] (λ S _, Insert (S := S) tfuel newKey (index_slot pk));
                mret tt
          end;
      update_index_entries auto tbl pk old new idxs
  end.

Fixpoint update_rows (auto : bool) (tbl : Table) (xid : Z) (rows : list scannedRow) (plans : list updatePlan)
    (bt : Tree) : M (DB * Provider) unit :=
  match rows with
  | [] => mret tt
  | r :: rows =>
      newVals ← lift (assign plans (values r));
      newRaw ← lift (encodeRow tbl newVals xid);
      '(_, bt) ← on_db (wrap "update: write pk=%d: %w" [GInt (pk r)]
                          (on_bt bt (λ S _, Insert (S := S) tfuel (pk r) newRaw)));
      _ ← update_index_entries auto tbl (pk r) (values r) newVals (Indexes tbl);
      update_rows auto tbl xid rows plans bt
  end.

Definition applyUpdate (auto : bool) (bt : Tree) (tbl : Table) (xid : Z) (rows : list scannedRow)
    (plans : list updatePlan) : M (DB * Provider) nat :=
  _ ← update_rows auto tbl xid rows plans bt; mret (length rows).

(** ** Inside a transaction *)

(** [deleteTx] and [updateTx]: the scan and then [apply]. *)
Definition change_tx (tableName : string) (tbl : Table) (where_ : option WhereClause) (tx : activeTx)
    (apply : Tree → list scannedRow → M (DB * Provider) nat) : M DB nat :=
  ptr ← txPagerForTable gid tableName;
  bt ← wrap "open B-Tree: %w" [] (open_tree (HTx ptr));
  rows ← scanVisible bt tbl (tx_snap tx) where_;
  '(r, _) ← with_prov (apply bt rows);
  lift r.

Definition deleteTx (tbl : Table) (tableName : string) (where_ : option WhereClause) (tx : activeTx)
    : M DB Result :=
  n ← change_tx tableName tbl where_ tx (λ bt rows, applyDelete false bt tbl (tx_xid tx) rows);
  mret (count_message n "deleted").

Definition updateTx (tbl : Table) (tableName : string) (where_ : option WhereClause) (tx : activeTx)
    (plans : list updatePlan) : M DB Result :=
  n ← change_tx tableName tbl where_ tx (λ bt rows, applyUpdate false bt tbl (tx_xid tx) rows plans);
  mret (count_message n "updated").

(** ** Outside a transaction *)

Definition log_rollback (xid : Z) : M DB unit := ignore_err (on_wal (AppendRollback xid)).
Definition drop_pager (ptr : nat) : M DB unit := ignore_err (on_tx ptr Rollback).
Definition mark_committed (xid : Z) : M DB unit := modify (λ db, set_txMgr (MarkCommitted xid (txMgr db)) db).

(** [pagers] with the entries [pagers["idx:"+name] = p]. *)
Definition add_idx_pagers (cache pagers : gmap string nat) : gmap string nat :=
  foldl (λ m kp, <["idx:" +:+ kp.1 := kp.2]> m)%string pagers (map_to_list cache).

(** [autoCommitDelete] and [autoCommitUpdate] *)
Definition change_auto (tableName : string) (tbl : Table) (where_ : option WhereClause)
    (apply : Z → Tree → list scannedRow → M (DB * Provider) nat) : M DB nat :=
  xid ← on_wal AllocXID;
  db ← get_state;
  let snap := TakeSnapshot XIDNone (txMgr db) in
  fid ← on_error (log_rollback xid) (getOrOpenTable tableName);
  ptr ← newTxPager fid;
  bt ← on_error (_ ← drop_pager ptr; log_rollback xid) (wrap "open B-Tree: %w" [] (open_tree (HTx ptr)));
  let pagers := {[ToLower tableName := ptr]} in
  let undo cache := _ ← rollbackAll pagers; rollbackAll cache in
  rows ← on_error (_ ← undo ∅; log_rollback xid) (scanVisible bt tbl snap where_);
  '(r, p) ← with_prov (apply xid bt rows);
  let cache := p_pagers p in
  n ← on_error (_ ← undo cache; log_rollback xid) (lift r);
  let pagers' := add_idx_pagers cache pagers in
  _ ← on_error (_ ← rollbackAll pagers'; rollbackAll cache) (commitTx xid pagers');
  _ ← mark_committed xid;
  mret n.

Definition autoCommitDelete (tbl : Table) (tableName : string) (where_ : option WhereClause) : M DB Result :=
  n ← change_auto tableName tbl where_ (λ xid bt rows, applyDelete true bt tbl xid rows);
  mret (count_message n "deleted").

Definition autoCommitUpdate (tbl : Table) (tableName : string) (where_ : option WhereClause)
    (plans : list updatePlan) : M DB Result :=
  n ← change_auto tableName tbl where_ (λ xid bt rows, applyUpdate true bt tbl xid rows plans);
  mret (count_message n "updated").

Definition no_table (name : string) : error := Errorf "table %q does not exist" [GStr name].

Definition execDelete (tableName : string) (where_ : option WhereClause) : M DB Result :=
  db ← get_state;
  match GetTable tableName (cat db) with
  | None => fail (no_table tableName)
  | Some tbl =>
      match goroutineTx gid db with
      | Some tx => deleteTx tbl tableName where_ tx
      | None => autoCommitDelete tbl tableName where_
      end
  end.

Definition execUpdate (tableName : string) (assignments : list Assignment) (where_ : option WhereClause)
    : M DB Result :=
  db ← get_state;
  match GetTable tableName (cat db) with
  | None => fail (no_table tableName)
  | Some tbl =>
      plans ← lift (buildUpdatePlans tbl assignments);
      match goroutineTx gid db with
      | Some tx => updateTx tbl tableName where_ tx plans
      | None => autoCommitUpdate tbl tableName where_ plans
      end
  end.

(** ** INSERT *)

(** The type check of the values, in column order. *)
Fixpoint check_types (cols : list ColumnDef) (vals : row) : res unit :=
  match cols, vals with
  | c :: cols, v :: vals =>
      if decide (VType v ≠ CType c) then
        Err (Errorf "column %q expects %s, got %s"
               [GStr (CName c); GStr (DataType_String (CType c)); GStr (DataType_String (VType v))])
      else check_types cols vals
  | _, _ => Ok tt
  end.

(** The unique check and the insertion into one index tree. *)
Definition insert_entry (idx : IndexDef) (idxKey pk : Z) (t : Tree) : M DB unit :=
  found ← (λ db, let '(r, db) := on_bt t (λ S _, Search (S := S) tfuel idxKey) db in
                 match r with
                 | Ok (v, t) => (Ok (bool_decide (is_Some v), t), db)
                 | Err _ => (Ok (false, t), db)
                 | Panic => (Panic, db)
                 | OutOfFuel => (OutOfFuel, db)
                 end);
  let '(found, t) := found in
  if (found : bool) then
    fail (Errorf "unique constraint violated: index %q already has an entry for %s=%d"
            [GStr (IName idx); GStr (IColumn idx); GInt idxKey])
  else
    _ ← wrap "insert into index %q: %w" [GStr (IName idx)]
          (on_bt t (λ S _, Insert (S := S) tfuel idxKey (index_slot pk)));
    mret tt.

Fixpoint insertIntoIndexes (tbl : Table) (vals : row) (pk : Z) (idxs : list IndexDef) : M DB unit :=
  match idxs with
  | [] => mret tt
  | idx :: idxs =>
      k ← lift (index_key tbl vals idx);
      _ ← match k with
          | None => mret tt
          | Some (_, idxKey) =>
              ptr ← wrap "open index %q in tx: %w" [GStr (IName idx)] (txPagerForIndex gid (IName idx));
              t ← wrap "open index B-Tree %q: %w" [GStr (IName idx)] (open_tree (HTx ptr));
              insert_entry idx idxKey pk t
          end;
      insertIntoIndexes tbl vals pk idxs
  end.

(** The index loop of [autoCommitInsert]; the pagers opened so far are undone
    when it fails. *)
Fixpoint insert_indexes (xid : Z) (tbl : Table) (vals : row) (pk : Z) (idxs : list IndexDef)
    (pagers : gmap string nat) : M DB (gmap string nat) :=
  match idxs with
  | [] => mret pagers
  | idx :: idxs =>
      k ← lift (index_key tbl vals idx);
      match k with
      | None => insert_indexes xid tbl vals pk idxs pagers
      | Some (_, idxKey) =>
          fid ← on_error (_ ← rollbackAll pagers; log_rollback xid)
                  (wrap "open index %q: %w" [GStr (IName idx)] (getOrOpenIndex (IName idx)));
          ptr ← newTxPager fid;
          let undo := _ ← rollbackAll pagers; _ ← drop_pager ptr; log_rollback xid in
          t ← on_error undo (wrap "open index B-Tree %q: %w" [GStr (IName idx)] (open_tree (HTx ptr)));
          _ ← on_error undo (insert_entry idx idxKey pk t);
          insert_indexes xid tbl vals pk idxs (<["idx:" +:+ ToLower (IName idx) := ptr]>%string pagers)
      end
  end.

Definition one_row : Result := message "1 row inserted".

Definition autoCommitInsert (tbl : Table) (tableName : string) (key : Z) (vals : row) : M DB Result :=
  xid ← on_wal AllocXID;
  encoded ← lift (encodeRow tbl vals xid);
  fid ← on_error (log_rollback xid) (getOrOpenTable tableName);
  ptr ← newTxPager fid;
  let undo := _ ← drop_pager ptr; log_rollback xid in
  bt ← on_error undo (wrap "open B+ Tree: %w" [] (open_tree (HTx ptr)));
  _ ← on_error undo (wrap "insert: %w" [] (on_bt bt (λ S _, Insert (S := S) tfuel key encoded)));
  pagers ← insert_indexes xid tbl vals key (Indexes tbl) {[ToLower tableName := ptr]};
  _ ← on_error (rollbackAll pagers) (commitTx xid pagers);
  _ ← mark_committed xid;
  mret one_row.

Definition execInsert (tableName : string) (vals : row) : M DB Result :=
  db ← get_state;
  match GetTable tableName (cat db) with
  | None => fail (no_table tableName)
  | Some tbl =>
      if decide (length vals ≠ length (Columns tbl)) then
        fail (Errorf "table %q has %d columns but %d values provided"
                [GStr (TName tbl); GInt (Z.of_nat (length (Columns tbl))); GInt (Z.of_nat (length vals))])
      else
        _ ← lift (check_types (Columns tbl) vals);
        match PrimaryKeyIndex tbl with
        | None => fail (Errorf "table %q has no primary key column" [GStr (TName tbl)])
        | Some pkIdx =>
            v ← lift (go_index vals pkIdx);
            let key := IntVal v in
            match goroutineTx gid db with
            | Some tx =>
                encoded ← lift (encodeRow tbl vals (tx_xid tx));
                ptr ← txPagerForTable gid tableName;
                bt ← wrap "open B+ Tree: %w" [] (open_tree (HTx ptr));
                _ ← wrap "insert: %w" [] (on_bt bt (λ S _, Insert (S := S) tfuel key encoded));
                _ ← insertIntoIndexes tbl vals key (Indexes tbl);
                mret one_row
            | None => autoCommitInsert tbl tableName key vals
            end
        end
  end.
End dml.
