(* ===== verification/Exec.v ===== *)
(** * Exec: statements, opening and closing ([src/executor/executor.go])

    [Exec] parses a statement and dispatches it; [Open] recovers a directory and
    builds the state, [Close] gives the directory back.  The locks of the code
    are not modelled: every call is one step of the goroutine [gid]. *)
From S2P Require Import Prelude Disk Store Pager Mvcc TxPager BufferPool BTree Wal GoLib.
From S2P Require Import Catalog Rows Ast Parser Stats Planner Db Select Dml.
From stdpp Require Import options.
Local Open Scope Z_scope.

(** What a directory holds while no database is open on it. *)
Record Image : Type := mkImage {
  i_dir : directory; i_wal : list byte; i_catalog : option (list byte); i_stats : option (list byte) }.

Definition db_image (db : DB) : Image :=
  mkImage (dir db) (f_bytes (f (wal db))) (Catalog.file (cat db)) (stats_file db).

(** [%q] of an identifier: it has no character that is escaped. *)
Definition quote : string := String "034"%char EmptyString.
Definition fmt_q (s : string) : string := (quote +:+ s +:+ quote)%string.

Section exec.
Context `{Unicode} `{Math} `{MapOrder} (growcap : nat → nat) (gid : Z) (fuel tfuel depth : nat).

(** ** Transaction control *)

Definition execBegin : M DB Result :=
  db ← get_state;
  if InTransaction gid db then
    fail (Errorf "transaction already in progress; COMMIT or ROLLBACK first" [])
  else
    xid ← wrap "begin: %w" [] (on_wal AllocXID);
    _ ← modify (λ db, setGoroutineTx gid (mkActiveTx xid (TakeSnapshot xid (txMgr db)) ∅) db);
    mret (message "BEGIN").

Definition no_transaction : error := Errorf "no active transaction" [].

Definition execCommit : M DB Result :=
  db ← get_state;
  match goroutineTx gid db with
  | None => fail no_transaction
  | Some tx =>
      _ ← modify (clearGoroutineTx gid);
      _ ← wrap "commit: %w" [] (commitTx (tx_xid tx) (tx_pagers tx));
      _ ← mark_committed (tx_xid tx);
      mret (message "COMMIT")
  end.

Definition execRollback : M DB Result :=
  db ← get_state;
  match goroutineTx gid db with
  | None => fail no_transaction
  | Some tx =>
      _ ← modify (clearGoroutineTx gid);
      _ ← rollbackTx tx;
      mret (message "ROLLBACK")
  end.

(** ** CREATE TABLE, CREATE INDEX, DROP INDEX *)

(** A file opened by a pager of its own, given an empty B-tree and closed. *)
Definition create_file (k : Registry) (name : string) (open_fmt init_fmt : string) (init_args : list garg)
    : M DB unit :=
  db ← get_state;
  match Pager.Open (read_file k name db) with
  | (Ok pg, _) =>
      match wrap init_fmt init_args BTree.Create pg with
      | (Ok _, pg) =>
          let '(r, pg) := Pager.Close pg in
          _ ← modify (write_file k name (f_bytes (Pager.file pg)));
          lift r
      | (Err e, pg) =>
          let '(_, pg) := Pager.Close pg in
          _ ← modify (write_file k name (f_bytes (Pager.file pg)));
          fail e
      | (Panic, pg) => lift Panic
      | (OutOfFuel, pg) => lift OutOfFuel
      end
  | (r, fl) =>
      _ ← modify (write_file k name (f_bytes fl));
      lift (wrap_err open_fmt [] (match r with Err e => Err e | Panic => Panic | _ => OutOfFuel end))
  end.

Definition execCreate (name : string) (cols : list ColumnDef) : M DB Result :=
  let tbl := mkTable name cols [] in
  _ ← lift (validateSchema tbl);
  _ ← create_file OpenTbls name "create table file: %w" "init B+ Tree for %q: %w" [GStr name];
  _ ← on_cat (Catalog.CreateTable (map_order 5) tbl);
  mret (message ("table " +:+ fmt_q name +:+ " created")%string).

Definition execCreateIndex (indexName tableName column : string) : M DB Result :=
  _ ← on_cat (Catalog.CreateIndex growcap (map_order 5) (mkIndex indexName tableName column));
  _ ← create_file OpenIdxs indexName "create index file: %w" "init B+ Tree for index %q: %w" [GStr indexName];
  mret (message ("index " +:+ fmt_q indexName +:+ " created on " +:+ tableName +:+ "(" +:+ column +:+ ")")%string).

Definition execDropIndex (indexName : string) : M DB Result :=
  db ← get_state;
  let key := ToLower indexName in
  _ ← match openIdxs db !! key with
      | Some fid => close_file OpenIdxs key fid
      | None => mret tt
      end;
  _ ← on_cat (Catalog.DropIndex (map_order 5) indexName);
  _ ← modify (λ db, set_dir (delete (file_path OpenIdxs indexName) (dir db)) db);
  mret (message ("index " +:+ fmt_q indexName +:+ " dropped")%string).

(** ** ANALYZE *)

(** [Set] and [Save] of the statistics. *)
Definition save_stats (ts : TableStats) : M DB unit :=
  modify (λ db,
    let m := Set_ ts (statsDB db) in
    set_stats m (Some (Stats.serialize (map_order 6 (map_to_list m).*2))) db).

Definition execAnalyze (name : string) : M DB Result :=
  db ← get_state;
  match GetTable name (cat db) with
  | None => fail (no_table name)
  | Some tbl =>
      fid ← getOrOpenTable name;
      ts ← wrap "analyze %q: %w" [GStr name] (on_store (HBuf fid) (λ S _, Collect (S := S) fuel tbl));
      _ ← save_stats ts;
      mret (message ("analyzed " +:+ fmt_q name +:+ ": " +:+ fmt_d (RowCount ts) +:+ " rows")%string)
  end.

(** ** [Exec] *)

Definition exec_statement (stmt : Statement) : M DB Result :=
  match stmt with
  | SelectStatement s => execSelect gid fuel tfuel depth s
  | ExplainStmt s => execExplain s
  | BeginStmt => execBegin
  | CommitStmt => execCommit
  | RollbackStmt => execRollback
  | InsertStmt name vals => execInsert gid tfuel name vals
  | DeleteStmt name w =>
      w ← flattenDMLSubqueries gid fuel tfuel depth w;
      execDelete gid fuel tfuel name w
  | UpdateStmt name assignments w =>
      w ← flattenDMLSubqueries gid fuel tfuel depth w;
      execUpdate gid fuel tfuel name assignments w
  | CreateTableStmt name cols => execCreate name cols
  | CreateIndexStmt indexName tableName column => execCreateIndex indexName tableName column
  | DropIndexStmt indexName => execDropIndex indexName
  | AnalyzeStmt name => execAnalyze name
  end.

Definition Exec (sql : string) : M DB Result :=
  stmt ← lift (wrap_err "parse error: %w" [] (Parse sql));
  exec_statement stmt.

(** ** Opening and closing *)

(** [filepath.Join(dir, name)], and the order in which recovery visits its maps. *)
Context (join : string → string)
  (sched : images → list (list byte * list (Z * list byte))).

Definition Open (img : Image) : res DB * Image :=
  let w := Wal.Open (i_wal img) in
  let '(r, d) := Recover sched w (i_dir img) in
  let img := mkImage d (f_bytes (f w)) (i_catalog img) (i_stats img) in
  (_ ← wrap_err "WAL recovery: %w" [] r;
   c ← wrap_err "load catalog: %w" [] (Load (join "catalog") (i_catalog img));
   sdb ← wrap_err "load stats: %w" [] (LoadStatsDB (join "stats") (i_stats img));
   xids ← wrap_err "restore committed XIDs: %w" [] (CommittedXIDs w);
   Ok (mkDB d c sdb (i_stats img) w (BufferPool.New DefaultCapacity)
         (foldl (λ m x, MarkCommitted x m) Mvcc.New (elements xids)) ∅ ∅ ∅ []),
   img).

Fixpoint close_files (k : Registry) (l : list (string * Z)) : M DB unit :=
  match l with
  | [] => mret tt
  | (key, fid) :: l => _ ← close_file k key fid; close_files k l
  end.

Definition Close : M DB unit :=
  db ← get_state;
  _ ← match goroutineTx gid db with
      | Some tx => _ ← ignore_err (rollbackTx tx); modify (clearGoroutineTx gid)
      | None => mret tt
      end;
  db ← get_state;
  _ ← close_files OpenTbls (map_order 7 (map_to_list (openTbls db)));
  db ← get_state;
  _ ← close_files OpenIdxs (map_order 8 (map_to_list (openIdxs db)));
  modify (λ db, set_wal (Wal.Close (wal db)) db).
End exec.
