(* ===== verification/TxControl.v ===== *)
(** * TxControl: BEGIN, COMMIT and ROLLBACK as a state machine

    What the transaction statements of several goroutines do to the open
    transactions and to the set of committed transactions. *)
From S2P Require Import Prelude Store Mvcc TxPager BufferPool BTree Wal GoLib Catalog Ast Stats.
From S2P Require Import Db Select Dml Exec.
From stdpp Require Import options.
Local Open Scope Z_scope.

(** ** Calls that leave transactions and commits alone *)

Definition tx_state (db : DB) : gmap Z activeTx * TxManager := (txns db, txMgr db).

Definition keeps_txs {A} (m : M DB A) : Prop := ∀ db, tx_state (m db).2 = tx_state db.

Create HintDb txs.

Lemma keeps_ret {A} (a : A) : keeps_txs (mret a).
Proof. done. Qed.
Lemma keeps_bind {A B} (m : M DB A) (f : A → M DB B) : keeps_txs m → (∀ a, keeps_txs (f a)) → keeps_txs (m ≫= f).
Proof.
  intros Hm Hf db. specialize (Hm db). unfold mbind, M_bind. destruct (m db) as [[a| | |] db1]; cbn in *; try done.
  by rewrite Hf.
Qed.
Lemma keeps_wrap {A} fmt args (m : M DB A) : keeps_txs m → keeps_txs (wrap fmt args m).
Proof. intros Hm db. specialize (Hm db). unfold wrap. by destruct (m db). Qed.
Lemma keeps_ignore {A} (m : M DB A) : keeps_txs m → keeps_txs (ignore_err m).
Proof. intros Hm db. specialize (Hm db). unfold ignore_err. by destruct (m db) as [[] ?]. Qed.
Lemma keeps_on_wal {A} (m : M WAL A) : keeps_txs (on_wal m).
Proof. intros db. unfold on_wal. by destruct (m (wal db)). Qed.
Lemma keeps_on_tx {A} ptr (m : M (TxPager BufPager) A) : keeps_txs (on_tx ptr m).
Proof. intros db. unfold on_tx. destruct (txheap db !! ptr); [|done]. by destruct (m _). Qed.
#[local] Hint Resolve keeps_ret keeps_bind keeps_wrap keeps_ignore keeps_on_wal keeps_on_tx : txs.

Section keeps.
Context `{Unicode} `{MapOrder}.

Lemma keeps_log_pages xid name ps : keeps_txs (log_pages xid name ps).
Proof. induction ps; cbn [log_pages]; auto with txs. Qed.
#[local] Hint Resolve keeps_log_pages : txs.

Lemma keeps_log_pagers xid kps : keeps_txs (log_pagers xid kps).
Proof. induction kps as [|[key ptr] kps IH]; cbn [log_pagers]; auto with txs. Qed.

Lemma keeps_flush_pagers ptrs : keeps_txs (flush_pagers ptrs).
Proof. induction ptrs; cbn [flush_pagers]; auto with txs. Qed.

Lemma keeps_rollback_pagers ptrs : keeps_txs (rollback_pagers ptrs).
Proof. induction ptrs; cbn [rollback_pagers]; auto with txs. Qed.
#[local] Hint Resolve keeps_log_pagers keeps_flush_pagers keeps_rollback_pagers : txs.

Lemma keeps_commitTx xid pagers : keeps_txs (commitTx xid pagers).
Proof. unfold commitTx. auto 10 with txs. Qed.

Lemma keeps_rollbackTx tx : keeps_txs (rollbackTx tx).
Proof. unfold rollbackTx, rollbackAll. auto with txs. Qed.
End keeps.

(** ** The abstract machine *)

Inductive tx_cmd : Type := CBegin | CCommit | CRollback.

(** The open transaction of every goroutine, and the committed transactions. *)
Record Sessions : Type := mkSessions { active : gmap Z Z; committed_xs : gset Z }.

(** One command of goroutine [g], [io] being what the storage answered: the
    transaction id the log allocated for BEGIN, or [Some] when the flush of a
    COMMIT or the undo of a ROLLBACK went through.  The boolean tells whether the
    command succeeded.  A transaction ends with COMMIT and ROLLBACK even when
    they fail, and only a successful COMMIT makes it committed. *)
Inductive session_step (g : Z) (s : Sessions) : tx_cmd → option Z → bool → Sessions → Prop :=
  | ss_begin xid : active s !! g = None →
      session_step g s CBegin (Some xid) true (mkSessions (<[g := xid]> (active s)) (committed_xs s))
  | ss_begin_io : active s !! g = None → session_step g s CBegin None false s
  | ss_begin_nested io xid : active s !! g = Some xid → session_step g s CBegin io false s
  | ss_commit xid a : active s !! g = Some xid →
      session_step g s CCommit (Some a) true (mkSessions (delete g (active s)) ({[xid]} ∪ committed_xs s))
  | ss_commit_io xid : active s !! g = Some xid →
      session_step g s CCommit None false (mkSessions (delete g (active s)) (committed_xs s))
  | ss_commit_idle io : active s !! g = None → session_step g s CCommit io false s
  | ss_rollback xid a : active s !! g = Some xid →
      session_step g s CRollback (Some a) true (mkSessions (delete g (active s)) (committed_xs s))
  | ss_rollback_io xid : active s !! g = Some xid →
      session_step g s CRollback None false (mkSessions (delete g (active s)) (committed_xs s))
  | ss_rollback_idle io : active s !! g = None → session_step g s CRollback io false s.

(** A sequence of commands with the answers of the storage and the outcomes. *)
Inductive session_run : list (Z * tx_cmd) → list (option Z * bool) → Sessions → Sessions → Prop :=
  | sr_nil s : session_run [] [] s s
  | sr_cons g c cs io ok outs s s1 s2 :
      session_step g s c io ok s1 → session_run cs outs s1 s2 →
      session_run ((g, c) :: cs) ((io, ok) :: outs) s s2.

Section refine.
Context `{Unicode} `{MapOrder}.

Definition tx_command (g : Z) (c : tx_cmd) : M DB Result :=
  match c with CBegin => execBegin g | CCommit => execCommit g | CRollback => execRollback g end.

(** What the storage answers to the command in state [db]. *)
Definition storage_answer (g : Z) (c : tx_cmd) (db : DB) : option Z :=
  match c, goroutineTx g db with
  | CBegin, _ => match (AllocXID (wal db)).1 with Ok xid => Some xid | _ => None end
  | CCommit, Some tx =>
      if is_ok (commitTx (tx_xid tx) (tx_pagers tx) (clearGoroutineTx g db)).1 then Some 0 else None
  | CRollback, Some tx => if is_ok (rollbackTx tx (clearGoroutineTx g db)).1 then Some 0 else None
  | _, None => None
  end.

(** The commands one after the other, whatever becomes of each. *)
Fixpoint tx_commands (cs : list (Z * tx_cmd)) (db : DB) : list (option Z * bool) * DB :=
  match cs with
  | [] => ([], db)
  | (g, c) :: cs =>
      let '(r, db1) := tx_command g c db in
      let '(outs, db2) := tx_commands cs db1 in ((storage_answer g c db, is_ok r) :: outs, db2)
  end.

Definition sessions_of (db : DB) : Sessions := mkSessions (tx_xid <$> txns db) (committed (txMgr db)).

Lemma sessions_eq db db' : tx_state db' = tx_state db → sessions_of db' = sessions_of db.
Proof. unfold tx_state, sessions_of. by intros [= -> ->]. Qed.

Lemma sessions_clear g db : sessions_of (clearGoroutineTx g db) = mkSessions (delete g (active (sessions_of db))) (committed_xs (sessions_of db)).
Proof. unfold sessions_of. cbn. by rewrite fmap_delete. Qed.

Lemma sessions_idle g db : goroutineTx g db = None → active (sessions_of db) !! g = None.
Proof. unfold sessions_of, goroutineTx. cbn. rewrite lookup_fmap. by intros ->. Qed.

Lemma sessions_busy g db tx : goroutineTx g db = Some tx → active (sessions_of db) !! g = Some (tx_xid tx).
Proof. unfold sessions_of, goroutineTx. cbn. rewrite lookup_fmap. by intros ->. Qed.

Lemma sessions_begin g xid db db' sn ps : tx_state db' = tx_state db →
  sessions_of (setGoroutineTx g (mkActiveTx xid sn ps) db') =
  mkSessions (<[g := xid]> (active (sessions_of db))) (committed_xs (sessions_of db)).
Proof. intros Hk. rewrite <-(sessions_eq _ _ Hk). unfold sessions_of. cbn. by rewrite fmap_insert. Qed.

Lemma sessions_commit g xid db db' : tx_state db' = tx_state (clearGoroutineTx g db) →
  sessions_of (set_txMgr (MarkCommitted xid (txMgr db')) db') =
  mkSessions (delete g (active (sessions_of db))) ({[xid]} ∪ committed_xs (sessions_of db)).
Proof.
  intros Hk%sessions_eq. rewrite sessions_clear in Hk. unfold sessions_of in *. cbn in *.
  injection Hk as E1 E2. unfold MarkCommitted. cbn. by rewrite E1, E2.
Qed.

Lemma begin_step g db :
  session_step g (sessions_of db) CBegin (storage_answer g CBegin db) (is_ok (execBegin g db).1)
    (sessions_of (execBegin g db).2).
Proof.
  unfold execBegin, storage_answer. M_run. unfold InTransaction. destruct (goroutineTx g db) as [tx|] eqn:Eg.
  { rewrite bool_decide_eq_true_2 by eauto. econstructor. by apply sessions_busy. }
  apply sessions_idle in Eg. rewrite bool_decide_eq_false_2 by (by intros [? ?]).
  pose proof (keeps_on_wal AllocXID db) as Hk. unfold on_wal in *.
  destruct (AllocXID (wal db)) as [[xid| | |] w]; cbn [wrap_err fst snd is_ok] in *.
  { rewrite (sessions_begin _ _ _ _ _ _ Hk). by constructor. }
  all: rewrite (sessions_eq _ _ Hk); by constructor.
Qed.

Lemma commit_step g db :
  session_step g (sessions_of db) CCommit (storage_answer g CCommit db) (is_ok (execCommit g db).1)
    (sessions_of (execCommit g db).2).
Proof.
  unfold execCommit, storage_answer. M_run. destruct (goroutineTx g db) as [tx|] eqn:Eg.
  2: { constructor. by apply sessions_idle. }
  apply sessions_busy in Eg.
  pose proof (keeps_commitTx (tx_xid tx) (tx_pagers tx) (clearGoroutineTx g db)) as Hk.
  destruct (commitTx _ _ _) as [[[]| | |] db1]; cbn [wrap_err fst snd is_ok] in *.
  { unfold mark_committed, modify. cbn [fst snd is_ok]. rewrite (sessions_commit _ _ _ _ Hk). by constructor. }
  all: rewrite (sessions_eq _ _ Hk), sessions_clear; by econstructor.
Qed.

Lemma rollback_step g db :
  session_step g (sessions_of db) CRollback (storage_answer g CRollback db) (is_ok (execRollback g db).1)
    (sessions_of (execRollback g db).2).
Proof.
  unfold execRollback, storage_answer. M_run. destruct (goroutineTx g db) as [tx|] eqn:Eg.
  2: { constructor. by apply sessions_idle. }
  apply sessions_busy in Eg. pose proof (keeps_rollbackTx tx (clearGoroutineTx g db)) as Hk.
  destruct (rollbackTx tx _) as [[[]| | |] db1]; cbn [fst snd is_ok] in *;
    rewrite (sessions_eq _ _ Hk), sessions_clear; by econstructor.
Qed.

(** C16. BEGIN, COMMIT and ROLLBACK of any number of goroutines, in any interleaving
    and with any failures of the log, refine the abstract machine: a command
    succeeds exactly when the goroutine is in the right state and the storage
    answers, a goroutine has at most one transaction, BEGIN inside one and COMMIT
    or ROLLBACK outside one change nothing, goroutines do not affect each other,
    and the committed transactions are exactly those whose COMMIT succeeded. *)
Theorem tx_commands_refine cs db :
  session_run cs (tx_commands cs db).1 (sessions_of db) (sessions_of (tx_commands cs db).2).
Proof.
  revert db. induction cs as [|[g c] cs IH]; intros db; cbn [tx_commands]; [constructor|].
  assert (Hs : session_step g (sessions_of db) c (storage_answer g c db) (is_ok (tx_command g c db).1)
    (sessions_of (tx_command g c db).2)) by (destruct c; [apply begin_step|apply commit_step|apply rollback_step]).
  destruct (tx_command g c db) as [r db1]. specialize (IH db1).
  destruct (tx_commands cs db1) as [oks db2]. econstructor; [exact Hs|exact IH].
Qed.
End refine.
