(* ===== verification/Durability.v ===== *)
(** * Durability: a commit is atomic and durable across a crash

    [commitTx] ([src/executor/executor.go]) writes the transaction's pages and
    its commit record to the log, then flushes the pages to their files.  The
    device may stop after any number of writes to the log and to each file.  The
    bytes the files hold then ([crash_image]) are what [Open] recovers from. *)
From S2P Require Import Prelude Disk Storage Store Pager Mvcc TxPager BufferPool Node BTree Transaction.
From S2P Require Import Wal GoLib Catalog Rows Ast Stats Db Frame Sample Select Dml Exec.
From stdpp Require Import options.
Local Open Scope Z_scope.

(** ** The log on a failing device *)

(** A log whose file holds exactly the records [rs], on a device in any state. *)
Record log_holds (w : WAL) (rs : list Rec) : Prop := {
  lh_bytes : f_bytes (f w) = log_bytes rs;
  lh_count : records w = length rs;
  lh_wf : Forall rec_wf rs
}.

Definition healthy (w : WAL) : WAL := mkWAL (OpenFile (f_bytes (f w))) (records w) (nextLSN w) (nextXID w).

Lemma healthy_rep w rs : log_holds w rs → wal_rep (healthy w) rs.
Proof. intros [Hb Hc Hwf]. split; [done| |done|done]. exists []. by rewrite app_nil_r. Qed.

(** A record is appended in full or not at all; a healthy device appends it. *)
Lemma append_any w rs r : log_holds w rs → rec_wf r →
  ∃ res w', appendLocked r w = (res, w') ∧ nextLSN w' = nextLSN w ∧ nextXID w' = nextXID w ∧
    ((res = Ok tt ∧ log_holds w' (rs ++ [r])) ∨ (is_ok res = false ∧ log_holds w' rs)) ∧
    (file_ok (f w) → res = Ok tt ∧ file_ok (f w')).
Proof.
  intros Hw Hr. destruct (append_ok (healthy w) rs r (healthy_rep w rs Hw) Hr) as (w1 & E1 & Hrep & _ & _ & Hb1 & _).
  specialize (Hb1 (lh_bytes _ _ Hw)). destruct Hw as [Hb Hc Hwf].
  unfold appendLocked in *. cbn [healthy f records nextLSN nextXID] in E1. rewrite (WriteAt_ok _ _ _ (OpenFile_ok _)) in E1.
  injection E1 as <-. cbn [f healthy f_bytes OpenFile] in Hb1.
  assert (∀ w', log_holds w rs → f_bytes (f w') = f_bytes (f w) → records w' = records w → log_holds w' rs) as Hkeep.
  { intros w' [? ? ?] Eb Ec. by split; rewrite ?Eb, ?Ec. }
  unfold WriteAt, file_ok. destruct (f_open (f w)); cbn [negb].
  - destruct (f_credit (f w)) as [[|k]|]; eexists _, _; (split; [reflexivity|]); (split; [done|]); (split; [done|]).
    { split; [|by intros [_ ?]]. right. split; [done|]. by apply Hkeep. }
    all: split; [left; split; [done|]|by intros [_ ?]].
    all: split; cbn [f records f_bytes healthy] in *; [exact Hb1|rewrite length_app; cbn; lia|apply Hrep].
  - eexists _, _. do 3 (split; [reflexivity|]). split; [|by intros [? _]]. right. split; [done|]. by apply Hkeep.
Qed.

(** The calls a commit makes on the log. *)
Definition commit_op (o : log_op) : Prop := match o with LBegin => False | _ => log_op_wf o end.

Lemma log_step_any o w rs : log_holds w rs → commit_op o → 0 ≤ nextLSN w < 2 ^ 64 - 1 → is_u32 (nextXID w) →
  ∃ res w', log_step o w = (res, w') ∧ nextXID w' = nextXID w ∧ nextLSN w' = nextLSN w + 1 ∧
    ((res = Ok tt ∧ log_holds w' (rs ++ [log_rec (nextLSN w) (nextXID w) o])) ∨ (is_ok res = false ∧ log_holds w' rs)) ∧
    (file_ok (f w) → res = Ok tt ∧ file_ok (f w')).
Proof.
  intros Hw Ho Hl Hx. assert (u64 (nextLSN w + 1) = nextLSN w + 1) as EL by (apply Z.mod_small; lia).
  assert (log_op_wf o) as Ho' by (by destruct o).
  assert (rec_wf (log_rec (nextLSN w) (nextXID w) o)) as Hr by (apply log_rec_wf; [lia|done|done]).
  set (w1 := mkWAL (f w) (records w) (nextLSN w + 1) (nextXID w)).
  assert (log_holds w1 rs) as Hw1 by (destruct Hw; by split).
  destruct (append_any w1 rs _ Hw1 Hr) as (res & w' & E & EL' & EX' & Hcase).
  exists res, w'. split; [|split; [exact EX'|]; split; [exact EL'|exact Hcase]].
  destruct o; [done|..]; unfold log_step, AppendWrite, AppendCommit, AppendRollback, allocLSN; M_run; rewrite EL; exact E.
Qed.

(** A run of such calls writes all of its records, or fails and writes fewer. *)
Lemma log_run_any os w rs : log_holds w rs → Forall commit_op os →
  0 ≤ nextLSN w → nextLSN w + Z.of_nat (length os) < 2 ^ 64 → is_u32 (nextXID w) →
  ∃ res w' n, log_run os w = (res, w') ∧ log_holds w' (rs ++ take n (log_recs (nextLSN w) (nextXID w) os)) ∧
    ((res = Ok tt ∧ n = length os) ∨ (is_ok res = false ∧ (n < length os)%nat)) ∧
    (file_ok (f w) → res = Ok tt ∧ file_ok (f w') ∧ nextLSN w' = nextLSN w + Z.of_nat (length os) ∧ nextXID w' = nextXID w).
Proof.
  intros Hw Hos. revert w rs Hw. induction Hos as [|o os Ho Hos IH]; intros w rs Hw Hl Hl' Hx.
  { exists (Ok tt), w, 0%nat. cbn. rewrite app_nil_r, Z.add_0_r. split_and!; [done|done|by left|done]. }
  cbn [length] in Hl'. destruct (log_step_any o w rs Hw Ho ltac:(lia) Hx) as (res & w1 & E & EX & EL & [[-> Hw1]|[Hr Hw1]] & Hok).
  - destruct (IH w1 _ Hw1) as (res' & w' & n & E' & Hw' & Hn & Hok'); [lia|lia|by rewrite EX|].
    exists res', w', (S n). cbn [log_run log_recs take length]. M_run. rewrite E, E'. rewrite EL, EX in Hw'.
    assert (nextXID w = match o with LBegin => nextXID w + 1 | _ => nextXID w end) as <- by (by destruct o).
    split; [done|]. rewrite <-app_assoc in Hw'. split; [exact Hw'|]. split.
    2: { intros [_ Hf]%Hok. destruct (Hok' Hf) as (-> & Hf' & EL' & EX'). cbn [length]. split_and!; [done|done|lia|congruence]. }
    destruct Hn as [[-> ->]|[? ?]]; [auto|right; split; [done|lia]].
  - exists (match res with Ok _ => Panic | Err e => Err e | Panic => Panic | OutOfFuel => OutOfFuel end), w1, 0%nat.
    cbn [log_run take length]. M_run. rewrite E, app_nil_r. split; [by destruct res|]. split; [done|].
    split; [right; split; [by destruct res|lia]|]. intros [-> _]%Hok. done.
Qed.

Lemma log_run_app os os' : ∀ w, log_run (os ++ os') w = (_ ← log_run os; log_run os') w.
Proof.
  induction os as [|o os IH]; intros w; [done|]. cbn [app log_run]. M_run.
  destruct (log_step o w) as [[[]|e| |] w1]; done.
Qed.

(** ** Lists *)

Lemma NoDup_fst_inj {A B} (l : list (A * B)) a b b' : NoDup l.*1 → (a, b) ∈ l → (a, b') ∈ l → b' = b.
Proof.
  intros Hnd [i Hi]%list_elem_of_lookup_1 [j Hj]%list_elem_of_lookup_1.
  assert (i = j) as <-; [|congruence]. eapply (NoDup_lookup l.*1); [done| |]; rewrite list_lookup_fmap; [rewrite Hi|rewrite Hj]; done.
Qed.

Lemma NoDup_snd_inj {A B} (l : list (A * B)) a a' b : NoDup l.*2 → (a, b) ∈ l → (a', b) ∈ l → a' = a.
Proof.
  intros Hnd [i Hi]%list_elem_of_lookup_1 [j Hj]%list_elem_of_lookup_1.
  assert (i = j) as <-; [|congruence]. eapply (NoDup_lookup l.*2); [done| |]; rewrite list_lookup_fmap; [rewrite Hi|rewrite Hj]; done.
Qed.

Lemma filter_nowhere {A} (P : A → Prop) `{∀ x, Decision (P x)} (l : list A) : (∀ x, x ∈ l → ¬ P x) → filter P l = [].
Proof. intros. by apply filter_none, Forall_forall. Qed.

Lemma filter_ext_in {A} (P Q : A → Prop) `{∀ x, Decision (P x)} `{∀ x, Decision (Q x)} (l : list A) :
  (∀ x, x ∈ l → P x ↔ Q x) → filter P l = filter Q l.
Proof.
  induction l as [|x l IH]; intros Hl; [done|]. rewrite !filter_cons, IH by (intros y Hy; apply Hl; by right).
  destruct (Hl x ltac:(by left)). destruct (decide (P x)), (decide (Q x)); tauto || done.
Qed.

(** ** The records of a commit *)

Lemma log_recs_sorted lsn x os :
  StronglySorted Z.lt (LSN <$> log_recs lsn x os) ∧ Forall (λ l, lsn ≤ l) (LSN <$> log_recs lsn x os).
Proof.
  revert lsn x. induction os as [|o os IH]; intros lsn x; [split; constructor|]. cbn [log_recs fmap list_fmap].
  destruct (IH (lsn + 1) match o with LBegin => x + 1 | _ => x end) as [Hs Hf].
  assert (LSN (log_rec lsn x o) = lsn) as -> by (by destruct o).
  split; [constructor; [exact Hs|]|constructor; [lia|]]; (eapply Forall_impl; [exact Hf|]); intros l Hl; cbn in *; lia.
Qed.

Section records.
Context (rs : list Rec) (xid : Z) (ws : list (list byte * Page)) (lsn x : Z).

(** The calls of a commit that writes the pages [ws] of the named files. *)
Definition write_ops : list log_op := (λ w, LWrite xid w.1 (Storage.PageID (Header w.2)) (Encode w.2)) <$> ws.
Definition commit_ops : list log_op := write_ops ++ [LCommit xid].

(** What the log says when [n] of these calls have reached it. *)
Definition log_after (n : nat) : list Rec := norm_rec <$> (rs ++ take n (log_recs lsn x commit_ops)).

Definition commit_rec : Rec := log_rec (lsn + Z.of_nat (length ws)) x (LCommit xid).

Lemma commit_recs : log_recs lsn x commit_ops = log_recs lsn x write_ops ++ [commit_rec].
Proof.
  unfold commit_ops, write_ops, commit_rec. revert lsn. induction ws as [|w l IH]; intros n.
  - cbn [fmap list_fmap app log_recs length log_rec]. by rewrite Z.add_0_r.
  - cbn [fmap list_fmap app log_recs length]. rewrite IH. by replace (n + 1 + Z.of_nat (length l)) with (n + Z.of_nat (S (length l))) by lia.
Qed.

Lemma length_write_recs : length (log_recs lsn x write_ops) = length ws.
Proof. rewrite length_log_recs. apply length_fmap. Qed.

Lemma elem_of_write_recs r : r ∈ log_recs lsn x write_ops →
  ∃ w, w ∈ ws ∧ Typ r = RecordWrite ∧ XID r = xid ∧ TableName r = w.1 ∧ PageID r = Storage.PageID (Header w.2) ∧
    PageData r = Encode w.2.
Proof.
  unfold write_ops. revert lsn. induction ws as [|w l IH]; intros n; cbn [fmap list_fmap log_recs]; [by intros ?%elem_of_nil|].
  intros [->|Hr]%elem_of_cons; [exists w; split; [by left|done]|].
  destruct (IH _ Hr) as (w' & ? & ?). exists w'. split; [by right|done].
Qed.

Lemma write_recs_complete w : w ∈ ws → ∃ r, r ∈ log_recs lsn x write_ops ∧ TableName r = w.1 ∧
  Typ r = RecordWrite ∧ XID r = xid ∧ PageID r = Storage.PageID (Header w.2).
Proof.
  unfold write_ops. revert lsn. induction ws as [|w' l IH]; intros n; cbn [fmap list_fmap log_recs]; [by intros ?%elem_of_nil|].
  intros [->|Hr]%elem_of_cons; [eexists; split; [by left|done]|].
  destruct (IH (n + 1) Hr) as (r & ? & ?). exists r. split; [by right|done].
Qed.

Lemma log_after_part n : (n ≤ length ws)%nat → log_after n = (norm_rec <$> rs) ++ (norm_rec <$> take n (log_recs lsn x write_ops)).
Proof.
  intros Hn. unfold log_after. rewrite fmap_app, commit_recs, take_app_le; [done|]. by rewrite length_write_recs.
Qed.

Lemma log_after_full : log_after (length ws + 1) =
  (norm_rec <$> rs) ++ (norm_rec <$> log_recs lsn x write_ops) ++ [norm_rec commit_rec].
Proof.
  unfold log_after. rewrite fmap_app, commit_recs, take_ge by (rewrite length_app, length_write_recs; cbn; lia).
  by rewrite fmap_app.
Qed.

Lemma log_after_sorted n : StronglySorted Z.lt (LSN <$> rs) → Forall (λ r, 0 < LSN r < lsn) rs → 0 < lsn →
  StronglySorted Z.lt (LSN <$> log_after n) ∧ Forall (λ r, 0 < LSN r) (log_after n).
Proof.
  intros Hs Hf Hl. destruct (log_recs_sorted lsn x commit_ops) as [Hs' Hf']. set (ls := LSN <$> log_recs lsn x commit_ops) in *.
  assert (LSN <$> log_after n = (LSN <$> rs) ++ take n ls) as E.
  { unfold log_after, ls. rewrite <-list_fmap_compose, fmap_app, <-fmap_take. done. }
  assert (Forall (λ l, 0 < l < lsn) (LSN <$> rs)) as Hf1 by by apply Forall_fmap.
  rewrite Forall_forall in Hf', Hf1. split.
  - rewrite E. apply StronglySorted_app. split_and!; [|exact Hs|].
    + intros a b Ha Hb. assert (b ∈ ls) as Hb'%Hf' by (rewrite <-(take_drop n ls); apply elem_of_app; by left).
      apply Hf1 in Ha. lia.
    + rewrite <-(take_drop n ls) in Hs'. by apply StronglySorted_app in Hs' as (_ & ? & _).
  - assert (Forall (λ l, 0 < l) (LSN <$> log_after n)) as HF; [|by rewrite Forall_fmap in HF]. rewrite E. apply Forall_app. split; [|apply Forall_take]; apply Forall_forall.
    + intros l Hl1. by apply Hf1.
    + intros l Hl1%Hf'. lia.
Qed.

(** The transaction has logged no page and no commit before. *)
Hypothesis Hfresh : ∀ r, r ∈ rs → XID r = xid → Typ r ≠ RecordWrite ∧ Typ r ≠ RecordCommit.
(** The log keeps the names of its files. *)
Hypothesis Hnames : Forall (λ w, norm_name w.1 = w.1) ws.

Lemma norm_write_recs r n : r ∈ norm_rec <$> take n (log_recs lsn x write_ops) →
  ∃ w, w ∈ ws ∧ Typ r = RecordWrite ∧ XID r = xid ∧ TableName r = w.1 ∧ PageID r = Storage.PageID (Header w.2) ∧
    PageData r = Encode w.2.
Proof using Hnames.
  intros (r' & -> & Hr)%list_elem_of_fmap.
  assert (r' ∈ log_recs lsn x write_ops) as (w & Hw & ? & ? & Hn & ? & ?)%elem_of_write_recs
    by (rewrite <-(take_drop n (log_recs lsn x write_ops)); apply elem_of_app; by left).
  exists w. split; [done|]. split_and!; try done. cbn. rewrite Hn. rewrite Forall_forall in Hnames. by apply Hnames.
Qed.

Lemma xid_uncommitted : xid ∉ committed_xids (norm_rec <$> rs).
Proof using Hfresh.
  intros (r & (r' & -> & Hr)%list_elem_of_fmap & Ht & Hx)%elem_of_committed_xids. cbn in *. destruct (Hfresh r' Hr Hx). done.
Qed.

Lemma committed_part n : (n ≤ length ws)%nat → committed_xids (log_after n) = committed_xids (norm_rec <$> rs).
Proof using Hnames.
  intros Hn. rewrite log_after_part by done. apply set_eq. intros y. rewrite !elem_of_committed_xids. setoid_rewrite elem_of_app.
  split; intros (r & Hr & Ht & Hy); [|eauto]. destruct Hr as [Hr|(w & _ & Ht' & _)%norm_write_recs]; [eauto|].
  rewrite Ht in Ht'. discriminate.
Qed.

Lemma committed_full : committed_xids (log_after (length ws + 1)) = {[xid]} ∪ committed_xids (norm_rec <$> rs).
Proof using Hnames.
  rewrite log_after_full. apply set_eq. intros y. rewrite elem_of_union, elem_of_singleton, !elem_of_committed_xids.
  setoid_rewrite elem_of_app. setoid_rewrite elem_of_app. setoid_rewrite list_elem_of_singleton. split.
  - intros (r & Hr & Ht & Hy). destruct Hr as [Hr|[Hr| ->]]; [eauto| |by left].
    rewrite <-(take_ge (log_recs lsn x write_ops) _ (le_n _)) in Hr.
    destruct (norm_write_recs _ _ Hr) as (w & _ & Ht' & _). rewrite Ht in Ht'. discriminate.
  - intros [->|(r & ? & ?)]; [|eauto]. exists (norm_rec commit_rec). split; [right; by right|done].
Qed.

(** The committed writes to a page among more records. *)
Lemma page_writes_app C rs1 rs2 path id : committed_xids (rs1 ++ rs2) = C →
  (∀ r, r ∈ rs1 → Typ r = RecordWrite → XID r ∈ C ↔ XID r ∈ committed_xids rs1) →
  page_writes (rs1 ++ rs2) path id = page_writes rs1 path id ++
    filter (λ r, Typ r = RecordWrite ∧ XID r ∈ C ∧ TableName r = path ∧ PageID r = id) rs2.
Proof using Type.
  intros HC Hr. unfold page_writes. rewrite HC, filter_app. f_equal. apply filter_ext_in. intros r Hin.
  specialize (Hr r Hin). tauto.
Qed.

Lemma page_writes_part n path id : (n ≤ length ws)%nat → page_writes (log_after n) path id = page_writes (norm_rec <$> rs) path id.
Proof using Hfresh Hnames.
  intros Hn. pose proof (committed_part n Hn) as HC. rewrite log_after_part in * by done.
  rewrite (page_writes_app _ _ _ path id HC) by done.
  rewrite (filter_nowhere _ (norm_rec <$> take n _)), app_nil_r; [done|]. intros r (w & _ & _ & Hx & _)%norm_write_recs. rewrite Hx. pose proof xid_uncommitted. tauto.
Qed.

Lemma page_writes_full path id :
  ∃ l, page_writes (log_after (length ws + 1)) path id = page_writes (norm_rec <$> rs) path id ++ l ∧
    (∀ r, r ∈ l → ∃ p, (path, p) ∈ ws ∧ Storage.PageID (Header p) = id ∧ PageData r = Encode p) ∧
    (∀ p, (path, p) ∈ ws → Storage.PageID (Header p) = id → l ≠ []).
Proof using Hfresh Hnames.
  pose proof committed_full as HC. rewrite log_after_full in *. eexists. split_and!.
  - apply (page_writes_app _ _ _ path id HC). intros r (r' & -> & Hr)%list_elem_of_fmap Ht. rewrite elem_of_union, elem_of_singleton.
    split; [|tauto]. intros [Hx|?]; [|done]. cbn in *. by destruct (Hfresh r' Hr Hx).
  - intros r ((Ht & Hx & Hn & Hid) & [Hr|Hr]%elem_of_app)%list_elem_of_filter.
    2: { apply list_elem_of_singleton in Hr as ->. discriminate. }
    rewrite <-(take_ge (log_recs lsn x write_ops) _ (le_n _)) in Hr.
    destruct (norm_write_recs _ _ Hr) as ([n p] & Hw & _ & _ & Hn' & Hid' & Hd). cbn in *. exists p.
    split_and!; [congruence|congruence|done].
  - intros p Hp Hid Hnil. destruct (write_recs_complete _ Hp) as (r & Hr & Hn & Ht & Hx & Hi). cbn in *.
    assert (norm_rec r ∈ ([] : list Rec)) as []%elem_of_nil. rewrite <-Hnil. apply list_elem_of_filter. split.
    + cbn. rewrite Hn. rewrite Forall_forall in Hnames. pose proof (Hnames _ Hp) as Hnm. cbn in Hnm.
      split_and!; [done| |done|congruence]. rewrite Hx. set_solver.
    + apply elem_of_app. left. by apply list_elem_of_fmap_2.
Qed.
End records.

(** ** Flushing to a failing device *)

(** Some of the pages [D] have been written over [v]; [D] lies within [v]. *)
Definition partly (D : gmap Z Page) (v v' : pmap) : Prop :=
  ∀ id, v' !! id = v !! id ∨ ∃ p, D !! id = Some p ∧ v' !! id = Some (Data p).
Definition covers (D : gmap Z Page) (v : pmap) : Prop :=
  ∀ id p, D !! id = Some p → page_wf p ∧ Storage.PageID (Header p) = id ∧ is_Some (v !! id).

(** What that means for the bytes of a file. *)
Definition overwritten (D : gmap Z Page) (b b' : list byte) : Prop :=
  ∀ t fl v, disk_rep b t fl v → covers D v → ∃ v', disk_rep b' t fl v' ∧ partly D v v'.

Lemma partly_covers D v v' : partly D v v' → covers D v → covers D v'.
Proof.
  intros Hp Hc id p Hd. destruct (Hc id p Hd) as (? & ? & [d Hv]). split_and!; [done..|].
  destruct (Hp id) as [->|(q & _ & ->)]; eauto.
Qed.

#[export] Instance overwritten_preorder D : PreOrder (overwritten D).
Proof.
  split.
  - intros b t fl v Hr _. exists v. split; [done|]. by left.
  - intros b1 b2 b3 H1 H2 t fl v Hr Hc. destruct (H1 t fl v Hr Hc) as (v1 & Hr1 & Hp1).
    destruct (H2 t fl v1 Hr1 (partly_covers _ _ _ Hp1 Hc)) as (v2 & Hr2 & Hp2). exists v2. split; [done|].
    intros id. destruct (Hp2 id) as [->|?]; [apply Hp1|by right].
Qed.

Lemma WritePage_overwritten D q pg : D !! Storage.PageID (Header q) = Some q →
  overwritten D (f_bytes (Pager.file pg)) (f_bytes (Pager.file (Pager.WritePage q pg).2)).
Proof.
  intros Hq. destruct pg as [[b o c] t' fl']. unfold Pager.WritePage, wrap, pg_write, WriteAt. cbn [Pager.file f_open f_credit].
  destruct o; cbn [negb]; [|done].
  assert (overwritten D b (write_page q b)) as Hw.
  { intros t fl v Hr Hc. destruct (Hc _ q Hq) as (Hwf & _ & Hin). eexists. split; [by apply disk_rep_write|].
    intros id. rewrite lookup_insert. case_decide as Hid; [|by left]. subst id. right. eauto. }
  by destruct c as [[|k]|].
Qed.

(** The open files [OF], each overwritten with some of its own pages. *)
Definition pool_over (OF : list (list byte * Z)) (Ds : list byte → gmap Z Page) (p p' : Pool) : Prop :=
  ∀ path fid pg, (path, fid) ∈ OF → files p !! fid = Some pg →
    ∃ pg', files p' !! fid = Some pg' ∧ overwritten (Ds path) (f_bytes (Pager.file pg)) (f_bytes (Pager.file pg')).

#[export] Instance pool_over_preorder OF Ds : PreOrder (pool_over OF Ds).
Proof.
  split.
  - intros p path fid pg _ Hf. by exists pg.
  - intros p1 p2 p3 H1 H2 path fid pg Hin Hf. destruct (H1 path fid pg Hin Hf) as (pg1 & Hf1 & Ho1).
    destruct (H2 path fid pg1 Hin Hf1) as (pg2 & Hf2 & Ho2). exists pg2. split; [done|]. by etrans.
Qed.

Lemma pool_over_files OF Ds p p' : files p' = files p → pool_over OF Ds p p'.
Proof. intros E path fid pg _ Hf. exists pg. by rewrite E. Qed.

Section flush.
Context (OF : list (list byte * Z)) (Ds : list byte → gmap Z Page).
Hypothesis Hfids : NoDup OF.*2.

Lemma BufWritePage_over path q bp : (path, bp_fid bp) ∈ OF → Ds path !! Storage.PageID (Header q) = Some q →
  pool_over OF Ds (bp_pool bp) (bp_pool (BufWritePage q bp).2) ∧ bp_fid (BufWritePage q bp).2 = bp_fid bp.
Proof using Hfids.
  intros Hin Hq. unfold BufWritePage, own_pager, on_pool, on_file, on_stray. M_run.
  destruct (files (bp_pool bp) !! bp_fid bp) as [pg|] eqn:Ef.
  2: { destruct (strays (bp_pool bp) !! bp_fid bp) as [pg|]; [|by split].
       destruct (Pager.WritePage q pg) as [[[]|e| |] pg']; cbn [snd bp_pool bp_fid]; (split; [|done]); apply pool_over_files; [|done..].
       unfold modify. cbn [snd]. by rewrite (proj1 (UpdatePage_fields _ _ _)). }
  pose proof (WritePage_overwritten (Ds path) q pg Hq) as Hw.
  assert (∀ pg', overwritten (Ds path) (f_bytes (Pager.file pg)) (f_bytes (Pager.file pg')) →
    pool_over OF Ds (bp_pool bp) (set_files (<[bp_fid bp := pg']> (files (bp_pool bp))) (bp_pool bp))) as Hset.
  { intros pg' Ho path' fid pg0 Hin' Hf. cbn [files set_files]. rewrite lookup_insert. case_decide as Hd; [subst fid|by exists pg0].
    assert (path' = path) as -> by (by eapply NoDup_snd_inj). rewrite Ef in Hf. injection Hf as <-. eauto. }
  destruct (Pager.WritePage q pg) as [[[]|e| |] pg'] eqn:E; cbn [snd bp_pool bp_fid] in *; (split; [|done]); try by apply Hset.
  etrans; [by apply Hset|]. apply pool_over_files. unfold UpdatePage. by destruct (frames _ !! _); [|case_decide].
Qed.

Lemma flush_pages_over path ps (tp : TxPager BufPager) :
  (path, bp_fid (base tp)) ∈ OF → (∀ p, p ∈ ps → Ds path !! Storage.PageID (Header p) = Some p) →
  pool_over OF Ds (bp_pool (base tp)) (bp_pool (base (flush_pages ps tp).2)) ∧
  bp_fid (base (flush_pages ps tp).2) = bp_fid (base tp) ∧ dirty (flush_pages ps tp).2 = dirty tp.
Proof using Hfids.
  revert tp. induction ps as [|p ps IH]; intros tp Hin Hps; [done|]. cbn [flush_pages]. unfold on_base. M_run.
  destruct (BufWritePage_over path p (base tp) Hin (Hps p ltac:(by left))) as [Ho Hfid].
  change (ps_write p (base tp)) with (BufWritePage p (base tp)).
  destruct (BufWritePage p (base tp)) as [[[]|e| |] bp]; cbn [snd base] in *; try done.
  destruct (IH (mkTxPager bp (dirty tp) (allocated tp))) as (Ho' & Hfid' & Hd'); cbn [base] in *.
  - by rewrite Hfid.
  - intros q Hq. apply Hps. by right.
  - split_and!; [by etrans|congruence|done].
Qed.

(** The buffered pages of a [TxPager] are among those of its file. *)
Definition buf_ok (b : TxBuf) : Prop :=
  ∃ path, (path, tb_fid b) ∈ OF ∧
    ∀ id p, tb_dirty b !! id = Some p → Storage.PageID (Header p) = id ∧ Ds path !! id = Some p.

Context `{MapOrder}.

Lemma flush_pagers_over ptrs db :
  (∀ ptr b, ptr ∈ ptrs → txheap db !! ptr = Some b → buf_ok b) →
  ∃ h p, (flush_pagers ptrs db).2 = set_txheap h (set_pool p db) ∧ pool_over OF Ds (pool db) p.
Proof using Hfids.
  revert db. induction ptrs as [|ptr ptrs IH]; intros db Hok; cbn [flush_pagers].
  { exists (txheap db), (pool db). split; [by destruct db|done]. }
  unfold on_tx. M_run. destruct (txheap db !! ptr) as [b|] eqn:Eb.
  2: { exists (txheap db), (pool db). split; [by destruct db|done]. }
  destruct (Hok ptr b ltac:(by left) Eb) as (path & Hin & Hd).
  set (tp := mkTxPager (mkBufPager (pool db) (tb_fid b)) (tb_dirty b) (tb_allocated b)).
  set (ps := map_order 3 (DirtyPages tp)).
  destruct (flush_pages_over path ps tp Hin) as (Ho & Hfid & Hdirty).
  { intros p Hp. unfold ps in Hp. rewrite map_order_perm in Hp. unfold DirtyPages in Hp.
    apply list_elem_of_fmap in Hp as ([id q] & -> & Hq%elem_of_map_to_list). cbn [snd]. by destruct (Hd id q Hq) as [-> ?]. }
  unfold Flush. M_run. destruct (flush_pages ps tp) as [r tp1] eqn:E. cbn [snd base] in *.
  destruct r as [[]|e| |]; try (eexists _, (bp_pool (base tp1)); split; [reflexivity|exact Ho]).
  cbn [base dirty allocated]. set (db1 := set_txheap _ _).
  destruct (IH db1) as (h & p & E' & Ho').
  - intros ptr' b' Hp Hb'. unfold db1 in Hb'. cbn [txheap set_txheap set_pool] in Hb'.
    apply list_lookup_insert_Some in Hb' as [(-> & <- & _)|(_ & Hb')]; [|eapply Hok; [by right|done]].
    exists path. split; [exact Hin|]. intros id q Hq. cbn in Hq. by rewrite lookup_empty in Hq.
  - exists h, p. split; [by rewrite E'|]. by etrans.
Qed.
End flush.

(** ** The two phases of a commit *)

Lemma M_bind_fails {S A B} (m : M S A) (g : A → M S B) s r s' r1 s1 : m s = (r, s') → is_ok r = false →
  (m ≫= g) s = (r1, s1) → is_ok r1 = false ∧ s1 = s'.
Proof. unfold mbind, M_bind. intros -> Hr. by destruct r; [|intros [= <- <-]..]. Qed.

Lemma on_wal_bind {A B} (m : M WAL A) (g : A → M WAL B) db :
  (a ← on_wal m; on_wal (g a)) db = on_wal (a ← m; g a) db.
Proof. unfold on_wal. M_run. by destruct (m (wal db)) as [[a|e| |] w]. Qed.

Section commit.
Context `{MapOrder}.

(** The pages the transaction logs, in order, each with the name of its file. *)
Definition tx_writes (kps : list (string * nat)) (db : DB) : list (list byte * Page) :=
  kps ≫= λ kp, match txheap db !! kp.2 with
               | Some b => (λ p, (key_file kp.1, p)) <$> map_order 1 (map_to_list (tb_dirty b)).*2
               | None => []
               end.

Lemma log_pages_run xid name ps db :
  log_pages xid name ps db = on_wal (log_run (write_ops xid ((λ p, (name, p)) <$> ps))) db.
Proof.
  revert db. induction ps as [|p ps IH]; intros db.
  { unfold on_wal. cbn. by destruct db. }
  unfold write_ops. cbn [log_pages fmap list_fmap log_run log_step fst snd].
  rewrite <-(on_wal_bind (AppendWrite _ _ _ _)). unfold mbind, M_bind.
  by destruct (on_wal _ db) as [[[]|e| |] db1].
Qed.

Lemma on_wal_heap {A} (m : M WAL A) db : txheap (on_wal m db).2 = txheap db.
Proof. unfold on_wal. by destruct (m (wal db)). Qed.

Lemma log_pagers_run xid kps db : Forall (λ kp, is_Some (txheap db !! kp.2)) kps →
  log_pagers xid kps db = on_wal (log_run (write_ops xid (tx_writes kps db))) db.
Proof.
  revert db. induction kps as [|[key ptr] kps IH]; intros db Hok.
  { unfold on_wal. cbn. by destruct db. }
  apply Forall_cons in Hok as [[b Hb] Hok]. cbn [snd] in Hb. cbn [log_pagers].
  assert (on_tx ptr (λ tp, (Ok (DirtyPages tp), tp)) db = (Ok (map_to_list (tb_dirty b)).*2, db)) as E.
  { unfold on_tx. rewrite Hb. cbn. f_equal. destruct b, db. cbn in *. unfold set_txheap, set_pool. cbn. f_equal.
    by apply list_insert_id. }
  rewrite (M_bind_Ok _ _ _ _ _ E).
  assert (write_ops xid (tx_writes ((key, ptr) :: kps) db) =
    write_ops xid ((λ p, (key_file key, p)) <$> map_order 1 (map_to_list (tb_dirty b)).*2) ++ write_ops xid (tx_writes kps db)) as ->.
  { unfold write_ops. rewrite <-fmap_app. unfold tx_writes. cbn [mbind list_bind fst snd]. by rewrite Hb. }
  unfold mbind at 1, M_bind. rewrite log_pages_run.
  set (ops1 := write_ops xid (_ <$> _)). pose proof (on_wal_heap (log_run ops1) db) as Hh.
  assert (on_wal (log_run (ops1 ++ write_ops xid (tx_writes kps db))) db =
    (_ ← on_wal (log_run ops1); on_wal (log_run (write_ops xid (tx_writes kps db)))) db) as ->.
  { rewrite on_wal_bind. unfold on_wal. by rewrite log_run_app. }
  unfold mbind, M_bind. destruct (on_wal (log_run ops1) db) as [[[]|e| |] db1]; cbn [snd] in Hh; try done.
  rewrite IH by by rewrite Hh. unfold tx_writes. by rewrite Hh.
Qed.

Lemma commitTx_phases xid pagers db :
  let kps := map_order 0 (map_to_list pagers) in
  Forall (λ kp, is_Some (txheap db !! kp.2)) kps →
  commitTx xid pagers db =
    (_ ← on_wal (log_run (commit_ops xid (tx_writes kps db)));
     _ ← on_wal wal_Sync;
     flush_pagers (map_order 2 (map_to_list pagers).*2)) db.
Proof.
  intros kps Hok. unfold commitTx. fold kps. unfold mbind at 1, M_bind. rewrite (log_pagers_run _ _ _ Hok).
  assert (on_wal (log_run (commit_ops xid (tx_writes kps db))) db =
    (_ ← on_wal (log_run (write_ops xid (tx_writes kps db))); on_wal (AppendCommit xid)) db) as E.
  { rewrite on_wal_bind. unfold on_wal, commit_ops. rewrite log_run_app. cbn [log_run log_step]. M_run.
    destruct (log_run _ (wal db)) as [[[]|e| |] w]; try done. by destruct (AppendCommit xid w) as [[[]|e| |] w']. }
  unfold mbind, M_bind. rewrite E. unfold mbind, M_bind.
  clear E. destruct (on_wal (log_run _) db) as [[[]|e| |] db1]; [|done..]. by destruct (on_wal (AppendCommit xid) db1) as [[[]|e| |] db2].
Qed.
End commit.

(** ** What a crash leaves *)

(** The open files: path and identifier in the pool. *)
Definition open_files (db : DB) : list (list byte * Z) :=
  ((λ kf, (String.list_byte_of_string (kf.1 +:+ file_ext OpenTbls)%string, kf.2)) <$> map_to_list (openTbls db)) ++
  ((λ kf, (String.list_byte_of_string (kf.1 +:+ file_ext OpenIdxs)%string, kf.2)) <$> map_to_list (openIdxs db)).

(** The files of the directory, the open ones with the bytes written so far. *)
Definition crash_dir (db : DB) : directory :=
  foldr (λ pf d, match files (pool db) !! pf.2 with
                 | Some pg => <[pf.1 := f_bytes (Pager.file pg)]> d
                 | None => d
                 end) (dir db) (open_files db).

Definition crash_image (db : DB) : Image :=
  mkImage (crash_dir db) (f_bytes (f (wal db))) (Catalog.file (cat db)) (stats_file db).

Lemma crash_dir_lookup db path :
  NoDup (open_files db).*1 → Forall (λ pf, is_Some (files (pool db) !! pf.2)) (open_files db) →
  (∃ fid pg, (path, fid) ∈ open_files db ∧ files (pool db) !! fid = Some pg ∧
     crash_dir db !! path = Some (f_bytes (Pager.file pg))) ∨
  (path ∉ (open_files db).*1 ∧ crash_dir db !! path = dir db !! path).
Proof.
  unfold crash_dir. induction (open_files db) as [|[path' fid] l IH]; cbn [fmap list_fmap foldr fst snd].
  { intros _ _. right. split; [apply not_elem_of_nil|done]. }
  intros [Hn Hnd]%NoDup_cons [[pg Hpg] Hall]%Forall_cons. cbn [snd] in Hpg. rewrite Hpg.
  destruct (decide (path' = path)) as [->|Hne].
  - left. exists fid, pg. rewrite lookup_insert_eq. split_and!; [by left|done|done].
  - rewrite lookup_insert_ne by done. destruct (IH Hnd Hall) as [(fid' & pg' & ? & ? & ?)|[? ?]].
    + left. exists fid', pg'. split_and!; [by right|done|done].
    + right. split; [|done]. rewrite not_elem_of_cons. by split.
Qed.

(** The two directories a flush starts from and ends in. *)
Lemma crash_dir_over Ds db db' :
  NoDup (open_files db).*1 → NoDup (open_files db).*2 →
  Forall (λ pf, is_Some (files (pool db) !! pf.2)) (open_files db) →
  open_files db' = open_files db → dir db' = dir db → pool_over (open_files db) Ds (pool db) (pool db') →
  dom (crash_dir db') = dom (crash_dir db) ∧
  ∀ path b, crash_dir db !! path = Some b → ∃ b', crash_dir db' !! path = Some b' ∧ overwritten (Ds path) b b'.
Proof.
  intros Hn1 Hn2 Hall EO Ed Ho.
  assert (Forall (λ pf, is_Some (files (pool db') !! pf.2)) (open_files db')) as Hall'.
  { rewrite EO. apply Forall_forall. intros [path fid] Hin. rewrite Forall_forall in Hall.
    destruct (Hall _ Hin) as [pg Hpg]. destruct (Ho path fid pg Hin Hpg) as (pg' & ? & _). eauto. }
  assert (∀ path, (∃ b b', crash_dir db !! path = Some b ∧ crash_dir db' !! path = Some b' ∧ overwritten (Ds path) b b') ∨
    crash_dir db' !! path = crash_dir db !! path) as Hall2.
  { intros path. destruct (crash_dir_lookup db path Hn1 Hall) as [(fid & pg & Hin & Hpg & E)|[Hnin E]].
    - left. destruct (crash_dir_lookup db' path) as [(fid' & pg' & Hin' & Hpg' & E')|[Hnin _]]; [by rewrite EO|done| |].
      2: { rewrite EO in Hnin. destruct Hnin. by apply (list_elem_of_fmap_2 fst) in Hin. }
      rewrite EO in Hin'. assert (fid' = fid) as -> by by eapply NoDup_fst_inj.
      destruct (Ho path fid pg Hin Hpg) as (pg1 & Hpg1 & Hov). rewrite Hpg' in Hpg1. injection Hpg1 as <-. eauto 10.
    - right. destruct (crash_dir_lookup db' path) as [(fid' & pg' & Hin' & _ & _)|[_ E']]; [by rewrite EO|done| |].
      + rewrite EO in Hin'. destruct Hnin. by apply (list_elem_of_fmap_2 fst) in Hin'.
      + by rewrite E, E', Ed. }
  split.
  - apply set_eq. intros path. rewrite !elem_of_dom. destruct (Hall2 path) as [(b & b' & -> & -> & _)| ->]; [|done].
    split; eauto.
  - intros path b Hb. destruct (Hall2 path) as [(b1 & b' & Hb1 & Hb' & Hov)|E]; [|exists b; by rewrite E].
    rewrite Hb in Hb1. injection Hb1 as <-. eauto.
Qed.

(** ** The database before the commit *)

(** The files agree with the log: every page with a committed write holds it. *)
Definition agrees (rs : list Rec) (path b : list byte) : Prop :=
  ∃ t fl v, disk_rep b t fl v ∧
    ∀ id r, last (page_writes rs path id) = Some r → v !! id = Some (image_data (PageData r)).

(** A database whose log holds [rs]. *)
Record db_ok (db : DB) (rs : list Rec) : Prop := {
  do_log : log_holds (wal db) rs;
  do_sorted : StronglySorted Z.lt (LSN <$> rs);
  do_range : Forall (λ r, 0 < LSN r < nextLSN (wal db)) rs;
  do_next : 0 < nextLSN (wal db) ∧ is_u32 (nextXID (wal db));
  do_images r : r ∈ rs → Typ r = RecordWrite → XID r ∈ committed_xids (norm_rec <$> rs) → page_image (PageID r) (PageData r);
  do_paths : NoDup (open_files db).*1;
  do_fids : NoDup (open_files db).*2;
  do_files : Forall (λ pf, is_Some (files (pool db) !! pf.2)) (open_files db);
  do_agrees path b : crash_dir db !! path = Some b → agrees (norm_rec <$> rs) path b
}.

(** The pages the transaction has buffered for a file. *)
Definition tx_pages (db : DB) (pagers : gmap string nat) (path : list byte) : gmap Z Page :=
  match filter (λ kp, key_file kp.1 = path) (map_to_list pagers) with
  | kp :: _ => from_option tb_dirty ∅ (txheap db !! kp.2)
  | [] => ∅
  end.

Section crash.
Context `{MapOrder}.

(** A transaction that has not logged anything but its begin record. *)
Record tx_ok (db : DB) (rs : list Rec) (xid : Z) (pagers : gmap string nat) : Prop := {
  to_xid : is_u32 xid;
  to_fresh r : r ∈ rs → XID r = xid → Typ r ≠ RecordWrite ∧ Typ r ≠ RecordCommit;
  to_keys key key' : is_Some (pagers !! key) → is_Some (pagers !! key') → key_file key = key_file key' → key = key';
  to_bufs key ptr : pagers !! key = Some ptr → ∃ b, txheap db !! ptr = Some b ∧
    (key_file key, tb_fid b) ∈ open_files db ∧ norm_name (key_file key) = key_file key ∧
    ∃ pg t fl v, files (pool db) !! tb_fid b = Some pg ∧ disk_rep (f_bytes (Pager.file pg)) t fl v ∧ covers (tb_dirty b) v;
  to_room : nextLSN (wal db) + Z.of_nat (length (tx_writes (map_order 0 (map_to_list pagers)) db)) + 1 < 2 ^ 64
}.

Lemma elem_of_tx_writes kps db w : w ∈ tx_writes kps db ↔
  ∃ key ptr b, (key, ptr) ∈ kps ∧ txheap db !! ptr = Some b ∧ w.1 = key_file key ∧ ∃ id, tb_dirty b !! id = Some w.2.
Proof.
  unfold tx_writes. rewrite list_elem_of_bind. split.
  - intros ([key ptr] & Hw & Hin). cbn [fst snd] in Hw. destruct (txheap db !! ptr) as [b|] eqn:Eb; [|by apply elem_of_nil in Hw].
    apply list_elem_of_fmap in Hw as (p & -> & Hp). rewrite map_order_perm in Hp.
    apply list_elem_of_fmap in Hp as ([id q] & -> & Hq%elem_of_map_to_list). exists key, ptr, b. split_and!; eauto.
  - intros (key & ptr & b & Hin & Eb & Hn & id & Hd). exists (key, ptr). split; [|done]. cbn [fst snd]. rewrite Eb.
    destruct w as [n p]. cbn [fst snd] in *. subst n. apply (list_elem_of_fmap_2 (λ p, (key_file key, p))).
    rewrite map_order_perm. apply (list_elem_of_fmap_2 snd) with (x := (id, p)). by apply elem_of_map_to_list.
Qed.

Section state.
Context (db : DB) (rs : list Rec) (xid : Z) (pagers : gmap string nat).
Hypothesis Hdb : db_ok db rs.
Hypothesis Htx : tx_ok db rs xid pagers.
Let kps := map_order 0 (map_to_list pagers).
Let ws := tx_writes kps db.
Let D := tx_pages db pagers.

Lemma elem_of_kps key ptr : (key, ptr) ∈ kps ↔ pagers !! key = Some ptr.
Proof using Type. unfold kps. by rewrite map_order_perm, elem_of_map_to_list. Qed.

Lemma tx_pages_key key ptr b : pagers !! key = Some ptr → txheap db !! ptr = Some b → D (key_file key) = tb_dirty b.
Proof using Hdb Htx.
  intros Hk Hb. unfold D, tx_pages. destruct (filter _ (map_to_list pagers)) as [|[key' ptr'] l] eqn:E.
  - assert ((key, ptr) ∈ ([] : list (string * nat))) as []%elem_of_nil. rewrite <-E. apply list_elem_of_filter.
    split; [done|by apply elem_of_map_to_list].
  - assert ((key', ptr') ∈ (key', ptr') :: l) as Hin by by left. rewrite <-E in Hin.
    apply list_elem_of_filter in Hin as [Hf Hin%elem_of_map_to_list]. cbn [fst snd] in *.
    assert (key' = key) as -> by (eapply to_keys; [exact Htx|eauto|eauto|done]).
    assert (ptr' = ptr) as -> by congruence. by rewrite Hb.
Qed.

Lemma tx_pages_none path : (∀ key, is_Some (pagers !! key) → key_file key ≠ path) → D path = ∅.
Proof using Type.
  intros Hn. unfold D, tx_pages. rewrite filter_nowhere; [done|]. intros [key ptr] Hin%elem_of_map_to_list. cbn. eauto.
Qed.

(** A file has the pages of one buffer, or none. *)
Lemma tx_pages_cases path :
  D path = ∅ ∨ ∃ key ptr b, pagers !! key = Some ptr ∧ txheap db !! ptr = Some b ∧ path = key_file key ∧ D path = tb_dirty b.
Proof using Hdb Htx.
  destruct (decide (Exists (λ kp, key_file kp.1 = path) (map_to_list pagers))) as [He|He].
  - right. apply Exists_exists in He as ([key ptr] & Hin%elem_of_map_to_list & <-). cbn [fst].
    destruct (to_bufs _ _ _ _ Htx key ptr Hin) as (b & Hb & _). exists key, ptr, b. split_and!; try done. by eapply tx_pages_key.
  - left. apply tx_pages_none. intros key [ptr Hk] Hf. apply He, Exists_exists. exists (key, ptr).
    split; [by apply elem_of_map_to_list|done].
Qed.

(** A buffer of the transaction has an open file, in which its pages exist. *)
Lemma tx_buf_file key ptr b : pagers !! key = Some ptr → txheap db !! ptr = Some b →
  (key_file key, tb_fid b) ∈ open_files db ∧
  ∃ b0, crash_dir db !! key_file key = Some b0 ∧ ∀ t fl v, disk_rep b0 t fl v → covers (tb_dirty b) v.
Proof using Hdb Htx.
  intros Hk Hb. destruct (to_bufs _ _ _ _ Htx key ptr Hk) as (b' & Hb' & Hin & _ & pg & t & fl & v & Hpg & Hr & Hc).
  rewrite Hb in Hb'. injection Hb' as <-. split; [done|].
  destruct (crash_dir_lookup db (key_file key) (do_paths _ _ Hdb) (do_files _ _ Hdb)) as [(fid & pg' & Hin' & Hpg' & E)|[Hn _]].
  - assert (fid = tb_fid b) as -> by (eapply NoDup_fst_inj; [apply Hdb|done|done]). exists (f_bytes (Pager.file pg')).
    split; [done|]. rewrite Hpg in Hpg'. injection Hpg' as <-. intros t' fl' v' Hr'.
    by destruct (disk_rep_unique _ _ _ _ _ _ _ Hr Hr') as (_ & _ & ->).
  - destruct Hn. by apply (list_elem_of_fmap_2 fst) in Hin.
Qed.

Lemma tx_covers path b t fl v : crash_dir db !! path = Some b → disk_rep b t fl v → covers (D path) v.
Proof using Hdb Htx.
  intros Hb Hr. destruct (tx_pages_cases path) as [->|(key & ptr & bf & Hk & Hbf & -> & ->)].
  { intros id p Hd. by rewrite lookup_empty in Hd. }
  destruct (tx_buf_file key ptr bf Hk Hbf) as (_ & b0 & Hb0 & Hc). rewrite Hb in Hb0. injection Hb0 as <-. by eapply Hc.
Qed.

(** The pages written to the log are those of the buffers. *)
Lemma writes_are_pages path p : (path, p) ∈ ws → D path !! Storage.PageID (Header p) = Some p ∧ page_wf p.
Proof using Hdb Htx.
  intros (key & ptr & b & Hk%elem_of_kps & Hb & Hpath & id & Hd)%elem_of_tx_writes. cbn [fst snd] in *. subst path.
  rewrite (tx_pages_key key ptr b Hk Hb).
  destruct (tx_buf_file key ptr b Hk Hb) as (_ & b0 & Hb0 & Hc).
  destruct (do_agrees _ _ Hdb _ _ Hb0) as (t & fl & v & Hr & _). destruct (Hc t fl v Hr id p Hd) as (? & -> & _). done.
Qed.

Lemma pages_are_written path id p : D path !! id = Some p → (path, p) ∈ ws.
Proof using Hdb Htx.
  intros Hd. destruct (tx_pages_cases path) as [E|(key & ptr & b & Hk & Hb & Hpath & E)]; rewrite E in Hd.
  { by rewrite lookup_empty in Hd. }
  apply elem_of_tx_writes. exists key, ptr, b. split_and!; [by apply elem_of_kps|done|done|by exists id].
Qed.

Lemma writes_named : Forall (λ w, norm_name w.1 = w.1) ws.
Proof using Hdb Htx.
  apply Forall_forall. intros w (key & ptr & b & Hk%elem_of_kps & Hb & -> & _)%elem_of_tx_writes.
  by destruct (to_bufs _ _ _ _ Htx key ptr Hk) as (_ & _ & _ & ? & _).
Qed.

Lemma commit_ops_wf : Forall commit_op (commit_ops xid ws).
Proof using Hdb Htx.
  pose proof (to_xid _ _ _ _ Htx). unfold commit_ops, write_ops. apply Forall_app. split; [|by apply Forall_singleton].
  apply Forall_fmap, Forall_forall. intros [n p] [_ Hwf]%writes_are_pages. cbn.
  split; [done|]. split; [apply Hwf|apply length_Encode, Hwf].
Qed.

Lemma tx_bufs_ok key ptr b : pagers !! key = Some ptr → txheap db !! ptr = Some b → buf_ok (open_files db) D b.
Proof using Hdb Htx.
  intros Hk Hb. destruct (tx_buf_file key ptr b Hk Hb) as (Hin & b0 & Hb0 & Hc). exists (key_file key). split; [done|].
  intros id p Hd. rewrite (tx_pages_key key ptr b Hk Hb). split; [|done].
  destruct (do_agrees _ _ Hdb _ _ Hb0) as (t & fl & v & Hr & _). by destruct (Hc t fl v Hr id p Hd) as (_ & ? & _).
Qed.

(** The second phase of a commit: the pages reach their files, or some do. *)
Lemma flush_phase w : ∃ r h p,
  (_ ← on_wal wal_Sync; flush_pagers (map_order 2 (map_to_list pagers).*2)) (set_wal w db) =
    (r, set_txheap h (set_pool p (set_wal w db))) ∧ pool_over (open_files db) D (pool db) p.
Proof using Hdb Htx.
  unfold mbind, M_bind, on_wal, wal_Sync. cbn [wal set_wal]. destruct (f_open (f w)); cycle 1.
  { eexists _, (txheap db), (pool db). by split. }
  destruct (flush_pagers_over (open_files db) D (do_fids _ _ Hdb) (map_order 2 (map_to_list pagers).*2) (set_wal w db))
    as (h & p & E & Ho).
  - intros ptr b Hp Hb. rewrite map_order_perm in Hp.
    apply list_elem_of_fmap in Hp as ([key ptr'] & -> & Hk%elem_of_map_to_list). by eapply tx_bufs_ok.
  - exists (flush_pagers (map_order 2 (map_to_list pagers).*2) (set_wal w db)).1, h, p. split; [|exact Ho].
    rewrite <-E. apply surjective_pairing.
Qed.

(** *** Recovery of what a crash left *)

Let R := log_after rs xid ws (nextLSN (wal db)) (nextXID (wal db)).
(** The commit record is in the log. *)
Let full (n : nat) : bool := bool_decide (n = length ws + 1)%nat.
Let new_view (n : nat) (path : list byte) (v : pmap) : pmap := if full n then (Data <$> D path) ∪ v else v.
Let flushed (n : nat) (path : list byte) : gmap Z Page := if full n then D path else ∅.

Lemma log_committed n : (n ≤ length ws + 1)%nat →
  ∀ y, y ∈ committed_xids (R n) ↔ y ∈ committed_xids (norm_rec <$> rs) ∨ (full n = true ∧ y = xid).
Proof using Hdb Htx.
  intros Hn y. pose proof (writes_named) as Hnm. unfold full. case_bool_decide as Hd.
  - subst n. unfold R. rewrite committed_full by done. set_solver.
  - unfold R. rewrite committed_part by (done || lia). naive_solver.
Qed.

(** What recovery makes of a page. *)
Lemma page_after n path id b t fl v v' : (n ≤ length ws + 1)%nat →
  crash_dir db !! path = Some b → disk_rep b t fl v → partly (flushed n path) v v' →
  match last (page_writes (R n) path id) with
  | Some r => Some (image_data (PageData r))
  | None => v' !! id
  end = new_view n path v !! id.
Proof using Hdb Htx.
  intros Hn Hb Hr Hp. pose proof (writes_named) as Hnm. pose proof (to_fresh _ _ _ _ Htx) as Hfr.
  destruct (do_agrees _ _ Hdb path b Hb) as (t' & fl' & v1 & Hr1 & Hag).
  destruct (disk_rep_unique _ _ _ _ _ _ _ Hr Hr1) as (_ & _ & ->). specialize (Hag id). unfold new_view, flushed, full in *.
  case_bool_decide as Hd.
  - subst n. destruct (page_writes_full rs xid ws (nextLSN (wal db)) (nextXID (wal db)) Hfr Hnm path id) as (l & E & Hl & Hl').
    unfold R. rewrite E. rewrite lookup_union, lookup_fmap. destruct (D path !! id) as [p|] eqn:Ed.
    + pose proof (pages_are_written path id p Ed) as Hw.
      destruct (writes_are_pages path p Hw) as [Hp1 Hwf].
      destruct (tx_covers path b t fl v Hb Hr id p Ed) as (_ & Hid & _).
      destruct l as [|r l] using rev_ind; [by destruct (Hl' p Hw Hid)|clear IHl]. rewrite app_assoc, last_snoc.
      destruct (Hl r) as (q & Hq & Hidq & ->); [apply elem_of_app; right; by left|].
      destruct (writes_are_pages path q Hq) as [Hq1 _]. rewrite Hidq in Hq1. assert (q = p) as -> by congruence.
      unfold image_data. rewrite Decode_Encode_ok by done. by destruct (v !! id).
    + destruct l as [|r l].
      * rewrite app_nil_r. destruct (last (page_writes _ path id)) as [r|]; [rewrite (Hag r eq_refl); by destruct (image_data _)|].
        destruct (Hp id) as [->|(p & Hp' & _)]; [by destruct (v !! id)|]. by rewrite Ed in Hp'.
      * destruct (Hl r ltac:(by left)) as (q & Hq & Hidq & _).
        destruct (writes_are_pages path q Hq) as [Hq1 _]. rewrite Hidq, Ed in Hq1. discriminate.
  - unfold R. rewrite page_writes_part by (done || lia).
    destruct (last (page_writes _ path id)) as [r|]; [by rewrite (Hag r eq_refl)|].
    destruct (Hp id) as [->|(p & Hp' & _)]; [done|]. by rewrite lookup_empty in Hp'.
Qed.

Lemma page_exists n path id b t fl v v' : (n ≤ length ws + 1)%nat →
  crash_dir db !! path = Some b → disk_rep b t fl v → partly (flushed n path) v v' →
  page_writes (R n) path id ≠ [] → is_Some (v' !! id).
Proof using Hdb Htx.
  intros Hn Hb Hr Hp Hne. pose proof (page_after n path id b t fl v v' Hn Hb Hr Hp) as E.
  destruct (last (page_writes (R n) path id)) as [r|] eqn:El; [|by apply last_None in El].
  assert (is_Some (v !! id)) as [d Hd].
  { unfold new_view in E. destruct (full n); [|eauto]. rewrite lookup_union, lookup_fmap in E.
    destruct (D path !! id) as [p|] eqn:Ed; [|destruct (v !! id); [eauto|discriminate]].
    by destruct (tx_covers path b t fl v Hb Hr id p Ed) as (_ & _ & ?). }
  destruct (Hp id) as [->|(p & _ & ->)]; eauto.
Qed.

Lemma log_images n r : (n ≤ length ws + 1)%nat →
  r ∈ R n → Typ r = RecordWrite → XID r ∈ committed_xids (R n) → page_image (PageID r) (PageData r).
Proof using Hdb Htx.
  intros Hn Hr Ht Hx. rewrite (log_committed n Hn) in Hx. pose proof (writes_named) as Hnm.
  unfold R, log_after in Hr. rewrite fmap_app, elem_of_app in Hr. destruct Hr as [(r' & -> & Hr)%list_elem_of_fmap|Hr].
  - cbn in *. apply (do_images _ _ Hdb r' Hr Ht). destruct Hx as [?|[_ Hx]]; [done|]. by destruct (to_fresh _ _ _ _ Htx r' Hr Hx).
  - apply list_elem_of_fmap in Hr as (r' & -> & Hr). cbn in *.
    assert (r' ∈ log_recs (nextLSN (wal db)) (nextXID (wal db)) (commit_ops xid ws)) as Hin
      by (rewrite <-(take_drop n (log_recs _ _ _)); apply elem_of_app; by left).
    rewrite commit_recs, elem_of_app in Hin. destruct Hin as [([path p] & Hw & _ & _ & _ & -> & ->)%elem_of_write_recs|Hin].
    + exists p. split; [|done]. by apply (writes_are_pages path p).
    + apply list_elem_of_singleton in Hin as ->. discriminate.
Qed.

Lemma recovered n w1 d1 sched : (n ≤ length ws + 1)%nat → (∀ m, by_table m (sched m)) →
  log_holds w1 (rs ++ take n (log_recs (nextLSN (wal db)) (nextXID (wal db)) (commit_ops xid ws))) →
  dom d1 = dom (crash_dir db) →
  (∀ path b, crash_dir db !! path = Some b → ∃ b1, d1 !! path = Some b1 ∧ overwritten (flushed n path) b b1) →
  ∃ d', Recover sched (Wal.Open (f_bytes (f w1))) d1 = (Ok tt, d') ∧ dom d' = dom (crash_dir db) ∧
    (∀ path b t fl v, crash_dir db !! path = Some b → disk_rep b t fl v →
       ∃ b', d' !! path = Some b' ∧ disk_rep b' t fl (new_view n path v)) ∧
    CommittedXIDs (Wal.Open (f_bytes (f w1))) = Ok (committed_xids (R n)).
Proof using Hdb Htx.
  intros Hn Hsched Hw Hdom Hd1.
  assert (readAllLocked (Wal.Open (f_bytes (f w1))) = Ok (R n)) as Hread.
  { destruct Hw as [Hb Hc Hwf]. rewrite Hb, <-(app_nil_r (log_bytes _)), Open_log; [|done|left; cbn; rec_lia].
    apply readAll_ok. split; [done|by exists []|done|done]. }
  destruct (log_after_sorted rs xid ws (nextLSN (wal db)) (nextXID (wal db)) n (do_sorted _ _ Hdb) (do_range _ _ Hdb)
    (proj1 (do_next _ _ Hdb))) as [Hs Hpos].
  assert (∀ path b t fl v, crash_dir db !! path = Some b → disk_rep b t fl v →
    ∃ b1 v1, d1 !! path = Some b1 ∧ disk_rep b1 t fl v1 ∧ partly (flushed n path) v v1) as Hd2.
  { intros path b t fl v Hb Hr. destruct (Hd1 path b Hb) as (b1 & Hb1 & Ho).
    destruct (Ho t fl v Hr) as (v1 & ? & ?); [|eauto 10]. unfold flushed. destruct (full n).
    - by apply (tx_covers path b t fl v).
    - intros id p Hp. by rewrite lookup_empty in Hp. }
  destruct (Recover_ok _ (R n) sched d1 Hread Hs Hpos (λ r, log_images n r Hn) (Hsched _)) as (d' & E & Hdom' & Hredo).
  { intros path b1 Hb1. assert (is_Some (crash_dir db !! path)) as [b Hb] by (apply elem_of_dom; rewrite <-Hdom; apply elem_of_dom; eauto).
    destruct (do_agrees _ _ Hdb path b Hb) as (t & fl & v & Hr & _).
    destruct (Hd2 path b t fl v Hb Hr) as (b2 & v2 & Hb2 & Hr2 & Hp2). rewrite Hb1 in Hb2. injection Hb2 as <-.
    exists t, fl, v2. split; [done|]. intros id. by eapply page_exists. }
  exists d'. split; [exact E|]. split; [congruence|]. split; [|unfold CommittedXIDs; by rewrite Hread].
  intros path b t fl v Hb Hr. destruct (Hd2 path b t fl v Hb Hr) as (b1 & v1 & Hb1 & Hr1 & Hp1).
  destruct (Hredo path b1 Hb1) as [_ Hv]. destruct (Hv t fl v1 Hr1) as (b' & v' & Hb' & Hr' & Hv').
  { intros id. by eapply page_exists. }
  exists b'. split; [done|]. assert (v' = new_view n path v) as <-; [|done].
  apply map_eq. intros id. rewrite Hv'. by eapply page_after.
Qed.

(** The database that goes on with these files, whoever wrote them. *)
Lemma agrees_after n path b t fl v b' t' fl' : (n ≤ length ws + 1)%nat → crash_dir db !! path = Some b → disk_rep b t fl v →
  disk_rep b' t' fl' (new_view n path v) → agrees (R n) path b'.
Proof using Hdb Htx.
  intros Hn Hb Hr Hr'. exists t', fl', (new_view n path v). split; [exact Hr'|]. intros id r Hl.
  pose proof (page_after n path id b t fl v v Hn Hb Hr ltac:(by left)) as E. by rewrite Hl in E.
Qed.

Lemma db_ok_next n db' : (n ≤ length ws + 1)%nat →
  log_holds (wal db') (rs ++ take n (log_recs (nextLSN (wal db)) (nextXID (wal db)) (commit_ops xid ws))) →
  nextLSN (wal db) + Z.of_nat n ≤ nextLSN (wal db') → is_u32 (nextXID (wal db')) →
  NoDup (open_files db').*1 → NoDup (open_files db').*2 → Forall (λ pf, is_Some (files (pool db') !! pf.2)) (open_files db') →
  (∀ path b', crash_dir db' !! path = Some b' → ∃ b t fl v t' fl', crash_dir db !! path = Some b ∧ disk_rep b t fl v ∧
     disk_rep b' t' fl' (new_view n path v)) →
  db_ok db' (rs ++ take n (log_recs (nextLSN (wal db)) (nextXID (wal db)) (commit_ops xid ws))).
Proof using Hdb Htx.
  intros Hn Hlog Hl Hx Hp Hf Hfiles Hdir. set (recs := take n _) in *. pose proof (do_next _ _ Hdb) as [Hl0 _].
  destruct (log_after_sorted rs xid ws (nextLSN (wal db)) (nextXID (wal db)) n (do_sorted _ _ Hdb) (do_range _ _ Hdb) Hl0) as [Hs Hpos].
  assert (∀ l : list Rec, LSN <$> (norm_rec <$> l) = LSN <$> l) as En by (intros l; rewrite <-list_fmap_compose; by apply list_fmap_ext).
  unfold log_after in Hs. fold recs in Hs. rewrite En in Hs. split; try done.
  - apply Forall_app. split.
    + eapply Forall_impl; [exact (do_range _ _ Hdb)|]. intros r [? ?]. lia.
    + apply Forall_forall. intros r [i Hi]%list_elem_of_lookup_1. unfold recs in Hi. apply lookup_take_Some in Hi as [Hi Hin].
      apply log_recs_lsn in Hi. lia.
  - lia.
  - intros r Hr Ht Hc. apply (log_images n (norm_rec r) Hn); [|exact Ht|exact Hc].
    unfold R, log_after. fold recs. by apply list_elem_of_fmap_2.
  - intros path b' Hb'. destruct (Hdir path b' Hb') as (b & t & fl & v & t' & fl' & Hb & Hr & Hr'). by eapply agrees_after.
Qed.
End state.

Lemma committed_same rs l : (∀ r, r ∈ l → Typ r ≠ RecordCommit) → committed_xids (norm_rec <$> rs ++ l) = committed_xids (norm_rec <$> rs).
Proof.
  intros Hl. rewrite fmap_app. apply set_eq. intros y. rewrite !elem_of_committed_xids. setoid_rewrite elem_of_app.
  split; intros (r & Hr & Ht & Hy); [|eauto]. destruct Hr as [Hr|(r' & -> & Hr')%list_elem_of_fmap]; [eauto|by destruct (Hl r' Hr')].
Qed.

(** More records of other kinds, and more pages. *)
Lemma db_ok_grow db rs db' l : db_ok db rs → log_holds (wal db') (rs ++ l) → StronglySorted Z.lt (LSN <$> l) →
  Forall (λ r, nextLSN (wal db) ≤ LSN r < nextLSN (wal db') ∧ Typ r ≠ RecordWrite ∧ Typ r ≠ RecordCommit) l →
  nextLSN (wal db) ≤ nextLSN (wal db') → is_u32 (nextXID (wal db')) →
  NoDup (open_files db').*1 → NoDup (open_files db').*2 → Forall (λ pf, is_Some (files (pool db') !! pf.2)) (open_files db') →
  (∀ path b', crash_dir db' !! path = Some b' → ∃ b t fl v t' fl' v', crash_dir db !! path = Some b ∧ disk_rep b t fl v ∧
     disk_rep b' t' fl' v' ∧ v ⊆ v') →
  db_ok db' (rs ++ l).
Proof.
  intros Hdb Hlog Hs Hl Hn Hx Hp Hf Hfiles Hdir. pose proof (do_range _ _ Hdb) as Hrange. rewrite Forall_forall in Hl, Hrange.
  assert (∀ r, r ∈ norm_rec <$> l → Typ r ≠ RecordWrite ∧ Typ r ≠ RecordCommit) as Hother.
  { intros r (r' & -> & Hr)%list_elem_of_fmap. by destruct (Hl r' Hr) as (_ & ? & ?). }
  assert (committed_xids (norm_rec <$> rs ++ l) = committed_xids (norm_rec <$> rs)) as HC by (apply committed_same; intros r Hr; by destruct (Hl r Hr) as (_ & _ & ?)).
  split; try done.
  - rewrite fmap_app. apply StronglySorted_app. split_and!; [|exact (do_sorted _ _ Hdb)|exact Hs].
    intros x y (r & -> & Hr)%list_elem_of_fmap (r' & -> & Hr')%list_elem_of_fmap.
    destruct (Hrange r Hr), (Hl r' Hr') as (? & _). lia.
  - apply Forall_app. pose proof (do_next _ _ Hdb). split; apply Forall_forall.
    + intros r Hr. specialize (Hrange r Hr). lia.
    + intros r Hr. destruct (Hl r Hr) as ([? ?] & _). lia.
  - pose proof (do_next _ _ Hdb). lia.
  - intros r [Hr|Hr]%elem_of_app Ht; [|by destruct (Hl r Hr) as (_ & ? & _)]. rewrite HC. by apply (do_images _ _ Hdb).
  - intros path b' Hb'. destruct (Hdir path b' Hb') as (b & t & fl & v & t' & fl' & v' & Hb & Hr & Hr' & Hv).
    destruct (do_agrees _ _ Hdb path b Hb) as (t1 & fl1 & v1 & Hr1 & Hag). destruct (disk_rep_unique _ _ _ _ _ _ _ Hr Hr1) as (_ & _ & ->).
    exists t', fl', v'. split; [exact Hr'|]. intros id r. rewrite fmap_app, (page_writes_app (committed_xids (norm_rec <$> rs)) _ _ path id); [|by rewrite <-fmap_app|done].
    rewrite (filter_nowhere _ (norm_rec <$> l)), app_nil_r by (intros ? [? _]%Hother; tauto).
    intros Hlast%Hag. destruct (v !! id) as [d|] eqn:Ed; [|done]. rewrite (lookup_weaken _ _ _ _ Ed Hv). done.
Qed.
End crash.

Lemma MarkCommitted_all l m : committed (foldl (λ m x, MarkCommitted x m) m l) = list_to_set l ∪ committed m.
Proof.
  revert m. induction l as [|x l IH]; intros m; cbn [foldl list_to_set]; [set_solver|]. rewrite IH. unfold MarkCommitted. cbn. set_solver.
Qed.

Section durable.
Context `{Unicode} `{HO : MapOrder} (join : string → string) (sched : images → list (list byte * list (Z * list byte))).

(** What the log and the files hold when a commit ends, or is cut off. *)
Lemma commit_outcome db rs xid pagers : db_ok db rs → tx_ok db rs xid pagers →
  let ws := tx_writes (map_order 0 (map_to_list pagers)) db in
  let db1 := (commitTx xid pagers db).2 in
  ∃ n, (n ≤ length ws + 1)%nat ∧ (is_ok (commitTx xid pagers db).1 = true → n = (length ws + 1)%nat) ∧
    log_holds (wal db1) (rs ++ take n (log_recs (nextLSN (wal db)) (nextXID (wal db)) (commit_ops xid ws))) ∧
    dom (crash_dir db1) = dom (crash_dir db) ∧
    (∀ path b, crash_dir db !! path = Some b → ∃ b1, crash_dir db1 !! path = Some b1 ∧
       overwritten (if bool_decide (n = length ws + 1)%nat then tx_pages db pagers path else ∅) b b1) ∧
    cat db1 = cat db ∧ stats_file db1 = stats_file db ∧
    (file_ok (f (wal db)) → nextLSN (wal db1) = nextLSN (wal db) + Z.of_nat (length ws + 1)).
Proof.
  intros Hdb Htx ws. set (kps := map_order 0 (map_to_list pagers)).
  assert (∀ key ptr, (key, ptr) ∈ kps ↔ pagers !! key = Some ptr) as Hkps by (intros; apply elem_of_kps).
  assert (Forall (λ kp, is_Some (txheap db !! kp.2)) kps) as Hheap.
  { apply Forall_forall. intros [key ptr] Hk%Hkps. destruct (to_bufs _ _ _ _ Htx key ptr Hk) as (b & Hb & _). cbn. eauto. }
  assert (length (commit_ops xid ws) = length ws + 1)%nat as Hlen.
  { unfold commit_ops, write_ops. by rewrite length_app, length_fmap. }
  destruct (log_run_any (commit_ops xid ws) (wal db) rs (do_log _ _ Hdb) (commit_ops_wf db rs xid pagers Hdb Htx))
    as (r & w1 & n & Erun & Hw1 & Hcase & Hgood).
  { pose proof (do_next _ _ Hdb). lia. }
  { rewrite Hlen. pose proof (to_room _ _ _ _ Htx) as Hroom. fold ws in Hroom. lia. }
  { apply (do_next _ _ Hdb). }
  rewrite Hlen in Hcase, Hgood. pose proof (commitTx_phases xid pagers db Hheap) as E. fold kps ws in E. cbv zeta in E. rewrite E. clear E.
  assert (∀ p h, crash_dir (set_txheap h (set_pool p (set_wal w1 db))) = crash_dir (set_pool p db)) as Hcd by reflexivity.
  assert (on_wal (log_run (commit_ops xid ws)) db = (r, set_wal w1 db)) as El by (unfold on_wal; by rewrite Erun).
  destruct Hcase as [[-> ->]|[Hr Hn]].
  - exists (length ws + 1)%nat. split; [lia|]. split; [done|]. rewrite bool_decide_eq_true_2 by done.
    rewrite (M_bind_Ok _ _ _ _ _ El).
    destruct (flush_phase db rs xid pagers Hdb Htx w1) as (r' & h & p & E & Ho). rewrite E. cbn [snd].
    destruct (crash_dir_over (tx_pages db pagers) db (set_txheap h (set_pool p (set_wal w1 db)))) as [Hdom Hd];
      [apply Hdb..|done|done|exact Ho|]. split_and!; try done. intros Hg. destruct (Hgood Hg) as (_ & _ & EL & _). exact EL.
  - exists n. split; [lia|]. rewrite bool_decide_eq_false_2 by lia.
    destruct ((on_wal _ ≫= _) db) as [r' db1] eqn:E. destruct (M_bind_fails _ _ _ _ _ _ _ El Hr E) as [Hr' ->]. cbn [fst snd]. rewrite Hr'. split; [done|]. split; [exact Hw1|]. split; [done|]. split; [|split_and!; try done].
    + intros path b Hb. by exists b.
    + intros Hg. destruct (Hgood Hg) as (-> & _). done.
Qed.

(** What opening the database makes of that. *)
Lemma crash_opens db rs xid pagers c sdb :
  db_ok db rs → tx_ok db rs xid pagers → (∀ m, by_table m (sched m)) →
  Load (join "catalog") (Catalog.file (cat db)) = Ok c → LoadStatsDB (join "stats") (stats_file db) = Ok sdb →
  let ws := tx_writes (map_order 0 (map_to_list pagers)) db in
  let db1 := (commitTx xid pagers db).2 in
  ∃ n d' img, let rs' := rs ++ take n (log_recs (nextLSN (wal db)) (nextXID (wal db)) (commit_ops xid ws)) in
    (n ≤ length ws + 1)%nat ∧ (is_ok (commitTx xid pagers db).1 = true → n = (length ws + 1)%nat) ∧ Forall rec_wf rs' ∧
    Exec.Open join sched (crash_image db1) =
      (Ok (mkDB d' c sdb (stats_file db) (Wal.Open (log_bytes rs')) (BufferPool.New DefaultCapacity)
             (foldl (λ m x, MarkCommitted x m) Mvcc.New (elements (committed_xids (norm_rec <$> rs')))) ∅ ∅ ∅ []), img) ∧
    dom d' = dom (crash_dir db) ∧
    ∀ path b t fl v, crash_dir db !! path = Some b → disk_rep b t fl v →
      ∃ b', d' !! path = Some b' ∧
        disk_rep b' t fl (if bool_decide (n = length ws + 1)%nat then (Data <$> tx_pages db pagers path) ∪ v else v).
Proof.
  intros Hdb Htx Hsched Hc Hsdb ws db1.
  destruct (commit_outcome db rs xid pagers Hdb Htx) as (n & Hn & Hok & Hlog & Hdom & Hd & Ec & Es & _).
  destruct (recovered db rs xid pagers Hdb Htx n (wal db1) (crash_dir db1) sched Hn Hsched Hlog Hdom Hd)
    as (d' & ER & Hdom' & Hpages & EC).
  eexists n, d', _. split; [exact Hn|]. split; [exact Hok|]. split; [exact (lh_wf _ _ Hlog)|]. split; [|by split].
  unfold db1 in *. unfold Exec.Open. cbn [crash_image i_wal i_dir i_catalog i_stats]. rewrite ER, Ec, Es, Hc, Hsdb, EC.
  rewrite (lh_bytes _ _ Hlog). reflexivity.
Qed.

(** And of a database at rest. *)
Lemma rest_opens db rs c sdb :
  db_ok db rs → Forall (λ r, XID r < nextXID (wal db)) rs → nextLSN (wal db) + 1 < 2 ^ 64 → (∀ m, by_table m (sched m)) →
  Load (join "catalog") (Catalog.file (cat db)) = Ok c → LoadStatsDB (join "stats") (stats_file db) = Ok sdb →
  ∃ d' img, Exec.Open join sched (crash_image db) =
      (Ok (mkDB d' c sdb (stats_file db) (Wal.Open (log_bytes rs)) (BufferPool.New DefaultCapacity)
             (foldl (λ m x, MarkCommitted x m) Mvcc.New (elements (committed_xids (norm_rec <$> rs)))) ∅ ∅ ∅ []), img) ∧
    Forall rec_wf rs ∧ dom d' = dom (crash_dir db) ∧
    ∀ path b t fl v, crash_dir db !! path = Some b → disk_rep b t fl v → ∃ b', d' !! path = Some b' ∧ disk_rep b' t fl v.
Proof using HO.
  intros Hdb Hx Hl Hsched Hc Hsdb. rewrite Forall_forall in Hx.
  assert (tx_writes (map_order 0 (map_to_list (∅ : gmap string nat))) db = []) as Ews.
  { rewrite map_to_list_empty. assert (map_order 0 ([] : list (string * nat)) = []) as -> by (by apply Permutation_nil_r, map_order_perm). done. }
  assert (tx_ok db rs (nextXID (wal db)) ∅) as Htx.
  { split; [apply (do_next _ _ Hdb)|intros r Hr E; specialize (Hx r Hr); lia|by intros ? ? [? ?]|done|rewrite Ews; cbn; lia]. }
  destruct (recovered db rs (nextXID (wal db)) ∅ Hdb Htx 0 (wal db) (crash_dir db) sched) as (d' & ER & Hdom & Hpages & EC);
    [lia|done|rewrite take_0, app_nil_r; apply Hdb|done|intros path b Hb; exists b; done|].
  unfold log_after in EC. rewrite take_0, app_nil_r in EC. pose proof (do_log _ _ Hdb) as [Hb _ Hwf].
  exists d'. eexists. split; [|split; [exact Hwf|split; [exact Hdom|]]].
  - unfold Exec.Open. cbn [crash_image i_wal i_dir i_catalog i_stats]. rewrite ER, Hc, Hsdb, EC, Hb. reflexivity.
  - intros path b t fl v Hp Hr. destruct (Hpages path b t fl v Hp Hr) as (b' & Hb' & Hr'). exists b'. split; [exact Hb'|].
    rewrite bool_decide_eq_false_2 in Hr' by lia. exact Hr'.
Qed.

(** C3. COMMIT is atomic and durable, as long as the log keeps the names of the
    transaction's files: 32 bytes without a trailing zero byte ([tx_ok]; a
    longer name is cut in the log, and the pages of that file are then not
    redone). Stop COMMIT after any number of writes to the log and to each file,
    or let it end with whatever result, and open what the files hold then: the
    database opens, and either every page of every file has what the transaction
    wrote to it and the transaction counts as committed, or no page of any file
    has changed and it does not. It is the former when COMMIT reported success.
    This holds whatever the order in which the maps are traversed, for a
    transaction that has logged nothing but its begin record and keys that stand
    for different files, while the 64-bit record numbers last, on a database
    whose files agree with its log ([db_ok]) and whose catalog and statistics
    file can be read. *)
Theorem commit_crash_atomic db rs xid pagers c sdb :
  db_ok db rs → tx_ok db rs xid pagers → (∀ m, by_table m (sched m)) →
  Load (join "catalog") (Catalog.file (cat db)) = Ok c → LoadStatsDB (join "stats") (stats_file db) = Ok sdb →
  ∃ (durable : bool) db2 img, (is_ok (commitTx xid pagers db).1 = true → durable = true) ∧
    Exec.Open join sched (crash_image (commitTx xid pagers db).2) = (Ok db2, img) ∧
    (∀ y, y ∈ committed (txMgr db2) ↔ y ∈ committed_xids (norm_rec <$> rs) ∨ (durable = true ∧ y = xid)) ∧
    dom (dir db2) = dom (crash_dir db) ∧
    ∀ path b t fl v, crash_dir db !! path = Some b → disk_rep b t fl v →
      ∃ b', dir db2 !! path = Some b' ∧
        disk_rep b' t fl (if durable then (Data <$> tx_pages db pagers path) ∪ v else v).
Proof.
  intros Hdb Htx Hsched Hc Hsdb.
  destruct (crash_opens db rs xid pagers c sdb Hdb Htx Hsched Hc Hsdb) as (n & d' & img & Hn & Hok & _ & EO & Hdom & Hpages).
  eexists (bool_decide (n = length (tx_writes (map_order 0 (map_to_list pagers)) db) + 1)%nat), _, _. split.
  { intros Hr. by apply bool_decide_eq_true_2, Hok. }
  split; [exact EO|]. cbn [txMgr dir]. split; [|split; [exact Hdom|exact Hpages]].
  intros y. rewrite MarkCommitted_all, elem_of_union, elem_of_list_to_set, elem_of_elements.
  pose proof (log_committed db rs xid pagers Hdb Htx n Hn y) as Hy. unfold log_after in Hy. rewrite Hy. cbn. set_solver.
Qed.
End durable.

(** ** A concrete instance *)

(** The maps in the order of their listing. *)
#[local] Program Instance listed_order : MapOrder := {| map_order _ _ l := l |}.
Next Obligation. done. Qed.
#[local] Existing Instance no_tables.

Definition file_pages (t : list byte) (l : list (page_key * (list byte * Z))) : list (Z * list byte) :=
  omap (λ kr, if decide (kr.1.1 = t) then Some (kr.1.2, kr.2.1) else None) l.

(** A schedule of recovery: file by file. *)
Definition by_file (m : images) : list (list byte * list (Z * list byte)) :=
  (λ t, (t, file_pages t (map_to_list m))) <$> elements (set_map fst (dom m) : gset (list byte)).

Lemma elem_of_file_pages t l id raw : (id, raw) ∈ file_pages t l ↔ ∃ lsn, ((t, id), (raw, lsn)) ∈ l.
Proof.
  unfold file_pages. rewrite list_elem_of_omap. split.
  - intros ([[t' id'] [raw' lsn]] & Hin & Hd). cbn in Hd. case_decide as Ht; [|done]. injection Hd as <- <-. subst t'. eauto.
  - intros [lsn Hin]. exists ((t, id), (raw, lsn)). split; [done|]. cbn. by rewrite decide_True.
Qed.

Lemma file_pages_NoDup t l : NoDup l.*1 → NoDup (file_pages t l).*1.
Proof.
  induction l as [|[[t' id] [raw lsn]] l IH]; [constructor|]. intros [Hn Hnd]%NoDup_cons. unfold file_pages. cbn.
  case_decide as Ht; [|by apply IH]. cbn. constructor; [|by apply IH]. subst t'.
  intros ([id' raw'] & Hid & Hin)%list_elem_of_fmap. cbn in Hid. subst id'. apply elem_of_file_pages in Hin as [lsn' Hin].
  apply Hn. by apply (list_elem_of_fmap_2 fst) in Hin.
Qed.

Lemma by_file_ok m : by_table m (by_file m).
Proof.
  assert (∀ t, t ∈ elements (set_map fst (dom m) : gset (list byte)) ↔ ∃ id raw lsn, m !! (t, id) = Some (raw, lsn)) as Hdom.
  { intros t. rewrite elem_of_elements, elem_of_map. setoid_rewrite elem_of_dom. split.
    - intros ([t' id] & -> & [[raw lsn] Hm]). cbn. eauto.
    - intros (id & raw & lsn & Hm). exists (t, id). rewrite Hm. eauto. }
  unfold by_file. split; [|split].
  - rewrite <-list_fmap_compose. rewrite (list_fmap_ext _ id) by done. rewrite list_fmap_id. apply NoDup_elements.
  - apply Forall_forall. intros tp (t & -> & (id & raw & lsn & Hm)%Hdom)%list_elem_of_fmap. cbn [fst snd]. split.
    + intros Hnil. apply (elem_of_nil (A := Z * list byte) (id, raw)). rewrite <-Hnil. apply elem_of_file_pages. exists lsn.
      by apply elem_of_map_to_list.
    + apply file_pages_NoDup, NoDup_fst_map_to_list.
  - intros t id raw. split.
    + intros (pages & (t' & [= -> ->] & _)%list_elem_of_fmap & [lsn Hin%elem_of_map_to_list]%elem_of_file_pages). eauto.
    + intros [lsn Hm]. exists (file_pages t (map_to_list m)). split.
      * apply list_elem_of_fmap. exists t. split; [done|]. apply Hdom. eauto.
      * apply elem_of_file_pages. exists lsn. by apply elem_of_map_to_list.
Qed.

(** Ada's database in a transaction that has buffered a blank page 1. *)
Definition ada_page : Page := NewPage 1 PageTypeData.
Definition ada_tx_db (bt : BTree BufPager) : DB :=
  set_txheap [mkTxBuf (bp_fid (pg bt)) {[1 := ada_page]} []] (ada_db bt).
Definition ada_pagers : gmap string nat := {["people"%string := 0%nat]}.
Definition people_file : list byte := String.list_byte_of_string "people.db".

Lemma ada_open_files bt : open_files (ada_tx_db bt) = [(people_file, bp_fid (pg bt))].
Proof.
  unfold open_files. change (openTbls (ada_tx_db bt)) with ({["people"%string := bp_fid (pg bt)]} : gmap string Z).
  change (openIdxs (ada_tx_db bt)) with (∅ : gmap string Z). by rewrite map_to_list_singleton, map_to_list_empty.
Qed.

Lemma ada_file bt h : headerPage bt = 1 → tree_rep true bt h [ada_entry] →
  ∃ pg0 t fl v, files (pool (ada_tx_db bt)) !! bp_fid (pg bt) = Some pg0 ∧
    crash_dir (ada_tx_db bt) = {[people_file := f_bytes (Pager.file pg0)]} ∧
    disk_rep (f_bytes (Pager.file pg0)) t fl v ∧ is_Some (v !! 1).
Proof.
  intros Hh Ht. destruct (ada_db_tree bt h Hh Ht) as (v & root & (pg0 & [_ Hf _] & _ & Hr) & _ & _ & _ & _ & _ & _ & _ & Hhd).
  cbn [bp_pool bp_fid] in Hf. change (pool (ada_db bt)) with (pool (ada_tx_db bt)) in Hf.
  exists pg0, (totalPages pg0), (freeList pg0), v. split_and!; [exact Hf| |exact Hr|eauto].
  unfold crash_dir. rewrite ada_open_files. cbn [foldr fst snd]. by rewrite Hf.
Qed.

Lemma ada_wal : wal (ada_tx_db (mkBTree buf0 0 0)) = mkWAL (OpenFile []) 0 1 1.
Proof. apply (Open_log [] [] (Forall_nil_2 _)). left. cbn. rec_lia. Qed.

Lemma ada_db_ok bt h : headerPage bt = 1 → tree_rep true bt h [ada_entry] → db_ok (ada_tx_db bt) [].
Proof.
  intros Hh Ht. destruct (ada_file bt h Hh Ht) as (pg0 & t & fl & v & Hf & Hc & Hr & _).
  split; rewrite ?ada_open_files; change (wal (ada_tx_db bt)) with (wal (ada_tx_db (mkBTree buf0 0 0))); rewrite ?ada_wal.
  - split; [done|done|constructor].
  - constructor.
  - constructor.
  - cbn. lia.
  - intros r []%elem_of_nil.
  - apply NoDup_singleton.
  - apply NoDup_singleton.
  - apply Forall_singleton. eauto.
  - intros path b Hb. rewrite Hc in Hb. apply lookup_singleton_Some in Hb as [<- <-]. exists t, fl, v. split; [exact Hr|]. intros id r Hl. discriminate Hl.
Qed.

Lemma ada_pagers_lookup key ptr : ada_pagers !! key = Some ptr → key = "people"%string ∧ ptr = 0%nat.
Proof. unfold ada_pagers. intros [<- <-]%lookup_singleton_Some. done. Qed.

Lemma ada_tx_ok bt h : headerPage bt = 1 → tree_rep true bt h [ada_entry] → tx_ok (ada_tx_db bt) [] 1 ada_pagers.
Proof.
  intros Hh Ht. destruct (ada_file bt h Hh Ht) as (pg0 & t & fl & v & Hf & _ & Hr & Hv). split.
  - lia.
  - intros r []%elem_of_nil.
  - intros key key' [? [-> _]%ada_pagers_lookup] [? [-> _]%ada_pagers_lookup] _. reflexivity.
  - intros key ptr [-> ->]%ada_pagers_lookup. eexists. split; [reflexivity|]. rewrite ada_open_files.
    split; [by left|]. split; [reflexivity|]. exists pg0, t, fl, v. split; [exact Hf|]. split; [exact Hr|].
    cbn [tb_dirty]. intros id p [<- <-]%lookup_singleton_Some. split; [apply NewPage_data_wf; lia|]. split; [reflexivity|exact Hv].
  - change (wal (ada_tx_db bt)) with (wal (ada_tx_db (mkBTree buf0 0 0))). rewrite ada_wal. cbn [nextLSN].
    unfold ada_pagers. cbn [map_order listed_order]. rewrite map_to_list_singleton. unfold tx_writes. cbn [mbind list_bind fst snd txheap ada_tx_db set_txheap lookup list_lookup tb_dirty].
    rewrite map_to_list_singleton. cbn. lia.
Qed.

Lemma commit_crash_atomic_witness :
  ∃ db b t fl v durable db2 img b', crash_dir db !! people_file = Some b ∧ disk_rep b t fl v ∧
    Exec.Open id by_file (crash_image (commitTx 1 ada_pagers db).2) = (Ok db2, img) ∧
    dir db2 !! people_file = Some b' ∧
    disk_rep b' t fl (if durable : bool then (Data <$> tx_pages db ada_pagers people_file) ∪ v else v).
Proof.
  destruct ada_tree as (bt & h & Hh & Ht). exists (ada_tx_db bt).
  destruct (ada_file bt h Hh Ht) as (pg0 & t & fl & v & Hf & Hc & Hr & Hv).
  destruct (commit_crash_atomic id by_file (ada_tx_db bt) [] 1 ada_pagers _ _ (ada_db_ok bt h Hh Ht) (ada_tx_ok bt h Hh Ht) by_file_ok eq_refl eq_refl)
    as (durable & db2 & img & _ & Eo & _ & _ & Hp).
  assert (crash_dir (ada_tx_db bt) !! people_file = Some (f_bytes (Pager.file pg0))) as Hb by by rewrite Hc, lookup_singleton_eq.
  destruct (Hp people_file (f_bytes (Pager.file pg0)) t fl v Hb Hr) as (b' & Hb' & Hr').
  exists (f_bytes (Pager.file pg0)), t, fl, v, durable, db2, img, b'. split_and!; [exact Hb|exact Hr|exact Eo|exact Hb'|exact Hr'].
Defined.
