(* ===== verification/Writes.v ===== *)
(** * Writes: calls that change the tree of one file

    A call that changes the tree of one file through a [TxPager] leaves every
    other file, and the rest of the database, as it was; a commit of one
    [TxPager] logs and flushes its pages. *)
From S2P Require Import Prelude Disk Storage Store Pager Mvcc TxPager BufferPool Node BTree Cursor Transaction.
From S2P Require Import Wal GoLib Catalog Rows Ast Eval Stats Planner Db Frame Dml Exec Durability.
From stdpp Require Import options.
Local Open Scope Z_scope.

(** ** Calls that use a page store through its interface *)

(** Whatever reads, writes and allocations keep, the call keeps. *)
Definition page_ops {A} (m : ∀ S : Type, PageStore S → M S A) : Prop :=
  ∀ S (PS : PageStore S) (I : S → Prop),
    (∀ id s, I s → I (ps_read id s).2) → (∀ p s, I s → I (ps_write p s).2) → (∀ s, I s → I (ps_alloc s).2) →
    ∀ s, I s → I (m S PS s).2.

Lemma ops_ret {A} (a : A) : page_ops (λ S PS, mret a).
Proof. by intros S PS I Hr Hw Ha s Hs. Qed.
Lemma ops_lift {A} (r : res A) : page_ops (λ S PS, lift r).
Proof. by intros S PS I Hr Hw Ha s Hs. Qed.
Lemma ops_fail {A} e : page_ops (A := A) (λ S PS, fail e).
Proof. by intros S PS I Hr Hw Ha s Hs. Qed.
Lemma ops_read id : page_ops (λ S PS, ps_read id).
Proof. intros S PS I Hr Hw Ha s Hs. by apply Hr. Qed.
Lemma ops_write p : page_ops (λ S PS, ps_write p).
Proof. intros S PS I Hr Hw Ha s Hs. by apply Hw. Qed.
Lemma ops_alloc : page_ops (λ S PS, ps_alloc).
Proof. intros S PS I Hr Hw Ha s Hs. by apply Ha. Qed.
Lemma ops_wrap {A} fmt args (m : ∀ S : Type, PageStore S → M S A) :
  page_ops m → page_ops (λ S PS, wrap fmt args (m S PS)).
Proof. intros Hm S PS I Hr Hw Ha s Hs. specialize (Hm S PS I Hr Hw Ha s Hs). unfold wrap. by destruct (m S PS s). Qed.
Lemma ops_bind {A B} (m : ∀ S : Type, PageStore S → M S A) (f : ∀ S : Type, PageStore S → A → M S B) :
  page_ops m → (∀ a, page_ops (λ S PS, f S PS a)) → page_ops (λ S PS, m S PS ≫= f S PS).
Proof.
  intros Hm Hf S PS I Hr Hw Ha s Hs. specialize (Hm S PS I Hr Hw Ha s Hs). unfold mbind, M_bind.
  destruct (m S PS s) as [[a|e| |] s1]; cbn [snd] in *; try done. by apply (Hf a S PS I).
Qed.

Create HintDb pages discriminated.
#[export] Hint Resolve ops_ret ops_lift ops_fail ops_read ops_write ops_alloc ops_wrap : pages.

Ltac ops_step :=
  match goal with
  | |- page_ops (λ S PS, mbind _ _) => apply (ops_bind (λ S PS, _) (λ S PS, _)); [|intros]
  | |- page_ops (λ S PS, wrap _ _ _) => apply (ops_wrap _ _ (λ S PS, _))
  | |- page_ops (λ S PS, if decide ?P then _ else _) => destruct (decide P)
  | |- page_ops (λ S PS, if ?b then _ else _) => destruct b
  | |- page_ops (λ S PS, let '(_, _) := ?p in _) => destruct p
  | |- page_ops (λ S PS, match ?x with Some _ => _ | None => _ end) => destruct x
  | |- page_ops _ => auto with pages; fail
  end.
Ltac ops_auto := repeat ops_step.

Lemma ops_splitLeaf leaf : page_ops (λ S PS, splitLeaf leaf).
Proof. unfold splitLeaf. ops_auto. Qed.
Lemma ops_splitInternal node : page_ops (λ S PS, splitInternal node).
Proof. unfold splitInternal. ops_auto. Qed.
Lemma ops_flushHeader hd root : page_ops (λ S PS, flushHeader hd root).
Proof. unfold flushHeader. ops_auto. Qed.
#[export] Hint Resolve ops_splitLeaf ops_splitInternal ops_flushHeader : pages.

Lemma ops_insertLeaf p key value : page_ops (λ S PS, insertLeaf p key value).
Proof. unfold insertLeaf. ops_auto. Qed.
#[export] Hint Resolve ops_insertLeaf : pages.

Lemma ops_insertNode fuel id key value : page_ops (λ S PS, insertNode fuel id key value).
Proof.
  revert id. induction fuel as [|fuel IH]; intros id; cbn [insertNode]; [ops_auto|]. unfold insertInternal. ops_auto.
Qed.

(** A call on a tree, as [on_bt] makes it on the tree's store. *)
Definition tree_call {A} (t : Tree) (m : ∀ S : Type, PageStore S → M (BTree S) A) :
    ∀ S : Type, PageStore S → M S (A * Tree) := λ S PS s,
  let '(r, bt) := m S PS (mkBTree s (t_pages t).1 (t_pages t).2) in
  ((λ a, (a, mkTree (t_store t) (headerPage bt, rootID bt))) <$> r, pg bt).

Lemma ops_Insert fuel key value t : page_ops (tree_call t (λ S _, Insert (S := S) fuel key value)).
Proof.
  intros S PS I Hr Hw Ha s Hs. unfold tree_call, Insert. M_run. unfold on_pg. cbn [rootID pg headerPage].
  pose proof (ops_insertNode fuel (t_pages t).2 key value S PS I Hr Hw Ha s Hs) as H1. cbn beta in H1.
  destruct (insertNode fuel (t_pages t).2 key value s) as [[[sp|]|e| |] s1]; cbn [snd pg] in *; try exact H1.
  pose proof (Ha s1 H1) as H2. destruct (ps_alloc s1) as [[id|e| |] s2]; cbn [snd pg wrap_err] in *; try exact H2.
  destruct (EncodeInternal _) as [np|e| |]; cbn [pg snd]; try exact H2.
  pose proof (Hw np s2 H2) as H3. destruct (ps_write np s2) as [[[]|e| |] s3]; cbn [snd pg wrap_err headerPage rootID] in *; try exact H3.
  pose proof (ops_flushHeader (t_pages t).1 id S PS I Hr Hw Ha s3 H3) as H4. cbn beta in H4.
  by destruct (flushHeader (t_pages t).1 id s3) as [[[]|e| |] s4].
Qed.

(** ** What the other files keep *)

Definition others (fid : Z) (p p' : Pool) : Prop :=
  ∀ fid', fid' ≠ fid → files p' !! fid' = files p !! fid' ∧
    ∀ v, bp_rep (mkBufPager p fid') v → bp_rep (mkBufPager p' fid') v.

#[export] Instance others_preorder fid : PreOrder (others fid).
Proof.
  split; [by intros p fid'|]. intros p1 p2 p3 H1 H2 fid' Hne. destruct (H1 fid' Hne) as [F1 V1], (H2 fid' Hne) as [F2 V2].
  split; [congruence|]. auto.
Qed.

Lemma same_others fid p p' : same_files p p' → others fid p p'.
Proof. intros [Hf Hs] fid' _. split; [by rewrite Hf|apply Hs]. Qed.

Lemma others_intro fid p p' : (pool_inv p → pool_inv p') →
  (∀ fid', fid' ≠ fid → files p' !! fid' = files p !! fid') →
  (∀ fid' id q, fid' ≠ fid → frames p' !! (fid', id) = Some q → frames p !! (fid', id) = Some q) →
  others fid p p'.
Proof.
  intros Hi Hf Hfr fid' Hne. split; [by apply Hf|]. intros v (pg & [Hinv Hfile Hcoh] & Hrep). cbn [bp_pool bp_fid] in *.
  exists pg. split; [|done]. split; cbn [bp_pool bp_fid]; [by apply Hi|by rewrite Hf|].
  intros id q Hid Hq. by apply Hcoh, Hfr.
Qed.

Lemma others_set_file fid pg p : others fid p (set_files (<[fid := pg]> (files p)) p).
Proof.
  apply others_intro; [intros []; by split| |done]. intros fid' Hne. cbn. by rewrite lookup_insert_ne.
Qed.

Lemma others_UpdatePage fid q p : others fid p (UpdatePage fid q p).
Proof.
  destruct (UpdatePage_fields fid q p) as [Hf Hfr]. apply others_intro; [apply UpdatePage_inv|by intros; rewrite Hf|].
  intros fid' id r Hne [[[= -> _] _]|[_ ?]]%Hfr; done.
Qed.

Lemma own_pager_others {A} (m : M Pager A) bp :
  bp_fid (own_pager m bp).2 = bp_fid bp ∧ others (bp_fid bp) (bp_pool bp) (bp_pool (own_pager m bp).2).
Proof.
  unfold own_pager, on_pool, on_file, on_stray. destruct (files (bp_pool bp) !! bp_fid bp) as [pg|].
  2: { destruct (strays (bp_pool bp) !! bp_fid bp) as [pg|]; [|done]. destruct (m pg) as [r pg']. split; [done|]. apply others_intro; [intros []; by split|done|done]. }
  destruct (m pg) as [r pg']. cbn [snd bp_fid bp_pool]. split; [done|]. apply others_set_file.
Qed.

Lemma others_EvictPage fid id p : others fid p (EvictPage fid id p).
Proof.
  destruct (EvictPage_fields fid id p) as (Hf & Hfr). apply others_intro; [apply EvictPage_inv|by intros; rewrite Hf|].
  intros fid' j q Hne Hl. by apply Hfr in Hl as [_ ?].
Qed.

(** A [TxPager] on file [fid], begun in pool [p]. *)
Definition tx_on (fid : Z) (p : Pool) (tp : TxPager BufPager) : Prop :=
  bp_fid (base tp) = fid ∧ others fid p (bp_pool (base tp)).

Lemma tx_on_read fid p id tp : tx_on fid p tp → tx_on fid p (ps_read id tp).2.
Proof.
  intros [Hf Ho]. unfold ps_read, TxPager_pages, TxPager.ReadPage. M_run. destruct (dirty tp !! id); [by split|].
  unfold on_base, ps_read, fs_pages, BufPager_full, BufPager_pages, BufReadPage, on_pool. 
  pose proof (FetchPage_same (bp_fid (base tp)) id (bp_pool (base tp))) as Hs.
  destruct (FetchPage _ _ _) as [r p']. cbn [snd base bp_fid bp_pool] in *. split; cbn [base bp_fid bp_pool]; [done|].
  etrans; [exact Ho|by apply same_others].
Qed.

Lemma tx_on_write fid p q tp : tx_on fid p tp → tx_on fid p (ps_write q tp).2.
Proof. by intros [Hf Ho]. Qed.

Lemma tx_on_alloc fid p tp : tx_on fid p tp → tx_on fid p (ps_alloc tp).2.
Proof.
  intros [Hf Ho]. unfold ps_alloc, TxPager_pages, TxPager.AllocatePage, on_base. M_run.
  unfold ps_alloc, fs_pages, BufPager_full, BufPager_pages, BufAllocatePage.
  pose proof (own_pager_others Pager.AllocatePage (base tp)) as [Hf' Ho'].
  destruct (own_pager Pager.AllocatePage (base tp)) as [[id|e| |] bp]; cbn [snd base] in *; (split; cbn [base];
    [congruence|etrans; [exact Ho|by rewrite <-Hf at 1]]).
Qed.

(** A step of the database that changes one [TxPager] and its file's frames. *)
Definition tx_step (ptr : nat) (fid : Z) (db db' : DB) : Prop :=
  ∃ b p, tb_fid b = fid ∧ others fid (pool db) p ∧ db' = set_txheap (<[ptr := b]> (txheap db)) (set_pool p db).

(** Pages that file [fid] still has room for. *)
Definition file_room (db : DB) (fid : Z) : Z := default 0 (pager_room <$> files (pool db) !! fid).

(** Calls on a [TxPager], with what any page store does with them. *)
Lemma on_store_tx {A} (m : ∀ S : Type, PageStore S → M S A) (Q : A → pmap → Prop) n db ptr b v0 v :
  txheap db !! ptr = Some b → tx_view db ptr v0 v → page_ops m →
  n ≤ file_room db (tb_fid b) →
  (∀ S (PS : PageStore S) (PSS : PageStoreSpec S) s, ps_rep s v → n ≤ ps_room s →
     ∃ a s' v', m S PS s = (Ok a, s') ∧ ps_rep s' v' ∧ ps_room s - n ≤ ps_room s' ∧ Q a v') →
  ∃ a db' v', on_store (HTx ptr) m db = (Ok a, db') ∧ tx_step ptr (tb_fid b) db db' ∧
    tx_view db' ptr v0 v' ∧ file_room db (tb_fid b) - n ≤ file_room db' (tb_fid b) ∧ Q a v'.
Proof.
  intros Hb (b' & Hb' & Hrep) Hm Hn Hok. rewrite Hb in Hb'. injection Hb' as <-.
  cbn [on_store]. unfold on_tx. rewrite Hb. set (tp := mkTxPager _ _ _) in *.
  destruct (Hok _ _ (TxPager_spec_from (FSS := BufPager_full_spec) v0) tp Hrep Hn) as (a & tp' & v' & E & Hrep' & Hroom' & HQ).
  pose proof (Hm (TxPager BufPager) _ (tx_on (tb_fid b) (pool db)) (tx_on_read _ _) (tx_on_write _ _) (tx_on_alloc _ _) tp
    ltac:(by split)) as [Hf Ho]. cbn beta in *. rewrite E in *. cbn [snd] in *.
  exists a. eexists _, v'. split; [reflexivity|]. split; [|split; [|split; [|done]]].
  - exists (mkTxBuf (tb_fid b) (dirty tp') (allocated tp')), (bp_pool (base tp')). by split_and!.
  - eexists. split; [cbn [txheap set_txheap]; apply list_lookup_insert_eq; by eapply lookup_lt_Some|].
    cbn [tb_fid tb_dirty tb_allocated pool set_txheap set_pool]. destruct tp' as [[p f] d al]. cbn in *. by subst f.
  - revert Hroom'. unfold file_room. cbn [pool set_txheap set_pool]. destruct tp' as [[p f] d al]. cbn in *. by subst f.
Qed.

Lemma read_tx_step ptr b db db' : txheap db !! ptr = Some b → read_step db db' → tx_step ptr (tb_fid b) db db'.
Proof.
  intros Hb (p & Hp & ->). exists b, p. split; [done|]. split; [by apply same_others|].
  rewrite list_insert_id by done. by destruct db.
Qed.

Lemma tx_step_trans ptr fid db1 db2 db3 : tx_step ptr fid db1 db2 → tx_step ptr fid db2 db3 → tx_step ptr fid db1 db3.
Proof.
  intros (b & p & Hf & Ho & ->) (b' & p' & Hf' & Ho' & ->). exists b', p'. split; [done|]. split; [by etrans|].
  cbn. by rewrite list_insert_insert_eq.
Qed.

(** The [TxPager] [ptr] on file [fid], begun when the file held [v0], shows a
    tree with these entries, and the file has room for [n] more pages. *)
Definition tx_tree (db : DB) (ptr : nat) (fid : Z) (v0 : pmap) (root : Z) (kvs : list Node.Entry) (n : Z) : Prop :=
  ∃ b v, txheap db !! ptr = Some b ∧ tb_fid b = fid ∧ tx_view db ptr v0 v ∧ holds_tree v 1 root kvs ∧ n ≤ file_room db fid.

Lemma tx_tree_read db db' ptr fid v0 root kvs n : read_step db db' → tx_tree db ptr fid v0 root kvs n → tx_tree db' ptr fid v0 root kvs n.
Proof.
  intros Hs (b & v & Hb & Hf & Hv & Ht & Hn). exists b, v. pose proof (read_step_tx_view db db' ptr v0 v Hs Hv) as Hv'.
  destruct Hs as (p & [Hfiles _] & ->). split_and!; [done|done|done|done|]. unfold file_room in *. cbn. by rewrite Hfiles.
Qed.

Lemma tx_tree_step db db' ptr fid v0 root kvs n : read_step db db' → tx_tree db ptr fid v0 root kvs n → tx_step ptr fid db db'.
Proof. intros Hs (b & v & Hb & <- & _). by eapply read_tx_step. Qed.

(** Insertion into, and search in, such a tree. *)
Lemma tx_tree_Insert db ptr fid v0 root kvs n key val tfuel :
  tx_tree db ptr fid v0 root kvs n → entry_wf (mkEntry key val) → 33 ≤ n → (32 ≤ tfuel)%nat →
  ∃ root' db', on_bt (mkTree (HTx ptr) (1, root)) (λ S _, Insert (S := S) tfuel key val) db =
      (Ok (tt, mkTree (HTx ptr) (1, root')), db') ∧
    tx_step ptr fid db db' ∧ tx_tree db' ptr fid v0 root' (kv_insert key val kvs) (n - 33).
Proof.
  intros (b & v & Hb & <- & Hv & (ne & h & fl & fp & Hr & Hne & Hhd & Hl) & Hroom) Hwf Hn Hfuel.
  destruct (on_store_tx (tree_call (mkTree (HTx ptr) (1, root)) (λ S _, Insert (S := S) tfuel key val))
    (λ at_ v', ∃ root', at_ = (tt, mkTree (HTx ptr) (1, root')) ∧ holds_tree v' 1 root' (kv_insert key val kvs))
    33 db ptr b v0 v Hb Hv (ops_Insert _ _ _ _) ltac:(lia)) as (at_ & db' & v' & E & Hs & Hv' & Hroom' & root' & -> & Ht).
  - intros S PS PSS s Hs Hns.
    destruct (Insert_ok ne true (mkBTree s 1 root) h kvs key val tfuel) as (bt' & h' & E & (v' & fl' & fp' & Hs' & Hr' & Hhd' & Hl') & Hr1 & Hh);
      [destruct Hne as [->| ->]; auto|by exists v, fl, fp|exact Hwf|exact Hns|exact Hfuel|].
    cbn [headerPage] in Hh. rewrite Hh in Hhd', Hl'.
    unfold tree_call. cbn [t_pages t_store fst snd]. rewrite E. eexists _, _, v'. split; [reflexivity|]. split; [exact Hs'|].
    split; [exact Hr1|]. exists (rootID bt'). rewrite Hh. split; [done|]. exists true, h', fl', fp'. split_and!; [done|by left|done|done].
  - exists root', db'. split; [exact E|]. split; [exact Hs|]. destruct Hs as (b' & p & Hf & Ho & ->).
    exists b', v'. split_and!; [|done|done|done|lia]. cbn. apply list_lookup_insert_eq. by eapply lookup_lt_Some.
Qed.

Lemma tx_tree_Search db ptr fid v0 root kvs n key tfuel :
  tx_tree db ptr fid v0 root kvs n → is_u64 key → (32 ≤ tfuel)%nat →
  ∃ db', on_bt (mkTree (HTx ptr) (1, root)) (λ S _, Search (S := S) tfuel key) db =
      (Ok (kv_map kvs !! key, mkTree (HTx ptr) (1, root)), db') ∧ read_step db db'.
Proof. intros (b & v & _ & _ & Hv & Ht & _) Hk Hf. apply (Search_view db (mkTree (HTx ptr) (1, root)) v kvs); try done. by eapply tx_view_handle. Qed.

Lemma tx_tree_open db ptr fid v0 root kvs n : tx_tree db ptr fid v0 root kvs n →
  ∃ db', open_tree (HTx ptr) db = (Ok (mkTree (HTx ptr) (1, root)), db') ∧ read_step db db'.
Proof. intros (b & v & _ & _ & Hv & Ht & _). apply (open_tree_ok db (HTx ptr) v root kvs); [by eapply tx_view_handle|done]. Qed.

(** A new [TxPager] on a file shows what the file holds. *)
Lemma tx_tree_new db fid v root kvs n : handle_view db (HBuf fid) v → holds_tree v 1 root kvs → n ≤ file_room db fid →
  tx_tree (set_txheap (txheap db ++ [mkTxBuf fid ∅ []]) db) (length (txheap db)) fid v root kvs n.
Proof.
  intros Hv Ht Hn. exists (mkTxBuf fid ∅ []), v.
  assert (txheap (set_txheap (txheap db ++ [mkTxBuf fid ∅ []]) db) !! length (txheap db) = Some (mkTxBuf fid ∅ [])) as Hl.
  { cbn. rewrite lookup_app_r by lia. by rewrite Nat.sub_diag. }
  split_and!; [exact Hl|done| |done|done]. eexists. split; [exact Hl|]. exact (NewTxPager_rep _ _ Hv).
Qed.

(** ** The commit of one [TxPager] on a healthy device *)

Lemma flush_tx_on fid p ps tp : tx_on fid p tp → tx_on fid p (flush_pages ps tp).2.
Proof.
  revert tp. induction ps as [|q ps IH]; intros tp [Hf Ho]; [done|]. cbn [flush_pages]. unfold on_base. M_run.
  change (ps_write q (base tp)) with (BufWritePage q (base tp)).
  pose proof (own_pager_others (Pager.WritePage q) (base tp)) as [Hf1 Ho1]. unfold BufWritePage. M_run.
  destruct (own_pager (Pager.WritePage q) (base tp)) as [[[]|e| |] bp]; cbn [snd base] in *.
  2-4: split; cbn [base]; [congruence|etrans; [exact Ho|by rewrite <-Hf at 1]].
  unfold on_pool, modify. cbn [bp_pool bp_fid]. apply IH. split; cbn [base bp_fid bp_pool]; [congruence|].
  etrans; [exact Ho|]. etrans; [rewrite <-Hf; exact Ho1|]. rewrite <-Hf, <-Hf1. apply others_UpdatePage.
Qed.

(** ** The rollback of one [TxPager] *)

Lemma free_tx_on fid p ids tp : tx_on fid p tp → tx_on fid p (free_pages ids tp).2.
Proof.
  revert tp. induction ids as [|id ids IH]; intros tp [Hf Ho]; [done|]. cbn [free_pages]. unfold on_base. M_run.
  change (fs_free id (base tp)) with (BufFreePage id (base tp)). unfold BufFreePage, on_pool, modify. M_run.
  set (bp := mkBufPager (EvictPage (bp_fid (base tp)) id (bp_pool (base tp))) (bp_fid (base tp))).
  assert (others fid p (bp_pool bp)) as Ho0 by (etrans; [exact Ho|]; rewrite <-Hf; apply others_EvictPage).
  pose proof (own_pager_others (FreePage id) bp) as [Hf1 Ho1]. assert (bp_fid bp = fid) as Hfb by exact Hf. rewrite Hfb in Ho1.
  destruct (own_pager (FreePage id) bp) as [[[]|e| |] bp']; cbn [snd base] in *.
  2-4: split; cbn [base]; [congruence|by etrans].
  apply IH. split; cbn [base]; [congruence|by etrans].
Qed.

Lemma Rollback_tx_on fid p tp : tx_on fid p tp → tx_on fid p (Rollback tp).2.
Proof.
  intros Hon. pose proof (free_tx_on fid p (allocated tp) (mkTxPager (base tp) ∅ (allocated tp)) Hon) as Hon'.
  unfold Rollback. M_run. cbn [base dirty allocated]. by destruct (free_pages _ _) as [[[]|e| |] tp1].
Qed.

(** Fresh pages that did not fit in the free list stay in the file. *)
Lemma rollback_one db ptr fid v0 root kvs n : tx_tree db ptr fid v0 root kvs n →
  ∃ b' p ids, rollback_pagers [ptr] db = (Ok tt, set_txheap (<[ptr := b']> (txheap db)) (set_pool p db)) ∧
    others fid (pool db) p ∧ bp_rep (mkBufPager p fid) (fresh_pages ids ∪ v0) ∧ (∀ id, id ∈ ids → v0 !! id = None) ∧
    n ≤ default 0 (pager_room <$> files p !! fid).
Proof.
  intros (b & v & Hb & <- & (b1 & Hb1 & Hrep) & _ & Hn). rewrite Hb in Hb1. injection Hb1 as <-.
  set (tp := mkTxPager _ _ _) in *. cbn [rollback_pagers]. unfold on_tx, ignore_err. M_run. rewrite Hb. fold tp.
  destruct (Rollback_any (FSS := BufPager_full_spec) tp v0 v Hrep) as (r & tp' & ids & E & Hr & Hd & Hbase & Hids & Hroom).
  pose proof (Rollback_tx_on (tb_fid b) (pool db) tp ltac:(by split)) as [Hf Ho]. rewrite E in *. cbn [snd] in *.
  exists (mkTxBuf (tb_fid b) (dirty tp') (allocated tp')), (bp_pool (base tp')), ids.
  split; [by destruct Hr as [->|[e ->]]|]. split; [exact Ho|].
  destruct tp' as [[p f] d al]. cbn in *. subst f. split; [done|]. split; [done|]. unfold file_room in Hn. etrans; [exact Hn|exact Hroom].
Qed.

Section insert.
Context `{Unicode} `{MapOrder}.

Lemma flush_one db ptr b v0 v : txheap db !! ptr = Some b → tx_view db ptr v0 v →
  ∃ b' p, flush_pagers [ptr] db = (Ok tt, set_txheap (<[ptr := b']> (txheap db)) (set_pool p db)) ∧
    others (tb_fid b) (pool db) p ∧ bp_rep (mkBufPager p (tb_fid b)) v ∧
    default 0 (pager_room <$> files p !! tb_fid b) = file_room db (tb_fid b).
Proof.
  intros Hb (b1 & Hb1 & Hrep). rewrite Hb in Hb1. injection Hb1 as <-. cbn [flush_pagers]. unfold on_tx. M_run. rewrite Hb.
  set (tp := mkTxPager _ _ _) in *. pose proof (map_order_perm 3 _ (DirtyPages tp)) as Hp.
  destruct (Flush_ok (FSS := BufPager_full_spec) _ tp v0 v Hrep Hp) as (tp' & E & Hbase & Hd & Ha & Hroom). rewrite E.
  pose proof (flush_tx_on (tb_fid b) (pool db) (map_order 3 (DirtyPages tp)) tp ltac:(by split)) as Hon.
  assert (tx_on (tb_fid b) (pool db) tp') as [Hf Ho].
  { revert E. unfold Flush. M_run. destruct (flush_pages _ tp) as [[[]|e| |] tp1]; cbn [snd] in Hon; try discriminate.
    intros [= <-]. exact Hon. }
  exists (mkTxBuf (tb_fid b) (dirty tp') (allocated tp')), (bp_pool (base tp')). split; [reflexivity|]. split; [exact Ho|].
  destruct tp' as [[p f] d al]. cbn in *. by subst f.
Qed.

(** Its pages are in order, and they are not too many. *)
Lemma tx_writes_one db ptr b v0 v key : txheap db !! ptr = Some b →
  tx_rep (mkTxPager (mkBufPager (pool db) (tb_fid b)) (tb_dirty b) (tb_allocated b)) v0 v →
  Forall (λ w, page_wf w.2 ∧ 0 < Storage.PageID (Header w.2) < 2 ^ 32) (tx_writes [(key, ptr)] db) ∧
  Z.of_nat (length (tx_writes [(key, ptr)] db)) < 2 ^ 32.
Proof.
  intros Hb Hrep.
  assert (∀ id q, tb_dirty b !! id = Some q → Storage.PageID (Header q) = id ∧ page_wf q ∧ 0 < id < 2 ^ 32) as Hd.
  { intros id q Hq. destruct (tr_dirty _ _ _ Hrep id q Hq) as (Hid & Hwf & [d Hin]). split_and!; try done;
      by destruct (ps_rep_wf (PageStoreSpec := BufPager_pages_spec) _ _ _ _ (tr_base _ _ _ Hrep) Hin) as [[? ?] _]. }
  split.
  - apply Forall_forall. intros w (key' & ptr' & b' & [= -> ->]%list_elem_of_singleton & Hb' & _ & id & Hq)%elem_of_tx_writes.
    rewrite Hb in Hb'. injection Hb' as <-. by destruct (Hd id w.2 Hq) as (-> & ? & ?).
  - assert (length (tx_writes [(key, ptr)] db) = size (dom (tb_dirty b) : gset Z)) as ->.
    { unfold tx_writes. cbn [mbind list_bind fst snd]. rewrite Hb, app_nil_r, length_fmap, map_order_perm, length_fmap.
      by rewrite size_dom, length_map_to_list. }
    pose proof (size_ids (dom (tb_dirty b)) (2 ^ 32)) as Hsz. enough (Z.of_nat (size (dom (tb_dirty b) : gset Z)) ≤ 2 ^ 32 - 1) by lia.
    apply Hsz; [|lia]. intros id [q Hq]%elem_of_dom. by destruct (Hd id q Hq) as (_ & _ & ?).
Qed.

(** The commit of a single [TxPager] goes through and flushes its pages. *)
Lemma commit_one db rs xid key ptr fid v0 root kvs n :
  tx_tree db ptr fid v0 root kvs n →
  log_holds (wal db) rs → file_ok (f (wal db)) → 0 ≤ nextLSN (wal db) → nextLSN (wal db) + 2 ^ 32 < 2 ^ 64 →
  is_u32 (nextXID (wal db)) → is_u32 xid →
  ∃ b' p w v, commitTx xid {[key := ptr]} db = (Ok tt, set_txheap (<[ptr := b']> (txheap db)) (set_pool p (set_wal w db))) ∧
    others fid (pool db) p ∧ tx_view db ptr v0 v ∧ bp_rep (mkBufPager p fid) v ∧ holds_tree v 1 root kvs ∧
    n ≤ default 0 (pager_room <$> files p !! fid) ∧
    log_holds w (rs ++ log_recs (nextLSN (wal db)) (nextXID (wal db)) (commit_ops xid (tx_writes [(key, ptr)] db))) ∧
    file_ok (f w) ∧ nextLSN (wal db) ≤ nextLSN w ≤ nextLSN (wal db) + 2 ^ 32 ∧ nextXID w = nextXID (wal db).
Proof.
  intros (b & v & Hb & <- & Hv & Ht & Hn) Hlog Hok Hl Hl' Hx Hxid.
  assert (∀ n, map_order n (map_to_list ({[key := ptr]} : gmap string nat)) = [(key, ptr)]) as Hone.
  { intros ?. rewrite map_to_list_singleton. by apply Permutation_singleton_r, map_order_perm. }
  pose proof (commitTx_phases xid ({[key := ptr]} : gmap string nat) db) as E. rewrite Hone in E. cbv zeta in E.
  rewrite E by (apply Forall_singleton; cbn; eauto). clear E.
  assert ((map_order 2 (map_to_list ({[key := ptr]} : gmap string nat)).*2) = [ptr]) as ->.
  { rewrite map_to_list_singleton. by apply Permutation_singleton_r, map_order_perm. }
  set (ws := tx_writes [(key, ptr)] db). pose proof Hv as (b1 & Hb1 & Hrep). rewrite Hb in Hb1. injection Hb1 as <-.
  destruct (tx_writes_one db ptr b v0 v key Hb Hrep) as [Hwf Hlen]. fold ws in Hwf, Hlen.
  destruct (log_run_any (commit_ops xid ws) (wal db) rs Hlog) as (r & w & k & Er & Hw & Hcase & Hgood).
  - unfold commit_ops, write_ops. apply Forall_app. split; [|by apply Forall_singleton].
    apply Forall_fmap. eapply Forall_impl; [exact Hwf|]. intros [nm p] [Hp Hid]. cbn.
    split; [done|]. split; [cbn in Hid; lia|apply length_Encode, Hp].
  - done.
  - unfold commit_ops, write_ops. rewrite length_app, length_fmap. cbn [length]. lia.
  - done.
  - destruct (Hgood Hok) as (-> & Hokw & EL & EX). destruct Hcase as [[_ ->]|[? _]]; [|done].
    rewrite take_ge in Hw by (rewrite length_log_recs; lia).
    assert (on_wal (log_run (commit_ops xid ws)) db = (Ok tt, set_wal w db)) as El by (unfold on_wal; by rewrite Er).
    rewrite (M_bind_Ok _ _ _ _ _ El).
    assert (on_wal wal_Sync (set_wal w db) = (Ok tt, set_wal w db)) as Es.
    { unfold on_wal, wal_Sync. cbn [wal set_wal]. by rewrite (proj1 Hokw). }
    rewrite (M_bind_Ok _ _ _ _ _ Es).
    destruct (flush_one (set_wal w db) ptr b v0 v Hb Hv) as (b' & p & Ef & Ho & Hrep' & Hroom). rewrite Ef.
    exists b', p, w, v. split_and!; [done|done|done|done|done| |done|done|lia| |done].
    + rewrite Hroom. exact Hn.
    + rewrite EL. unfold commit_ops, write_ops. rewrite length_app, length_fmap. cbn [length]. lia.
Qed.

Lemma AllocXID_ok w rs : log_holds w rs → file_ok (f w) → 0 ≤ nextLSN w < 2 ^ 64 - 1 → 0 ≤ nextXID w < 2 ^ 32 - 1 →
  ∃ w', AllocXID w = (Ok (nextXID w), w') ∧ log_holds w' (rs ++ [log_rec (nextLSN w) (nextXID w) LBegin]) ∧
    file_ok (f w') ∧ nextLSN w' = nextLSN w + 1 ∧ nextXID w' = nextXID w + 1.
Proof.
  intros Hw Hok Hl Hx. assert (u64 (nextLSN w + 1) = nextLSN w + 1) as EL by (apply Z.mod_small; lia).
  assert (u32 (nextXID w + 1) = nextXID w + 1) as EX by (apply Z.mod_small; lia).
  set (w1 := mkWAL (f w) (records w) (nextLSN w + 1) (nextXID w + 1)).
  destruct (append_any w1 rs (log_rec (nextLSN w) (nextXID w) LBegin)) as (r & w' & E & EL' & EX' & Hcase & Hgood).
  - by destruct Hw.
  - apply log_rec_wf; [lia|lia|done].
  - destruct (Hgood Hok) as [-> Hok']. destruct Hcase as [[_ Hw']|[? _]]; [|done].
    exists w'. split; [|by split_and!]. unfold AllocXID, allocLSN. M_run. cbn [f records nextLSN nextXID]. rewrite EL, EX.
    cbn [log_rec] in E. unfold w1 in E. by rewrite E.
Qed.
End insert.
