(* ===== verification/Tables.v ===== *)
(** * Tables: the rows of a table between statements

    A table without secondary indexes, outside of transactions: what a statement
    starts from, what its commit leaves, and which rows a snapshot sees. *)
From S2P Require Import Prelude Disk Storage Store Pager Mvcc TxPager BufferPool Node BTree.
From S2P Require Import Wal GoLib Catalog Rows Ast Eval Stats Planner Db Frame Sample Operators Plans Volcano Queries.
From S2P Require Import Dml Exec Durability Writes.
From stdpp Require Import options.
Local Open Scope Z_scope.

Section auto_commit.
Context `{Unicode} `{MapOrder}.

(** ** A statement outside a transaction *)

(** A table without secondary indexes whose file is open with the entries
    [kvs], outside a transaction, on a healthy device with room for the pages,
    records and identifiers of [n] more changes of a row. *)
Record dml_ready (gid : Z) (db : DB) (name : string) (tbl : Table) (fid : Z) (kvs : list Node.Entry) (rs : list Rec) (n : Z) : Prop := {
  dr_table : GetTable name (cat db) = Some tbl;
  dr_name : ToLower (TName tbl) = ToLower name;
  dr_no_index : Indexes tbl = [];
  dr_valid : validateSchema tbl = Ok tt;
  dr_idle : goroutineTx gid db = None;
  dr_open : openTbls db !! ToLower name = Some fid;
  dr_tree : ∃ v root, handle_view db (HBuf fid) v ∧ holds_tree v 1 root kvs;
  dr_room : 33 * n ≤ file_room db fid;
  dr_log : log_holds (wal db) rs ∧ file_ok (f (wal db));
  dr_lsn : 0 ≤ nextLSN (wal db) ∧ nextLSN (wal db) + n * 2 ^ 33 < 2 ^ 64;
  dr_xid : 0 < nextXID (wal db) ∧ nextXID (wal db) + n < 2 ^ 32
}.

(** What a statement that has committed as transaction [xid] leaves alone, and
    what it adds to the log and to the commit set. *)
Record committed_as (xid fid : Z) (rs' : list Rec) (db db' : DB) : Prop := {
  ca_others : others fid (pool db) (pool db');
  ca_logged : ∃ r, r ∈ rs' ∧ Typ r = RecordCommit ∧ XID r = xid;
  ca_committed : txMgr db' = MarkCommitted xid (txMgr db);
  ca_cat : cat db' = cat db;
  ca_txns : txns db' = txns db;
  ca_stats : statsDB db' = statsDB db;
  ca_xid : nextXID (wal db') = xid + 1
}.

(** How it has committed: the pages that one [TxPager] has buffered. *)
Definition committed_by (xid : Z) (name : string) (fid : Z) (kvs kvs' : list Node.Entry) (k : Z) (db db' : DB) : Prop :=
  let ptr := length (txheap db) in
  ∃ w db4 db5 v root root', AllocXID (wal db) = (Ok xid, w) ∧ handle_view db (HBuf fid) v ∧ holds_tree v 1 root kvs ∧
    tx_step ptr fid (set_txheap (txheap db ++ [mkTxBuf fid ∅ []]) (set_wal w db)) db4 ∧ tx_tree db4 ptr fid v root' kvs' (33 * k) ∧
    commitTx xid {[ToLower name := ptr]} db4 = (Ok tt, db5) ∧ db' = set_txMgr (MarkCommitted xid (txMgr db5)) db5.

Lemma on_error_Ok {S A} (undo : M S unit) (m : M S A) s a s' : m s = (Ok a, s') → on_error undo m s = (Ok a, s').
Proof. intros E. unfold on_error. by rewrite E. Qed.

Section auto.
Context (gid : Z) (db : DB) (name : string) (tbl : Table) (fid : Z) (kvs : list Node.Entry) (rs : list Rec) (n : Z).
Hypothesis Hr : dml_ready gid db name tbl fid kvs rs n.
Hypothesis Hn : 0 < n.

Lemma ready_xid : is_u32 (nextXID (wal db)).
Proof using Hr Hn. destruct (dr_xid _ _ _ _ _ _ _ _ Hr). lia. Qed.

(** Its first steps: a transaction identifier and a [TxPager] with the tree. *)
Lemma auto_begin : ∃ w1 db3 v0 root,
  let db1 := set_wal w1 db in
  let db2 := set_txheap (txheap db ++ [mkTxBuf fid ∅ []]) db1 in
  let ptr := length (txheap db) in
  on_wal AllocXID db = (Ok (nextXID (wal db)), db1) ∧ getOrOpenTable name db1 = (Ok fid, db1) ∧
  newTxPager fid db1 = (Ok ptr, db2) ∧ open_tree (HTx ptr) db2 = (Ok (mkTree (HTx ptr) (1, root)), db3) ∧
  tx_step ptr fid db2 db3 ∧ tx_tree db3 ptr fid v0 root kvs (33 * n) ∧ handle_view db (HBuf fid) v0 ∧ holds_tree v0 1 root kvs.
Proof using Hr Hn.
  destruct Hr as [_ _ _ _ _ Hopen (v & root & Hv & Ht) Hroom [Hlog Hok] Hlsn Hxid].
  destruct (AllocXID_ok (wal db) rs Hlog Hok ltac:(lia) ltac:(lia)) as (w1 & Ea & _).
  pose proof (tx_tree_new (set_wal w1 db) fid v root kvs (33 * n) Hv Ht Hroom) as Hx2.
  destruct (tx_tree_open _ _ _ _ _ _ _ Hx2) as (db3 & Eo & Hrs).
  exists w1, db3, v, root. cbv zeta. split_and!.
  - unfold on_wal. by rewrite Ea.
  - unfold getOrOpenTable, getOrOpen. M_run. by rewrite (Hopen : registry OpenTbls (set_wal w1 db) !! ToLower name = Some fid).
  - reflexivity.
  - exact Eo.
  - by eapply tx_tree_step.
  - by eapply tx_tree_read.
  - done.
  - done.
Qed.

(** Its last steps: the commit of the [TxPager], after any change of the tree. *)
Lemma auto_commit w1 ptr db4 v0 root root' kvs' k :
  on_wal AllocXID db = (Ok (nextXID (wal db)), set_wal w1 db) → ptr = length (txheap db) →
  handle_view db (HBuf fid) v0 → holds_tree v0 1 root kvs →
  tx_step ptr fid (set_txheap (txheap db ++ [mkTxBuf fid ∅ []]) (set_wal w1 db)) db4 →
  tx_tree db4 ptr fid v0 root' kvs' (33 * k) → k < n → 0 ≤ k →
  ∃ db5 rs', commitTx (nextXID (wal db)) {[ToLower name := ptr]} db4 = (Ok tt, db5) ∧
    let db6 := set_txMgr (MarkCommitted (nextXID (wal db)) (txMgr db5)) db5 in
    mark_committed (nextXID (wal db)) db5 = (Ok tt, db6) ∧ 
    dml_ready gid db6 name tbl fid kvs' (rs ++ rs') k ∧ committed_as (nextXID (wal db)) fid rs' db db6 ∧
    committed_by (nextXID (wal db)) name fid kvs kvs' k db db6.
Proof using Hr Hn.
  intros Ea -> Hv0 Ht0 Hst Htree Hk Hk0. pose proof Hst as Hst0. destruct Hr as [Htbl Hname Hidx Hvalid Hidle Hopen _ Hroom [Hlog Hok] Hlsn Hxid].
  destruct (AllocXID_ok (wal db) rs Hlog Hok ltac:(lia) ltac:(lia)) as (w1' & Ea' & Hlog1 & Hok1 & El1 & Ex1).
  assert (w1' = w1) as ->. { unfold on_wal in Ea. rewrite Ea' in Ea. by injection Ea. }
  destruct Hst as (b4 & p4 & Hf4 & Ho4 & ->). set (db4 := set_txheap _ (set_pool p4 _)) in *.
  destruct (commit_one db4 _ (nextXID (wal db)) (ToLower name) _ fid v0 root' kvs' _ Htree Hlog1 Hok1)
    as (b5 & p5 & w5 & v5 & Ec & Ho5 & _ & Hrep5 & Ht5 & Hroom5 & Hlog5 & Hok5 & El5 & Ex5); [cbn; lia|cbn; lia|cbn; lia|lia|].
  eexists _, _. split; [exact Ec|]. cbv zeta. split; [reflexivity|]. rewrite <-app_assoc in Hlog5. split; [|split].
  - split; cbn; try done.
    + by exists v5, root'.
    + cbn in El5. lia.
    + cbn in Ex5. lia.
  - split; try done.
    + cbn. etrans; [exact Ho4|exact Ho5].
    + eexists. split; [apply elem_of_app; right; rewrite commit_recs; apply elem_of_app; right; by left|]. by split.
    + cbn in Ex5 |- *. lia.
  - unfold committed_by. cbv zeta. exists w1, db4. eexists _, v0, root, root'. by split_and!.
Qed.
End auto.

(** ** Rows and snapshots *)

(** The snapshot of a statement outside a transaction. *)
Definition snap_now (db : DB) : Snapshot := TakeSnapshot XIDNone (txMgr db).

(** No row was written by transaction [xid]. *)
Definition unused_xid (xid : Z) (kvs : list Node.Entry) : Prop :=
  Forall (λ e, row_xmin (Node.Value e) ≠ xid ∧ row_xmax (Node.Value e) ≠ xid) kvs.

Lemma IsVisible_commit xid m xmin xmax : xmin ≠ xid → xmax ≠ xid →
  IsVisible (TakeSnapshot XIDNone (MarkCommitted xid m)) xmin xmax = IsVisible (TakeSnapshot XIDNone m) xmin xmax.
Proof.
  intros H1 H2. apply eq_true_iff_eq. rewrite !IsVisible_iff, !TakeSnapshot_committed. unfold MarkCommitted. cbn. set_solver.
Qed.

Lemma seen_row_commit xid m tbl val : row_xmin val ≠ xid → row_xmax val ≠ xid →
  seen_row (TakeSnapshot XIDNone (MarkCommitted xid m)) tbl val = seen_row (TakeSnapshot XIDNone m) tbl val.
Proof. intros H1 H2. unfold seen_row, visible_row. by rewrite IsVisible_commit. Qed.

(** A slot written by a transaction that the snapshot sees. *)
Lemma visible_row_slot snap tbl vals xid slot :
  IsVisible snap xid XIDNone = true →
  validateSchema tbl = Ok tt → Forall2 typed (Columns tbl) vals → is_u32 xid → encodeRow tbl vals xid = Ok slot →
  visible_row snap tbl slot = Ok (Some (stored <$> vals)).
Proof.
  intros Hvis Hv Ht Hx E. destruct (encodeRow_ok tbl vals xid Hv Ht Hx) as (buf & E' & _ & Hmin & Hmax & Hd).
  rewrite E in E'. injection E' as <-. unfold visible_row. by rewrite Hmin, Hmax, Hd, Hvis.
Qed.

Lemma own_visible snap : IsVisible snap (ownXID snap) XIDNone = true.
Proof. apply IsVisible_iff. split; by left. Qed.

Lemma new_visible xid m : IsVisible (TakeSnapshot XIDNone (MarkCommitted xid m)) xid XIDNone = true.
Proof. apply IsVisible_iff. rewrite TakeSnapshot_committed. unfold MarkCommitted. cbn. split; [right; set_solver|by left]. Qed.

Lemma typed_stored cols vals : Forall2 typed cols vals → Forall2 typed cols (stored <$> vals).
Proof.
  intros H1. apply Forall2_fmap_r. eapply Forall2_impl; [exact H1|]. intros c v [(Hc & n & -> & Hn)|(Hc & s & ->)].
  - left. split; [done|]. by exists n.
  - right. split; [done|]. eexists. reflexivity.
Qed.

(** The rows a snapshot sees, under their keys, in key order. *)
Definition visible_rows (snap : Snapshot) (tbl : Table) (kvs : list Node.Entry) : list (Z * row) :=
  omap (λ e, (Node.Key e,.) <$> seen_row snap tbl (Node.Value e)) kvs.

Lemma visible_rows_table snap tbl kvs idxs : (visible_rows snap tbl kvs).*2 = table_rows snap (mkContents (λ _, kvs) idxs) tbl.
Proof.
  unfold visible_rows, table_rows. cbn [ct_table]. induction kvs as [|e kvs IH]; [done|]. cbn [omap list_omap].
  destruct (seen_row snap tbl (Node.Value e)); cbn [fmap option_fmap option_map]; [|exact IH]. cbn [fmap list_fmap snd]. by f_equal.
Qed.

Lemma elem_of_visible snap tbl kvs k r :
  (k, r) ∈ visible_rows snap tbl kvs ↔ ∃ val, mkEntry k val ∈ kvs ∧ seen_row snap tbl val = Some r.
Proof.
  unfold visible_rows. rewrite list_elem_of_omap. split.
  - intros ([k' val] & He & (r' & Hr & [= <- <-])%fmap_Some). eauto.
  - intros (val & He & Hr). exists (mkEntry k val). split; [done|]. cbn. by rewrite Hr.
Qed.

(** A slot of the table: what it shows the snapshot is a row of the table, with
    the key it is stored under as its primary key. *)
Record entry_ok (snap : Snapshot) (tbl : Table) (e : Node.Entry) : Prop := {
  eo_slot : slot_ok snap tbl (Node.Value e);
  eo_typed r : seen_row snap tbl (Node.Value e) = Some r → Forall2 typed (Columns tbl) r;
  eo_pk r i : seen_row snap tbl (Node.Value e) = Some r → PrimaryKeyIndex tbl = Some i → r !! i = Some (VInt (Node.Key e))
}.

Lemma entry_ok_commit xid m tbl e : row_xmin (Node.Value e) ≠ xid → row_xmax (Node.Value e) ≠ xid →
  entry_ok (TakeSnapshot XIDNone m) tbl e → entry_ok (TakeSnapshot XIDNone (MarkCommitted xid m)) tbl e.
Proof.
  intros H1 H2 [Hs Ht Hp]. split.
  - unfold slot_ok, visible_row in *. by rewrite IsVisible_commit.
  - intros r. rewrite seen_row_commit by done. apply Ht.
  - intros r i. rewrite seen_row_commit by done. apply Hp.
Qed.

Lemma entry_ok_slot snap xid tbl k vals slot i : IsVisible snap xid XIDNone = true →
  validateSchema tbl = Ok tt → Forall2 typed (Columns tbl) vals → is_u32 xid → encodeRow tbl vals xid = Ok slot →
  PrimaryKeyIndex tbl = Some i → vals !! i = Some (VInt k) →
  entry_ok snap tbl (mkEntry k slot) ∧ seen_row snap tbl slot = Some (stored <$> vals).
Proof.
  intros Hvis Hv Ht Hx Es Hi Hk. pose proof (visible_row_slot snap tbl vals xid slot Hvis Hv Ht Hx Es) as E.
  assert (seen_row snap tbl slot = Some (stored <$> vals)) as Es' by (unfold seen_row; by rewrite E).
  split; [|exact Es']. split; cbn [Node.Value Node.Key].
  - unfold slot_ok. by rewrite E.
  - rewrite Es'. intros r [= <-]. by apply typed_stored.
  - rewrite Es', Hi. intros r j [= <-] [= <-]. by rewrite list_lookup_fmap, Hk.
Qed.

(** A slot some transaction below [b] wrote, in the history of the log. *)
Definition stamped (b : Z) (e : Node.Entry) : Prop :=
  row_xmin (Node.Value e) ≠ XIDNone ∧ row_xmin (Node.Value e) < b ∧ row_xmax (Node.Value e) < b.

(** A table as statements outside of transactions find it: ready for [n] more
    changes of a row, its slots in order, and no transaction identifier in use
    that the log has not given out. *)
Record table_holds (gid : Z) (db : DB) (name : string) (tbl : Table) (fid : Z) (kvs : list Node.Entry) (rs : list Rec) (n : Z) : Prop := {
  th_ready : dml_ready gid db name tbl fid kvs rs n;
  th_names : NoDup ((λ c, ToLower (CName c)) <$> Columns tbl);
  th_pk : is_Some (PrimaryKeyIndex tbl);
  th_entries : Forall (entry_ok (snap_now db) tbl) kvs;
  th_stamped : Forall (stamped (nextXID (wal db))) kvs;
  th_committed x : x ∈ committed (txMgr db) → x < nextXID (wal db)
}.

Lemma ready_tree gid db name tbl fid kvs rs n : dml_ready gid db name tbl fid kvs rs n →
  sorted_kvs kvs ∧ Forall (λ e, is_u64 (Node.Key e)) kvs ∧ Forall entry_wf kvs.
Proof.
  intros Hr. destruct (dr_tree _ _ _ _ _ _ _ _ Hr) as (v & root & _ & Ht).
  split_and!; [by eapply holds_tree_sorted|by eapply holds_tree_keys|by eapply holds_tree_wf].
Qed.

(** Queries find it ready. *)
Lemma table_holds_query gid db name tbl fid kvs rs n idxs : table_holds gid db name tbl fid kvs rs n →
  query_ready gid (snap_now db) (mkContents (λ _, kvs) idxs) db tbl.
Proof.
  intros [Hr Hn Hpk He _ _]. destruct (ready_tree _ _ _ _ _ _ _ _ Hr) as (Hs & Hk & _). rewrite Forall_forall in He.
  destruct (dr_tree _ _ _ _ _ _ _ _ Hr) as (v & root & Hv & Ht). split.
  - exists (HBuf fid), v, root. split_and!; [|exact Hv|exact Ht|apply Forall_forall; intros e Hin; by apply He].
    unfold pageStoreFor, InTransaction. M_run. rewrite bool_decide_eq_false_2 by (rewrite (dr_idle _ _ _ _ _ _ _ _ Hr); by intros []).
    unfold getOrOpenTable, getOrOpen. M_run. rewrite (dr_name _ _ _ _ _ _ _ _ Hr). cbn [registry].
    by rewrite (dr_open _ _ _ _ _ _ _ _ Hr).
  - intros def Hd. rewrite (dr_no_index _ _ _ _ _ _ _ _ Hr) in Hd. by apply not_elem_of_nil in Hd.
  - split; cbn [ct_table]; [done|done|done|intros e r Hin; by apply He|intros e r i Hin; by apply He].
  - intros def Hd. rewrite (dr_no_index _ _ _ _ _ _ _ _ Hr) in Hd. by apply not_elem_of_nil in Hd.
  - exact Hpk.
Qed.

(** After the commit of [xid], the statement has put [kvs'] in the place of
    [kvs], keeping old slots and adding slots of its own. *)
Lemma table_holds_next gid db db' name tbl fid kvs kvs' rs rs' n k :
  table_holds gid db name tbl fid kvs rs n → 0 < n → dml_ready gid db' name tbl fid kvs' (rs ++ rs') k →
  committed_as (nextXID (wal db)) fid rs' db db' →
  Forall (λ e, e ∈ kvs ∨ (entry_ok (snap_now db') tbl e ∧ stamped (nextXID (wal db) + 1) e)) kvs' →
  table_holds gid db' name tbl fid kvs' (rs ++ rs') k.
Proof.
  intros [Hr Hn Hpk He Hx Hc] Hn0 Hr' [_ _ Hcom _ _ _ Hxid] Hk. rewrite Forall_forall in He, Hx.
  split; [done|done|done| | |].
  - eapply Forall_impl; [exact Hk|]. intros e [Hin|(? & _)]; [|done]. unfold snap_now. rewrite Hcom.
    apply entry_ok_commit; [..|by apply He]; destruct (Hx e Hin) as (_ & ? & ?); lia.
  - eapply Forall_impl; [exact Hk|]. intros e [Hin|(_ & ?)]; rewrite Hxid; [|done].
    destruct (Hx e Hin) as (? & ? & ?). unfold stamped. split_and!; [done|lia..].
  - intros x. rewrite Hcom, Hxid. unfold MarkCommitted. cbn. intros [->%elem_of_singleton|Hin]%elem_of_union; [lia|]. specialize (Hc x Hin). lia.
Qed.

Lemma seen_kept gid db db' name tbl fid kvs rs rs' n e :
  table_holds gid db name tbl fid kvs rs n → committed_as (nextXID (wal db)) fid rs' db db' → e ∈ kvs →
  seen_row (snap_now db') tbl (Node.Value e) = seen_row (snap_now db) tbl (Node.Value e).
Proof.
  intros [_ _ _ _ Hx _] [_ _ Hcom _ _ _ _] Hin. rewrite Forall_forall in Hx. destruct (Hx e Hin) as (_ & ? & ?). unfold snap_now. rewrite Hcom.
  apply seen_row_commit; lia.
Qed.
End auto_commit.

(** ** A concrete instance *)

#[local] Existing Instance no_tables.

(** The log that the transaction of Ada's row leaves. *)
Definition ada_log : list Rec := [log_rec 1 5 LBegin; log_rec 2 6 (LCommit 5)].
Definition ada_log_db (bt : BTree BufPager) : DB := set_wal (mkWAL (OpenFile (log_bytes ada_log)) 2 3 6) (ada_db bt).

Lemma ada_entry_ok : entry_ok (TakeSnapshot XIDNone after5) people ada_entry.
Proof.
  assert (seen_row (TakeSnapshot XIDNone after5) people ada_slot = Some ada) as E by exact ada_seen. split.
  - unfold slot_ok, visible_row. cbn [ada_entry Node.Value]. by rewrite ada_visible, ada_decodes.
  - cbn [ada_entry Node.Value]. rewrite E. intros r [= <-]. exact ada_typed.
  - cbn [ada_entry Node.Value Node.Key]. rewrite E. intros r i [= <-] [= <-]. reflexivity.
Qed.

Lemma ada_xmin : row_xmin ada_slot = 5 ∧ row_xmax ada_slot = 0.
Proof. vm_compute. by split. Qed.

Lemma ada_table_holds bt h : headerPage bt = 1 → tree_rep true bt h [ada_entry] → 3300 ≤ ps_room (pg bt) →
  table_holds 1 (ada_log_db bt) "people" people (bp_fid (pg bt)) [ada_entry] ada_log 100.
Proof.
  intros Hh Ht Hroom. split.
  - split; try reflexivity.
    + exact (ada_db_tree bt h Hh Ht).
    + exact Hroom.
    + split; [|done]. split; [done|done|]. constructor; [|constructor; [|constructor]]; apply log_rec_wf; (done || lia).
    + cbn. lia.
    + cbn. lia.
  - exact (tk_names _ _ _ ada_table_ok).
  - by eexists.
  - constructor; [exact ada_entry_ok|constructor].
  - constructor; [|constructor]. unfold stamped. cbn [ada_entry Node.Value]. destruct ada_xmin as [-> ->]. cbn. unfold XIDNone. lia.
  - cbn. intros x Hx. apply elem_of_singleton in Hx. lia.
Qed.
