(* ===== verification/Inserts.v ===== *)
(** * Inserts: an INSERT outside a transaction, from the statement to the files

    What an auto-commit INSERT does to the table, the log and the commit set,
    and what a later query sees. *)
From S2P Require Import Prelude Disk Storage Store Pager Mvcc TxPager BufferPool Node BTree Cursor Transaction.
From S2P Require Import Wal GoLib Catalog Rows Ast Eval Stats Planner Db Frame Sample Operators Plans Volcano Select Queries.
From S2P Require Import Dml Exec Durability Writes Tables.
From stdpp Require Import options.
Local Open Scope Z_scope.

Section insert.
Context `{Unicode} `{MapOrder}.

(** ** INSERT *)

Lemma check_types_ok cols vals : Forall2 typed cols vals → check_types cols vals = Ok tt.
Proof.
  induction 1 as [|c v cols vals Ht _ IH]; [done|]. cbn [check_types]. rewrite decide_False; [exact IH|].
  intros Hne. apply Hne. by destruct Ht as [(-> & n & -> & _)|(-> & s & ->)].
Qed.

Lemma literal_key tbl vals i key : Forall2 typed (Columns tbl) vals → vals !! i = Some (VInt key) → is_u64 key.
Proof.
  intros Hty Hkey. destruct (Forall2_lookup_r _ _ _ _ _ Hty Hkey) as (c & _ & [(_ & n' & En & Hn')|(_ & t & Et)]).
  - apply (inj VInt) in En. by subst n'.
  - by apply (f_equal VType) in Et.
Qed.

(** What an INSERT does, step by step. *)
Lemma insert_run gid tfuel db name tbl fid kvs rs n i vals key :
  dml_ready gid db name tbl fid kvs rs n → 0 < n → Forall2 typed (Columns tbl) vals → (32 ≤ tfuel)%nat →
  PrimaryKeyIndex tbl = Some i → vals !! i = Some (VInt key) → is_u64 key →
  let xid := nextXID (wal db) in
  ∃ slot db' rs', execInsert gid tfuel name vals db = (Ok one_row, db') ∧ encodeRow tbl vals xid = Ok slot ∧
    dml_ready gid db' name tbl fid (kv_insert key slot kvs) (rs ++ rs') (n - 1) ∧ committed_as xid fid rs' db db' ∧
    committed_by xid name fid kvs (kv_insert key slot kvs) (n - 1) db db'.
Proof.
  intros Hr Hn Hty Hfuel Hpk Hkey Hu xid. pose proof (ready_xid _ _ _ _ _ _ _ _ Hr Hn) as Hx.
  destruct (auto_begin _ _ _ _ _ _ _ _ Hr Hn) as (w1 & db3 & v0 & root & Ea & Eg & En & Eo & Hst3 & Ht3 & Hv0 & Ht0).
  destruct (encodeRow_ok tbl vals xid (dr_valid _ _ _ _ _ _ _ _ Hr) Hty Hx) as (slot & Es & Hlen & _).
  destruct (tx_tree_Insert db3 _ fid v0 root kvs _ key slot tfuel Ht3 ltac:(by split) ltac:(lia) Hfuel) as (root' & db4 & Ei & Hst4 & Ht4).
  replace (33 * n - 33) with (33 * (n - 1)) in Ht4 by lia.
  destruct (auto_commit _ _ _ _ _ _ _ _ Hr Hn w1 _ db4 v0 root root' _ (n - 1) Ea eq_refl Hv0 Ht0 (tx_step_trans _ _ _ _ _ Hst3 Hst4) Ht4 ltac:(lia) ltac:(lia))
    as (db5 & rs' & Ec & Em & Hr' & Hca & Hby).
  exists slot. eexists _, rs'. split; [|by split_and!]. unfold execInsert, get_state. unfold mbind at 1, M_bind at 1.
  rewrite (dr_table _ _ _ _ _ _ _ _ Hr). rewrite decide_False by (rewrite <-(Forall2_length _ _ _ Hty); tauto).
  rewrite (M_bind_Ok _ _ db tt db) by (unfold lift; by rewrite check_types_ok). rewrite Hpk.
  rewrite (M_bind_Ok _ _ db (VInt key) db) by (unfold lift, go_index; by rewrite Hkey). cbn [IntVal VInt].
  rewrite (dr_idle _ _ _ _ _ _ _ _ Hr). unfold autoCommitInsert. rewrite (M_bind_Ok _ _ _ _ _ Ea).
  rewrite (M_bind_Ok _ _ _ slot (set_wal w1 db)) by (unfold lift; fold xid; by rewrite Es). rewrite (M_bind_Ok _ _ _ _ _ (on_error_Ok _ _ _ _ _ Eg)).
  rewrite (M_bind_Ok _ _ _ _ _ En). rewrite (M_bind_Ok _ _ _ _ _ (on_error_Ok _ _ _ _ _ (wrap_Ok _ _ _ _ _ _ Eo))).
  rewrite (M_bind_Ok _ _ _ _ _ (on_error_Ok _ _ _ _ _ (wrap_Ok _ _ _ _ _ _ Ei))). rewrite (dr_no_index _ _ _ _ _ _ _ _ Hr). cbn [insert_indexes].
  rewrite (M_bind_Ok _ _ db4 {[ToLower name := length (txheap db)]} db4) by reflexivity.
  rewrite (M_bind_Ok _ _ _ _ _ (on_error_Ok _ _ _ _ _ Ec)). by rewrite (M_bind_Ok _ _ _ _ _ Em).
Qed.

(** A row put under its key: in the place of the row that has the key, or in
    key order. *)
Fixpoint put_row (k : Z) (r : row) (l : list (Z * row)) : list (Z * row) :=
  match l with
  | [] => [(k, r)]
  | p :: l =>
      if decide (k < p.1) then (k, r) :: p :: l
      else if decide (k = p.1) then (k, r) :: l
      else p :: put_row k r l
  end.

Lemma put_row_before k r l : Forall (λ p, k < p.1) l → put_row k r l = (k, r) :: l.
Proof. intros Hl. destruct Hl as [|p l Hp _]; cbn [put_row]; [done|]. by rewrite decide_True by lia. Qed.

Lemma visible_rows_insert snap snap' tbl k slot r kvs : sorted_kvs kvs → seen_row snap' tbl slot = Some r →
  (∀ e, e ∈ kvs → seen_row snap' tbl (Node.Value e) = seen_row snap tbl (Node.Value e)) →
  visible_rows snap' tbl (kv_insert k slot kvs) = put_row k r (visible_rows snap tbl kvs).
Proof.
  intros Hs Hr. unfold visible_rows. induction kvs as [|e kvs IH]; intros Hkept.
  { cbn. by rewrite Hr. }
  assert (∀ l : list Node.Entry, (∀ e, e ∈ l → e ∈ kvs ∨ seen_row snap' tbl (Node.Value e) = seen_row snap tbl (Node.Value e)) →
    omap (λ e, (Node.Key e,.) <$> seen_row snap' tbl (Node.Value e)) l = omap (λ e, (Node.Key e,.) <$> seen_row snap tbl (Node.Value e)) l) as Hsame.
  { intros l. induction l as [|x l IHl]; intros Hl; [done|]. cbn [omap list_omap].
    rewrite IHl by (intros y Hy; apply Hl; by right). destruct (Hl x ltac:(by left)) as [Hx|Hx]; [rewrite (Hkept x) by (by right)|rewrite Hx]; done. }
  cbn [kv_insert fmap list_fmap] in *. apply StronglySorted_cons in Hs as [He Hs].
  assert (Forall (λ p : Z * row, Node.Key e < p.1) (omap (λ e, (Node.Key e,.) <$> seen_row snap tbl (Node.Value e)) kvs)) as Hafter.
  { apply Forall_forall. intros p (e' & Hin & (r' & _ & ->)%fmap_Some)%list_elem_of_omap. cbn. rewrite Forall_fmap, Forall_forall in He. by apply He. }
  case_decide as Hlt; [|case_decide as Heq].
  - cbn [omap list_omap Node.Key Node.Value]. rewrite Hr. cbn [fmap option_fmap option_map]. rewrite put_row_before.
    + f_equal. apply (Hsame (e :: kvs)). intros x Hx. right. by apply Hkept.
    + destruct (seen_row snap tbl (Node.Value e)); cbn [fmap option_fmap option_map]; [constructor; [done|]|];
        (eapply Forall_impl; [exact Hafter|]; cbn; lia).
  - cbn [omap list_omap Node.Key Node.Value]. rewrite Hr. cbn [fmap option_fmap option_map]. rewrite Hsame by (by left).
    subst k. destruct (seen_row snap tbl (Node.Value e)); cbn [fmap option_fmap option_map].
    + cbn [put_row fst]. rewrite decide_False by lia. by rewrite decide_True.
    + by rewrite put_row_before.
  - cbn [omap list_omap]. rewrite (Hkept e) by (by left). rewrite IH by (done || (intros x Hx; apply Hkept; by right)).
    destruct (seen_row snap tbl (Node.Value e)); cbn [fmap option_fmap option_map]; [|done].
    cbn [put_row fst]. by rewrite !decide_False by lia.
Qed.

Lemma insert_holds gid tfuel db name tbl fid kvs rs n i vals key :
  table_holds gid db name tbl fid kvs rs n → 0 < n → Forall2 typed (Columns tbl) vals → (32 ≤ tfuel)%nat →
  PrimaryKeyIndex tbl = Some i → vals !! i = Some (VInt key) →
  ∃ slot db' rs', execInsert gid tfuel name vals db = (Ok one_row, db') ∧
    table_holds gid db' name tbl fid (kv_insert key slot kvs) (rs ++ rs') (n - 1) ∧
    visible_rows (snap_now db') tbl (kv_insert key slot kvs) = put_row key (stored <$> vals) (visible_rows (snap_now db) tbl kvs) ∧
    committed_as (nextXID (wal db)) fid rs' db db' ∧ committed_by (nextXID (wal db)) name fid kvs (kv_insert key slot kvs) (n - 1) db db'.
Proof.
  intros Ht Hn Hty Hfuel Hpk Hkey. pose proof (th_ready _ _ _ _ _ _ _ _ Ht) as Hr. pose proof (ready_xid _ _ _ _ _ _ _ _ Hr Hn) as Hx.
  pose proof (dr_valid _ _ _ _ _ _ _ _ Hr) as Hvalid.
  pose proof (literal_key tbl vals i key Hty Hkey) as Hu.
  destruct (insert_run gid tfuel db name tbl fid kvs rs n i vals key Hr Hn Hty Hfuel Hpk Hkey Hu) as (slot & db' & rs' & E & Es & Hr' & Hca & Hby).
  destruct (entry_ok_slot _ _ tbl key vals slot i (new_visible (nextXID (wal db)) (txMgr db)) Hvalid Hty Hx Es Hpk Hkey) as [Hok Hseen].
  destruct (encodeRow_ok tbl vals _ Hvalid Hty Hx) as (buf & Eb & _ & Hmin & Hmax & _). rewrite Es in Eb. injection Eb as <-.
  assert (snap_now db' = TakeSnapshot XIDNone (MarkCommitted (nextXID (wal db)) (txMgr db))) as Hsnap by (unfold snap_now; by rewrite (ca_committed _ _ _ _ _ Hca)).
  exists slot, db', rs'. split; [done|]. split; [|split; [|by split]].
  - eapply table_holds_next; [exact Ht|exact Hn|exact Hr'|exact Hca|]. apply Forall_forall.
    intros e [->|?]%elem_of_kv_insert; [right|by left]. cbn [Node.Value]. unfold stamped. cbn [Node.Value]. rewrite Hsnap, Hmin, Hmax. unfold XIDNone.
    pose proof (dr_xid _ _ _ _ _ _ _ _ Hr). split_and!; [done|lia..].
  - apply visible_rows_insert; [by eapply ready_tree|by rewrite Hsnap|]. intros e He. by eapply seen_kept.
Qed.

(** C7. An INSERT outside a transaction, into a table without secondary indexes,
    succeeds and does what SQL says.  The transaction it allocates is committed,
    in the log and for later snapshots; the statements that follow see the rows
    that were there and the new row (its texts cut to their column) under its
    primary key, in the place of a row with the same key, which is overwritten
    without an error; the table is ready for them, for queries too, and the
    other files hold what they held. *)
Theorem insert_visible gid tfuel db name tbl fid kvs rs n i vals key :
  table_holds gid db name tbl fid kvs rs n → 0 < n → Forall2 typed (Columns tbl) vals → (32 ≤ tfuel)%nat →
  PrimaryKeyIndex tbl = Some i → vals !! i = Some (VInt key) →
  ∃ slot db' rs', execInsert gid tfuel name vals db = (Ok one_row, db') ∧
    table_holds gid db' name tbl fid (kv_insert key slot kvs) (rs ++ rs') (n - 1) ∧
    visible_rows (snap_now db') tbl (kv_insert key slot kvs) = put_row key (stored <$> vals) (visible_rows (snap_now db) tbl kvs) ∧
    (∀ idxs, query_ready gid (snap_now db') (mkContents (λ _, kv_insert key slot kvs) idxs) db' tbl) ∧
    committed_as (nextXID (wal db)) fid rs' db db'.
Proof.
  intros Ht Hn Hty Hfuel Hpk Hkey. destruct (insert_holds gid tfuel db name tbl fid kvs rs n i vals key Ht Hn Hty Hfuel Hpk Hkey)
    as (slot & db' & rs' & E & Ht' & Hv & Hca & _).
  exists slot, db', rs'. split_and!; [done|done|done| |done]. intros idxs. by eapply table_holds_query.
Qed.
End insert.

(** ** A concrete instance *)

#[local] Existing Instance no_tables.
#[local] Program Instance insert_order : MapOrder := {| map_order _ _ l := l |}.
Next Obligation. done. Qed.

Definition bob : row := [VInt 8; VText "Bob"; VInt 41].

Lemma bob_typed : Forall2 typed (Columns people) bob.
Proof.
  constructor; [|constructor; [|constructor; [|constructor]]].
  - left. split; [done|]. by exists 8.
  - right. split; [done|]. by exists "Bob"%string.
  - left. split; [done|]. by exists 41.
Qed.

Lemma insert_visible_witness :
  ∃ db slot db', execInsert 1 32 "people" bob db = (Ok one_row, db') ∧
    query_ready 1 (snap_now db') (mkContents (λ _, kv_insert 8 slot [ada_entry]) (λ _, [])) db' people ∧
    visible_rows (snap_now db') people (kv_insert 8 slot [ada_entry]) = [(7, ada); (8, bob)].
Proof.
  destruct ada_tree_room as (bt & h & Hh & Ht & Hroom). exists (ada_log_db bt).
  destruct (insert_visible 1 32 (ada_log_db bt) "people" people (bp_fid (pg bt)) [ada_entry] ada_log 100 0 bob 8)
    as (slot & db' & rs' & E & _ & Hv & Hq & _).
  - exact (ada_table_holds bt h Hh Ht Hroom).
  - lia.
  - exact bob_typed.
  - lia.
  - reflexivity.
  - reflexivity.
  - exists slot, db'. split; [exact E|]. split; [apply Hq|]. rewrite Hv.
    change (snap_now (ada_log_db bt)) with (TakeSnapshot XIDNone after5). unfold visible_rows. cbn [omap list_omap ada_entry Node.Value Node.Key].
    change (seen_row (TakeSnapshot XIDNone after5) people ada_slot) with (seen_row ada_snap people ada_slot). rewrite ada_seen. reflexivity.
Defined.
