(* ===== verification/Changes.v ===== *)
(** * Changes: DELETE and UPDATE outside a transaction

    Both statements scan the table for the rows their WHERE clause selects, then
    write a new slot for each of them, and commit.  The proofs share the scan,
    the loop and the commit; the statements differ in the slot they write. *)
From S2P Require Import Prelude Disk Storage Store Pager Mvcc TxPager BufferPool Node BTree Cursor Transaction.
From S2P Require Import Wal GoLib Catalog Rows Ast Eval Stats Planner Db Frame Sample Operators Plans Volcano Queries.
From S2P Require Import Select Dml Exec Durability Writes Tables.
From stdpp Require Import options.
Local Open Scope Z_scope.

(** ** The scan *)

Section scan.
Context `{Unicode} (snap : Snapshot) (tbl : Table) (w : option WhereClause).

(** The row of a slot that the snapshot sees and the clause selects. *)
Definition hit (e : Node.Entry) : option row :=
  r ← seen_row snap tbl (Node.Value e); if where_holds r tbl w then Some r else None.

Definition hits (kvs : list Node.Entry) : list scannedRow :=
  omap (λ e, mkScanned (Node.Key e) <$> hit e) kvs.

Lemma hits_visible kvs :
  hits kvs = (λ p, mkScanned p.1 p.2) <$> filter (λ p, where_holds p.2 tbl w = true) (visible_rows snap tbl kvs).
Proof.
  unfold hits, visible_rows. induction kvs as [|e kvs IH]; [done|]. cbn [omap list_omap]. unfold hit at 1.
  destruct (seen_row snap tbl (Node.Value e)) as [r|]; cbn [mbind option_bind fmap option_fmap option_map]; [|exact IH].
  rewrite filter_cons. cbn [snd]. destruct (where_holds r tbl w); cbn [fmap option_fmap option_map].
  - rewrite decide_True by done. rewrite fmap_cons. by f_equal.
  - rewrite decide_False by done. exact IH.
Qed.

Lemma typed_fits r : Forall2 typed (Columns tbl) r → row_fits (Some tbl) r.
Proof. intros Ht t [= <-]. by rewrite (Forall2_length _ _ _ Ht). Qed.

Lemma scan_loop_ok h v c es db n : handle_view db h v → cursor_yields v c es →
  Forall (λ e, slot_ok snap tbl (Node.Value e) ∧ ∀ r, seen_row snap tbl (Node.Value e) = Some r → row_fits (Some tbl) r) es →
  (length es < n)%nat →
  ∃ db', scan_loop n h tbl snap w c db = (Ok (hits es), db') ∧ read_step db db'.
Proof.
  intros Hv Hc Hok Hn. revert c es db Hv Hc Hok Hn. induction n as [|n IH]; intros c es db Hv Hc Hok Hn; [lia|]. cbn [scan_loop].
  destruct (Next_yields db h v c es Hv Hc) as (c' & db1 & E & Hs1 & Hc'). rewrite (M_bind_Ok _ _ _ _ _ (wrap_Ok _ _ _ _ _ _ E)).
  destruct es as [|e es]; [by exists db1|]. cbn [head]. apply Forall_cons in Hok as [[He Hfit] Hok]. cbn [length] in Hn.
  destruct (IH c' es db1 (read_step_view _ _ _ _ Hs1 Hv) (Hc' ltac:(done)) Hok ltac:(lia)) as (db2 & E2 & Hs2).
  rewrite (slot_ok_seen _ _ _ He). unfold hits. cbn [omap list_omap]. unfold hit at 1.
  rewrite (M_bind_Ok _ _ db1 (seen_row snap tbl (Node.Value e)) db1) by done.
  destruct (seen_row snap tbl (Node.Value e)) as [r|] eqn:Er; cbn [mbind option_bind fmap option_fmap option_map].
  - rewrite (M_bind_Ok _ _ db1 (where_holds r tbl w) db1) by (unfold lift; by rewrite matchesWhere_ok by (by apply Hfit)).
    rewrite (M_bind_Ok _ _ _ _ _ E2). exists db2. destruct (where_holds r tbl w); (split; [reflexivity|by etrans]).
  - exists db2. split; [exact E2|by etrans].
Qed.

Lemma scanVisible_ok fuel tfuel db ptr fid v0 root kvs n :
  tx_tree db ptr fid v0 root kvs n → Forall (entry_ok snap tbl) kvs → (length kvs < fuel)%nat → (32 ≤ tfuel)%nat →
  ∃ db', scanVisible fuel tfuel (mkTree (HTx ptr) (1, root)) tbl snap w db = (Ok (hits kvs), db') ∧ read_step db db'.
Proof.
  intros (b & v & _ & _ & Hv & Ht & _) Hok Hfuel Htf. unfold scanVisible.
  destruct (NewCursor_yields db (mkTree (HTx ptr) (1, root)) v kvs tfuel 0 MaxUint64 (tx_view_handle _ _ _ _ Hv) Ht ltac:(lia) Htf) as (c & t & db1 & E & Hs1 & Hc).
  rewrite (M_bind_Ok _ _ _ _ _ (wrap_Ok _ _ _ _ _ _ E)). rewrite kv_range_all in Hc by (by eapply holds_tree_keys).
  destruct (scan_loop_ok (HTx ptr) v c kvs db1 fuel (read_step_view _ _ _ _ Hs1 (tx_view_handle _ _ _ _ Hv)) Hc) as (db2 & E2 & Hs2); [|done|].
  - eapply Forall_impl; [exact Hok|]. intros e [Hs Hty _]. split; [done|]. intros r Hr. by apply typed_fits, Hty.
  - exists db2. split; [exact E2|by etrans].
Qed.

(** ** New slots for the selected rows *)

Context (g : Node.Entry → row → list byte).

Definition changed (e : Node.Entry) : Node.Entry :=
  match hit e with Some r => mkEntry (Node.Key e) (g e r) | None => e end.

Lemma changed_key e : Node.Key (changed e) = Node.Key e.
Proof. unfold changed. by destruct (hit e). Qed.

Lemma changed_keys (es : list Node.Entry) : Node.Key <$> (changed <$> es) = Node.Key <$> es.
Proof. induction es as [|e es IH]; [done|]. cbn. rewrite changed_key. f_equal. exact IH. Qed.

Lemma kv_insert_middle pre e post val : sorted_kvs (pre ++ e :: post) →
  kv_insert (Node.Key e) val (pre ++ e :: post) = pre ++ mkEntry (Node.Key e) val :: post.
Proof.
  intros Hs. rewrite <-(kv_insert_found (Node.Key e) val (pre ++ e :: post) (length pre) e); [|done|by apply list_lookup_middle|done].
  by rewrite insert_app_r_alt, Nat.sub_diag by lia.
Qed.

Lemma kv_map_middle pre e post : sorted_kvs (pre ++ e :: post) → kv_map (pre ++ e :: post) !! Node.Key e = Some (Node.Value e).
Proof. intros Hs. apply kv_map_lookup; [done|]. destruct e. apply elem_of_app. right. left. Qed.

(** The rows another snapshot sees afterwards, when it sees the other slots as
    this one does, in terms of what the new slots show it. *)
Lemma changed_visible snap' kvs (f : row → option row) :
  (∀ e, e ∈ kvs → seen_row snap' tbl (Node.Value e) = seen_row snap tbl (Node.Value e)) →
  (∀ e r, e ∈ kvs → hit e = Some r → seen_row snap' tbl (g e r) = f r) →
  visible_rows snap' tbl (changed <$> kvs) =
    omap (λ p, if where_holds p.2 tbl w then (p.1,.) <$> f p.2 else Some p) (visible_rows snap tbl kvs).
Proof.
  induction kvs as [|e es IH]; intros Hk Hg; [done|].
  assert (visible_rows snap' tbl (changed <$> es) =
    omap (λ p, if where_holds p.2 tbl w then (p.1,.) <$> f p.2 else Some p) (visible_rows snap tbl es)) as IH'
    by (apply IH; intros; [apply Hk; by right|apply Hg; [by right|done]]).
  unfold visible_rows in *. rewrite fmap_cons. cbn [omap list_omap]. rewrite changed_key. unfold changed at 1.
  pose proof (Hg e) as Hge. unfold hit in *. destruct (seen_row snap tbl (Node.Value e)) as [r|] eqn:Er; cbn [mbind option_bind] in *.
  - destruct (where_holds r tbl w) eqn:Ew; cbn [fmap option_fmap option_map omap list_omap fst snd Node.Value] in *.
    + rewrite (Hge r) by (done || by left). rewrite Ew. destruct (f r); cbn [fmap option_fmap option_map]; [by f_equal|exact IH'].
    + rewrite Hk, Er by (by left). cbn [fmap option_fmap option_map]. rewrite Ew. by f_equal.
  - rewrite Hk, Er by (by left). cbn [fmap option_fmap option_map]. exact IH'.
Qed.

(** When the selected rows disappear, and when they are replaced. *)
Lemma changed_removed snap' kvs :
  (∀ e, e ∈ kvs → seen_row snap' tbl (Node.Value e) = seen_row snap tbl (Node.Value e)) →
  (∀ e r, e ∈ kvs → hit e = Some r → seen_row snap' tbl (g e r) = None) →
  visible_rows snap' tbl (changed <$> kvs) = filter (λ p, where_holds p.2 tbl w = false) (visible_rows snap tbl kvs).
Proof.
  intros Hk Hg. rewrite (changed_visible snap' kvs (λ _, None) Hk Hg).
  generalize (visible_rows snap tbl kvs). intros l. induction l as [|p l IH]; [done|]. cbn [omap list_omap].
  rewrite filter_cons. destruct (where_holds p.2 tbl w); cbn [fmap option_fmap option_map].
  - by rewrite decide_False.
  - rewrite decide_True by done. by f_equal.
Qed.

Lemma changed_replaced snap' kvs (f : row → row) :
  (∀ e, e ∈ kvs → seen_row snap' tbl (Node.Value e) = seen_row snap tbl (Node.Value e)) →
  (∀ e r, e ∈ kvs → hit e = Some r → seen_row snap' tbl (g e r) = Some (f r)) →
  visible_rows snap' tbl (changed <$> kvs) = (λ p, if where_holds p.2 tbl w then (p.1, f p.2) else p) <$> visible_rows snap tbl kvs.
Proof.
  intros Hk Hg. rewrite (changed_visible snap' kvs (λ r, Some (f r)) Hk Hg).
  generalize (visible_rows snap tbl kvs). intros l. induction l as [|p l IH]; [done|]. cbn [omap list_omap fmap list_fmap].
  destruct (where_holds p.2 tbl w); cbn [fmap option_fmap option_map]; by f_equal.
Qed.

End scan.

(** ** Assignments *)

Section assignments.
Context `{Unicode} (tbl : Table).

(** A literal of a statement, as the parser builds it. *)
Definition literal (v : Catalog.Value) : Prop := (∃ k, v = VInt k ∧ is_u64 k) ∨ ∃ s, v = VText s.

(** The row with the assigned columns. *)
Definition set_columns (assignments : list Assignment) (r : row) : row :=
  foldl (λ r a, match ColIndex (AColumn a) tbl with Some i => <[i := AValue a]> r | None => r end) r assignments.

Definition assigned (plans : list updatePlan) (r : row) : row := foldl (λ r p, <[colIdx p := newVal p]> r) r plans.

(** The column exists, is not the primary key, and has the value's type. *)
Definition plan_ok (p : updatePlan) : Prop :=
  ∃ c, Columns tbl !! colIdx p = Some c ∧ typed c (newVal p) ∧ PrimaryKeyIndex tbl ≠ Some (colIdx p).

Lemma literal_typed c v : literal v → VType v = CType c → typed c v.
Proof. intros [(k & -> & Hk)|(s & ->)] Hc; cbn in Hc; [left|right]; (split; [done|]); eauto. Qed.

Lemma build_plans_ok assignments plans0 plans : Forall (λ a, literal (AValue a)) assignments →
  build_plans tbl (PrimaryKeyIndex tbl) assignments plans0 = Ok plans →
  ∃ ps, plans = plans0 ++ ps ∧ Forall plan_ok ps ∧ ∀ r, assigned ps r = set_columns assignments r.
Proof.
  intros Hl. revert plans0. induction Hl as [|a assignments Ha _ IH]; intros plans0 E; cbn [build_plans] in E.
  { injection E as <-. exists []. by rewrite app_nil_r. }
  destruct (ColIndex (AColumn a) tbl) as [i|] eqn:Ei; [|done]. case_decide as Hpk; [done|]. unfold go_index in E.
  destruct (Columns tbl !! i) as [c|] eqn:Ec; [|done]. cbn [mbind res_bind] in E. case_decide as Hty; [done|].
  destruct (IH _ E) as (ps & -> & Hps & Hr). exists (mkUpdate i (AValue a) :: ps). split; [by rewrite <-app_assoc|]. split.
  - constructor; [|done]. exists c. cbn [colIdx newVal]. split; [done|]. split; [|done]. apply literal_typed; [done|].
    destruct (decide (VType (AValue a) = CType c)); [done|tauto].
  - intros r. unfold assigned, set_columns. cbn [foldl colIdx newVal]. rewrite Ei. apply Hr.
Qed.

Lemma assign_ok plans r : Forall plan_ok plans → Forall2 typed (Columns tbl) r →
  assign plans r = Ok (assigned plans r) ∧ Forall2 typed (Columns tbl) (assigned plans r) ∧
  ∀ i, PrimaryKeyIndex tbl = Some i → assigned plans r !! i = r !! i.
Proof.
  intros Hp. revert r. induction Hp as [|p plans (c & Hc & Htc & Hpk) _ IH]; intros r Hr; [done|]. cbn [assign assigned foldl].
  assert (colIdx p < length r)%nat as Hi by (rewrite <-(Forall2_length _ _ _ Hr); by eapply lookup_lt_Some).
  unfold go_set. rewrite decide_True by done. cbn [mbind res_bind].
  destruct (IH (<[colIdx p := newVal p]> r)) as (E & Ht & Hk).
  - rewrite <-(list_insert_id (Columns tbl) (colIdx p) c Hc). by apply Forall2_insert.
  - split; [exact E|]. split; [exact Ht|]. intros i Hpi. etrans; [by apply Hk|]. apply list_lookup_insert_ne. congruence.
Qed.
End assignments.

(** ** The loops *)

Section loops.
Context `{Unicode} (gid : Z) (tfuel : nat) (auto : bool) (snap : Snapshot) (tbl : Table) (w : option WhereClause) (xid : Z).
Context (ptr : nat) (fid : Z) (v0 : pmap) (Hidx : Indexes tbl = []) (Htf : (32 ≤ tfuel)%nat).

Lemma tx_step_refl db root kvs n : tx_tree db ptr fid v0 root kvs n → tx_step ptr fid db db.
Proof. intros Ht. by eapply tx_tree_step. Qed.

Lemma tx_tree_sorted db root kvs n : tx_tree db ptr fid v0 root kvs n → sorted_kvs kvs ∧ Forall entry_wf kvs.
Proof. intros (b & v & _ & _ & _ & Ht & _). split; [by eapply holds_tree_sorted|by eapply holds_tree_wf]. Qed.

Lemma on_db_Ok {A} (m : M DB A) db p a db' : m db = (Ok a, db') → on_db m (db, p) = (Ok a, (db', p)).
Proof. intros E. unfold on_db. cbn [fst snd]. by rewrite E. Qed.

(** One slot in the middle of the tree is replaced. *)
Lemma replace_slot db root pre e post n val :
  tx_tree db ptr fid v0 root (pre ++ e :: post) n → length val = ValueSize → 33 ≤ n →
  ∃ root' db', on_bt (mkTree (HTx ptr) (1, root)) (λ S _, Insert (S := S) tfuel (Node.Key e) val) db =
      (Ok (tt, mkTree (HTx ptr) (1, root')), db') ∧ tx_step ptr fid db db' ∧
    tx_tree db' ptr fid v0 root' (pre ++ mkEntry (Node.Key e) val :: post) (n - 33).
Proof using Htf.
  intros Ht Hl Hn. destruct (tx_tree_sorted _ _ _ _ Ht) as [Hs Hwf].
  assert (entry_wf e) as [Hk _] by (rewrite Forall_app, Forall_cons in Hwf; tauto).
  destruct (tx_tree_Insert db ptr fid v0 root _ n (Node.Key e) val tfuel Ht ltac:(by split) Hn Htf) as (root' & db' & E & Hst & Ht').
  exists root', db'. split; [exact E|]. split; [exact Hst|]. by rewrite kv_insert_middle in Ht'.
Qed.

Context (Hxid : is_u32 xid).

Definition dead (e : Node.Entry) (_ : row) : list byte := put_u32 4 xid (Node.Value e).

Lemma delete_rows_ok todo pre root db p n :
  tx_tree db ptr fid v0 root (pre ++ todo) n → 33 * Z.of_nat (length (hits snap tbl w todo)) ≤ n →
  ∃ root' db', delete_rows gid tfuel auto tbl xid (hits snap tbl w todo) (mkTree (HTx ptr) (1, root)) (db, p) = (Ok tt, (db', p)) ∧
    tx_step ptr fid db db' ∧
    tx_tree db' ptr fid v0 root' (pre ++ (changed snap tbl w dead <$> todo)) (n - 33 * Z.of_nat (length (hits snap tbl w todo))).
Proof using Hidx Htf Hxid.
  revert pre root db n. induction todo as [|e todo IH]; intros pre root db n Ht Hn.
  { exists root, db. split; [reflexivity|]. split; [by eapply tx_step_refl|]. by rewrite Z.sub_0_r. }
  destruct (tx_tree_sorted _ _ _ _ Ht) as [Hs Hwf]. unfold hits in *. cbn [omap list_omap] in *. fold (hits snap tbl w todo) in *.
  rewrite fmap_cons. unfold changed at 1. destruct (hit snap tbl w e) as [r|]; cbn [fmap option_fmap option_map] in *.
  - cbn [length] in *. cbn [delete_rows pk values].
    assert (entry_wf e) as [Hk Hl] by (rewrite Forall_app, Forall_cons in Hwf; tauto).
    destruct (tx_tree_Search db ptr fid v0 root _ n (Node.Key e) tfuel Ht Hk Htf) as (db1 & E1 & Hs1). rewrite kv_map_middle in E1 by done.
    destruct (replace_slot db1 root pre e todo n (dead e r) (tx_tree_read _ _ _ _ _ _ _ _ Hs1 Ht)) as (root2 & db2 & E2 & Hst2 & Ht2);
      [by apply (put_xmax_ok tbl)|lia|].
    destruct (IH (pre ++ [mkEntry (Node.Key e) (dead e r)]) root2 db2 (n - 33)) as (root3 & db3 & E3 & Hst3 & Ht3);
      [by rewrite <-app_assoc|lia|].
    exists root3, db3. split; [|split].
    + rewrite (M_bind_Ok _ _ _ _ _ (on_db_Ok _ _ _ _ _ (wrap_Ok _ _ _ _ _ _ E1))). cbn beta iota.
      rewrite (M_bind_Ok _ _ _ _ _ (on_db_Ok _ _ _ _ _ (wrap_Ok _ _ _ _ _ _ E2))). cbn beta iota.
      rewrite Hidx. cbn [delete_index_entries]. exact E3.
    + eapply tx_step_trans; [by eapply tx_tree_step|]. by eapply tx_step_trans.
    + rewrite <-app_assoc in Ht3. replace (n - 33 * Z.of_nat (S (length (hits snap tbl w todo)))) with (n - 33 - 33 * Z.of_nat (length (hits snap tbl w todo))) by lia.
      exact Ht3.
  - destruct (IH (pre ++ [e]) root db n) as (root3 & db3 & E3 & Hst3 & Ht3); [by rewrite <-app_assoc|done|].
    exists root3, db3. split; [exact E3|]. split; [exact Hst3|]. by rewrite <-app_assoc in Ht3.
Qed.
(** The new slot of an updated row. *)
Context (plans : list updatePlan) (Hplans : Forall (plan_ok tbl) plans) (Hvalid : validateSchema tbl = Ok tt).

Definition fresh_slot (_ : Node.Entry) (r : row) : list byte :=
  match encodeRow tbl (assigned plans r) xid with Ok b => b | _ => [] end.

Lemma fresh_slot_row e r : Forall2 typed (Columns tbl) r →
  assign plans r = Ok (assigned plans r) ∧ Forall2 typed (Columns tbl) (assigned plans r) ∧
  encodeRow tbl (assigned plans r) xid = Ok (fresh_slot e r) ∧ length (fresh_slot e r) = ValueSize ∧
  row_xmin (fresh_slot e r) = xid ∧ row_xmax (fresh_slot e r) = XIDNone.
Proof using Hplans Hvalid Hxid.
  intros Hty. destruct (assign_ok tbl plans r Hplans Hty) as (Ea & Hty' & _).
  destruct (encodeRow_ok tbl _ xid Hvalid Hty' Hxid) as (buf & Es & Hl & Hmin & Hmax & _).
  unfold fresh_slot. rewrite Es. by split_and!.
Qed.

Lemma hit_seen e r : hit snap tbl w e = Some r → seen_row snap tbl (Node.Value e) = Some r.
Proof. unfold hit. destruct (seen_row _ _ _) as [r'|]; [|done]. cbn. destruct (where_holds r' tbl w); congruence. Qed.

Lemma update_rows_ok todo pre root db p n :
  tx_tree db ptr fid v0 root (pre ++ todo) n →
  Forall (λ e, ∀ r, seen_row snap tbl (Node.Value e) = Some r → Forall2 typed (Columns tbl) r) todo →
  33 * Z.of_nat (length (hits snap tbl w todo)) ≤ n →
  ∃ root' db', update_rows gid tfuel auto tbl xid (hits snap tbl w todo) plans (mkTree (HTx ptr) (1, root)) (db, p) =
      (Ok tt, (db', p)) ∧ tx_step ptr fid db db' ∧
    tx_tree db' ptr fid v0 root' (pre ++ (changed snap tbl w fresh_slot <$> todo)) (n - 33 * Z.of_nat (length (hits snap tbl w todo))).
Proof using Hidx Htf Hxid Hplans Hvalid.
  revert pre root db n. induction todo as [|e todo IH]; intros pre root db n Ht Hty Hn.
  { exists root, db. split; [reflexivity|]. split; [by eapply tx_step_refl|]. by rewrite Z.sub_0_r. }
  unfold hits in *. cbn [omap list_omap] in *. fold (hits snap tbl w todo) in *. apply Forall_cons in Hty as [He Hty].
  rewrite fmap_cons. unfold changed at 1. destruct (hit snap tbl w e) as [r|] eqn:Eh; cbn [fmap option_fmap option_map] in *.
  - cbn [length] in *. cbn [update_rows pk values].
    destruct (fresh_slot_row e r (He r (hit_seen e r Eh))) as (Ea & _ & Es & Hl & _).
    destruct (replace_slot db root pre e todo n (fresh_slot e r) Ht Hl ltac:(lia)) as (root2 & db2 & E2 & Hst2 & Ht2).
    destruct (IH (pre ++ [mkEntry (Node.Key e) (fresh_slot e r)]) root2 db2 (n - 33)) as (root3 & db3 & E3 & Hst3 & Ht3);
      [by rewrite <-app_assoc|done|lia|].
    exists root3, db3. split; [|split].
    + rewrite (M_bind_Ok _ _ (db, p) (assigned plans r) (db, p)) by (unfold lift; by rewrite Ea).
      rewrite (M_bind_Ok _ _ (db, p) (fresh_slot e r) (db, p)) by (unfold lift; by rewrite Es).
      rewrite (M_bind_Ok _ _ _ _ _ (on_db_Ok _ _ _ _ _ (wrap_Ok _ _ _ _ _ _ E2))). cbn beta iota.
      rewrite Hidx. cbn [update_index_entries]. exact E3.
    + by eapply tx_step_trans.
    + rewrite <-app_assoc in Ht3. replace (n - 33 * Z.of_nat (S (length (hits snap tbl w todo)))) with (n - 33 - 33 * Z.of_nat (length (hits snap tbl w todo))) by lia.
      exact Ht3.
  - destruct (IH (pre ++ [e]) root db n) as (root3 & db3 & E3 & Hst3 & Ht3); [by rewrite <-app_assoc|done|done|].
    exists root3, db3. split; [exact E3|]. split; [exact Hst3|]. by rewrite <-app_assoc in Ht3.
Qed.
End loops.

(** ** The statement around the loop *)

Section auto.
Context `{Unicode} `{MapOrder} (gid : Z) (fuel tfuel : nat).
Context (db : DB) (name : string) (tbl : Table) (fid : Z) (kvs : list Node.Entry) (rs : list Rec) (n : Z) (w : option WhereClause).
Context (apply_ : Z → Tree → list scannedRow → M (DB * Provider) nat) (g : Node.Entry → row → list byte).
Hypothesis Ht : table_holds gid db name tbl fid kvs rs n.
Let m := length (hits (snap_now db) tbl w kvs).
Let kvs' := changed (snap_now db) tbl w g <$> kvs.
Hypothesis Hm : Z.of_nat m < n.
Hypothesis Hfuel : (length kvs < fuel)%nat.
Hypothesis Htf : (32 ≤ tfuel)%nat.
Hypothesis Happly : ∀ ptr v0 root db1 p, tx_tree db1 ptr fid v0 root kvs (33 * n) →
  ∃ root' db2, apply_ (nextXID (wal db)) (mkTree (HTx ptr) (1, root)) (hits (snap_now db) tbl w kvs) (db1, p) = (Ok m, (db2, p)) ∧
    tx_step ptr fid db1 db2 ∧ tx_tree db2 ptr fid v0 root' kvs' (33 * n - 33 * Z.of_nat m).

Lemma change_auto_ok : ∃ db' rs', change_auto fuel tfuel name tbl w apply_ db = (Ok m, db') ∧
  dml_ready gid db' name tbl fid kvs' (rs ++ rs') (n - Z.of_nat m - 1) ∧ committed_as (nextXID (wal db)) fid rs' db db' ∧
  committed_by (nextXID (wal db)) name fid kvs kvs' (n - Z.of_nat m - 1) db db'.
Proof using Ht Hm Hfuel Htf Happly.
  pose proof (th_ready _ _ _ _ _ _ _ _ Ht) as Hr. assert (0 < n) as Hn by lia.
  destruct (auto_begin _ _ _ _ _ _ _ _ Hr Hn) as (w1 & db3 & v0 & root & Ea & Eg & En & Eo & Hst3 & Ht3 & Hv0 & Ht0).
  destruct (scanVisible_ok (snap_now db) tbl w fuel tfuel db3 _ fid v0 root kvs _ Ht3 (th_entries _ _ _ _ _ _ _ _ Ht) Hfuel Htf) as (db4 & Es & Hs4).
  pose proof (tx_tree_read _ _ _ _ _ _ _ _ Hs4 Ht3) as Ht4.
  destruct (Happly _ v0 root db4 (mkProvider ∅ ∅) Ht4) as (root5 & db5 & E5 & Hst5 & Ht5).
  destruct (auto_commit _ _ _ _ _ _ _ _ Hr Hn w1 _ db5 v0 root root5 kvs' (n - Z.of_nat m - 1) Ea eq_refl Hv0 Ht0) as (db6 & rs' & Ec & Em & Hr' & Hca).
  - eapply tx_step_trans; [exact Hst3|]. eapply tx_step_trans; [|exact Hst5]. by eapply tx_tree_step.
  - destruct Ht5 as (b & v & ? & ? & ? & ? & ?). exists b, v. split_and!; try done. lia.
  - lia.
  - lia.
  - eexists _, rs'. split; [|by split]. unfold change_auto. rewrite (M_bind_Ok _ _ _ _ _ Ea). unfold get_state. unfold mbind at 1, M_bind at 1.
    change (TakeSnapshot XIDNone (txMgr (set_wal w1 db))) with (snap_now db).
    rewrite (M_bind_Ok _ _ _ _ _ (on_error_Ok _ _ _ _ _ Eg)). rewrite (M_bind_Ok _ _ _ _ _ En).
    rewrite (M_bind_Ok _ _ _ _ _ (on_error_Ok _ _ _ _ _ (wrap_Ok _ _ _ _ _ _ Eo))).
    rewrite (M_bind_Ok _ _ _ _ _ (on_error_Ok _ _ _ _ _ Es)).
    rewrite (M_bind_Ok _ _ db4 (Ok m, mkProvider ∅ ∅) db5) by (unfold with_prov; by rewrite E5). cbn beta iota.
    rewrite (M_bind_Ok _ _ db5 m db5) by reflexivity. cbn [p_pagers]. unfold add_idx_pagers. rewrite map_to_list_empty. cbn [foldl].
    rewrite (M_bind_Ok _ _ _ _ _ (on_error_Ok _ _ _ _ _ Ec)). by rewrite (M_bind_Ok _ _ _ _ _ Em).
Qed.

End auto.

(** ** DELETE *)

Section delete.
Context `{Unicode} `{MapOrder} (gid : Z) (fuel tfuel : nat).
Context (db : DB) (name : string) (tbl : Table) (fid : Z) (kvs : list Node.Entry) (rs : list Rec) (n : Z) (w : option WhereClause).
Hypothesis Ht : table_holds gid db name tbl fid kvs rs n.
Let xid := nextXID (wal db).
Let m := length (hits (snap_now db) tbl w kvs).
Let kvs' := changed (snap_now db) tbl w (dead xid) <$> kvs.
Hypothesis Hm : Z.of_nat m < n.

Lemma this_xid : is_u32 xid ∧ 0 < xid.
Proof using Ht Hm. pose proof (dr_xid _ _ _ _ _ _ _ _ (th_ready _ _ _ _ _ _ _ _ Ht)). unfold xid. lia. Qed.

(** A changed slot is one of the old ones or a new one for a selected row. *)
Lemma elem_of_changed snap g e' : e' ∈ changed snap tbl w g <$> kvs →
  e' ∈ kvs ∨ ∃ e r, e ∈ kvs ∧ hit snap tbl w e = Some r ∧ e' = mkEntry (Node.Key e) (g e r).
Proof.
  intros (e & -> & He)%list_elem_of_fmap. unfold changed. destruct (hit snap tbl w e) as [r|] eqn:E; [right; eauto|by left].
Qed.

Lemma entry_length e : e ∈ kvs → length (Node.Value e) = ValueSize.
Proof using Ht.
  intros He. destruct (ready_tree _ _ _ _ _ _ _ _ (th_ready _ _ _ _ _ _ _ _ Ht)) as (_ & _ & Hwf).
  rewrite Forall_forall in Hwf. by destruct (Hwf e He).
Qed.

Lemma dead_visible db' rs' e r : committed_as xid fid rs' db db' → e ∈ kvs →
  visible_row (snap_now db') tbl (dead xid e r) = Ok None.
Proof using Ht Hm.
  intros Hca He. destruct this_xid as [Hx Hx0]. destruct (put_xmax_ok tbl (Node.Value e) xid (entry_length e He) Hx) as (_ & _ & Hmax & _).
  unfold visible_row, dead. rewrite Hmax. destruct (IsVisible _ _ _) eqn:E; [|done]. exfalso.
  apply IsVisible_iff in E as [_ [E|[_ E]]]; [unfold XIDNone in E; lia|]. apply E. unfold snap_now.
  rewrite TakeSnapshot_committed, (ca_committed _ _ _ _ _ Hca). unfold MarkCommitted. cbn. set_solver.
Qed.

(** Snapshots taken before still see the deleted rows. *)
Definition older (snap : Snapshot) : Prop :=
  snap_committed snap ⊆ committed (txMgr db) ∧ (ownXID snap = XIDNone ∨ (ownXID snap ≠ xid ∧ unused_xid (ownXID snap) kvs)).

Lemma older_not_xid snap : older snap → xid ∉ snap_committed snap ∧ xid ≠ ownXID snap.
Proof using Ht Hm.
  destruct this_xid as [Hx Hx0]. intros [Hs Ho]. split.
  - intros Hin%Hs. apply (th_committed _ _ _ _ _ _ _ _ Ht) in Hin. unfold xid in Hin. lia.
  - destruct Ho as [->|[Ho _]]; [unfold XIDNone; lia|congruence].
Qed.

Lemma delete_older snap : older snap → visible_rows snap tbl kvs' = visible_rows snap tbl kvs.
Proof using Ht Hm.
  intros Ho. destruct (older_not_xid snap Ho) as [Hc Hown]. destruct this_xid as [Hx Hx0]. unfold kvs', visible_rows.
  assert (∀ e, e ∈ kvs → seen_row snap tbl (Node.Value (changed (snap_now db) tbl w (dead xid) e)) = seen_row snap tbl (Node.Value e)) as Hsame.
  { intros e He. unfold changed. destruct (hit (snap_now db) tbl w e) as [r|] eqn:Eh; [|done]. cbn [Node.Value]. unfold dead.
    destruct (put_xmax_ok tbl (Node.Value e) xid (entry_length e He) Hx) as (_ & Hmin & Hmax & Hdec).
    unfold seen_row, visible_row. rewrite Hmin, Hmax, Hdec.
    assert (IsVisible snap (row_xmin (Node.Value e)) xid = IsVisible snap (row_xmin (Node.Value e)) (row_xmax (Node.Value e))) as ->; [|done].
    apply eq_true_iff_eq. rewrite !IsVisible_iff. enough (row_xmax (Node.Value e) = XIDNone ∨
      row_xmax (Node.Value e) ≠ ownXID snap ∧ row_xmax (Node.Value e) ∉ snap_committed snap) by (split; intros [? _]; split; auto).
    unfold hit, seen_row, visible_row in Eh. destruct (IsVisible (snap_now db) _ _) eqn:Ev; [|done].
    apply IsVisible_iff in Ev as [_ [Ev|[Ev1 Ev2]]]; [by left|right]. unfold snap_now in Ev1, Ev2. rewrite TakeSnapshot_committed in Ev2.
    destruct Ho as [Hs Ho]. split; [|intros Hin; by apply Ev2, Hs]. destruct Ho as [->|[_ Hu]]; [done|].
    unfold unused_xid in Hu. rewrite Forall_forall in Hu. by destruct (Hu e He). }
  clear -Hsame. induction kvs as [|e es IH]; [done|]. cbn [fmap list_fmap omap list_omap].
  rewrite changed_key, Hsame by (by left). rewrite IH by (intros; apply Hsame; by right). done.
Qed.
Hypothesis Hfuel : (length kvs < fuel)%nat.
Hypothesis Htf : (32 ≤ tfuel)%nat.

Lemma delete_holds : ∃ db' rs', execDelete gid fuel tfuel name w db = (Ok (count_message m "deleted"), db') ∧
  table_holds gid db' name tbl fid kvs' (rs ++ rs') (n - Z.of_nat m - 1) ∧
  visible_rows (snap_now db') tbl kvs' = filter (λ p, where_holds p.2 tbl w = false) (visible_rows (snap_now db) tbl kvs) ∧
  committed_as xid fid rs' db db' ∧ committed_by xid name fid kvs kvs' (n - Z.of_nat m - 1) db db'.
Proof using Ht Hm Hfuel Htf.
  pose proof (th_ready _ _ _ _ _ _ _ _ Ht) as Hr. destruct this_xid as [Hx Hx0].
  destruct (change_auto_ok gid fuel tfuel db name tbl fid kvs rs n w (λ xid bt rows, applyDelete gid tfuel true bt tbl xid rows) (dead xid)
    Ht Hm Hfuel Htf) as (db' & rs' & E & Hr' & Hca & Hby).
  { intros ptr v0 root db1 p Htree. destruct (delete_rows_ok gid tfuel true (snap_now db) tbl w xid ptr fid v0 (dr_no_index _ _ _ _ _ _ _ _ Hr) Htf Hx
      kvs [] root db1 p _ Htree) as (root' & db2 & E & Hst & Ht2); [unfold m in Hm; lia|].
    exists root', db2. split; [|split; [exact Hst|exact Ht2]]. unfold applyDelete. rewrite (M_bind_Ok _ _ _ _ _ E). reflexivity. }
  exists db', rs'. split_and!.
  - unfold execDelete, get_state. unfold mbind at 1, M_bind at 1. rewrite (dr_table _ _ _ _ _ _ _ _ Hr), (dr_idle _ _ _ _ _ _ _ _ Hr).
    unfold autoCommitDelete. by rewrite (M_bind_Ok _ _ _ _ _ E).
  - eapply table_holds_next; [exact Ht|lia|exact Hr'|exact Hca|]. apply Forall_forall.
    intros e' [?|(e & r & He & _ & ->)]%elem_of_changed; [by left|right]. cbn [Node.Value].
    pose proof (dead_visible db' rs' e r Hca He) as Hd. destruct (put_xmax_ok tbl (Node.Value e) xid (entry_length e He) Hx) as (_ & Hmin & Hmax & _).
    pose proof (proj1 (Forall_forall _ _) (th_stamped _ _ _ _ _ _ _ _ Ht) e He) as (H1 & H2 & _). unfold dead in *.
    split; [|unfold stamped; cbn [Node.Value]; rewrite Hmin, Hmax; unfold xid in *; split_and!; [done|lia..]]. split; cbn [Node.Value].
    + unfold slot_ok. by rewrite Hd.
    + unfold seen_row. by rewrite Hd.
    + unfold seen_row. by rewrite Hd.
  - apply changed_removed; [by intros; eapply seen_kept|]. intros e r He _. unfold seen_row. by rewrite (dead_visible db' rs' e r Hca He).
  - exact Hca.
  - exact Hby.
Qed.
End delete.

(** ** UPDATE *)

Section update.
Context `{Unicode} `{MapOrder} (gid : Z) (fuel tfuel : nat).
Context (db : DB) (name : string) (tbl : Table) (fid : Z) (kvs : list Node.Entry) (rs : list Rec) (n : Z) (w : option WhereClause).
Context (assignments : list Assignment) (plans : list updatePlan).
Hypothesis Ht : table_holds gid db name tbl fid kvs rs n.
Let xid := nextXID (wal db).
Let m := length (hits (snap_now db) tbl w kvs).

Local Abbreviation fresh := (fresh_slot tbl xid plans).

Let kvs' := changed (snap_now db) tbl w fresh <$> kvs.
Hypothesis Hm : Z.of_nat m < n.
Hypothesis Hplans : Forall (plan_ok tbl) plans.

(** The new slot of a selected row. *)
Lemma fresh_slot_ok db' rs' e r : committed_as xid fid rs' db db' → e ∈ kvs → seen_row (snap_now db) tbl (Node.Value e) = Some r →
  encodeRow tbl (assigned plans r) xid = Ok (fresh e r) ∧ length (fresh e r) = ValueSize ∧
  row_xmin (fresh e r) = xid ∧ row_xmax (fresh e r) = XIDNone ∧
  entry_ok (snap_now db') tbl (mkEntry (Node.Key e) (fresh e r)) ∧
  seen_row (snap_now db') tbl (fresh e r) = Some (stored <$> assigned plans r).
Proof using Ht Hm Hplans.
  intros Hca He Hr. pose proof (proj1 (Forall_forall _ _) (th_entries _ _ _ _ _ _ _ _ Ht) e He) as [_ Hty Hpk].
  destruct (this_xid gid db name tbl fid kvs rs n w Ht Hm) as [Hx _]. fold xid in Hx.
  destruct (assign_ok tbl plans r Hplans (Hty r Hr)) as (_ & Hty' & Hk).
  pose proof (dr_valid _ _ _ _ _ _ _ _ (th_ready _ _ _ _ _ _ _ _ Ht)) as Hvalid.
  destruct (encodeRow_ok tbl _ xid Hvalid Hty' Hx) as (buf & Es & Hl & Hmin & Hmax & _).
  assert (fresh e r = buf) as -> by (unfold fresh_slot; by rewrite Es).
  destruct (th_pk _ _ _ _ _ _ _ _ Ht) as [i Hi].
  destruct (entry_ok_slot _ _ tbl (Node.Key e) _ buf i (new_visible xid (txMgr db)) Hvalid Hty' Hx Es Hi) as [Hok Hs]; [by rewrite Hk, (Hpk r i)|].
  unfold snap_now. rewrite (ca_committed _ _ _ _ _ Hca). by split_and!.
Qed.

(** Snapshots taken before lose the updated rows. *)
Lemma fresh_older db' rs' snap e r : committed_as xid fid rs' db db' → older db kvs snap → e ∈ kvs →
  seen_row (snap_now db) tbl (Node.Value e) = Some r → seen_row snap tbl (fresh e r) = None.
Proof using Ht Hm Hplans.
  intros Hca Ho He Hr. destruct (fresh_slot_ok db' rs' e r Hca He Hr) as (_ & _ & Hmin & _).
  destruct (older_not_xid gid db name tbl fid kvs rs n w Ht Hm snap Ho) as [Hc Hown]. fold xid in Hc, Hown.
  unfold seen_row, visible_row. rewrite Hmin. destruct (IsVisible snap xid _) eqn:E; [|done].
  exfalso. apply IsVisible_iff in E as [[?|?] _]; done.
Qed.

Lemma update_older db' rs' snap : committed_as xid fid rs' db db' → older db kvs snap → ∀ p,
  p ∈ visible_rows snap tbl kvs' ↔
    p ∈ visible_rows snap tbl kvs ∧ ¬ (p ∈ visible_rows (snap_now db) tbl kvs ∧ where_holds p.2 tbl w = true).
Proof using Ht Hm Hplans.
  intros Hca Ho [key r]. destruct (ready_tree _ _ _ _ _ _ _ _ (th_ready _ _ _ _ _ _ _ _ Ht)) as (Hs & _ & _).
  rewrite !elem_of_visible. cbn [snd].
  assert (∀ val val', mkEntry key val ∈ kvs → mkEntry key val' ∈ kvs → val' = val) as Hinj.
  { intros val val' H1 H2. apply kv_map_lookup in H1, H2; [|done..]. congruence. }
  split.
  - intros (val & Hv & Hseen). apply list_elem_of_fmap in Hv as (e & Ee & He). unfold changed in Ee.
    destruct (hit (snap_now db) tbl w e) as [r'|] eqn:Eh.
    + exfalso. injection Ee as -> ->. unfold hit in Eh. destruct (seen_row (snap_now db) tbl (Node.Value e)) as [r''|] eqn:Er; [|done].
      cbn in Eh. destruct (where_holds r'' tbl w); [|done]. injection Eh as ->.
      by rewrite (fresh_older db' rs' snap e r' Hca Ho He Er) in Hseen.
    + subst e. split; [eauto|]. intros [(val' & Hv' & Hr') Hw]. rewrite (Hinj _ _ He Hv') in Hr'.
      unfold hit in Eh. cbn [Node.Value] in Eh. rewrite Hr' in Eh. cbn in Eh. by rewrite Hw in Eh.
  - intros [(val & Hv & Hseen) Hn]. exists val. split; [|done]. apply list_elem_of_fmap. exists (mkEntry key val). split; [|done].
    unfold changed, hit. cbn [Node.Value Node.Key]. destruct (seen_row (snap_now db) tbl val) as [r'|] eqn:Er; [|done]. cbn.
    destruct (where_holds r' tbl w) eqn:Ew; [|done]. exfalso. apply Hn.
    assert (r' = r) as ->; [|split; [eauto|done]].
    unfold seen_row, visible_row in Er, Hseen. destruct (IsVisible (snap_now db) _ _), (IsVisible snap _ _); try done.
    destruct (decodeRow tbl val); try done. cbn in Er, Hseen. congruence.
Qed.

Hypothesis Hfuel : (length kvs < fuel)%nat.
Hypothesis Htf : (32 ≤ tfuel)%nat.
Hypothesis Hbuild : buildUpdatePlans tbl assignments = Ok plans.

Lemma update_holds : ∃ db' rs', execUpdate gid fuel tfuel name assignments w db = (Ok (count_message m "updated"), db') ∧
  table_holds gid db' name tbl fid kvs' (rs ++ rs') (n - Z.of_nat m - 1) ∧
  visible_rows (snap_now db') tbl kvs' =
    (λ p, if where_holds p.2 tbl w then (p.1, stored <$> assigned plans p.2) else p) <$> visible_rows (snap_now db) tbl kvs ∧
  committed_as xid fid rs' db db' ∧ committed_by xid name fid kvs kvs' (n - Z.of_nat m - 1) db db'.
Proof using Ht Hm Hplans Hfuel Htf Hbuild.
  pose proof (th_ready _ _ _ _ _ _ _ _ Ht) as Hr.
  destruct (change_auto_ok gid fuel tfuel db name tbl fid kvs rs n w (λ xid bt rows, applyUpdate gid tfuel true bt tbl xid rows plans) fresh
    Ht Hm Hfuel Htf) as (db' & rs' & E & Hr' & Hca & Hby).
  { intros ptr v0 root db1 p Htree. destruct (this_xid gid db name tbl fid kvs rs n w Ht Hm) as [Hx _].
    destruct (update_rows_ok gid tfuel true (snap_now db) tbl w xid ptr fid v0 (dr_no_index _ _ _ _ _ _ _ _ Hr) Htf Hx plans Hplans
      (dr_valid _ _ _ _ _ _ _ _ Hr) kvs [] root db1 p _ Htree) as (root' & db2 & E & Hst & Ht2); [|unfold m in Hm; lia|].
    { eapply Forall_impl; [exact (th_entries _ _ _ _ _ _ _ _ Ht)|]. intros e []. done. }
    exists root', db2. split; [|split; [exact Hst|exact Ht2]]. unfold applyUpdate. rewrite (M_bind_Ok _ _ _ _ _ E). reflexivity. }
  exists db', rs'. split_and!.
  - unfold execUpdate, get_state. unfold mbind at 1, M_bind at 1. rewrite (dr_table _ _ _ _ _ _ _ _ Hr).
    rewrite (M_bind_Ok _ _ db plans db) by (unfold lift; by rewrite Hbuild). rewrite (dr_idle _ _ _ _ _ _ _ _ Hr).
    unfold autoCommitUpdate. by rewrite (M_bind_Ok _ _ _ _ _ E).
  - eapply table_holds_next; [exact Ht|lia|exact Hr'|exact Hca|]. apply Forall_forall.
    intros e' [?|(e & r & He & Eh & ->)]%elem_of_changed; [by left|right].
    destruct (fresh_slot_ok db' rs' e r Hca He (hit_seen _ _ _ e r Eh)) as (_ & _ & Hmin & Hmax & Hok & _).
    split; [exact Hok|]. unfold stamped. cbn [Node.Value]. rewrite Hmin, Hmax. fold xid. unfold XIDNone.
    pose proof (dr_xid _ _ _ _ _ _ _ _ Hr). unfold xid in *. lia.
  - apply (changed_replaced _ _ _ _ _ _ (λ r, stored <$> assigned plans r)); [by intros; eapply seen_kept|]. intros e r He Eh.
    by destruct (fresh_slot_ok db' rs' e r Hca He (hit_seen _ _ _ e r Eh)) as (_ & _ & _ & _ & _ & ?).
  - exact Hca.
  - exact Hby.
Qed.
End update.

(** ** What the statements do *)

Lemma length_hits `{Unicode} snap tbl w kvs :
  length (hits snap tbl w kvs) = length (filter (λ p, where_holds p.2 tbl w = true) (visible_rows snap tbl kvs)).
Proof. by rewrite hits_visible, length_fmap. Qed.

(** C8. A DELETE outside a transaction, on a table without secondary indexes,
    succeeds, reports how many rows its clause selects, and commits: later
    statements see the other rows, in the same order, and are ready to run. The
    slots stay and are marked with the transaction: every snapshot taken before
    still sees exactly the rows it saw. A row is selected when [where_holds]: as
    SQL says where the clause compares existing columns with literals, while a
    condition on a column that the table does not have and one between two
    columns count as satisfied. Subqueries of the clause have been evaluated
    before; pages, log records and identifiers last for the changes. *)
Theorem delete_visible `{Unicode} `{MapOrder} gid fuel tfuel db name tbl fid kvs rs n w :
  let rows := visible_rows (snap_now db) tbl kvs in
  let k := length (filter (λ p, where_holds p.2 tbl w = true) rows) in
  table_holds gid db name tbl fid kvs rs n → Z.of_nat k < n → (length kvs < fuel)%nat → (32 ≤ tfuel)%nat →
  ∃ kvs' db' rs', execDelete gid fuel tfuel name w db = (Ok (count_message k "deleted"), db') ∧
    table_holds gid db' name tbl fid kvs' (rs ++ rs') (n - Z.of_nat k - 1) ∧
    visible_rows (snap_now db') tbl kvs' = filter (λ p, where_holds p.2 tbl w = false) rows ∧
    (∀ snap, older db kvs snap → visible_rows snap tbl kvs' = visible_rows snap tbl kvs) ∧
    committed_as (nextXID (wal db)) fid rs' db db'.
Proof.
  cbv zeta. rewrite <-length_hits. intros Ht Hm Hf Htf.
  destruct (delete_holds gid fuel tfuel db name tbl fid kvs rs n w Ht Hm Hf Htf) as (db' & rs' & E & Ht' & Hv & Hca & _).
  eexists _, db', rs'. split; [exact E|]. split; [exact Ht'|]. split; [exact Hv|]. split; [|exact Hca].
  intros snap Ho. by apply (delete_older gid db name tbl fid kvs rs n w Ht Hm).
Qed.

(** C9. An UPDATE outside a transaction, on a table without secondary indexes,
    with literals for existing columns of their type other than the primary key,
    succeeds, reports how many rows its clause selects, and commits: later
    statements see these rows with the assigned columns (texts cut to their
    column) in the same places, and the others as they were. It writes over the
    slots, though: a snapshot taken before no longer sees the rows that were
    updated, neither the old nor the new version. A row is selected when
    [where_holds]: as SQL says where the clause compares existing columns with
    literals, while a condition on a column that the table does not have and one
    between two columns count as satisfied. Subqueries of the clause have been
    evaluated before; pages, log records and identifiers last for the changes. *)
Theorem update_visible `{Unicode} `{MapOrder} gid fuel tfuel db name tbl fid kvs rs n w assignments plans :
  let rows := visible_rows (snap_now db) tbl kvs in
  let k := length (filter (λ p, where_holds p.2 tbl w = true) rows) in
  table_holds gid db name tbl fid kvs rs n → Z.of_nat k < n → (length kvs < fuel)%nat → (32 ≤ tfuel)%nat →
  Forall (λ a, literal (AValue a)) assignments → buildUpdatePlans tbl assignments = Ok plans →
  ∃ kvs' db' rs', execUpdate gid fuel tfuel name assignments w db = (Ok (count_message k "updated"), db') ∧
    table_holds gid db' name tbl fid kvs' (rs ++ rs') (n - Z.of_nat k - 1) ∧
    visible_rows (snap_now db') tbl kvs' =
      (λ p, if where_holds p.2 tbl w then (p.1, stored <$> set_columns tbl assignments p.2) else p) <$> rows ∧
    (∀ snap p, older db kvs snap → p ∈ visible_rows snap tbl kvs' ↔
       p ∈ visible_rows snap tbl kvs ∧ ¬ (p ∈ rows ∧ where_holds p.2 tbl w = true)) ∧
    committed_as (nextXID (wal db)) fid rs' db db'.
Proof.
  cbv zeta. rewrite <-length_hits. intros Ht Hm Hf Htf Hl Hb.
  destruct (build_plans_ok tbl assignments [] plans Hl Hb) as (ps & -> & Hps & Hset). cbn [app] in *.
  destruct (update_holds gid fuel tfuel db name tbl fid kvs rs n w assignments ps Ht Hm Hps Hf Htf Hb) as (db' & rs' & E & Ht' & Hv & Hca & _).
  eexists _, db', rs'. split; [exact E|]. split; [exact Ht'|]. split; [|split; [|exact Hca]].
  - rewrite Hv. apply list_fmap_ext. intros _ p _. by rewrite Hset.
  - intros snap p Ho. by apply (update_older gid db name tbl fid kvs rs n w ps Ht Hm Hps db' rs').
Qed.

(** ** Concrete instances *)

#[local] Existing Instance no_tables.
#[local] Program Instance change_order : MapOrder := {| map_order _ _ l := l |}.
Next Obligation. done. Qed.

(** [WHERE age >= 30] *)
Definition over_30 : option WhereClause := Some (mkWhere [[cond_val "age" OpGte (VInt 30)]]).

Lemma ada_visible_rows bt : visible_rows (snap_now (ada_log_db bt)) people [ada_entry] = [(7, ada)].
Proof.
  change (snap_now (ada_log_db bt)) with ada_snap. unfold visible_rows. cbn [omap list_omap ada_entry Node.Value Node.Key].
  by rewrite ada_seen.
Qed.

Lemma delete_visible_witness : ∃ db kvs' db',
  execDelete 1 10 32 "people" over_30 db = (Ok (count_message 1 "deleted"), db') ∧ visible_rows (snap_now db') people kvs' = [].
Proof.
  destruct ada_tree_room as (bt & h & Hh & Ht & Hroom). exists (ada_log_db bt).
  destruct (delete_visible 1 10 32 (ada_log_db bt) "people" people (bp_fid (pg bt)) [ada_entry] ada_log 100 over_30)
    as (kvs' & db' & rs' & E & _ & Hv & _).
  - exact (ada_table_holds bt h Hh Ht Hroom).
  - rewrite ada_visible_rows. reflexivity.
  - cbn. lia.
  - lia.
  - rewrite ada_visible_rows in E, Hv. exists kvs', db'. split; [exact E|exact Hv].
Defined.

Lemma update_visible_witness : ∃ db kvs' db',
  execUpdate 1 10 32 "people" [mkAssign "age" (VInt 37)] over_30 db = (Ok (count_message 1 "updated"), db') ∧
  visible_rows (snap_now db') people kvs' = [(7, [VInt 7; VText "Ada"; VInt 37])].
Proof.
  destruct ada_tree_room as (bt & h & Hh & Ht & Hroom). exists (ada_log_db bt).
  destruct (update_visible 1 10 32 (ada_log_db bt) "people" people (bp_fid (pg bt)) [ada_entry] ada_log 100 over_30
    [mkAssign "age" (VInt 37)] [mkUpdate 2 (VInt 37)]) as (kvs' & db' & rs' & E & _ & Hv & _).
  - exact (ada_table_holds bt h Hh Ht Hroom).
  - rewrite ada_visible_rows. reflexivity.
  - cbn. lia.
  - lia.
  - constructor; [|constructor]. left. exists 37. split; [reflexivity|cbn; lia].
  - reflexivity.
  - rewrite ada_visible_rows in E, Hv. exists kvs', db'. split; [exact E|exact Hv].
Defined.
