(* ===== verification/Statements.v ===== *)
(** * Statements: a table under a sequence of SQL statements

    The statements on one table without secondary indexes, outside of
    transactions, put together: whatever sequence of INSERT, DELETE, UPDATE and
    SELECT is executed, errors included, the answers are those of a list of rows
    in primary-key order. *)
From S2P Require Import Prelude Disk Storage Store Pager Mvcc TxPager BufferPool Node BTree Cursor Transaction.
From S2P Require Import Wal GoLib Catalog Rows Ast Eval Agg Stats Planner Db Frame Sample Operators Plans Volcano Queries.
From S2P Require Import Select Opening Dml Exec Durability Writes Tables Inserts Changes.
From stdpp Require Import options.
Local Open Scope Z_scope.

(** ** The specification *)

Section spec.
Context `{Unicode} (tbl : Table).

(** A column that UPDATE may assign this value to. *)
Definition assignable (a : Assignment) : Prop :=
  ∃ i c, ColIndex (AColumn a) tbl = Some i ∧ PrimaryKeyIndex tbl ≠ Some i ∧ Columns tbl !! i = Some c ∧ VType (AValue a) = CType c.

(** The rows a clause selects, by [where_holds]: [matchesWhere_correct] says what
    that means, and that a condition on a column the table does not have and one
    between two columns count as satisfied. *)
Definition selected (w : option WhereClause) (p : Z * row) : Prop := where_holds p.2 tbl w = true.
#[export] Instance selected_dec w p : Decision (selected w p).
Proof. unfold selected. apply _. Defined.
Lemma selected_if {A} w p (x y : A) : (if decide (selected w p) then x else y) = if where_holds p.2 tbl w then x else y.
Proof. unfold selected. case_decide as E; [by rewrite E|]. by destruct (where_holds p.2 tbl w). Qed.

(** A statement, the rows it finds, its answer and the rows it leaves. *)
Inductive table_step : Statement → list (Z * row) → res Result → list (Z * row) → Prop :=
  | tstep_insert name vals i key T :
      Forall2 typed (Columns tbl) vals → PrimaryKeyIndex tbl = Some i → vals !! i = Some (VInt key) →
      table_step (InsertStmt name vals) T (Ok one_row) (put_row key (stored <$> vals) T)
  | tstep_insert_bad name vals e T : ¬ Forall2 typed (Columns tbl) vals → table_step (InsertStmt name vals) T (Err e) T
  | tstep_delete name w T :
      table_step (DeleteStmt name w) T (Ok (count_message (length (filter (selected w) T)) "deleted"))
        (filter (λ p, ¬ selected w p) T)
  | tstep_update name assignments w T : Forall assignable assignments →
      table_step (UpdateStmt name assignments w) T (Ok (count_message (length (filter (selected w) T)) "updated"))
        ((λ p, if decide (selected w p) then (p.1, stored <$> set_columns tbl assignments p.2) else p) <$> T)
  | tstep_update_bad name assignments w e T : ¬ Forall assignable assignments →
      table_step (UpdateStmt name assignments w) T (Err e) T
  | tstep_select s l T : l ≡ₚ (filter (selected (Where s)) T).*2 →
      ((∀ w, Where s = Some w → length (Groups w) = 1%nat) → l = (filter (selected (Where s)) T).*2) →
      table_step (SelectStatement s) T (select_spec s tbl l) T.

Inductive table_run : list Statement → list (Z * row) → list (res Result) → list (Z * row) → Prop :=
  | tr_nil T : table_run [] T [] T
  | tr_cons st sts T a T1 answers T2 :
      table_step st T a T1 → table_run sts T1 answers T2 → table_run (st :: sts) T (a :: answers) T2.

(** The statements the specification is for: INSERT, DELETE, UPDATE and SELECT on
    table [name] alone, with literals of the parser and without subqueries.  A
    SELECT does not compare two columns: the planner takes such a condition on
    the primary key for one with key 0 ([pk_column_condition_scans_key_zero]). *)
Definition supported (name : string) (st : Statement) : Prop :=
  match st with
  | InsertStmt nm vals => nm = name ∧ Forall literal vals
  | DeleteStmt nm w => nm = name ∧ flat_where w
  | UpdateStmt nm assignments w => nm = name ∧ flat_where w ∧ Forall (λ a, literal (AValue a)) assignments
  | SelectStatement s => (∃ ref, From s = [ref] ∧ RName ref = name) ∧ Joins s = [] ∧
      plain_where (Where s) ∧ flat_where (Where s) ∧ flat_where (Having s)
  | _ => False
  end.
End spec.

(** Enough fuel for the statement on a table of [B] slots. *)
Definition fuel_ok (fuel B : nat) (st : Statement) : Prop :=
  match st with SelectStatement s => (select_fuel (Where s) B ≤ fuel)%nat | _ => (B < fuel)%nat end.

(** ** Errors of UPDATE and INSERT *)

Lemma build_plans_total `{Unicode} tbl assignments plans :
  (Forall (assignable tbl) assignments ∧ ∃ plans', build_plans tbl (PrimaryKeyIndex tbl) assignments plans = Ok plans') ∨
  (¬ Forall (assignable tbl) assignments ∧ ∃ e, build_plans tbl (PrimaryKeyIndex tbl) assignments plans = Err e).
Proof.
  revert plans. induction assignments as [|a assignments IH]; intros plans; cbn [build_plans]; [left; eauto|].
  destruct (ColIndex (AColumn a) tbl) as [i|] eqn:Ei.
  2: { right. split; [|eauto]. intros [(i & c & Hi & _) _]%Forall_cons. congruence. }
  case_decide as Hpk. { right. split; [|eauto]. intros [(j & c & Hj & Hne & _) _]%Forall_cons. congruence. }
  pose proof (find_index_lt _ _ _ Ei) as Hlt. apply lookup_lt_is_Some in Hlt as [c Hc]. unfold go_index. rewrite Hc. cbn [mbind res_bind].
  case_decide as Hty. { right. split; [|eauto]. intros [(j & c' & Hj & _ & Hc' & ?) _]%Forall_cons. congruence. }
  destruct (IH (plans ++ [mkUpdate i (AValue a)])) as [(HF & E)|(HF & E)]; [left|right]; (split; [|exact E]).
  - constructor; [|done]. exists i, c. split_and!; try done.
  - intros [_ ?]%Forall_cons. done.
Qed.

Lemma check_types_total cols vals : Forall literal vals → length vals = length cols →
  Forall2 typed cols vals ∨ (¬ Forall2 typed cols vals ∧ ∃ e, check_types cols vals = Err e).
Proof.
  intros Hl. revert cols. induction Hl as [|v vals Hv _ IH]; intros [|c cols] Hlen; try discriminate Hlen; [left; constructor|].
  cbn [check_types]. injection Hlen as Hlen. case_decide as Hty.
  { right. split; [|eauto]. intros HF. apply Forall2_cons in HF as [Hx _]. apply Hty. by destruct Hx as [(-> & k & -> & _)|(-> & s & ->)]. }
  destruct (IH cols Hlen) as [Ht|(Hn & e & E)]; [left|right].
  - constructor; [|done]. apply literal_typed; [done|]. destruct (decide (VType v = CType c)); tauto.
  - split; [|eauto]. by intros [_ ?]%Forall2_cons.
Qed.

Lemma pk_value `{Unicode} tbl vals i : Forall2 typed (Columns tbl) vals → PrimaryKeyIndex tbl = Some i →
  ∃ key, vals !! i = Some (VInt key).
Proof.
  intros Hty Hpk. unfold PrimaryKeyIndex in Hpk. destruct (find_index_Some _ _ _ Hpk) as (c & Hc & Hp & _).
  destruct (Forall2_lookup_l _ _ _ _ _ Hty Hc) as (v & Hv & [(_ & k & -> & _)|(Ht & _)]); [eauto|].
  apply bool_decide_eq_true_1 in Hp. rewrite Ht in Hp; discriminate Hp.
Qed.

(** ** What a state of the table promises to statements *)

(** [R db kvs rs n]: the table has the entries [kvs], the log the records [rs],
    and there is room for [n] changes of a row; the statements run with snapshot
    [view db], and queries open the table. *)
Class TableState `{Unicode} `{MapOrder} (gid : Z) (name : string) (tbl : Table)
    (R : DB → list Node.Entry → list Rec → Z → Prop) (view : DB → Snapshot) : Prop := {
  ts_table db kvs rs n : R db kvs rs n → GetTable name (cat db) = Some tbl ∧ Indexes tbl = [] ∧ is_Some (PrimaryKeyIndex tbl);
  ts_weaken db kvs rs n k : R db kvs rs n → k ≤ n → R db kvs rs k;
  ts_read db db' kvs rs n : read_step db db' → R db kvs rs n → R db' kvs rs n ∧ view db' = view db;
  ts_snap db kvs rs n : R db kvs rs n → statement_snap gid db = (Ok (view db), db);
  ts_query db kvs rs n : R db kvs rs n → ∃ db', opened gid (TName tbl) db db' ∧ R db' kvs rs n ∧ view db' = view db ∧
    query_ready gid (view db) (mkContents (λ _, kvs) (λ _, [])) db' tbl;
  ts_insert tfuel db kvs rs n i vals key :
    R db kvs rs n → 0 < n → Forall2 typed (Columns tbl) vals → (32 ≤ tfuel)%nat →
    PrimaryKeyIndex tbl = Some i → vals !! i = Some (VInt key) →
    ∃ slot db' rs', execInsert gid tfuel name vals db = (Ok one_row, db') ∧ R db' (kv_insert key slot kvs) (rs ++ rs') (n - 1) ∧
      visible_rows (view db') tbl (kv_insert key slot kvs) = put_row key (stored <$> vals) (visible_rows (view db) tbl kvs);
  ts_delete fuel tfuel db kvs rs n w : let m := length (hits (view db) tbl w kvs) in
    R db kvs rs n → Z.of_nat m < n → (length kvs < fuel)%nat → (32 ≤ tfuel)%nat →
    ∃ kvs' db' rs', execDelete gid fuel tfuel name w db = (Ok (count_message m "deleted"), db') ∧
      R db' kvs' (rs ++ rs') (n - Z.of_nat m - 1) ∧ length kvs' = length kvs ∧
      visible_rows (view db') tbl kvs' = filter (λ p, where_holds p.2 tbl w = false) (visible_rows (view db) tbl kvs);
  ts_update fuel tfuel db kvs rs n w assignments plans : let m := length (hits (view db) tbl w kvs) in
    R db kvs rs n → Z.of_nat m < n → Forall (plan_ok tbl) plans → (length kvs < fuel)%nat → (32 ≤ tfuel)%nat →
    buildUpdatePlans tbl assignments = Ok plans →
    ∃ kvs' db' rs', execUpdate gid fuel tfuel name assignments w db = (Ok (count_message m "updated"), db') ∧
      R db' kvs' (rs ++ rs') (n - Z.of_nat m - 1) ∧ length kvs' = length kvs ∧
      visible_rows (view db') tbl kvs' =
        (λ p, if where_holds p.2 tbl w then (p.1, stored <$> assigned plans p.2) else p) <$> visible_rows (view db) tbl kvs
}.

(** Outside of transactions the table is open to begin with. *)
#[export] Instance auto_commit_state `{Unicode} `{MapOrder} gid name tbl fid :
  TableState gid name tbl (λ db kvs rs n, table_holds gid db name tbl fid kvs rs n) snap_now.
Proof.
  split.
  - intros db kvs rs n Ht. split; [|split]; [apply (dr_table _ _ _ _ _ _ _ _ (th_ready _ _ _ _ _ _ _ _ Ht))|
      apply (dr_no_index _ _ _ _ _ _ _ _ (th_ready _ _ _ _ _ _ _ _ Ht))|by eapply th_pk].
  - intros db kvs rs n k [[] Hn Hpk He Hx Hc] Hk. split; [|done..]. split; try done; lia.
  - intros db db' kvs rs n Hs [[T1 T2 T3 T4 T5 T6 (v & root & Hv & Ht) T8 T9 T10 T11] Hn Hpk He Hx Hc].
    pose proof (read_step_view db db' (HBuf fid) v Hs Hv) as Hv'. destruct Hs as (p & [Hf _] & ->).
    split; [|done]. split; [|done..]. split; try done; [by exists v, root|]. unfold file_room in *. cbn. by rewrite Hf.
  - intros db kvs rs n Ht. unfold statement_snap, get_state. unfold mbind, M_bind.
    by rewrite (dr_idle _ _ _ _ _ _ _ _ (th_ready _ _ _ _ _ _ _ _ Ht)).
  - intros db kvs rs n Ht. pose proof (table_holds_query _ _ _ _ _ _ _ _ (λ _, []) Ht) as Hq. exists db. by split_and!.
  - intros tfuel db kvs rs n i vals key Ht Hn Hty Htf Hpk Hkey.
    destruct (insert_holds gid tfuel db name tbl fid kvs rs n i vals key Ht Hn Hty Htf Hpk Hkey) as (slot & db' & rs' & E & Ht' & Hv & _). eauto 10.
  - intros fuel tfuel db kvs rs n w m Ht Hm Hfuel Htf.
    destruct (delete_holds gid fuel tfuel db name tbl fid kvs rs n w Ht Hm Hfuel Htf) as (db' & rs' & E & Ht' & Hv & _).
    eexists _, db', rs'. split; [exact E|]. split; [exact Ht'|]. split; [apply length_fmap|done].
  - intros fuel tfuel db kvs rs n w assignments plans m Ht Hm Hps Hfuel Htf Hb.
    destruct (update_holds gid fuel tfuel db name tbl fid kvs rs n w assignments plans Ht Hm Hps Hfuel Htf Hb) as (db' & rs' & E & Ht' & Hv & _).
    eexists _, db', rs'. split; [exact E|]. split; [exact Ht'|]. split; [apply length_fmap|done].
Qed.

(** ** Each statement *)

Section statements.
Context `{Unicode} `{Math} `{MapOrder} (growcap : nat → nat) (gid : Z) (fuel tfuel depth : nat).

(** The statements one after the other; an error does not stop them. *)
Fixpoint exec_statements (sts : list Statement) (db : DB) : list (res Result) * DB :=
  match sts with
  | [] => ([], db)
  | st :: sts =>
      let '(r, db) := exec_statement growcap gid fuel tfuel (S depth) st db in
      let '(rs, db) := exec_statements sts db in (r :: rs, db)
  end.

Lemma flatten_dml w db : flat_where w → flattenDMLSubqueries gid fuel tfuel (S depth) w db = (Ok w, db).
Proof.
  intros Hw. destruct w as [w|]; [|done]. unfold flattenDMLSubqueries, statement_snap, get_state.
  unfold mbind, M_bind. by apply flatten_flat.
Qed.

Context (Htf : (32 ≤ tfuel)%nat) (name : string) (tbl : Table).
Context (R : DB → list Node.Entry → list Rec → Z → Prop) (view : DB → Snapshot).
Context `{HR : !TableState gid name tbl R view}.

Lemma visible_selected w snap kvs : where_rows snap (mkContents (λ _, kvs) (λ _, [])) tbl w =
  (filter (selected tbl w) (visible_rows snap tbl kvs)).*2.
Proof.
  unfold where_rows. rewrite <-visible_rows_table. generalize (visible_rows snap tbl kvs). intros T.
  induction T as [|p T IH]; [done|]. cbn [fmap list_fmap List.filter]. rewrite filter_cons, selected_if.
  destruct (where_holds p.2 tbl w); [cbn [fmap list_fmap]; f_equal|]; exact IH.
Qed.

Lemma select_holds db kvs rs n B s : R db kvs rs n → (length kvs < B)%nat →
  supported name (SelectStatement s) → (select_fuel (Where s) B ≤ fuel)%nat →
  ∃ a db', execSelect gid fuel tfuel (S depth) s db = (a, db') ∧ R db' kvs rs n ∧ view db' = view db ∧
    table_step tbl (SelectStatement s) (visible_rows (view db) tbl kvs) a (visible_rows (view db) tbl kvs).
Proof using Htf HR.
  intros Ht Hk [(ref & Hf & Hn') (Hj & Hw & Hfw & Hfh)] Hfu. destruct (ts_table _ _ _ _ Ht) as (Htbl & Hidx & _).
  destruct (ts_query _ _ _ _ Ht) as (db1 & Hop & Ht1 & Ev1 & Hq).
  assert (GetTable (RName ref) (cat db) = Some tbl) as Hg by by rewrite Hn'.
  assert (GetTable (RName ref) (cat db1) = Some tbl) as Hg1 by by rewrite (od_cat _ _ _ _ Hop).
  destruct (select_ok gid tfuel (view db) (mkContents (λ _, kvs) (λ _, [])) db1 tbl s ref Htf Hq Hf Hj Hg1 Hw Hfw Hfh)
    as (l & N & [Hl Hl1] & Hb & HN).
  destruct (HN fuel depth) as (db2 & E & Hs).
  { etrans; [by apply Hb|]. cbn [ct_table]. etrans; [|exact Hfu]. unfold select_fuel. nia. }
  assert (execSelect gid fuel tfuel (S depth) s db1 = (select_spec s tbl l, db2)) as E1.
  { unfold execSelect. rewrite (M_bind_Ok _ _ _ _ _ (ts_snap _ _ _ _ Ht1)), Ev1. exact E. }
  assert (table_step tbl (SelectStatement s) (visible_rows (view db) tbl kvs) (select_spec s tbl l) (visible_rows (view db) tbl kvs)) as Hstep.
  { rewrite visible_selected in Hl, Hl1. apply tstep_select; [exact Hl|]. intros Hone. by apply Hl1. }
  destruct (execSelect_alike gid fuel tfuel _ db db1 Hop (S depth) s ref tbl Hf Hj Hw Hfw Hfh Hg eq_refl) as [Ea|(r & Ea & Ea1)].
  - destruct (ts_read db1 db2 kvs _ _ Hs Ht1) as (Ht2 & Ev2). exists (select_spec s tbl l), db2. rewrite Ea, E1, Ev2. by split_and!.
  - rewrite E1 in Ea1. injection Ea1 as <- _. exists (select_spec s tbl l), db. by split_and!.
Qed.

(** A statement takes the rows it finds to those the specification leaves, and
    needs at most one unit for itself and one for each slot. *)
Lemma statement_ok db kvs rs n B st :
  R db kvs rs n → (length kvs < B)%nat → Z.of_nat B < n → supported name st → fuel_ok fuel B st →
  ∃ a db' kvs' rs', exec_statement growcap gid fuel tfuel (S depth) st db = (a, db') ∧
    table_step tbl st (visible_rows (view db) tbl kvs) a (visible_rows (view db') tbl kvs') ∧
    R db' kvs' (rs ++ rs') (n - Z.of_nat B) ∧ (length kvs' ≤ S (length kvs))%nat.
Proof using Htf HR.
  intros Ht Hk Hn Hst Hfu. destruct (ts_table _ _ _ _ Ht) as (Htbl & Hidx & [i Hpk]).
  assert (∀ w, (length (hits (view db) tbl w kvs) ≤ length kvs)%nat) as Hhits by (intros w; apply length_omap).
  assert (R db kvs (rs ++ []) (n - Z.of_nat B)) as Hsame by (rewrite app_nil_r; eapply ts_weaken; [exact Ht|lia]).
  assert (∀ w, Z.of_nat (length (hits (view db) tbl w kvs)) < n) as Hroom by (intros w; specialize (Hhits w); lia).
  destruct st; try done; cbn [supported fuel_ok exec_statement] in *.
  - destruct Hst as [-> Hl].
    destruct (decide (length Values = length (Columns tbl))) as [Hlen|Hlen].
    2: { eexists _, db, kvs, []. split; [|split; [|split; [exact Hsame|lia]]].
         - unfold execInsert, get_state. unfold mbind at 1, M_bind at 1. rewrite Htbl. by rewrite decide_True.
         - apply tstep_insert_bad. intros HF%Forall2_length. congruence. }
    destruct (check_types_total (Columns tbl) Values Hl Hlen) as [Hty|(Hty & e & E)].
    + destruct (pk_value _ _ _ Hty Hpk) as (key & Hkey).
      destruct (ts_insert tfuel db kvs rs n i Values key Ht ltac:(lia) Hty Htf Hpk Hkey) as (slot & db' & rs' & E & Ht' & Hv).
      eexists _, db', _, rs'. split; [exact E|]. split; [rewrite Hv; by eapply tstep_insert|].
      split; [eapply ts_weaken; [exact Ht'|lia]|apply length_kv_insert].
    + eexists _, db, kvs, []. split; [|split; [|split; [exact Hsame|lia]]].
      * unfold execInsert, get_state. unfold mbind at 1, M_bind at 1. rewrite Htbl. rewrite decide_False by tauto.
        unfold lift, mbind, M_bind. by rewrite E.
      * by apply tstep_insert_bad.
  - destruct (select_holds db kvs rs n B s Ht Hk Hst Hfu) as (a & db' & E & Ht' & Ev & Hstep).
    exists a, db', kvs, []. rewrite Ev, app_nil_r. split; [exact E|]. split; [exact Hstep|]. split; [eapply ts_weaken; [exact Ht'|lia]|lia].
  - destruct Hst as [-> Hfw]. rewrite (M_bind_Ok _ _ _ _ _ (flatten_dml Where db Hfw)).
    destruct (ts_delete fuel tfuel db kvs rs n Where Ht (Hroom Where) ltac:(lia) Htf)
      as (kvs' & db' & rs' & E & Ht' & Hl & Hv).
    eexists _, db', _, rs'. split; [exact E|]. split; [|split; [eapply ts_weaken; [exact Ht'|pose proof (Hhits Where); lia]|lia]].
    rewrite Hv, length_hits.
    replace (filter (λ p, where_holds p.2 tbl Where = false) (visible_rows (view db) tbl kvs))
      with (filter (λ p, ¬ selected tbl Where p) (visible_rows (view db) tbl kvs)); [apply tstep_delete|].
    apply list_filter_iff. intros p. unfold selected. by rewrite not_true_iff_false.
  - destruct Hst as (-> & Hfw & Hl). rewrite (M_bind_Ok _ _ _ _ _ (flatten_dml Where db Hfw)).
    destruct (build_plans_total tbl Assignments []) as [(HF & plans & Eb)|(HF & e & Eb)].
    + destruct (build_plans_ok tbl Assignments [] plans Hl Eb) as (ps & -> & Hps & Hset). cbn [app] in *.
      destruct (ts_update fuel tfuel db kvs rs n Where Assignments ps Ht (Hroom Where) Hps ltac:(lia) Htf Eb)
        as (kvs' & db' & rs' & E & Ht' & Hlen & Hv).
      eexists _, db', _, rs'. split; [exact E|]. split; [|split; [eapply ts_weaken; [exact Ht'|pose proof (Hhits Where); lia]|lia]].
      rewrite Hv, length_hits.
      replace ((λ p : Z * row, if where_holds p.2 tbl Where then (p.1, stored <$> assigned ps p.2) else p) <$> visible_rows (view db) tbl kvs)
        with ((λ p, if decide (selected tbl Where p) then (p.1, stored <$> set_columns tbl Assignments p.2) else p) <$> visible_rows (view db) tbl kvs);
        [by apply tstep_update|].
      apply list_fmap_ext. intros _ p _. by rewrite selected_if, Hset.
    + eexists _, db, kvs, []. split; [|split; [by apply tstep_update_bad|split; [exact Hsame|lia]]].
      * unfold execUpdate, get_state. unfold mbind at 1, M_bind at 1. rewrite Htbl. unfold lift, mbind, M_bind, buildUpdatePlans. by rewrite Eb.
Qed.

(** Their sequences. *)
Lemma statements_ok sts B db kvs rs n : R db kvs rs n →
  (length kvs + length sts ≤ B)%nat → Z.of_nat (length sts * B) < n →
  Forall (supported name) sts → Forall (fuel_ok fuel B) sts →
  ∃ answers db' kvs' rs', exec_statements sts db = (answers, db') ∧
    table_run tbl sts (visible_rows (view db) tbl kvs) answers (visible_rows (view db') tbl kvs') ∧
    R db' kvs' (rs ++ rs') (n - Z.of_nat (length sts * B)) ∧ (length kvs' ≤ length kvs + length sts)%nat.
Proof using Htf HR.
  intros Ht Hk Hn Hs Hf. revert db kvs rs n Ht Hk Hn. induction sts as [|st sts IH]; intros.
  - exists [], db, kvs, []. rewrite app_nil_r. split; [done|]. split; [constructor|]. split; [eapply ts_weaken; [exact Ht|lia]|cbn; lia].
  - apply Forall_cons in Hs as [Hst Hs], Hf as [Hfst Hf]. cbn [length] in *.
    destruct (statement_ok db kvs rs n B st Ht ltac:(lia) ltac:(nia) Hst Hfst) as (a & db1 & kvs1 & rs1 & E & Hstep & Ht1 & Hlen).
    destruct (IH Hs Hf db1 kvs1 (rs ++ rs1) (n - Z.of_nat B) Ht1) as (answers & db2 & kvs2 & rs2 & Er & Hrun & Ht2 & Hlen2); [lia|lia|].
    exists (a :: answers), db2, kvs2, (rs1 ++ rs2). split; [|split; [|split; [|lia]]].
    + cbn [exec_statements]. by rewrite E, Er.
    + by econstructor.
    + rewrite app_assoc. eapply ts_weaken; [exact Ht2|lia].
Qed.
End statements.

(** Any sequence of supported statements, erroneous ones included, is a run of
    the specification on the rows that the table shows.  [B] bounds the slots the
    table ever has, [n] the identifiers and pages the statements may use up. *)
Theorem statements_refine `{Unicode} `{Math} `{MapOrder} growcap gid fuel tfuel depth db name tbl fid kvs rs n B sts :
  table_holds gid db name tbl fid kvs rs n → (32 ≤ tfuel)%nat →
  (length kvs + length sts ≤ B)%nat → Z.of_nat (length sts * B) < n →
  Forall (supported name) sts → Forall (fuel_ok fuel B) sts →
  ∃ answers db' kvs' rs', exec_statements growcap gid fuel tfuel depth sts db = (answers, db') ∧
    table_run tbl sts (visible_rows (snap_now db) tbl kvs) answers (visible_rows (snap_now db') tbl kvs') ∧
    table_holds gid db' name tbl fid kvs' (rs ++ rs') (n - Z.of_nat (length sts * B)).
Proof.
  intros Ht Htf Hk Hn Hs Hf.
  destruct (statements_ok growcap gid fuel tfuel depth Htf name tbl _ snap_now sts B db kvs rs n Ht Hk Hn Hs Hf) as (answers & db' & kvs' & rs' & E & Hrun & Ht' & _). by exists answers, db', kvs', rs'.
Qed.

(** ** A concrete run *)

#[local] Existing Instance no_tables.
#[local] Existing Instance some_math.
#[local] Program Instance script_order : MapOrder := {| map_order _ _ l := l |}.
Next Obligation. done. Qed.

(** Insert Bob, an INSERT that misses a column, a birthday, and a deletion. *)
Definition ada_script : list Statement :=
  [InsertStmt "people" bob; InsertStmt "people" [VInt 9];
   UpdateStmt "people" [mkAssign "age" (VInt 37)] (Some (mkWhere [[cond_val "age" OpLt (VInt 40)]]));
   DeleteStmt "people" (Some (mkWhere [[cond_val "name" OpEq (VText "Bob")]]))].

Lemma ada_script_ok : Forall (supported "people") ada_script ∧ Forall (fuel_ok 10 5) ada_script.
Proof.
  assert (∀ k, 0 ≤ k < 100 → literal (VInt k)) as Hi by (intros k Hk; left; exists k; split; [done|lia]).
  assert (literal (VText "Bob")) as Ht by (right; by exists "Bob"%string).
  assert (∀ c, flat_where (Some (mkWhere [[cond_val c.1.1 c.1.2 c.2]]))) as Hw by (intros c w [= <-]; repeat constructor).
  split; [|repeat constructor; cbn; lia].
  constructor; [|constructor; [|constructor; [|constructor; [|constructor]]]]; split_and!; try done.
  - constructor; [|constructor; [|constructor; [|constructor]]]; [apply Hi; lia|exact Ht|apply Hi; lia].
  - constructor; [|constructor]. apply Hi. lia.
  - exact (Hw ("age", OpLt, VInt 40)%string).
  - constructor; [|constructor]. apply Hi. cbn. lia.
  - exact (Hw ("name", OpEq, VText "Bob")%string).
Qed.

(** What the specification allows for it. *)
Section answers.
Context (tbl : Table).

Lemma insert_step_inv name vals i key T a T' : Forall2 typed (Columns tbl) vals → PrimaryKeyIndex tbl = Some i → vals !! i = Some (VInt key) →
  table_step tbl (InsertStmt name vals) T a T' → a = Ok one_row ∧ T' = put_row key (stored <$> vals) T.
Proof. intros Ht Hp Hk Hs. inversion Hs; subst; [|done]. split; [done|]. by simplify_eq. Qed.

Lemma update_step_inv name assignments w T a T' : Forall (assignable tbl) assignments →
  table_step tbl (UpdateStmt name assignments w) T a T' →
  T' = (λ p, if decide (selected tbl w p) then (p.1, stored <$> set_columns tbl assignments p.2) else p) <$> T.
Proof. intros Ha Hs. by inversion Hs. Qed.

Lemma delete_step_inv name w T a T' : table_step tbl (DeleteStmt name w) T a T' →
  a = Ok (count_message (length (filter (selected tbl w) T)) "deleted") ∧ T' = filter (λ p, ¬ selected tbl w p) T.
Proof. intros Hs. by inversion Hs. Qed.
End answers.

Lemma ada_script_answers answers T : table_run people ada_script [(7, ada)] answers T →
  answers !! 0%nat = Some (Ok one_row) ∧ answers !! 3%nat = Some (Ok (count_message 1 "deleted")) ∧ T = [(7, [VInt 7; VText "Ada"; VInt 37])].
Proof.
  intros Hr. inversion Hr as [|? ? ? a1 T1 l1 ? H1 R1]; subst. apply (insert_step_inv _ _ _ 0%nat 8) in H1 as [-> ->];
    [|exact bob_typed|reflexivity|reflexivity].
  inversion R1 as [|? ? ? a2 T2 l2 ? H2 R2]; subst. inversion H2 as [? ? ? ? ? Hty| | | | |]; subst; [by apply Forall2_length in Hty|].
  inversion R2 as [|? ? ? a3 T3 l3 ? H3 R3]; subst. apply update_step_inv in H3 as ->.
  2: { constructor; [|constructor]. exists 2%nat, (mkCol "age" TypeInt). split_and!; (reflexivity || done). }
  inversion R3 as [|? ? ? a4 T4 l4 ? H4 R4]; subst. apply delete_step_inv in H4 as [-> ->].
  inversion R4; subst. split; [reflexivity|]. split; reflexivity.
Qed.

Lemma statements_refine_witness : ∃ db answers db' kvs',
  exec_statements id 1 10 32 0 ada_script db = (answers, db') ∧ answers !! 0%nat = Some (Ok one_row) ∧
  answers !! 3%nat = Some (Ok (count_message 1 "deleted")) ∧ visible_rows (snap_now db') people kvs' = [(7, [VInt 7; VText "Ada"; VInt 37])].
Proof.
  destruct ada_tree_room as (bt & h & Hh & Ht & Hroom). exists (ada_log_db bt). destruct ada_script_ok as [Hs Hf].
  destruct (statements_refine id 1 10 32 0 (ada_log_db bt) "people" people (bp_fid (pg bt)) [ada_entry] ada_log 100 5 ada_script)
    as (answers & db' & kvs' & rs' & E & Hrun & _).
  - exact (ada_table_holds bt h Hh Ht Hroom).
  - lia.
  - cbn. lia.
  - cbn. lia.
  - exact Hs.
  - exact Hf.
  - exists answers, db', kvs'. rewrite ada_visible_rows in Hrun. split; [exact E|]. exact (ada_script_answers _ _ Hrun).
Defined.
