(* ===== verification/Txns.v ===== *)
(** * Txns: the statements of a transaction, from BEGIN to its end

    A goroutine opens a transaction, changes a table without secondary indexes
    with INSERT, DELETE and UPDATE, queries it, and commits or rolls back.  Until
    then the changed pages are in the transaction's [TxPager] and the file's
    tree is what it was. *)
From S2P Require Import Prelude Disk Storage Store Pager Mvcc TxPager BufferPool Node BTree Cursor Transaction.
From S2P Require Import Wal GoLib Catalog Rows Ast Eval Agg Stats Planner Db Frame Sample Operators Plans Volcano Queries.
From S2P Require Import Select Opening Dml Exec Durability Writes Tables Inserts Changes Statements.
From stdpp Require Import options.
Local Open Scope Z_scope.

(** ** The snapshot of a transaction *)

Section snapshots.
Context `{Unicode} (tbl : Table).

Lemma visible_row_ext snap snap' val :
  IsVisible snap (row_xmin val) (row_xmax val) = IsVisible snap' (row_xmin val) (row_xmax val) →
  visible_row snap tbl val = visible_row snap' tbl val.
Proof. unfold visible_row. by intros ->. Qed.

Lemma entry_ok_ext snap snap' e : visible_row snap tbl (Node.Value e) = visible_row snap' tbl (Node.Value e) →
  entry_ok snap tbl e → entry_ok snap' tbl e.
Proof.
  intros E [Hs Ht Hp]. assert (seen_row snap tbl (Node.Value e) = seen_row snap' tbl (Node.Value e)) as E' by (unfold seen_row; by rewrite E).
  split; [unfold slot_ok in *; by rewrite <-E|intros r; rewrite <-E'; apply Ht|intros r i; rewrite <-E'; apply Hp].
Qed.

Lemma visible_rows_ext snap snap' kvs :
  Forall (λ e, visible_row snap tbl (Node.Value e) = visible_row snap' tbl (Node.Value e)) kvs →
  visible_rows snap tbl kvs = visible_rows snap' tbl kvs.
Proof.
  unfold visible_rows. induction 1 as [|e kvs He _ IH]; [done|]. cbn [omap list_omap].
  assert (seen_row snap tbl (Node.Value e) = seen_row snap' tbl (Node.Value e)) as -> by (unfold seen_row; by rewrite He).
  by rewrite IH.
Qed.

(** What a new transaction sees is what is committed, *)
Lemma snapshot_begin xid m val : row_xmin val ≠ XIDNone → row_xmin val ≠ xid → row_xmax val ≠ xid →
  visible_row (TakeSnapshot xid m) tbl val = visible_row (TakeSnapshot XIDNone m) tbl val.
Proof.
  intros H1 H2 H3. apply visible_row_ext. apply eq_true_iff_eq. rewrite !IsVisible_iff, !TakeSnapshot_committed. cbn.
  destruct (decide (row_xmax val = XIDNone)); tauto.
Qed.

(** and what it sees at its end is what is committed then. *)
Lemma snapshot_commit xid m val : row_xmin val ≠ XIDNone → 
  visible_row (TakeSnapshot XIDNone (MarkCommitted xid m)) tbl val = visible_row (TakeSnapshot xid m) tbl val.
Proof.
  intros H1. apply visible_row_ext. apply eq_true_iff_eq. rewrite !IsVisible_iff, !TakeSnapshot_committed. unfold MarkCommitted. cbn.
  rewrite !not_elem_of_union, !elem_of_union, !not_elem_of_singleton, !elem_of_singleton. destruct (decide (row_xmax val = XIDNone)); tauto.
Qed.
End snapshots.

(** ** A table inside a transaction *)

Section transaction.
Context `{Unicode} `{MapOrder} (gid : Z) (name : string) (tbl : Table) (fid xid : Z) (v0 : pmap) (kvs0 : list Node.Entry) (db0 : DB).

(** The snapshot was taken at BEGIN; commits of this goroutine are its last act. *)
Definition tx_snap_now (db : DB) : Snapshot := TakeSnapshot xid (txMgr db).

(** The transaction of the goroutine, with and without a [TxPager] on the table. *)
Definition tx_fresh (db : DB) : Prop := goroutineTx gid db = Some (mkActiveTx xid (tx_snap_now db) ∅).
Definition tx_begun (db : DB) (ptr : nat) : Prop := goroutineTx gid db = Some (mkActiveTx xid (tx_snap_now db) {[ToLower name := ptr]}).

Definition tx_pages (db : DB) (kvs : list Node.Entry) (n : Z) : Prop :=
  (tx_fresh db ∧ kvs = kvs0 ∧ handle_view db (HBuf fid) v0 ∧ 33 * n ≤ file_room db fid) ∨
  (∃ ptr root, tx_begun db ptr ∧ tx_tree db ptr fid v0 root kvs (33 * n)).

(** What calls leave that only change pages of the table's file, ... *)
Record same_rest (db db' : DB) : Prop := {
  sr_cat : cat db' = cat db;
  sr_openTbls : openTbls db' = openTbls db;
  sr_openIdxs : openIdxs db' = openIdxs db;
  sr_dir : dir db' = dir db;
  sr_stats : stats_file db' = stats_file db;
  sr_others : others fid (pool db) (pool db')
}.

#[local] Instance same_rest_preorder : PreOrder same_rest.
Proof. split; [by intros db|]. intros db1 db2 db3 [] []. split; [congruence..|by etrans]. Qed.

(** ... and what they leave before the end of the transaction. *)
Record same_base (db db' : DB) : Prop := {
  sb_rest : same_rest db db';
  sb_wal : wal db' = wal db;
  sb_txMgr : txMgr db' = txMgr db
}.

#[local] Instance same_base_preorder : PreOrder same_base.
Proof. split; [by intros db|]. intros db1 db2 db3 [] []. split; [by etrans|congruence..]. Qed.

(** What does not depend on the pages; [db0] is the database after BEGIN. *)
Record tx_state (db : DB) (rs : list Rec) (n : Z) : Prop := {
  xs_table : GetTable name (cat db) = Some tbl;
  xs_name : ToLower (TName tbl) = ToLower name;
  xs_no_index : Indexes tbl = [];
  xs_valid : validateSchema tbl = Ok tt;
  xs_names : NoDup ((λ c, ToLower (CName c)) <$> Columns tbl);
  xs_pk : is_Some (PrimaryKeyIndex tbl);
  xs_open : openTbls db !! ToLower name = Some fid;
  xs_log : log_holds (wal db) rs ∧ file_ok (f (wal db));
  xs_lsn : 0 ≤ nextLSN (wal db) ∧ nextLSN (wal db) + n * 2 ^ 33 < 2 ^ 64;
  xs_xid : 0 < xid < nextXID (wal db) ∧ nextXID (wal db) + n < 2 ^ 32;
  xs_committed x : x ∈ committed (txMgr db) → x < nextXID (wal db) ∧ x ≠ xid;
  xs_base : ∃ root, holds_tree v0 1 root kvs0;
  xs_before : Forall (λ e, entry_ok (snap_now db) tbl e ∧ stamped (nextXID (wal db)) e) kvs0;
  xs_since : same_base db0 db
}.

(** The goroutine's table: its entries as the transaction sees them, and room
    for [n] more changes of a row. *)
Record tx_holds (db : DB) (kvs : list Node.Entry) (rs : list Rec) (n : Z) : Prop := {
  xh_state : tx_state db rs n;
  xh_pages : tx_pages db kvs n;
  xh_entries : Forall (λ e, entry_ok (tx_snap_now db) tbl e ∧ stamped (nextXID (wal db)) e) kvs
}.

Lemma tx_step_same ptr db db' : Writes.tx_step ptr fid db db' → same_base db db' ∧ txns db' = txns db.
Proof. by intros (b & p & _ & Ho & ->). Qed.

Lemma tx_step_begun ptr ptr' db db' : Writes.tx_step ptr fid db db' → tx_begun db ptr' → tx_begun db' ptr'.
Proof. by intros (b & p & _ & _ & ->). Qed.

Lemma read_step_same db db' : read_step db db' → same_base db db' ∧ txns db' = txns db.
Proof. intros (p & Hp & ->). apply (same_others fid) in Hp. split; [|done]. by split; [split|..]. Qed.

Lemma tx_state_next db db' rs n k : same_base db db' → k ≤ n → tx_state db rs n → tx_state db' rs k.
Proof.
  intros Hb Hk []. pose proof Hb as [[E1 E4 _ _ _ _] E2 E3].
  split; unfold snap_now in *; rewrite ?E1, ?E2, ?E3, ?E4; try done; [lia|lia|by etrans].
Qed.

(** The next state of the transaction: old slots are kept, new ones are in
    order. *)
Lemma tx_holds_next db db' ptr root kvs kvs' rs n k :
  tx_holds db kvs rs n → same_base db db' → tx_begun db' ptr → tx_tree db' ptr fid v0 root kvs' (33 * k) → k ≤ n →
  Forall (λ e, e ∈ kvs ∨ (entry_ok (tx_snap_now db) tbl e ∧ stamped (nextXID (wal db)) e)) kvs' →
  tx_holds db' kvs' rs k.
Proof.
  intros [Hs Hp He] Hb Hbeg Ht Hk Hkvs. split; [by eapply tx_state_next|right; eauto|].
  destruct Hb as [_ Ew Em]. unfold tx_snap_now in *. rewrite Ew, Em. rewrite Forall_forall in He.
  eapply Forall_impl; [exact Hkvs|]. intros e [Hin|?]; [by apply He|done].
Qed.

(** The first use of the table opens its [TxPager]. *)
Lemma open_pager_as nm db kvs rs n : ToLower nm = ToLower name → tx_holds db kvs rs n → ∃ ptr root db',
  txPagerForTable gid nm db = (Ok ptr, db') ∧ same_base db db' ∧ statsDB db' = statsDB db ∧ tx_begun db' ptr ∧
    tx_tree db' ptr fid v0 root kvs (33 * n).
Proof.
  intros Hnm [Hs Hp _]. unfold txPagerForTable, txPagerFor, get_state. unfold mbind at 1, M_bind at 1.
  destruct Hp as [(Hf & -> & Hv & Hroom)|(ptr & root & Hb & Ht)].
  - unfold tx_fresh in Hf. rewrite Hf. cbn [tx_pagers tx_key]. rewrite lookup_empty. destruct (xs_base _ _ _ Hs) as [root Hroot].
    assert (getOrOpen OpenTbls nm db = (Ok fid, db)) as Eo.
    { unfold getOrOpen. M_run. rewrite Hnm. by rewrite (xs_open _ _ _ Hs : registry OpenTbls db !! ToLower name = Some fid). }
    rewrite (M_bind_Ok _ _ _ _ _ Eo).
    assert (newTxPager fid db = (Ok (length (txheap db)), set_txheap (txheap db ++ [mkTxBuf fid ∅ []]) db)) as En by reflexivity.
    rewrite (M_bind_Ok _ _ _ _ _ En).
    eexists _, root, _. split; [reflexivity|]. split; [done|]. split; [done|]. split.
    + unfold tx_begun, goroutineTx, setGoroutineTx, modify. cbn. rewrite Hnm, lookup_insert_eq. by rewrite insert_empty.
    + pose proof (tx_tree_new db fid v0 root kvs0 (33 * n) Hv Hroot Hroom) as Hx. exact Hx.
  - unfold tx_begun in Hb. rewrite Hb. cbn [tx_pagers tx_key]. exists ptr, root, db.
    split; [by rewrite Hnm, lookup_singleton_eq|]. split; [by split|]. by split_and!.
Qed.

Lemma open_pager db kvs rs n : tx_holds db kvs rs n → ∃ ptr root db',
  txPagerForTable gid name db = (Ok ptr, db') ∧ same_base db db' ∧ tx_begun db' ptr ∧ tx_tree db' ptr fid v0 root kvs (33 * n).
Proof.
  intros Hh. destruct (open_pager_as name db kvs rs n eq_refl Hh) as (ptr & root & db' & ? & ? & _ & ? & ?). by exists ptr, root, db'.
Qed.

Lemma tx_active db kvs rs n : tx_holds db kvs rs n → ∃ pagers, goroutineTx gid db = Some (mkActiveTx xid (tx_snap_now db) pagers).
Proof. intros [_ [(Hf & _)|(ptr & root & Hb & _)] _]; eauto. Qed.

Lemma same_base_snap db db' : same_base db db' → tx_snap_now db' = tx_snap_now db.
Proof. intros [_ _ E]. unfold tx_snap_now. by rewrite E. Qed.

Lemma tx_xid_u32 db rs n : 0 ≤ n → tx_state db rs n → is_u32 xid.
Proof. intros Hn []. lia. Qed.

(** ** INSERT *)

Lemma tx_insert tfuel db kvs rs n i vals key :
  tx_holds db kvs rs n → 0 < n → Forall2 typed (Columns tbl) vals → (32 ≤ tfuel)%nat →
  PrimaryKeyIndex tbl = Some i → vals !! i = Some (VInt key) →
  ∃ slot ptr db', execInsert gid tfuel name vals db = (Ok one_row, db') ∧ same_base db db' ∧ tx_begun db' ptr ∧
    tx_holds db' (kv_insert key slot kvs) rs (n - 1) ∧
    visible_rows (tx_snap_now db') tbl (kv_insert key slot kvs) = put_row key (stored <$> vals) (visible_rows (tx_snap_now db) tbl kvs).
Proof.
  intros Hh Hn Hty Htf Hpk Hkey. pose proof (xh_state _ _ _ _ Hh) as Hs. pose proof (tx_xid_u32 _ _ n ltac:(lia) Hs) as Hx.
  pose proof (literal_key tbl vals i key Hty Hkey) as Hu. pose proof (xs_valid _ _ _ Hs) as Hvalid.
  destruct (tx_active _ _ _ _ Hh) as (pagers & Etx).
  destruct (open_pager db kvs rs n Hh) as (ptr & root & db1 & Ep & Hb1 & Hbeg1 & Ht1).
  destruct (tx_tree_open _ _ _ _ _ _ _ Ht1) as (db2 & Eo & Hrs2). pose proof (tx_tree_read _ _ _ _ _ _ _ _ Hrs2 Ht1) as Ht2.
  destruct (encodeRow_ok tbl vals xid Hvalid Hty Hx) as (slot & Es & Hlen & Hmin & Hmax & _).
  destruct (tx_tree_Insert db2 ptr fid v0 root kvs _ key slot tfuel Ht2 ltac:(by split) ltac:(lia) Htf) as (root' & db3 & Ei & Hst3 & Ht3).
  replace (33 * n - 33) with (33 * (n - 1)) in Ht3 by lia.
  destruct (read_step_same _ _ Hrs2) as [Hb2 Etx2]. destruct (tx_step_same _ _ _ Hst3) as [Hb3 Etx3].
  assert (same_base db db3) as Hb by (do 2 (etrans; [eassumption|]); done).
  assert (tx_begun db3 ptr) as Hbeg by (eapply tx_step_begun; [exact Hst3|]; destruct Hrs2 as (p & _ & ->); exact Hbeg1).
  destruct (entry_ok_slot (tx_snap_now db) xid tbl key vals slot i (own_visible (tx_snap_now db)) Hvalid Hty Hx Es Hpk Hkey) as [Hok Hseen].
  exists slot, ptr, db3. split; [|split; [exact Hb|split; [exact Hbeg|split]]].
  - unfold execInsert, get_state. unfold mbind at 1, M_bind at 1.
    rewrite (xs_table _ _ _ Hs). rewrite decide_False by (rewrite <-(Forall2_length _ _ _ Hty); tauto).
    rewrite (M_bind_Ok _ _ db tt db) by (unfold lift; by rewrite check_types_ok). rewrite Hpk.
    rewrite (M_bind_Ok _ _ db (VInt key) db) by (unfold lift, go_index; by rewrite Hkey). cbn [IntVal VInt].
    rewrite Etx. cbn [tx_xid]. rewrite (M_bind_Ok _ _ db slot db) by (unfold lift; by rewrite Es).
    rewrite (M_bind_Ok _ _ _ _ _ Ep). rewrite (M_bind_Ok _ _ _ _ _ (wrap_Ok _ _ _ _ _ _ Eo)).
    rewrite (M_bind_Ok _ _ _ _ _ (wrap_Ok _ _ _ _ _ _ Ei)). rewrite (xs_no_index _ _ _ Hs). reflexivity.
  - eapply tx_holds_next; [exact Hh|exact Hb|exact Hbeg|exact Ht3|lia|]. apply Forall_forall.
    intros e [->|?]%elem_of_kv_insert; [right|by left]. split; [exact Hok|]. unfold stamped. cbn [Node.Value]. rewrite Hmin, Hmax.
    pose proof (xs_xid _ _ _ Hs). unfold XIDNone. lia.
  - rewrite (same_base_snap _ _ Hb). apply visible_rows_insert; [|done|done].
    destruct (tx_tree_sorted ptr fid v0 _ _ _ _ Ht1) as [? _]. done.
Qed.

(** ** DELETE and UPDATE *)

Section change.
Context (fuel tfuel : nat) (db : DB) (kvs : list Node.Entry) (rs : list Rec) (n : Z) (w : option WhereClause) (pagers : gmap string nat).
Context (apply_ : Tree → list scannedRow → M (DB * Provider) nat) (g : Node.Entry → row → list byte).
Hypothesis Hh : tx_holds db kvs rs n.
Let snap := tx_snap_now db.
Let m := length (hits snap tbl w kvs).
Let kvs' := changed snap tbl w g <$> kvs.
Hypothesis Hm : Z.of_nat m ≤ n.
Hypothesis Hfuel : (length kvs < fuel)%nat.
Hypothesis Htf : (32 ≤ tfuel)%nat.
Hypothesis Happly : ∀ ptr root db1 p, tx_tree db1 ptr fid v0 root kvs (33 * n) →
  ∃ root' db2, apply_ (mkTree (HTx ptr) (1, root)) (hits snap tbl w kvs) (db1, p) = (Ok m, (db2, p)) ∧
    Writes.tx_step ptr fid db1 db2 ∧ tx_tree db2 ptr fid v0 root' kvs' (33 * n - 33 * Z.of_nat m).

Lemma change_tx_ok : ∃ ptr root' db', change_tx gid fuel tfuel name tbl w (mkActiveTx xid snap pagers) apply_ db = (Ok m, db') ∧
  same_base db db' ∧ tx_begun db' ptr ∧ tx_tree db' ptr fid v0 root' kvs' (33 * (n - Z.of_nat m)).
Proof using Hh Hfuel Htf Happly.
  destruct (open_pager db kvs rs n Hh) as (ptr & root & db1 & Ep & Hb1 & Hbeg1 & Ht1).
  destruct (tx_tree_open _ _ _ _ _ _ _ Ht1) as (db2 & Eo & Hrs2). pose proof (tx_tree_read _ _ _ _ _ _ _ _ Hrs2 Ht1) as Ht2.
  destruct (scanVisible_ok snap tbl w fuel tfuel db2 ptr fid v0 root kvs _ Ht2) as (db3 & Es & Hrs3); [|done|done|].
  { eapply Forall_impl; [exact (xh_entries _ _ _ _ Hh)|]. by intros e []. }
  destruct (Happly ptr root db3 (mkProvider ∅ ∅) (tx_tree_read _ _ _ _ _ _ _ _ Hrs3 Ht2)) as (root4 & db4 & E4 & Hst4 & Ht4).
  destruct (read_step_same _ _ Hrs2) as [Hb2 _], (read_step_same _ _ Hrs3) as [Hb3 _], (tx_step_same _ _ _ Hst4) as [Hb4 _].
  exists ptr, root4, db4. split; [|split; [|split]].
  - unfold change_tx. rewrite (M_bind_Ok _ _ _ _ _ Ep). rewrite (M_bind_Ok _ _ _ _ _ (wrap_Ok _ _ _ _ _ _ Eo)).
    cbn [tx_snap]. rewrite (M_bind_Ok _ _ _ _ _ Es).
    rewrite (M_bind_Ok _ _ db3 (Ok m, mkProvider ∅ ∅) db4) by (unfold with_prov; by rewrite E4). reflexivity.
  - do 3 (etrans; [eassumption|]). done.
  - eapply tx_step_begun; [exact Hst4|]. destruct Hrs3 as (p3 & _ & ->), Hrs2 as (p2 & _ & ->). exact Hbeg1.
  - by replace (33 * (n - Z.of_nat m)) with (33 * n - 33 * Z.of_nat m) by lia.
Qed.
End change.

(** The slots a DELETE leaves. *)
Lemma own_dead snap (e : Node.Entry) r : is_u32 xid → 0 < xid → ownXID snap = xid → length (Node.Value e) = ValueSize →
  visible_row snap tbl (dead xid e r) = Ok None.
Proof.
  intros Hx Hx0 Hown Hl. destruct (put_xmax_ok tbl (Node.Value e) xid Hl Hx) as (_ & _ & Hmax & _).
  unfold visible_row, dead. rewrite Hmax. destruct (IsVisible _ _ _) eqn:E; [|done]. exfalso.
  apply IsVisible_iff in E as [_ [E|[E _]]]; [unfold XIDNone in E; lia|congruence].
Qed.

Lemma tx_lengths db kvs rs n : tx_holds db kvs rs n → Forall (λ e, length (Node.Value e) = ValueSize) kvs.
Proof.
  intros Hh. destruct (open_pager db kvs rs n Hh) as (ptr & root & db1 & _ & _ & _ & Ht). destruct (tx_tree_sorted _ _ _ _ _ _ _ Ht) as [_ Hwf].
  eapply Forall_impl; [exact Hwf|]. by intros e [].
Qed.

Lemma tx_delete fuel tfuel db kvs rs n w : let m := length (hits (tx_snap_now db) tbl w kvs) in
  tx_holds db kvs rs n → 0 ≤ n → Z.of_nat m ≤ n → (length kvs < fuel)%nat → (32 ≤ tfuel)%nat →
  ∃ kvs' ptr db', execDelete gid fuel tfuel name w db = (Ok (count_message m "deleted"), db') ∧ same_base db db' ∧ tx_begun db' ptr ∧
    tx_holds db' kvs' rs (n - Z.of_nat m) ∧ length kvs' = length kvs ∧
    visible_rows (tx_snap_now db') tbl kvs' = filter (λ p, where_holds p.2 tbl w = false) (visible_rows (tx_snap_now db) tbl kvs).
Proof.
  intros m Hh Hn0 Hm Hfuel Htf. pose proof (xh_state _ _ _ _ Hh) as Hs. pose proof (tx_xid_u32 _ _ _ Hn0 Hs) as Hx.
  pose proof (xs_xid _ _ _ Hs) as Hxid. destruct (tx_active _ _ _ _ Hh) as (pagers & Etx). pose proof (tx_lengths _ _ _ _ Hh) as Hl. rewrite Forall_forall in Hl.
  destruct (change_tx_ok fuel tfuel db kvs rs n w pagers (λ bt rows, applyDelete gid tfuel false bt tbl xid rows) (dead xid) Hh Hfuel Htf)
    as (ptr & root' & db' & E & Hb & Hbeg & Ht').
  { intros ptr root db1 p Htree. destruct (delete_rows_ok gid tfuel false (tx_snap_now db) tbl w xid ptr fid v0 (xs_no_index _ _ _ Hs) Htf Hx
      kvs [] root db1 p _ Htree) as (root' & db2 & E & Hst & Ht2); [unfold m in Hm; lia|].
    exists root', db2. split; [|split; [exact Hst|exact Ht2]]. unfold applyDelete. rewrite (M_bind_Ok _ _ _ _ _ E). reflexivity. }
  assert (∀ e r, e ∈ kvs → visible_row (tx_snap_now db) tbl (dead xid e r) = Ok None) as Hdead by (intros; apply own_dead; [done|lia|done|by apply Hl]).
  exists (changed (tx_snap_now db) tbl w (dead xid) <$> kvs), ptr, db'. split; [|split; [exact Hb|split; [exact Hbeg|split; [|split]]]].
  - unfold execDelete, get_state. unfold mbind at 1, M_bind at 1. rewrite (xs_table _ _ _ Hs), Etx.
    unfold deleteTx. cbn [tx_xid]. by rewrite (M_bind_Ok _ _ _ _ _ E).
  - eapply tx_holds_next; [exact Hh|exact Hb|exact Hbeg|exact Ht'|lia|]. apply Forall_forall.
    intros e' [?|(e & r & He & _ & ->)]%elem_of_changed; [by left|right]. pose proof (Hdead e r He) as Hd.
    destruct (put_xmax_ok tbl (Node.Value e) xid (Hl e He) Hx) as (_ & Hmin & Hmax & _).
    pose proof (proj1 (Forall_forall _ _) (xh_entries _ _ _ _ Hh) e He) as [_ (H1 & H2 & _)].
    split; [|unfold stamped, dead; cbn [Node.Value]; rewrite Hmin, Hmax; lia].
    split; unfold slot_ok, seen_row; cbn [Node.Value]; by rewrite Hd.
  - apply length_fmap.
  - rewrite (same_base_snap _ _ Hb). apply changed_removed; [done|]. intros e r He _. unfold seen_row. by rewrite Hdead.
Qed.

Lemma tx_update fuel tfuel db kvs rs n w assignments plans : let m := length (hits (tx_snap_now db) tbl w kvs) in
  tx_holds db kvs rs n → 0 ≤ n → Z.of_nat m ≤ n → Forall (plan_ok tbl) plans → (length kvs < fuel)%nat → (32 ≤ tfuel)%nat →
  buildUpdatePlans tbl assignments = Ok plans →
  ∃ kvs' ptr db', execUpdate gid fuel tfuel name assignments w db = (Ok (count_message m "updated"), db') ∧ same_base db db' ∧ tx_begun db' ptr ∧
    tx_holds db' kvs' rs (n - Z.of_nat m) ∧ length kvs' = length kvs ∧
    visible_rows (tx_snap_now db') tbl kvs' =
      (λ p, if where_holds p.2 tbl w then (p.1, stored <$> assigned plans p.2) else p) <$> visible_rows (tx_snap_now db) tbl kvs.
Proof.
  intros m Hh Hn0 Hm Hplans Hfuel Htf Hbuild. pose proof (xh_state _ _ _ _ Hh) as Hs. pose proof (tx_xid_u32 _ _ _ Hn0 Hs) as Hx.
  pose proof (xs_xid _ _ _ Hs) as Hxid. destruct (tx_active _ _ _ _ Hh) as (pagers & Etx). pose proof (xs_valid _ _ _ Hs) as Hvalid.
  pose proof (xh_entries _ _ _ _ Hh) as Hok. destruct (xs_pk _ _ _ Hs) as [i Hi].
  destruct (change_tx_ok fuel tfuel db kvs rs n w pagers (λ bt rows, applyUpdate gid tfuel false bt tbl xid rows plans) (fresh_slot tbl xid plans) Hh Hfuel Htf)
    as (ptr & root' & db' & E & Hb & Hbeg & Ht').
  { intros ptr root db1 p Htree. destruct (update_rows_ok gid tfuel false (tx_snap_now db) tbl w xid ptr fid v0 (xs_no_index _ _ _ Hs) Htf Hx plans Hplans
      Hvalid kvs [] root db1 p _ Htree) as (root' & db2 & E & Hst & Ht2); [|unfold m in Hm; lia|].
    { eapply Forall_impl; [exact Hok|]. by intros e [[] _]. }
    exists root', db2. split; [|split; [exact Hst|exact Ht2]]. unfold applyUpdate. rewrite (M_bind_Ok _ _ _ _ _ E). reflexivity. }
  rewrite Forall_forall in Hok.
  assert (∀ e r, e ∈ kvs → hit (tx_snap_now db) tbl w e = Some r →
    entry_ok (tx_snap_now db) tbl (mkEntry (Node.Key e) (fresh_slot tbl xid plans e r)) ∧ stamped (nextXID (wal db)) (mkEntry (Node.Key e) (fresh_slot tbl xid plans e r)) ∧
    seen_row (tx_snap_now db) tbl (fresh_slot tbl xid plans e r) = Some (stored <$> assigned plans r)) as Hnew.
  { intros e r He Eh%hit_seen. destruct (Hok e He) as [[_ Hty Hpk] _].
    destruct (fresh_slot_row tbl xid Hx plans Hplans Hvalid e r (Hty r Eh)) as (_ & Hty' & Es & _ & Hmin & Hmax).
    destruct (assign_ok tbl plans r Hplans (Hty r Eh)) as (_ & _ & Hk).
    destruct (entry_ok_slot (tx_snap_now db) xid tbl (Node.Key e) _ _ i (own_visible (tx_snap_now db)) Hvalid Hty' Hx Es Hi) as [Hok' Hs']; [by rewrite Hk, (Hpk r i)|].
    split; [exact Hok'|]. split; [|exact Hs']. unfold stamped. cbn [Node.Value]. rewrite Hmin, Hmax. unfold XIDNone. lia. }
  exists (changed (tx_snap_now db) tbl w (fresh_slot tbl xid plans) <$> kvs), ptr, db'. split; [|split; [exact Hb|split; [exact Hbeg|split; [|split]]]].
  - unfold execUpdate, get_state. unfold mbind at 1, M_bind at 1. rewrite (xs_table _ _ _ Hs).
    rewrite (M_bind_Ok _ _ db plans db) by (unfold lift; by rewrite Hbuild). rewrite Etx. unfold updateTx. cbn [tx_xid]. by rewrite (M_bind_Ok _ _ _ _ _ E).
  - eapply tx_holds_next; [exact Hh|exact Hb|exact Hbeg|exact Ht'|lia|]. apply Forall_forall.
    intros e' [?|(e & r & He & Eh & ->)]%elem_of_changed; [by left|right]. by destruct (Hnew e r He Eh) as (? & ? & _).
  - apply length_fmap.
  - rewrite (same_base_snap _ _ Hb). apply (changed_replaced _ _ _ _ _ _ (λ r, stored <$> assigned plans r)); [done|].
    intros e r He Eh. by destruct (Hnew e r He Eh) as (_ & _ & ?).
Qed.

(** ** Queries *)

Lemma tx_store db ptr pagers snap nm : goroutineTx gid db = Some (mkActiveTx xid snap pagers) → ∀ db',
  txPagerForTable gid nm db = (Ok ptr, db') → pageStoreFor gid nm db = (Ok (HTx ptr), db').
Proof.
  intros E db' Ep. unfold pageStoreFor, InTransaction, get_state. unfold mbind at 1, M_bind at 1. rewrite E, bool_decide_eq_true_2 by eauto.
  by rewrite (M_bind_Ok _ _ _ _ _ Ep).
Qed.

Lemma begun_pager db ptr nm : ToLower nm = ToLower name → tx_begun db ptr → txPagerForTable gid nm db = (Ok ptr, db).
Proof.
  intros Hnm Hb. unfold tx_begun in Hb. unfold txPagerForTable, txPagerFor, get_state. M_run. rewrite Hb. cbn [tx_pagers tx_key].
  by rewrite Hnm, lookup_singleton_eq.
Qed.

Lemma tx_query db kvs rs n ptr idxs : tx_holds db kvs rs n → tx_begun db ptr →
  query_ready gid (tx_snap_now db) (mkContents (λ _, kvs) idxs) db tbl.
Proof.
  intros [Hs Hp He] Hbeg.
  assert (∃ root, tx_tree db ptr fid v0 root kvs (33 * n)) as [root Ht].
  { assert ((goroutineTx gid db ≫= λ tx, tx_pagers tx !! ToLower name) = Some ptr) as Hptr
      by (unfold tx_begun in Hbeg; rewrite Hbeg; cbn [mbind option_bind tx_pagers]; by rewrite lookup_singleton_eq).
    destruct Hp as [(Hf & _)|(ptr' & root & Hb & Ht)].
    - unfold tx_fresh in Hf. rewrite Hf in Hptr. cbn [mbind option_bind tx_pagers] in Hptr. by rewrite lookup_empty in Hptr.
    - unfold tx_begun in Hb. rewrite Hb in Hptr. cbn [mbind option_bind tx_pagers] in Hptr. rewrite lookup_singleton_eq in Hptr.
      injection Hptr as <-. eauto. }
  destruct (tx_tree_sorted ptr fid v0 _ _ _ _ Ht) as [Hsort _]. destruct Ht as (b & v & Hb & Hfid & Hv & Ht & Hroom).
  pose proof (holds_tree_keys _ _ _ _ Ht) as Hk. rewrite Forall_forall in He. split.
  - exists (HTx ptr), v, root. split_and!; [|by eapply tx_view_handle|exact Ht|apply Forall_forall; intros e Hin; by destruct (He e Hin) as [[] _]].
    eapply tx_store; [exact Hbeg|]. apply begun_pager; [by eapply xs_name|done].
  - intros def Hd. rewrite (xs_no_index _ _ _ Hs) in Hd. by apply not_elem_of_nil in Hd.
  - split; cbn [ct_table]; [by eapply xs_names|done|done| |].
    + intros e r Hin. destruct (He e Hin) as [[_ Hty _] _]. apply Hty.
    + intros e r i Hin. destruct (He e Hin) as [[_ _ Hpk] _]. apply Hpk.
  - intros def Hd. rewrite (xs_no_index _ _ _ Hs) in Hd. by apply not_elem_of_nil in Hd.
  - by eapply xs_pk.
Qed.

(** A query finds it open, or opens it. *)
Lemma tx_opened db kvs rs n : tx_holds db kvs rs n → ∃ db', opened gid (TName tbl) db db' ∧ tx_holds db' kvs rs n ∧
  tx_snap_now db' = tx_snap_now db ∧ query_ready gid (tx_snap_now db) (mkContents (λ _, kvs) (λ _, [])) db' tbl.
Proof.
  intros Hh. pose proof (xs_name _ _ _ (xh_state _ _ _ _ Hh)) as Hnm. destruct (tx_active _ _ _ _ Hh) as (pagers & Etx).
  destruct (open_pager_as (TName tbl) db kvs rs n Hnm Hh) as (ptr & root & db' & Ep & Hb & Es & Hbeg & Ht).
  pose proof (same_base_snap _ _ Hb) as Esn.
  assert (tx_holds db' kvs rs n) as Hh'.
  { eapply tx_holds_next; [exact Hh|exact Hb|exact Hbeg|exact Ht|done|]. apply Forall_forall. auto. }
  exists db'. split_and!; [|exact Hh'|exact Esn|rewrite <-Esn; by eapply tx_query]. split.
  - rewrite (tx_store _ _ _ _ _ Etx _ Ep). symmetry. eapply tx_store; [exact Hbeg|by apply begun_pager].
  - apply (sr_cat _ _ (sb_rest _ _ Hb)).
  - exact Es.
  - unfold statement_snap, get_state. unfold mbind, M_bind. unfold tx_begun in Hbeg. rewrite Etx, Hbeg. cbn. by rewrite Esn.
Qed.

Lemma tx_holds_read db db' kvs rs n : read_step db db' → tx_holds db kvs rs n →
  tx_holds db' kvs rs n ∧ tx_snap_now db' = tx_snap_now db.
Proof.
  intros Hrs [Hs Hp He]. destruct (read_step_same _ _ Hrs) as [Hb _]. pose proof (same_base_snap _ _ Hb) as Esn.
  assert (∀ ptr, tx_begun db ptr → tx_begun db' ptr) as Hbeg by (destruct Hrs as (p & _ & ->); done).
  split; [|done]. split; [eapply tx_state_next; [exact Hb| |exact Hs]; lia| |].
  - destruct Hp as [(Hf & -> & Hv & Hroom)|(ptr & root & Hbg & Ht)].
    + left. pose proof (read_step_view db db' (HBuf fid) v0 Hrs Hv) as Hv'. destruct Hrs as (p & [Hfiles _] & ->).
      split_and!; [done|done|done|]. unfold file_room in *. cbn. by rewrite Hfiles.
    + right. exists ptr, root. split; [by apply Hbeg|by eapply tx_tree_read].
  - destruct Hb as [_ Ew _]. by rewrite Esn, Ew.
Qed.

Lemma tx_holds_weaken db kvs rs n k : tx_holds db kvs rs n → k ≤ n → tx_holds db kvs rs k.
Proof.
  intros [Hs Hp He] Hk. split; [eapply tx_state_next; [|exact Hk|exact Hs]; done| |done].
  destruct Hp as [(? & ? & ? & ?)|(ptr & root & Hb & (b & v & ? & ? & ? & ? & ?))]; [left; split_and!; try done; lia|right].
  exists ptr, root. split; [done|]. exists b, v. split_and!; try done. lia.
Qed.

(** A transaction promises to statements what auto-commit does. *)
#[export] Instance transaction_state : TableState gid name tbl (λ db kvs rs n, tx_holds db kvs rs n) tx_snap_now.
Proof.
  split.
  - intros db kvs rs n [[] _ _]. done.
  - intros. by eapply tx_holds_weaken.
  - intros. by eapply tx_holds_read.
  - intros db kvs rs n Hh. destruct (tx_active _ _ _ _ Hh) as (pagers & E). unfold statement_snap, get_state. unfold mbind, M_bind. by rewrite E.
  - intros. by apply tx_opened.
  - intros tfuel db kvs rs n i vals key Hh Hn Hty Htf Hpk Hkey.
    destruct (tx_insert tfuel db kvs rs n i vals key Hh Hn Hty Htf Hpk Hkey) as (slot & ptr & db' & E & _ & Hbeg & Hh' & Hv).
    exists slot, db', []. rewrite app_nil_r. eauto 10.
  - intros fuel tfuel db kvs rs n w m Hh Hm Hfuel Htf.
    destruct (tx_delete fuel tfuel db kvs rs n w Hh ltac:(lia) ltac:(unfold m in Hm; lia) Hfuel Htf) as (kvs' & ptr & db' & E & _ & Hbeg & Hh' & Hl & Hv).
    exists kvs', db', []. rewrite app_nil_r. split; [exact E|]. split; [eapply tx_holds_weaken; [exact Hh'|unfold m; lia]|]. eauto.
  - intros fuel tfuel db kvs rs n w assignments plans m Hh Hm Hps Hfuel Htf Hb.
    destruct (tx_update fuel tfuel db kvs rs n w assignments plans Hh ltac:(lia) ltac:(unfold m in Hm; lia) Hps Hfuel Htf Hb)
      as (kvs' & ptr & db' & E & _ & Hbeg & Hh' & Hl & Hv).
    exists kvs', db', []. rewrite app_nil_r. split; [exact E|]. split; [eapply tx_holds_weaken; [exact Hh'|unfold m; lia]|]. eauto.
Qed.

(** ** The end of the transaction *)

Lemma holds_tree_fresh v ids root kvs : holds_tree v 1 root kvs → (∀ id, id ∈ ids → v !! id = None) →
  holds_tree (fresh_pages ids ∪ v) 1 root kvs.
Proof.
  intros (ne & h & fl & fp & Hr & Hne & Hhd & Hl) Hfr.
  assert (∀ j d, v !! j = Some d → (fresh_pages ids ∪ v) !! j = Some d) as Hkeep.
  { intros j d Hj. rewrite lookup_union_r; [done|]. apply fresh_pages_lookup_None. intros Hin. by rewrite Hfr in Hj. }
  exists ne, h, fl, fp. split_and!; [|done|done|by apply Hkeep]. eapply rep_frame; [|exact Hr].
  intros j Hj. pose proof (rep_dom _ _ _ _ _ _ _ _ _ _ Hr j Hj) as [d Hd]%elem_of_dom. by rewrite Hd, (Hkeep j d Hd).
Qed.

(** A database whose transaction of this goroutine has ended, with the pages [v]
    in the table's file. *)
Record ended (db db' : DB) (v : pmap) : Prop := {
  en_rest : same_rest db db';
  en_idle : goroutineTx gid db' = None;
  en_view : handle_view db' (HBuf fid) v;
  en_xid : nextXID (wal db') = nextXID (wal db);
  en_healthy : file_ok (f (wal db'))
}.

Lemma tx_end db db' kvs v root rs rs' n :
  tx_state db rs n → ended db db' v → holds_tree v 1 root kvs → 33 * (n - 1) ≤ file_room db' fid →
  log_holds (wal db') rs' → nextLSN (wal db) ≤ nextLSN (wal db') ≤ nextLSN (wal db) + 2 ^ 32 →
  (∀ x, x ∈ committed (txMgr db') → x = xid ∨ x ∈ committed (txMgr db)) →
  Forall (λ e, entry_ok (snap_now db') tbl e ∧ stamped (nextXID (wal db)) e) kvs →
  table_holds gid db' name tbl fid kvs rs' (n - 1).
Proof.
  intros [] [[Ec Eo _ _ _ _] Hidle Hv Hx Hok] Ht Hroom Hlog Hl Hcom He. split; [split|..]; rewrite ?Ec, ?Eo, ?Hx; try done.
  - eauto.
  - lia.
  - lia.
  - eapply Forall_impl; [exact He|]. by intros e [? _].
  - eapply Forall_impl; [exact He|]. by intros e [_ ?].
  - intros x [->|Hin]%Hcom; [lia|]. by apply xs_committed0.
Qed.

(** The pages the transaction has changed, and those it would leave. *)
Definition tx_writes_view (db : DB) (pagers : gmap string nat) (v : pmap) : Prop :=
  (pagers = ∅ ∧ v = v0) ∨ (∃ ptr, pagers = {[ToLower name := ptr]} ∧ tx_view db ptr v0 v).

(** A commit with nothing to write. *)
Lemma commit_none db rs x : log_holds (wal db) rs → file_ok (f (wal db)) → 0 ≤ nextLSN (wal db) < 2 ^ 64 - 1 → is_u32 (nextXID (wal db)) → is_u32 x →
  ∃ w rs', commitTx x ∅ db = (Ok tt, set_wal w db) ∧ log_holds w (rs ++ rs') ∧ file_ok (f w) ∧
    nextLSN w = nextLSN (wal db) + 1 ∧ nextXID w = nextXID (wal db).
Proof.
  intros Hlog Hok Hl Hx Hx'.
  assert (∀ A k, map_order k ([] : list A) = []) as Hnil by (intros A k; by apply Permutation_nil_r, map_order_perm).
  pose proof (commitTx_phases x ∅ db) as E. rewrite map_to_list_empty, Hnil in E. cbv zeta in E. rewrite E by done. clear E.
  cbn [fmap list_fmap]. rewrite Hnil. cbn [tx_writes mbind list_bind].
  destruct (log_run_any (commit_ops x []) (wal db) rs Hlog) as (r & w & k & Er & Hw & _ & Hgood);
    [by apply Forall_singleton|cbn; lia|cbn; lia|done|].
  destruct (Hgood Hok) as (-> & Hok' & EL & EX).
  eexists w, _. split; [|by split_and!].
  rewrite (M_bind_Ok _ _ db tt (set_wal w db)) by (unfold on_wal; by rewrite Er).
  rewrite (M_bind_Ok _ _ (set_wal w db) tt (set_wal w db)) by (unfold on_wal, wal_Sync; cbn [wal set_wal]; by rewrite (proj1 Hok')).
  reflexivity.
Qed.

(** The commit of the transaction's pages. *)
Lemma commit_pages db kvs rs n : tx_holds db kvs rs n → 0 < n → ∃ pagers db' rs' v root,
  goroutineTx gid db = Some (mkActiveTx xid (tx_snap_now db) pagers) ∧ tx_writes_view db pagers v ∧
  commitTx xid pagers (clearGoroutineTx gid db) = (Ok tt, db') ∧ ended db db' v ∧ txMgr db' = txMgr db ∧
  holds_tree v 1 root kvs ∧ 33 * n ≤ file_room db' fid ∧ log_holds (wal db') (rs ++ rs') ∧
  nextLSN (wal db) ≤ nextLSN (wal db') ≤ nextLSN (wal db) + 2 ^ 32.
Proof.
  intros [[Htbl _ _ _ _ _ _ [Hlog Hok] Hlsn Hxid _ [root0 Hroot0] _ _] Hp _] Hn. set (db1 := clearGoroutineTx gid db).
  assert (goroutineTx gid db1 = None) as Hidle by apply lookup_delete_eq.
  destruct Hp as [(Hf & -> & Hv & Hroom)|(ptr & root & Hb & Ht)].
  - destruct (commit_none db1 rs xid Hlog Hok) as (w & rs' & Ec & Hw & Hokw & EL & EX); [cbn; lia|cbn; lia|lia|].
    exists ∅, (set_wal w db1), rs', v0, root0. cbn in EL, EX |- *. split_and!; try done; [by left|lia..].
  - destruct (commit_one db1 rs xid (ToLower name) ptr fid v0 root kvs (33 * n) Ht Hlog Hok)
      as (b' & p & w & v & Ec & Ho & Hview & Hrep & Htree & Hroom & Hw & Hokw & EL & EX); [cbn; lia|cbn; lia|cbn; lia|lia|].
    eexists {[ToLower name := ptr]}, _, _, v, root. split; [exact Hb|]. split; [right; eauto|]. split; [exact Ec|].
    cbn in EL, EX |- *. split_and!; try done; lia.
Qed.

Lemma snapshot_committed db kvs : Forall (λ e, entry_ok (tx_snap_now db) tbl e ∧ stamped (nextXID (wal db)) e) kvs →
  let db' := set_txMgr (MarkCommitted xid (txMgr db)) db in
  visible_rows (snap_now db') tbl kvs = visible_rows (tx_snap_now db) tbl kvs ∧
  Forall (λ e, entry_ok (snap_now db') tbl e ∧ stamped (nextXID (wal db)) e) kvs.
Proof.
  intros He db'. unfold snap_now, tx_snap_now in *. split.
  - apply visible_rows_ext. eapply Forall_impl; [exact He|]. intros e (_ & Hz & _). by apply snapshot_commit.
  - eapply Forall_impl; [exact He|]. intros e (Hok' & Hst). split; [|done]. eapply entry_ok_ext; [|exact Hok']. symmetry. by apply snapshot_commit, Hst.
Qed.

(** COMMIT makes the transaction's view of the table the committed one. *)
Lemma tx_commit db kvs rs n : tx_holds db kvs rs n → 0 < n → ∃ pagers v db' rs', execCommit gid db = (Ok (message "COMMIT"), db') ∧
  goroutineTx gid db = Some (mkActiveTx xid (tx_snap_now db) pagers) ∧ tx_writes_view db pagers v ∧ ended db db' v ∧
  table_holds gid db' name tbl fid kvs (rs ++ rs') (n - 1) ∧ visible_rows (snap_now db') tbl kvs = visible_rows (tx_snap_now db) tbl kvs ∧
  txMgr db' = MarkCommitted xid (txMgr db).
Proof.
  intros Hh Hn. pose proof Hh as [Hs Hp He].
  destruct (commit_pages db kvs rs n Hh Hn) as (pagers & db2 & rs2 & v & root & Etx & Hw & Ec & Hend & Em & Ht & Hroom & Hlog & Hl).
  destruct (snapshot_committed db kvs He) as [Hvis He']. set (db3 := set_txMgr (MarkCommitted xid (txMgr db2)) db2).
  assert (snap_now db3 = snap_now (set_txMgr (MarkCommitted xid (txMgr db)) db)) as Esn by (unfold snap_now; cbn; by rewrite Em).
  assert (ended db db3 v) as Hend3 by (destruct Hend as [[] ? ? ? ?]; done).
  exists pagers, v, db3, rs2. rewrite Esn. split_and!; try done.
  - unfold execCommit, get_state. unfold mbind at 1, M_bind at 1. rewrite Etx. cbn [tx_xid tx_pagers].
    rewrite (M_bind_Ok _ _ db tt (clearGoroutineTx gid db)) by reflexivity. by rewrite (M_bind_Ok _ _ _ _ _ (wrap_Ok _ _ _ _ _ _ Ec)).
  - eapply tx_end; [exact Hs|exact Hend3|exact Ht|unfold file_room in *; cbn; lia|exact Hlog|exact Hl| |by rewrite Esn].
    cbn. rewrite Em. unfold MarkCommitted. cbn. intros x. rewrite elem_of_union, elem_of_singleton. tauto.
  - cbn. by rewrite Em.
Qed.

(** ROLLBACK leaves the table as it was, with the fresh pages in its file that
    did not fit in the free list. *)
Lemma tx_rollback db kvs rs n : tx_holds db kvs rs n → 0 < n → ∃ db' ids r, execRollback gid db = (Ok (message "ROLLBACK"), db') ∧
  ended db db' (fresh_pages ids ∪ v0) ∧ (∀ id, id ∈ ids → v0 !! id = None) ∧
  r = log_rec (nextLSN (wal db)) (nextXID (wal db)) (LRollback xid) ∧ nextLSN (wal db') = nextLSN (wal db) + 1 ∧
  table_holds gid db' name tbl fid kvs0 (rs ++ [r]) (n - 1) ∧ txMgr db' = txMgr db.
Proof.
  intros Hh Hn. pose proof Hh as [Hs Hp He]. pose proof Hs as [Htbl _ _ _ _ _ _ [Hlog Hok] Hlsn Hxid Hcom [root0 Hroot0] Hbefore _].
  set (db1 := clearGoroutineTx gid db). assert (goroutineTx gid db1 = None) as Hidle by apply lookup_delete_eq.
  assert (∃ pagers db2 ids, goroutineTx gid db = Some (mkActiveTx xid (tx_snap_now db) pagers) ∧ rollbackAll pagers db1 = (Ok tt, db2) ∧
    ended db db2 (fresh_pages ids ∪ v0) ∧ (∀ id, id ∈ ids → v0 !! id = None) ∧ wal db2 = wal db ∧ txMgr db2 = txMgr db ∧
    33 * n ≤ file_room db2 fid) as (pagers & db2 & ids & Etx & Er & [Hrest Hi Hv _ _] & Hids & Ew & Em & Hroom).
  { destruct Hp as [(Hf & -> & Hv & Hroom)|(ptr & root & Hb & Ht)].
    - exists ∅, db1, []. rewrite fresh_pages_nil, (left_id_L ∅ (∪)). split_and!; try done; [|by intros ? ?%elem_of_nil].
      unfold rollbackAll. rewrite map_to_list_empty. cbn [fmap list_fmap].
      assert (map_order 4 ([] : list nat) = []) as -> by (by apply Permutation_nil_r, map_order_perm). reflexivity.
    - destruct (rollback_one db1 ptr fid v0 root kvs (33 * n) Ht) as (b' & p & ids & Er & Ho & Hrep & Hids & Hroom).
      exists {[ToLower name := ptr]}, (set_txheap (<[ptr := b']> (txheap db1)) (set_pool p db1)), ids. split; [exact Hb|]. split; [|by split_and!].
      unfold rollbackAll. rewrite map_to_list_singleton. cbn [fmap list_fmap snd].
      assert (map_order 4 [ptr] = [ptr]) as -> by (by apply Permutation_singleton_r, map_order_perm). exact Er. }
  destruct (log_run_any [LRollback xid] (wal db) rs Hlog) as (r & w & k & Elog & Hw & _ & Hgood);
    [apply Forall_singleton; cbn; lia|lia|cbn [length]; lia|lia|].
  destruct (Hgood Hok) as (-> & Hok' & EL & EX). cbn [length] in EL.
  assert (AppendRollback xid (wal db) = (Ok tt, w)) as Ea.
  { revert Elog. cbn [log_run log_step]. M_run. destruct (AppendRollback xid (wal db)) as [[[]|e| |] w']; done. }
  assert (log_holds w (rs ++ [log_rec (nextLSN (wal db)) (nextXID (wal db)) (LRollback xid)])) as Hw' by (destruct (log_step_any (LRollback xid) (wal db) rs Hlog) as (? & ? & E1 & _ & _ & [[_ Hx]|[Hx _]] & Hg); [cbn; lia|lia|lia| |]; cbn [log_step] in E1; rewrite Ea in E1; injection E1 as <- <-; [exact Hx|done]).
  assert (ended db (set_wal w db2) (fresh_pages ids ∪ v0)) as Hend by (destruct Hrest; done).
  eexists (set_wal w db2), ids, _. split; [|split; [exact Hend|split; [exact Hids|split; [reflexivity|split; [cbn; lia|split; [|done]]]]]].
  - unfold execRollback, get_state. unfold mbind at 1, M_bind at 1. rewrite Etx.
    rewrite (M_bind_Ok _ _ db tt db1) by reflexivity. unfold rollbackTx. cbn [tx_pagers tx_xid].
    rewrite (M_bind_Ok _ _ db1 tt (set_wal w db2)); [reflexivity|]. rewrite (M_bind_Ok _ _ _ _ _ Er). unfold on_wal. by rewrite Ew, Ea.
  - eapply tx_end; [exact Hs|exact Hend|by apply holds_tree_fresh| |exact Hw'|cbn; lia| |].
    + unfold file_room in *. cbn in *. lia.
    + cbn. rewrite Em. auto.
    + unfold snap_now in *. cbn. rewrite Em. exact Hbefore.
Qed.

(** *** The other goroutines until then *)

(** A goroutine without a transaction of its own still queries the rows that
    were there before. *)
Lemma others_query gid' db kvs rs n idxs : tx_holds db kvs rs n → goroutineTx gid' db = None →
  query_ready gid' (snap_now db) (mkContents (λ _, kvs0) idxs) db tbl.
Proof.
  intros [Hs Hp _] Hidle. destruct (xs_base _ _ _ Hs) as [root0 Hroot0].
  assert (∃ v, handle_view db (HBuf fid) v ∧ holds_tree v 1 root0 kvs0) as (v & Hv & Ht).
  { destruct Hp as [(_ & _ & Hv & _)|(ptr & root & _ & (b & v & Hb & <- & (b1 & Hb1 & [Hbase _ Hfr _ _]) & _))]; [eauto|].
    rewrite Hb in Hb1. injection Hb1 as <-. cbn [base allocated] in *. eexists. split; [exact Hbase|]. by apply holds_tree_fresh. }
  pose proof (holds_tree_keys _ _ _ _ Ht) as Hk. pose proof (holds_tree_sorted _ _ _ _ Ht) as Hsort.
  pose proof (xs_before _ _ _ Hs) as He. rewrite Forall_forall in He. split.
  - exists (HBuf fid), v, root0. split_and!; [|exact Hv|exact Ht|apply Forall_forall; intros e Hin; by destruct (He e Hin) as [[] _]].
    unfold pageStoreFor, InTransaction, get_state. unfold mbind at 1, M_bind at 1. rewrite Hidle.
    rewrite bool_decide_eq_false_2 by (by intros []). unfold getOrOpenTable, getOrOpen. M_run. rewrite (xs_name _ _ _ Hs). cbn [registry].
    by rewrite (xs_open _ _ _ Hs).
  - intros def Hd. rewrite (xs_no_index _ _ _ Hs) in Hd. by apply not_elem_of_nil in Hd.
  - split; cbn [ct_table]; [by eapply xs_names|done|done| |].
    + intros e r Hin. destruct (He e Hin) as [[_ Hty _] _]. apply Hty.
    + intros e r i Hin. destruct (He e Hin) as [[_ _ Hpk] _]. apply Hpk.
  - intros def Hd. rewrite (xs_no_index _ _ _ Hs) in Hd. by apply not_elem_of_nil in Hd.
  - by eapply xs_pk.
Qed.
End transaction.

(** BEGIN opens it on the rows that are committed. *)
Lemma tx_begin `{Unicode} `{MapOrder} gid db name tbl fid kvs rs n : table_holds gid db name tbl fid kvs rs n →
  0 < n → let xid := nextXID (wal db) in
  ∃ v0 db' r, execBegin gid db = (Ok (message "BEGIN"), db') ∧
    handle_view db (HBuf fid) v0 ∧ same_rest fid db db' ∧ txMgr db' = txMgr db ∧
    r = log_rec (nextLSN (wal db)) xid LBegin ∧ nextLSN (wal db') = nextLSN (wal db) + 1 ∧ nextXID (wal db') = xid + 1 ∧
    tx_holds gid name tbl fid xid v0 kvs db' db' kvs (rs ++ [r]) (n - 1) ∧
    visible_rows (tx_snap_now xid db') tbl kvs = visible_rows (snap_now db) tbl kvs.
Proof.
  intros [Hr Hnames Hpk He Hst Hc] Hn xid. destruct Hr as [Htbl Hname Hidx Hvalid Hidle Hopen (v & root & Hv & Ht) Hroom [Hlog Hok] Hlsn Hxid].
  destruct (AllocXID_ok (wal db) rs Hlog Hok ltac:(lia) ltac:(lia)) as (w & Ea & Hlog' & Hok' & EL & EX).
  set (db' := setGoroutineTx gid (mkActiveTx xid (TakeSnapshot xid (txMgr db)) ∅) (set_wal w db)).
  assert (Forall (λ e, visible_row (TakeSnapshot xid (txMgr db)) tbl (Node.Value e) = visible_row (snap_now db) tbl (Node.Value e)) kvs) as Hsame.
  { eapply Forall_impl; [exact Hst|]. intros e (H1 & H2 & H3). unfold xid. apply snapshot_begin; [done|lia|lia]. }
  assert (∀ e, stamped (nextXID (wal db)) e → stamped (nextXID w) e) as Hlater by (intros e (? & ? & ?); unfold stamped; rewrite EX; split_and!; [done|lia|lia]).
  exists v, db', (log_rec (nextLSN (wal db)) xid LBegin). split; [|do 6 (split; [done|]); split; [split|]].
  - unfold execBegin, InTransaction, get_state. unfold mbind at 1, M_bind at 1. rewrite Hidle, bool_decide_eq_false_2 by (by intros []).
    rewrite (M_bind_Ok _ _ db xid (set_wal w db)) by (apply wrap_Ok; unfold on_wal; by rewrite Ea). reflexivity.
  - split; cbn; try done; [lia|lia| |by eexists|].
    + intros x Hin%Hc. unfold xid. lia.
    + apply Forall_forall. intros e Hin. rewrite Forall_forall in He, Hst. split; [by apply He|by apply Hlater, Hst].
  - left. split; [|split; [done|split; [exact Hv|]]].
    + unfold tx_fresh, goroutineTx. cbn. by rewrite lookup_insert_eq.
    + unfold file_room in *. cbn. lia.
  - unfold tx_snap_now. cbn. rewrite Forall_forall in He, Hst, Hsame. apply Forall_forall. intros e Hin.
    split; [|by apply Hlater, Hst]. eapply entry_ok_ext; [|by apply He]. symmetry. by apply Hsame.
  - by apply visible_rows_ext.
Qed.

(** The statements of a transaction, up to its end. *)
Lemma transaction_runs `{Unicode} `{Math} `{MapOrder} growcap gid fuel tfuel depth db name tbl fid kvs rs n B sts :
  let k := Z.of_nat (length sts * B) + 2 in let xid := nextXID (wal db) in
  table_holds gid db name tbl fid kvs rs n → (32 ≤ tfuel)%nat →
  (length kvs + length sts ≤ B)%nat → k < n →
  Forall (supported name) sts → Forall (fuel_ok fuel B) sts →
  ∃ answers db1 kvs1 v0 db0 r rs1,
    exec_statements growcap gid fuel tfuel depth (BeginStmt :: sts) db = (Ok (message "BEGIN") :: answers, db1) ∧
    table_run tbl sts (visible_rows (snap_now db) tbl kvs) answers (visible_rows (tx_snap_now xid db1) tbl kvs1) ∧
    handle_view db (HBuf fid) v0 ∧ same_rest fid db db0 ∧ txMgr db0 = txMgr db ∧
    r = log_rec (nextLSN (wal db)) xid LBegin ∧ nextLSN (wal db0) = nextLSN (wal db) + 1 ∧ nextXID (wal db0) = xid + 1 ∧
    log_holds (wal db0) (rs ++ [r]) ∧ (length kvs1 ≤ length kvs + length sts)%nat ∧
    tx_holds gid name tbl fid xid v0 kvs db0 db1 kvs1 ((rs ++ [r]) ++ rs1) (n - k + 1).
Proof.
  intros k xid Ht Htf Hlen Hn Hsup Hfuel.
  destruct (tx_begin gid db name tbl fid kvs rs n Ht ltac:(lia)) as (v0 & db0 & r & E0 & Hv & Hrest & Em & Er & EL & EX & Hh0 & Hv0).
  fold xid in Er, EX, Hh0, Hv0.
  destruct (statements_ok growcap gid fuel tfuel depth Htf name tbl _ (tx_snap_now xid) sts B db0 kvs (rs ++ [r]) (n - 1)
    (HR := transaction_state gid name tbl fid xid v0 kvs db0) Hh0 Hlen ltac:(lia) Hsup Hfuel)
    as (answers & db1 & kvs1 & rs1 & E1 & Hrun & Hh1 & Hlen1).
  exists answers, db1, kvs1, v0, db0, r, rs1. rewrite Hv0 in Hrun. split_and!; try done.
  - cbn [exec_statements exec_statement]. by rewrite E0, E1.
  - by destruct (xs_log _ _ _ _ _ _ _ _ _ _ (xh_state _ _ _ _ _ _ _ _ _ _ _ _ Hh0)).
  - by replace (n - k + 1) with (n - 1 - Z.of_nat (length sts * B)) by lia.
Qed.

(** ** Transactions are atomic and isolated *)

(** C6. A transaction of any number of INSERT, DELETE, UPDATE and single-table
    SELECT statements on a table without secondary indexes, erroneous statements
    included, runs on the rows that were committed when it began and reads what
    it has written; until it ends the other goroutines query the rows that were
    there before. COMMIT makes all of its changes the committed state of the
    table and ROLLBACK none; both leave the table ready for further statements.
    The statements are [supported] ones: with literals as the parser makes them,
    without subqueries, and without a comparison of two columns in the WHERE
    clause of a SELECT; a condition on a column that the table does not have,
    and in DELETE and UPDATE one between two columns, counts as satisfied. The
    database has pages, log records and identifiers for the changes. (With an
    index a lookup in the transaction would miss its own writes.) *)
Theorem transaction_refines `{Unicode} `{Math} `{MapOrder} growcap gid fuel tfuel depth db name tbl fid kvs rs n B sts :
  let rows := visible_rows (snap_now db) tbl kvs in
  let k := Z.of_nat (length sts * B) + 2 in
  table_holds gid db name tbl fid kvs rs n → (32 ≤ tfuel)%nat →
  (length kvs + length sts ≤ B)%nat → k < n →
  Forall (supported name) sts → Forall (fuel_ok fuel B) sts →
  ∃ answers db1 after,
    exec_statements growcap gid fuel tfuel depth (BeginStmt :: sts) db = (Ok (message "BEGIN") :: answers, db1) ∧
    table_run tbl sts rows answers after ∧
    (∀ gid' idxs, goroutineTx gid' db1 = None → query_ready gid' (snap_now db1) (mkContents (λ _, kvs) idxs) db1 tbl) ∧
    visible_rows (snap_now db1) tbl kvs = rows ∧
    (∃ db2 kvs2 rs2, execCommit gid db1 = (Ok (message "COMMIT"), db2) ∧
       table_holds gid db2 name tbl fid kvs2 (rs ++ rs2) (n - k) ∧
       visible_rows (snap_now db2) tbl kvs2 = after) ∧
    (∃ db3 rs3, execRollback gid db1 = (Ok (message "ROLLBACK"), db3) ∧
       table_holds gid db3 name tbl fid kvs (rs ++ rs3) (n - k) ∧ visible_rows (snap_now db3) tbl kvs = rows).
Proof.
  intros rows k Ht Htf Hlen Hn Hsup Hfuel.
  destruct (transaction_runs growcap gid fuel tfuel depth db name tbl fid kvs rs n B sts Ht Htf Hlen Hn Hsup Hfuel)
    as (answers & db1 & kvs1 & v0 & db0 & r & rs1 & E1 & Hrun & _ & _ & Em0 & _ & _ & _ & _ & _ & Hh1). fold k in Hh1.
  pose proof (sb_txMgr _ _ _ (xs_since _ _ _ _ _ _ _ _ _ _ (xh_state _ _ _ _ _ _ _ _ _ _ _ _ Hh1))) as Em.
  assert (visible_rows (snap_now db1) tbl kvs = rows) as Hrows by (unfold snap_now, rows, snap_now; by rewrite Em, Em0).
  exists answers, db1, (visible_rows (tx_snap_now (nextXID (wal db)) db1) tbl kvs1). split_and!.
  - exact E1.
  - exact Hrun.
  - intros gid' idxs Hidle. by eapply others_query.
  - exact Hrows.
  - destruct (tx_commit gid name tbl fid _ v0 kvs db0 db1 kvs1 _ _ Hh1 ltac:(lia)) as (pagers & v & db2 & rs2 & E2 & _ & _ & _ & Ht2 & Hv2 & _).
    exists db2, kvs1, ([r] ++ rs1 ++ rs2). split; [exact E2|]. split; [|exact Hv2].
    rewrite !app_assoc. by replace (n - k) with (n - k + 1 - 1) by lia.
  - destruct (tx_rollback gid name tbl fid _ v0 kvs db0 db1 kvs1 _ _ Hh1 ltac:(lia)) as (db3 & ids & r3 & E3 & _ & _ & _ & _ & Ht3 & Em3).
    exists db3, ([r] ++ rs1 ++ [r3]). split; [exact E3|]. split; [rewrite !app_assoc; by replace (n - k) with (n - k + 1 - 1) by lia|].
    unfold snap_now. rewrite Em3, Em, Em0. done.
Qed.

(** ** A concrete transaction *)

#[local] Existing Instance no_tables.
#[local] Existing Instance some_math.
#[local] Existing Instance script_order.

(** Insert Bob, a birthday, and a look at the table. *)
Definition ada_tx : list Statement :=
  [InsertStmt "people" bob; UpdateStmt "people" [mkAssign "age" (VInt 37)] (Some (mkWhere [[cond_val "age" OpLt (VInt 40)]])); SelectStatement ada_query].

Lemma ada_tx_supported : Forall (supported "people") ada_tx ∧ Forall (fuel_ok 100 5) ada_tx.
Proof.
  destruct ada_script_ok as [Hs _]. unfold ada_script in Hs. apply Forall_cons in Hs as [H1 Hs]. apply Forall_cons in Hs as [_ Hs].
  apply Forall_cons in Hs as [H3 _]. split; [|repeat constructor; vm_compute; lia].
  constructor; [exact H1|]. constructor; [exact H3|]. constructor; [|constructor]. split_and!.
  - by exists (mkRef "people" EmptyString).
  - done.
  - exact ada_plain.
  - intros w [= <-]. repeat constructor.
  - intros w [=].
Qed.

Lemma ada_tx_after answers T : table_run people ada_tx [(7, ada)] answers T → T = [(7, [VInt 7; VText "Ada"; VInt 37]); (8, bob)].
Proof.
  intros Hr. inversion Hr as [|? ? ? a1 T1 l1 ? H1 R1]; subst. apply (insert_step_inv _ _ _ 0%nat 8) in H1 as [-> ->];
    [|exact bob_typed|reflexivity|reflexivity].
  inversion R1 as [|? ? ? a2 T2 l2 ? H2 R2]; subst. apply update_step_inv in H2 as ->.
  2: { constructor; [|constructor]. exists 2%nat, (mkCol "age" TypeInt). split_and!; (reflexivity || done). }
  inversion R2 as [|? ? ? a3 T3 l3 ? H3 R3]; subst. inversion H3; subst. inversion R3; subst. reflexivity.
Qed.

Lemma transaction_refines_witness : ∃ db answers db1 db2 kvs2,
  exec_statements id 1 100 32 0 (BeginStmt :: ada_tx) db = (Ok (message "BEGIN") :: answers, db1) ∧
  visible_rows (snap_now db1) people [ada_entry] = [(7, ada)] ∧
  execCommit 1 db1 = (Ok (message "COMMIT"), db2) ∧
  visible_rows (snap_now db2) people kvs2 = [(7, [VInt 7; VText "Ada"; VInt 37]); (8, bob)].
Proof.
  destruct ada_tree_room as (bt & h & Hh & Ht & Hroom). exists (ada_log_db bt). destruct ada_tx_supported as [Hs Hf].
  destruct (transaction_refines id 1 100 32 0 (ada_log_db bt) "people" people (bp_fid (pg bt)) [ada_entry] ada_log 100 5 ada_tx)
    as (answers & db1 & after & E & Hrun & _ & Hv1 & (db2 & kvs2 & rs2 & E2 & _ & Hv2) & _).
  - exact (ada_table_holds bt h Hh Ht Hroom).
  - lia.
  - cbn. lia.
  - cbn. lia.
  - exact Hs.
  - exact Hf.
  - rewrite ada_visible_rows in Hrun, Hv1. exists answers, db1, db2, kvs2. split; [exact E|]. split; [exact Hv1|]. split; [exact E2|].
    rewrite Hv2. exact (ada_tx_after _ _ Hrun).
Defined.
