(* ===== verification/Lazy.v ===== *)
(** * Lazy: a table whose file is opened by the statement that first needs it

    After the database has been opened, or the table created, no file is open: the
    first statement that reaches the table opens it, wherever it stands in the
    statement's work.  A statement answers what it would have answered had the
    file been open before, and leaves the file open, or closed if it ended before
    it needed it. *)
From S2P Require Import Prelude Disk Storage Store Pager Mvcc TxPager BufferPool Node BTree.
From S2P Require Import Wal GoLib Catalog Rows Ast Eval Agg Stats Planner Db Frame Operators Plans Volcano Queries.
From S2P Require Import Select Opening Dml Exec Durability Writes Tables Changes Statements.
From stdpp Require Import options.
Local Open Scope Z_scope.

Section lazy.
Context `{Unicode} `{MapOrder} (name : string) (tbl : Table).

(** No file is open, and the table's is in the directory. *)
Record closed (db : DB) : Prop := {
  cl_tbls : openTbls db = ∅;
  cl_idxs : openIdxs db = ∅;
  cl_table : GetTable name (cat db) = Some tbl;
  cl_name : ToLower (TName tbl) = ToLower name;
  cl_file : ∃ b t fl v, dir db !! file_path OpenTbls name = Some b ∧ disk_rep b t fl v;
  cl_txns gid tx : goroutineTx gid db = Some tx → tx_pagers tx = ∅
}.

(** The same database with the table's file open. *)
Definition opn (db : DB) : DB := (getOrOpenTable name db).2.

Lemma opn_eq db b t fl v : closed db → dir db !! file_path OpenTbls name = Some b → disk_rep b t fl v →
  let pr := Register (mkPager (OpenFile b) t fl) (pool db) in
  opn db = set_registry OpenTbls {[ToLower name := pr.1]} (set_pool pr.2 (set_dir (delete (file_path OpenTbls name) (dir db)) db)) ∧
  ∀ nm, ToLower nm = ToLower name → getOrOpenTable nm db = (Ok pr.1, opn db) ∧ getOrOpenTable nm (opn db) = (Ok pr.1, opn db).
Proof.
  intros Hc Hb Hr pr. assert (∀ nm, ToLower nm = ToLower name → getOrOpenTable nm db =
    (Ok pr.1, set_registry OpenTbls {[ToLower name := pr.1]} (set_pool pr.2 (set_dir (delete (file_path OpenTbls name) (dir db)) db)))) as E.
  { intros nm Hnm. assert (file_path OpenTbls nm = file_path OpenTbls name) as Ep by (unfold file_path; by rewrite Hnm).
    unfold getOrOpenTable, getOrOpen, get_state. unfold mbind at 1, M_bind at 1. cbn [registry]. rewrite (cl_tbls _ Hc), lookup_empty, Ep, Hb.
    cbn [default from_option id]. rewrite (Open_rep _ _ _ _ Hr), Hnm. reflexivity. }
  assert (opn db = set_registry OpenTbls {[ToLower name := pr.1]} (set_pool pr.2 (set_dir (delete (file_path OpenTbls name) (dir db)) db))) as Eo
    by (unfold opn; by rewrite (E name eq_refl)).
  split; [exact Eo|]. intros nm Hnm. rewrite (E nm Hnm), Eo. split; [done|].
  unfold getOrOpenTable, getOrOpen. M_run. cbn [registry openTbls set_registry]. by rewrite Hnm, lookup_singleton_eq.
Qed.

(** What opening a file leaves alone. *)
Record same_but_file (db db' : DB) : Prop := {
  bf_cat : cat db' = cat db;
  bf_statsDB : statsDB db' = statsDB db;
  bf_stats : stats_file db' = stats_file db;
  bf_wal : wal db' = wal db;
  bf_txMgr : txMgr db' = txMgr db;
  bf_txns : txns db' = txns db
}.

Lemma opn_same db : closed db → same_but_file db (opn db).
Proof. intros Hc. destruct (cl_file _ Hc) as (b & t & fl & v & Hb & Hr). by destruct (opn_eq db b t fl v Hc Hb Hr) as [-> _]. Qed.

Lemma opn_crash db : closed db → crash_dir (opn db) = crash_dir db.
Proof.
  intros Hc. destruct (cl_file _ Hc) as (b & t & fl & v & Hb & Hr). destruct (opn_eq db b t fl v Hc Hb Hr) as [-> _].
  unfold crash_dir, open_files. cbn. rewrite (cl_tbls _ Hc), (cl_idxs _ Hc), map_to_list_singleton, !map_to_list_empty. cbn.
  rewrite lookup_insert_eq. cbn. rewrite insert_delete_eq. by apply insert_id.
Qed.

Lemma opn_wal w db : closed db → opn (set_wal w db) = set_wal w (opn db).
Proof.
  intros Hc. destruct (cl_file _ Hc) as (b & t & fl & v & Hb & Hr). destruct (opn_eq db b t fl v Hc Hb Hr) as [-> _].
  assert (closed (set_wal w db)) as Hc' by (by destruct Hc). by destruct (opn_eq (set_wal w db) b t fl v Hc' Hb Hr) as [-> _].
Qed.

Lemma opn_txMgr m db : closed db → opn (set_txMgr m db) = set_txMgr m (opn db).
Proof.
  intros Hc. destruct (cl_file _ Hc) as (b & t & fl & v & Hb & Hr). destruct (opn_eq db b t fl v Hc Hb Hr) as [-> _].
  assert (closed (set_txMgr m db)) as Hc' by (by destruct Hc). by destruct (opn_eq (set_txMgr m db) b t fl v Hc' Hb Hr) as [-> _].
Qed.

Lemma closed_txns x db : closed db → (∀ gid tx, x !! gid = Some tx → tx_pagers tx = ∅) → closed (set_txns x db).
Proof. intros [] Hx. by split. Qed.

Lemma opn_txns x db : closed db → (∀ gid tx, x !! gid = Some tx → tx_pagers tx = ∅) → opn (set_txns x db) = set_txns x (opn db).
Proof.
  intros Hc Hx. destruct (cl_file _ Hc) as (b & t & fl & v & Hb & Hr). destruct (opn_eq db b t fl v Hc Hb Hr) as [-> _].
  by destruct (opn_eq (set_txns x db) b t fl v (closed_txns x db Hc Hx) Hb Hr) as [-> _].
Qed.

(** ** Computations that may open the file *)

(** From a closed database as from the open one, up to the file. *)
Definition lazy {A} (m : M DB A) : Prop := ∀ db, closed db →
  m db = m (opn db) ∨ ∃ r d, m db = (r, d) ∧ m (opn db) = (r, opn d) ∧ closed d.

(** The file is open when they succeed. *)
Definition forces {A} (m : M DB A) : Prop := ∀ db, closed db →
  m db = m (opn db) ∨ ∃ r d, m db = (r, d) ∧ m (opn db) = (r, opn d) ∧ closed d ∧ is_ok r = false.

Lemma forces_lazy {A} (m : M DB A) : forces m → lazy m.
Proof. intros Hm db Hc. destruct (Hm db Hc) as [E|(r & d & E1 & E2 & Hd & _)]; [by left|right; eauto]. Qed.

Lemma lazy_lift {A} (r : res A) : lazy (lift r).
Proof. intros db Hc. right. by exists r, db. Qed.
Lemma lazy_ret {A} (a : A) : lazy (mret a).
Proof. exact (lazy_lift (Ok a)). Qed.
Lemma lazy_fail {A} e : lazy (A := A) (fail e).
Proof. exact (lazy_lift (Err e)). Qed.

Lemma lazy_bind {A B} (m : M DB A) (k : A → M DB B) : lazy m → (∀ a, lazy (k a)) → lazy (m ≫= k).
Proof.
  intros Hm Hk db Hc. unfold mbind, M_bind. destruct (Hm db Hc) as [E|(r & d & E1 & E2 & Hd)]; [left; by rewrite E|].
  rewrite E1, E2. destruct r as [a|e| |]; [exact (Hk a d Hd)|right; eauto..].
Qed.

Lemma forces_bind {A B} (m : M DB A) (k : A → M DB B) : forces m → forces (m ≫= k).
Proof.
  intros Hm db Hc. unfold mbind, M_bind. destruct (Hm db Hc) as [E|(r & d & E1 & E2 & Hd & Hr)]; [left; by rewrite E|].
  right. rewrite E1, E2. destruct r as [a|e| |]; [done|..]; eexists _, d; by split_and!.
Qed.

Lemma forces_wrap {A} fmt args (m : M DB A) : forces m → forces (wrap fmt args m).
Proof.
  intros Hm db Hc. unfold wrap. destruct (Hm db Hc) as [E|(r & d & E1 & E2 & Hd & Hr)]; [left; by rewrite E|right].
  rewrite E1, E2. exists (wrap_err fmt args r), d. split_and!; try done. by destruct r.
Qed.

Lemma lazy_wrap {A} fmt args (m : M DB A) : lazy m → lazy (wrap fmt args m).
Proof.
  intros Hm db Hc. unfold wrap. destruct (Hm db Hc) as [E|(r & d & E1 & E2 & Hd)]; [left; by rewrite E|right]. rewrite E1, E2. eauto.
Qed.

Lemma lazy_ignore {A} (m : M DB A) : lazy m → lazy (ignore_err m).
Proof.
  intros Hm db Hc. unfold ignore_err. destruct (Hm db Hc) as [E|(r & d & E1 & E2 & Hd)]; [left; by rewrite E|right].
  rewrite E1, E2. destruct r; eauto.
Qed.

Lemma forces_on_error {A} (undo : M DB unit) (m : M DB A) : lazy undo → forces m → forces (on_error undo m).
Proof.
  intros Hu Hm db Hc. unfold on_error. destruct (Hm db Hc) as [E|(r & d & E1 & E2 & Hd & Hr)]; [left; by rewrite E|].
  rewrite E1, E2. destruct r as [a|e| |]; [done| |right; eauto 10..].
  unfold mbind, M_bind, fail. destruct (Hu d Hd) as [E|(r' & d' & E1' & E2' & Hd')]; [left; by rewrite E|right].
  rewrite E1', E2'. destruct r'; eauto 10.
Qed.

(** Calls that do not need the file. *)
Lemma lazy_on_wal {A} (m : M WAL A) : lazy (on_wal m).
Proof.
  intros db Hc. right. unfold on_wal. rewrite (bf_wal _ _ (opn_same db Hc)). destruct (m (wal db)) as [r w].
  exists r, (set_wal w db). split; [done|]. split; [by rewrite opn_wal|]. by destruct Hc.
Qed.

Lemma lazy_mark xid : lazy (mark_committed xid).
Proof.
  intros db Hc. right. unfold mark_committed, modify. rewrite (bf_txMgr _ _ (opn_same db Hc)). eexists _, _. split; [done|].
  split; [by rewrite opn_txMgr|]. by destruct Hc.
Qed.

Lemma lazy_set_tx gid (g : TxManager → activeTx) : (∀ m, tx_pagers (g m) = ∅) → lazy (modify (λ db, setGoroutineTx gid (g (txMgr db)) db)).
Proof.
  intros Ht db Hc. right. unfold modify, setGoroutineTx. destruct (opn_same db Hc) as [_ _ _ _ -> ->].
  assert (∀ gid' tx', <[gid := g (txMgr db)]> (txns db) !! gid' = Some tx' → tx_pagers tx' = ∅) as Hx.
  { intros gid' tx' [[_ <-]|[_ Hl]]%lookup_insert_Some; [done|by eapply (cl_txns _ Hc gid')]. }
  eexists _, _. split; [done|]. split; [by rewrite opn_txns|]. by apply closed_txns.
Qed.

Lemma lazy_clear gid : lazy (modify (clearGoroutineTx gid)).
Proof.
  intros db Hc. right. unfold modify, clearGoroutineTx. rewrite (bf_txns _ _ (opn_same db Hc)).
  assert (∀ gid' tx', delete gid (txns db) !! gid' = Some tx' → tx_pagers tx' = ∅) as Hx.
  { intros gid' tx' [_ Hl]%lookup_delete_Some. by eapply (cl_txns _ Hc gid'). }
  eexists _, _. split; [done|]. split; [by rewrite opn_txns|]. by apply closed_txns.
Qed.

(** What a statement looks at first does not depend on the file. *)
Lemma lazy_get {A} (k : DB → M DB A) : (∀ db, closed db → same_but_file db (opn db) → k (opn db) = k db ∧ lazy (k db)) →
  lazy (get_state ≫= k).
Proof.
  intros Hk db Hc. unfold get_state. unfold mbind, M_bind. destruct (Hk db Hc (opn_same db Hc)) as [E Hl].
  destruct (Hl db Hc) as [E1|(r & d & E1 & E2 & Hd)]; [left; by rewrite E|right]. exists r, d. by rewrite E.
Qed.

(** Calls that need it. *)
Lemma open_same nm db : closed db → ToLower nm = ToLower name → getOrOpenTable nm db = getOrOpenTable nm (opn db).
Proof.
  intros Hc Hnm. destruct (cl_file _ Hc) as (b & t & fl & v & Hb & Hr). destruct (opn_eq db b t fl v Hc Hb Hr) as [_ E].
  by destruct (E nm Hnm) as [-> ->].
Qed.

Lemma forces_open nm : ToLower nm = ToLower name → forces (getOrOpenTable nm).
Proof. intros Hnm db Hc. left. by apply open_same. Qed.

Lemma opn_tx gid db : closed db → goroutineTx gid (opn db) = goroutineTx gid db.
Proof. intros Hc. unfold goroutineTx. by rewrite (bf_txns _ _ (opn_same db Hc)). Qed.

Lemma pager_same gid nm tx db : closed db → ToLower nm = ToLower name → goroutineTx gid db = Some tx →
  txPagerForTable gid nm db = txPagerForTable gid nm (opn db).
Proof.
  intros Hc Hnm Etx. unfold txPagerForTable, txPagerFor.
  rewrite (M_bind_Ok get_state _ db db db eq_refl), (M_bind_Ok get_state _ (opn db) _ _ eq_refl), (opn_tx gid db Hc), Etx.
  rewrite (cl_txns _ Hc gid tx Etx), lookup_empty. pose proof (open_same nm db Hc Hnm) as E. unfold getOrOpenTable in E.
  unfold mbind, M_bind. by rewrite E.
Qed.

Lemma forces_pager gid nm : ToLower nm = ToLower name → forces (txPagerForTable gid nm).
Proof.
  intros Hnm db Hc. destruct (goroutineTx gid db) as [tx|] eqn:Etx; [left; by eapply pager_same|right]. exists Panic, db.
  pose proof (opn_tx gid db Hc) as E. rewrite Etx in E. unfold txPagerForTable, txPagerFor.
  rewrite (M_bind_Ok get_state _ db db db eq_refl), (M_bind_Ok get_state _ (opn db) _ _ eq_refl), E, Etx. done.
Qed.

(** ** Statements *)

Lemma lazy_log_rollback xid : lazy (log_rollback xid).
Proof. apply lazy_ignore, lazy_on_wal. Qed.

Lemma lazy_insert gid tfuel vals : lazy (execInsert gid tfuel name vals).
Proof.
  apply lazy_get. intros db Hc [Ec _ _ _ _ Et]. rewrite Ec. unfold goroutineTx. rewrite Et. split; [done|]. rewrite (cl_table _ Hc).
  case_decide; [apply lazy_fail|]. apply lazy_bind; [apply lazy_lift|intros _]. destruct (PrimaryKeyIndex tbl); [|apply lazy_fail].
  apply lazy_bind; [apply lazy_lift|intros v]. destruct (txns db !! gid) as [tx|].
  - apply lazy_bind; [apply lazy_lift|intros slot]. apply forces_lazy, forces_bind. by apply forces_pager.
  - apply lazy_bind; [apply lazy_on_wal|intros xid]. apply lazy_bind; [apply lazy_lift|intros slot].
    apply forces_lazy, forces_bind, forces_on_error; [apply lazy_log_rollback|by apply forces_open].
Qed.

Lemma lazy_change_auto fuel tfuel w ap : lazy (change_auto fuel tfuel name tbl w ap).
Proof.
  apply lazy_bind; [apply lazy_on_wal|intros xid]. apply lazy_get. intros db Hc [_ _ _ _ Em _]. rewrite Em. split; [done|].
  apply forces_lazy, forces_bind, forces_on_error; [apply lazy_log_rollback|by apply forces_open].
Qed.

Lemma lazy_change_tx gid fuel tfuel w tx ap : lazy (change_tx gid fuel tfuel name tbl w tx ap).
Proof. apply forces_lazy, forces_bind. by apply forces_pager. Qed.

Lemma lazy_delete gid fuel tfuel w : lazy (execDelete gid fuel tfuel name w).
Proof.
  apply lazy_get. intros db Hc [Ec _ _ _ _ Et]. rewrite Ec. unfold goroutineTx. rewrite Et. split; [done|]. rewrite (cl_table _ Hc).
  destruct (txns db !! gid); (apply lazy_bind; [|intros; apply lazy_ret]); [apply lazy_change_tx|apply lazy_change_auto].
Qed.

Lemma lazy_update gid fuel tfuel assignments w : lazy (execUpdate gid fuel tfuel name assignments w).
Proof.
  apply lazy_get. intros db Hc [Ec _ _ _ _ Et]. rewrite Ec. unfold goroutineTx. rewrite Et. split; [done|]. rewrite (cl_table _ Hc).
  apply lazy_bind; [apply lazy_lift|intros plans].
  destruct (txns db !! gid); (apply lazy_bind; [|intros; apply lazy_ret]); [apply lazy_change_tx|apply lazy_change_auto].
Qed.

Lemma map_order_nil n {A} : map_order n ([] : list A) = [].
Proof. by apply Permutation_nil_r, map_order_perm. Qed.

Lemma lazy_commitTx xid : lazy (commitTx xid ∅).
Proof.
  unfold commitTx. rewrite map_to_list_empty. cbn [fmap list_fmap]. rewrite !map_order_nil. cbn [log_pagers flush_pagers].
  apply lazy_bind; [apply lazy_ret|intros _]. do 2 (apply lazy_bind; [apply lazy_on_wal|intros _]). apply lazy_ret.
Qed.

Lemma lazy_rollbackTx tx : tx_pagers tx = ∅ → lazy (rollbackTx tx).
Proof.
  intros E. unfold rollbackTx, rollbackAll. rewrite E, map_to_list_empty. cbn [fmap list_fmap]. rewrite map_order_nil. cbn [rollback_pagers].
  apply lazy_bind; [apply lazy_ret|intros _; apply lazy_on_wal].
Qed.

Lemma lazy_begin gid : lazy (execBegin gid).
Proof.
  apply lazy_get. intros db Hc [_ _ _ _ _ Et]. unfold InTransaction, goroutineTx. rewrite Et. split; [done|].
  case_bool_decide; [apply lazy_fail|]. apply lazy_bind; [apply lazy_wrap, lazy_on_wal|intros xid].
  apply lazy_bind; [|intros _; apply lazy_ret]. by apply (lazy_set_tx gid (λ m, mkActiveTx xid (TakeSnapshot xid m) ∅)).
Qed.

Lemma lazy_commit gid : lazy (execCommit gid).
Proof.
  apply lazy_get. intros db Hc [_ _ _ _ _ Et]. unfold goroutineTx. rewrite Et. split; [done|].
  destruct (txns db !! gid) as [tx|] eqn:Etx; [|apply lazy_fail]. rewrite (cl_txns _ Hc gid tx Etx).
  apply lazy_bind; [apply lazy_clear|intros _]. apply lazy_bind; [apply lazy_wrap, lazy_commitTx|intros _].
  apply lazy_bind; [apply lazy_mark|intros _; apply lazy_ret].
Qed.

Lemma lazy_rollback gid : lazy (execRollback gid).
Proof.
  apply lazy_get. intros db Hc [_ _ _ _ _ Et]. unfold goroutineTx. rewrite Et. split; [done|].
  destruct (txns db !! gid) as [tx|] eqn:Etx; [|apply lazy_fail].
  apply lazy_bind; [apply lazy_clear|intros _]. apply lazy_bind; [by eapply lazy_rollbackTx, (cl_txns _ Hc gid)|intros _; apply lazy_ret].
Qed.

Lemma opn_opened gid db : closed db → opened gid (TName tbl) db (opn db).
Proof.
  intros Hc. pose proof (cl_name _ Hc) as Hn. destruct (opn_same db Hc) as [Ec Es _ _ Em Et]. split; try done.
  - unfold pageStoreFor. rewrite (M_bind_Ok get_state _ db db db eq_refl), (M_bind_Ok get_state _ (opn db) _ _ eq_refl).
    unfold InTransaction. rewrite (opn_tx gid db Hc). case_bool_decide as Hin; unfold mbind, M_bind.
    + destruct Hin as [tx Etx]. by rewrite (pager_same gid _ tx db Hc Hn Etx).
    + by rewrite (open_same _ db Hc Hn).
  - unfold statement_snap, get_state, mbind, M_bind. rewrite (opn_tx gid db Hc), Em. by destruct (goroutineTx gid db).
Qed.

Lemma lazy_ext {A} (m m' : M DB A) : (∀ db, m db = m' db) → lazy m' → lazy m.
Proof. intros E Hm db Hc. rewrite !E. by apply Hm. Qed.
End lazy.

Section statements.
Context `{Unicode} `{Math} `{MapOrder} (growcap : nat → nat) (gid : Z) (fuel tfuel : nat) (name : string) (tbl : Table).

Lemma lazy_select depth s ref : From s = [ref] → Joins s = [] → plain_where (Where s) → flat_where (Where s) →
  flat_where (Having s) → RName ref = name → lazy name tbl (execSelect gid fuel tfuel depth s).
Proof.
  intros Hf Hj Hw Hfw Hfh Hn db Hc.
  destruct (execSelect_alike gid fuel tfuel (TName tbl) db (opn name db) (opn_opened name tbl gid db Hc) depth s ref tbl) as [E|(r & E1 & E2)]; try done.
  - rewrite Hn. exact (cl_table _ _ _ Hc).
  - by left.
  - right. eauto.
Qed.

(** A statement of a table, or the start of a transaction. *)
Definition reaches (st : Statement) : Prop := supported name st ∨ st = BeginStmt.

Context (depth : nat).

Lemma lazy_statement st : reaches st → lazy name tbl (exec_statement growcap gid fuel tfuel (S depth) st).
Proof.
  intros [Hst| ->]; [|apply lazy_begin]. destruct st; try done; cbn [supported exec_statement] in *.
  - destruct Hst as [-> _]. apply lazy_insert.
  - destruct Hst as ((ref & Hf & Hn) & Hj & Hw & Hfw & Hfh). by eapply lazy_select.
  - destruct Hst as [-> Hw]. eapply lazy_ext; [|apply (lazy_delete name tbl gid fuel tfuel)].
    intros db. by rewrite (M_bind_Ok _ _ _ _ _ (flatten_dml gid fuel tfuel depth _ db Hw)).
  - destruct Hst as (-> & Hw & _). eapply lazy_ext; [|apply (lazy_update name tbl gid fuel tfuel)].
    intros db. by rewrite (M_bind_Ok _ _ _ _ _ (flatten_dml gid fuel tfuel depth _ db Hw)).
Qed.

(** The database as it is and as it would be, had the file been open. *)
Definition tracks (db db' : DB) : Prop := db' = db ∨ (closed name tbl db ∧ db' = opn name db).

Lemma lazy_tracks {A} (m : M DB A) db db' r d' : lazy name tbl m → tracks db db' → m db' = (r, d') →
  ∃ d, m db = (r, d) ∧ tracks d d'.
Proof.
  intros Hm [->|[Hc ->]] E; [exists d'; split; [done|by left]|].
  destruct (Hm db Hc) as [E'|(r1 & d & E1 & E2 & Hd)]; [exists d'; split; [congruence|by left]|].
  rewrite E in E2. injection E2 as -> ->. exists d. split; [done|by right].
Qed.

Lemma lazy_statements sts : Forall reaches sts → ∀ db db' answers d', tracks db db' →
  exec_statements growcap gid fuel tfuel depth sts db' = (answers, d') →
  ∃ d, exec_statements growcap gid fuel tfuel depth sts db = (answers, d) ∧ tracks d d'.
Proof.
  induction 1 as [|st sts Hst _ IH]; intros db db' answers d' Ht E; cbn [exec_statements] in *; [injection E as <- <-; eauto|].
  destruct (exec_statement _ _ _ _ _ st db') as [r d1'] eqn:E1. destruct (exec_statements _ _ _ _ _ sts d1') as [rs d2'] eqn:E2.
  injection E as <- <-. destruct (lazy_tracks _ _ _ _ _ (lazy_statement st Hst) Ht E1) as (d1 & -> & Ht1).
  destruct (IH _ _ _ _ Ht1 E2) as (d2 & -> & Ht2). eauto.
Qed.
End statements.
