(* ===== verification/Restart.v ===== *)
(** * Restart: a table across crashes and restarts

    A table whose file, log and catalog are in order is in order again when the
    device has stopped in the middle of a commit and the database has been
    opened on what was written, with the rows of all of the transaction or of
    none of it; and so over any sequence of transactions. *)
From S2P Require Import Prelude Disk Storage Store Pager Mvcc TxPager BufferPool Node BTree Transaction.
From S2P Require Import Wal GoLib Catalog Rows Ast Eval Agg Stats Planner Db Frame Sample Operators Plans Volcano Queries.
From S2P Require Import Select Dml Exec Durability Writes Tables Inserts Changes Statements Txns Lazy.
From stdpp Require Import options.
Local Open Scope Z_scope.

(** ** The bytes of the open files *)

(** What file [fid] of a pool holds on its device. *)
Definition disk_bytes (p : Pool) (fid : Z) : option (list byte) := (λ pg, f_bytes (Pager.file pg)) <$> files p !! fid.

Lemma view_on_disk db fid v : handle_view db (HBuf fid) v → ∃ b t fl,
  disk_bytes (pool db) fid = Some b ∧ disk_rep b t fl v ∧ file_room db fid = Z.of_nat (length fl) + (2 ^ 32 - 1 - t).
Proof.
  intros (pg & [_ Hf _] & Hok & Hr). cbn [bp_pool bp_fid] in Hf. exists (f_bytes (Pager.file pg)), (totalPages pg), (freeList pg).
  unfold disk_bytes, file_room. rewrite Hf. by split_and!.
Qed.

Section files.
Context `{Unicode} (name : string) (fid : Z).

(** The file of the table. *)
Definition table_file : list byte := file_path OpenTbls name.

Lemma table_file_open db : openTbls db !! ToLower name = Some fid → (table_file, fid) ∈ open_files db.
Proof.
  intros Ho. unfold open_files. apply elem_of_app. left. apply list_elem_of_fmap. exists (ToLower name, fid). split; [done|].
  by apply elem_of_map_to_list.
Qed.

(** Only the table's file has changed. *)
Record one_file (db db' : DB) : Prop := {
  of_openTbls : openTbls db' = openTbls db;
  of_openIdxs : openIdxs db' = openIdxs db;
  of_dir : dir db' = dir db;
  of_disk fid' : fid' ≠ fid → disk_bytes (pool db') fid' = disk_bytes (pool db) fid'
}.

Lemma same_rest_one_file db db' : same_rest fid db db' → one_file db db'.
Proof. intros [? ? ? ? ? Ho]. split; try done. intros fid' Hne. unfold disk_bytes. by rewrite (proj1 (Ho fid' Hne)). Qed.

Lemma one_file_trans db1 db2 db3 : one_file db1 db2 → one_file db2 db3 → one_file db1 db3.
Proof. intros [? ? ? H1] [? ? ? H2]. split; try congruence. intros fid' Hne. by rewrite H2, H1. Qed.

Lemma one_file_open db db' : one_file db db' → open_files db' = open_files db.
Proof. intros [E1 E2 _ _]. unfold open_files. by rewrite E1, E2. Qed.

Lemma one_file_files db db' rs : db_ok db rs → one_file db db' → is_Some (disk_bytes (pool db') fid) →
  Forall (λ pf, is_Some (files (pool db') !! pf.2)) (open_files db').
Proof.
  intros Hdb Ho Hfid. rewrite (one_file_open _ _ Ho). pose proof (do_files _ _ Hdb) as Hf. eapply Forall_impl; [exact Hf|].
  intros [path fid'] Hs. cbn [snd] in *. apply (fmap_is_Some (λ pg, f_bytes (Pager.file pg))). change (is_Some (disk_bytes (pool db') fid')).
  destruct (decide (fid' = fid)) as [->|Hne]; [done|]. rewrite (of_disk _ _ Ho fid' Hne). by apply fmap_is_Some.
Qed.

(** What a crash finds in each file, before and after. *)
Lemma one_file_crash db db' rs b b' t fl v path b2 : db_ok db rs → one_file db db' → openTbls db !! ToLower name = Some fid →
  disk_bytes (pool db) fid = Some b → disk_rep b t fl v → disk_bytes (pool db') fid = Some b' →
  crash_dir db' !! path = Some b2 →
  (path = table_file ∧ b2 = b' ∧ crash_dir db !! path = Some b) ∨
  (path ≠ table_file ∧ crash_dir db !! path = Some b2 ∧ ∃ t2 fl2 v2, disk_rep b2 t2 fl2 v2).
Proof.
  intros Hdb Ho Hopen Hb Hr Hb' H2. pose proof (table_file_open db Hopen) as Hin.
  pose proof (one_file_files db db' rs Hdb Ho ltac:(eauto)) as Hfiles. pose proof (one_file_open _ _ Ho) as EO.
  pose proof (do_paths _ _ Hdb) as Hp. pose proof (do_fids _ _ Hdb) as Hf.
  assert (path = table_file ∨ (path ≠ table_file ∧ crash_dir db !! path = Some b2)) as [->|[Hne H1]].
  { destruct (decide (path = table_file)) as [->|Hne]; [by left|right; split; [done|]].
    destruct (crash_dir_lookup db' path) as [(fid' & pg' & Hin' & Hpg' & E')|[Hnin E']]; [by rewrite EO|done|..]; rewrite EO in *;
      (destruct (crash_dir_lookup db path Hp (do_files _ _ Hdb)) as [(fid1 & pg1 & Hin1 & Hpg1 & E1)|[Hnin1 E1]]).
    - assert (fid1 = fid') as -> by by eapply NoDup_fst_inj. assert (fid' ≠ fid) as Hne' by (intros ->; apply Hne; by eapply NoDup_snd_inj).
      pose proof (of_disk _ _ Ho fid' Hne') as Ed. unfold disk_bytes in Ed. rewrite Hpg', Hpg1 in Ed. cbn in Ed. congruence.
    - destruct Hnin1. by apply (list_elem_of_fmap_2 fst) in Hin'.
    - destruct Hnin. by apply (list_elem_of_fmap_2 fst) in Hin1.
    - by rewrite E1, <-(of_dir _ _ Ho), <-E', H2. }
  - left. destruct (crash_dir_lookup db' table_file) as [(fid' & pg' & Hin' & Hpg' & E')|[Hnin _]]; [by rewrite EO|done| |].
    2: { destruct Hnin. rewrite EO. by apply (list_elem_of_fmap_2 fst) in Hin. }
    destruct (crash_dir_lookup db table_file Hp (do_files _ _ Hdb)) as [(fid1 & pg1 & Hin1 & Hpg1 & E1)|[Hnin _]].
    2: { destruct Hnin. by apply (list_elem_of_fmap_2 fst) in Hin. }
    rewrite EO in Hin'. assert (fid' = fid) as -> by by eapply NoDup_fst_inj. assert (fid1 = fid) as -> by by eapply NoDup_fst_inj.
    unfold disk_bytes in Hb, Hb'. rewrite Hpg' in Hb'. rewrite Hpg1 in Hb. cbn in Hb, Hb'. split; [done|]. split; congruence.
  - right. split; [done|]. split; [done|]. destruct (do_agrees _ _ Hdb path b2 H1) as (t2 & fl2 & v2 & Hr2 & _). eauto.
Qed.
End files.

(** ** A transaction and the files *)

(** What the device holds of a database, its budgets and its clients left out. *)
Record same_device (db db' : DB) : Prop := {
  sd_heap : txheap db' = txheap db;
  sd_openTbls : openTbls db' = openTbls db;
  sd_openIdxs : openIdxs db' = openIdxs db;
  sd_dir : dir db' = dir db;
  sd_cat : cat db' = cat db;
  sd_stats : stats_file db' = stats_file db;
  sd_disk fid : disk_bytes (pool db') fid = disk_bytes (pool db) fid;
  sd_log : f_bytes (f (wal db')) = f_bytes (f (wal db)) ∧ records (wal db') = records (wal db);
  sd_counters : nextLSN (wal db') = nextLSN (wal db) ∧ nextXID (wal db') = nextXID (wal db)
}.

Lemma same_device_log db db' rs : same_device db db' → log_holds (wal db) rs → log_holds (wal db') rs.
Proof. intros [_ _ _ _ _ _ _ [Eb Er] _] [Hb Hc Hwf]. by split; rewrite ?Eb, ?Er. Qed.

(** COMMIT is the commit of the pages and, when that has succeeded, of the
    snapshots to come. *)
Lemma execCommit_run `{MapOrder} gid db tx : goroutineTx gid db = Some tx →
  let c := commitTx (tx_xid tx) (tx_pagers tx) (clearGoroutineTx gid db) in
  is_ok (execCommit gid db).1 = is_ok c.1 ∧
  (execCommit gid db).2 = if is_ok c.1 then set_txMgr (MarkCommitted (tx_xid tx) (txMgr c.2)) c.2 else c.2.
Proof.
  intros Etx c. assert (execCommit gid db = (_ ← wrap "commit: %w" [] (commitTx (tx_xid tx) (tx_pagers tx)); _ ← mark_committed (tx_xid tx); mret (message "COMMIT"))
    (clearGoroutineTx gid db)) as ->.
  { unfold execCommit, get_state. unfold mbind at 1, M_bind at 1. by rewrite Etx. }
  unfold mbind, M_bind, wrap. fold c. by destruct c as [[[]|e| |] db'].
Qed.

Section pages.
Context `{Unicode} `{MapOrder} (gid : Z) (name : string) (tbl : Table) (fid xid : Z) (v0 : pmap) (kvs0 : list Node.Entry) (db0 : DB).
Hypothesis Hkey : key_file (ToLower name) = table_file name.

Lemma tx_pages_nil db path : Durability.tx_pages db ∅ path = ∅.
Proof. unfold Durability.tx_pages. by rewrite map_to_list_empty. Qed.

Lemma tx_pages_one db ptr b path : txheap db !! ptr = Some b →
  Durability.tx_pages db {[ToLower name := ptr]} path = if decide (path = table_file name) then tb_dirty b else ∅.
Proof using Hkey.
  intros Hb. unfold Durability.tx_pages. rewrite map_to_list_singleton, filter_cons. cbn [fst snd]. rewrite Hkey.
  destruct (decide (table_file name = path)), (decide (path = table_file name)); subst; try done. cbn. by rewrite Hb.
Qed.

(** The file holds what it held at BEGIN and fresh pages; the pages that the
    transaction has buffered make it the transaction's view. *)
Lemma tx_disk db kvs rs n pagers snap v : tx_holds gid name tbl fid xid v0 kvs0 db0 db kvs rs n →
  goroutineTx gid db = Some (mkActiveTx xid snap pagers) → tx_writes_view name v0 db pagers v →
  ∃ ids, handle_view db (HBuf fid) (fresh_pages ids ∪ v0) ∧ (∀ id, id ∈ ids → v0 !! id = None) ∧ 33 * n ≤ file_room db fid ∧
    v = (Data <$> Durability.tx_pages db pagers (table_file name)) ∪ (fresh_pages ids ∪ v0) ∧
    (∀ path, path ≠ table_file name → Durability.tx_pages db pagers path = ∅) ∧
    (∀ key ptr, pagers !! key = Some ptr → key = ToLower name ∧ ∃ b, txheap db !! ptr = Some b ∧ tb_fid b = fid ∧
       covers (tb_dirty b) (fresh_pages ids ∪ v0)) ∧
    (∃ root, holds_tree (fresh_pages ids ∪ v0) 1 root kvs0) ∧ (∃ root, holds_tree v 1 root kvs) ∧
    Z.of_nat (length (tx_writes (map_order 0 (map_to_list pagers)) db)) < 2 ^ 32.
Proof using Hkey.
  intros [[_ _ _ _ _ _ _ _ _ _ _ [root0 Hroot0] _ _] Hp _] Etx Hw. assert (∀ ptr, ({[ToLower name := ptr]} : gmap string nat) ≠ ∅) as Hne by (intros; apply map_non_empty_singleton).
  destruct Hp as [(Hf & Hkvs & Hv & Hroom)|(ptr & root & Hb & Ht)].
  - unfold tx_fresh in Hf. rewrite Etx in Hf. injection Hf as _ ->. subst kvs. destruct Hw as [[_ ->]|(ptr & E & _)]; [|by destruct (Hne ptr)].
    exists []. rewrite fresh_pages_nil, (left_id_L ∅ (∪)), tx_pages_nil, fmap_empty, (left_id_L ∅ (∪)). split_and!; try done; [by intros id ?%elem_of_nil|by eexists|by eexists|].
    rewrite map_to_list_empty. assert (map_order 0 ([] : list (string * nat)) = []) as -> by (apply Permutation_nil_r, map_order_perm). cbn. lia.
  - unfold tx_begun in Hb. rewrite Etx in Hb. injection Hb as _ ->. destruct Hw as [[E _]|(ptr' & E & Hview)]; [by destruct (Hne ptr)|].
    assert (ptr' = ptr) as -> by (pose proof (f_equal (λ m : gmap string nat, m !! ToLower name) E) as E'; cbn in E'; rewrite !lookup_singleton_eq in E'; by injection E').
    destruct Ht as (b & v' & Hb & <- & (b2 & Hb2 & Hrep2) & Htree & Hroom). destruct Hview as (b1 & Hb1 & Hrep).
    rewrite Hb in Hb1, Hb2. injection Hb1 as <-. injection Hb2 as <-.
    pose proof (tx_writes_one db ptr b v0 v (ToLower name) Hb Hrep) as [_ Hfew]. pose proof (tr_view _ _ _ Hrep2) as Ev'. destruct Hrep as [Hbase _ Hfr Hd Hv]. cbn [base dirty allocated] in *.
    exists (tb_allocated b). split_and!; try done.
    + rewrite (tx_pages_one _ _ _ _ Hb), decide_True by done. exact Hv.
    + intros path Hp. by rewrite (tx_pages_one _ _ _ _ Hb), decide_False.
    + intros key ptr2 [<- <-]%lookup_singleton_Some. split; [done|]. exists b. split_and!; try done.
      intros id p Hid. destruct (Hd id p Hid) as (? & ? & ?). done.
    + exists root0. by apply holds_tree_fresh.
    + exists root. rewrite Hv, <-Ev'. exact Htree.
    + rewrite map_to_list_singleton. assert (map_order 0 [(ToLower name, ptr)] = [(ToLower name, ptr)]) as -> by (apply Permutation_singleton_r, map_order_perm).
      exact Hfew.
Qed.
End pages.

(** ** Opening a database *)

Section reopen.
Context `{Unicode}.

Lemma Open_log_holds rs : Forall rec_wf rs → let w := Wal.Open (log_bytes rs) in
  log_holds w rs ∧ file_ok (f w) ∧ nextLSN w = foldl lsn_step 1 rs ∧ nextXID w = foldl xid_step 1 rs.
Proof.
  intros Hwf w. unfold w. rewrite <-(app_nil_r (log_bytes rs)), Open_log, app_nil_r; [|done|left; cbn; rec_lia]. by split_and!.
Qed.

Lemma table_holds_log gid db name tbl fid kvs rs rs' n : table_holds gid db name tbl fid kvs rs n → log_holds (wal db) rs' →
  table_holds gid db name tbl fid kvs rs' n.
Proof. intros [[] ? ? ? ? ?] Hlog. split; try done. split; try done. by split; [|apply dr_log]. Qed.

(** The first use of a table opens its file. *)
Lemma reopen_file name d' c sdb sf w m b t fl v :
  let db3 := mkDB d' c sdb sf w (BufferPool.New DefaultCapacity) m ∅ ∅ ∅ [] in
  d' !! table_file name = Some b → disk_rep b t fl v →
  ∃ db4, getOrOpenTable name db3 = (Ok 0, db4) ∧ cat db4 = c ∧ stats_file db4 = sf ∧ wal db4 = w ∧ txMgr db4 = m ∧
    (∀ gid, goroutineTx gid db4 = None) ∧ openTbls db4 !! ToLower name = Some 0 ∧ handle_view db4 (HBuf 0) v ∧
    file_room db4 0 = Z.of_nat (length fl) + (2 ^ 32 - 1 - t) ∧
    open_files db4 = [(table_file name, 0)] ∧ Forall (λ pf, is_Some (files (pool db4) !! pf.2)) (open_files db4) ∧ crash_dir db4 = d'.
Proof.
  intros db3 Hb Hr. set (pg := mkPager (OpenFile b) t fl).
  set (db4 := set_registry OpenTbls {[ToLower name := 0]} (set_pool (Register pg (BufferPool.New DefaultCapacity)).2 (set_dir (delete (table_file name) d') db3))).
  assert (open_files db4 = [(table_file name, 0)]) as EO.
  { unfold open_files. change (openTbls db4) with ({[ToLower name := 0]} : gmap string Z). change (openIdxs db4) with (∅ : gmap string Z).
    by rewrite map_to_list_singleton, map_to_list_empty. }
  assert (files (pool db4) !! 0 = Some pg) as Hpg by apply lookup_insert_eq.
  exists db4. split_and!; try done.
  - unfold getOrOpenTable, getOrOpen, get_state. M_run. cbn [registry db3 openTbls]. rewrite lookup_empty.
    change (dir db3 !! file_path OpenTbls name) with (d' !! table_file name). rewrite Hb. cbn [default from_option id]. rewrite (Open_rep _ _ _ _ Hr).
    reflexivity.
  - apply lookup_singleton_eq.
  - exists pg. split; [|by split]. by eapply Register_rep.
  - rewrite EO. apply Forall_singleton. cbn. eauto.
  - unfold crash_dir. rewrite EO. cbn [foldr fst snd]. rewrite Hpg. change (dir db4) with (delete (table_file name) d').
    cbn [pg Pager.file f_bytes OpenFile]. rewrite insert_delete_eq. by apply insert_id.
Qed.
End reopen.

(** ** A table that lasts *)

Section lasts.
Context `{HU : Unicode} `{HO : MapOrder} (join : string → string).

(** A table on which statements can run ([table_holds]), in a database that
    could be opened again from what is on its device: the files agree with the
    log, the log's counters and commits are those in memory, the catalog on disk
    has the table, and the name of its file fits in a log record. *)
Record table_lasts (gid : Z) (db : DB) (name : string) (tbl : Table) (fid : Z) (kvs : list Node.Entry) (rs : list Rec) (n : Z) : Prop := {
  tl_holds : table_holds gid db name tbl fid kvs rs n;
  tl_db : db_ok db rs;
  tl_committed x : x ∈ committed (txMgr db) ↔ x ∈ committed_xids (norm_rec <$> rs);
  tl_lsn : foldl lsn_step 1 rs = nextLSN (wal db);
  tl_xid : foldl xid_step 1 rs = nextXID (wal db);
  tl_xids : Forall (λ r, XID r < nextXID (wal db)) rs;
  tl_catalog : ∃ c, Load (join "catalog") (Catalog.file (cat db)) = Ok c ∧ GetTable name c = Some tbl ∧ Catalog.file c = Catalog.file (cat db);
  tl_stats : ∃ sdb, LoadStatsDB (join "stats") (stats_file db) = Ok sdb;
  tl_key : key_file (ToLower name) = table_file name;
  tl_name : norm_name (table_file name) = table_file name
}.

(** The counters a scan of the log finds. *)
Lemma foldl_xid_old x l : Forall (λ r, XID r < x) l → foldl xid_step x l = x.
Proof.
  induction 1 as [|r l Hr _ IH]; [done|]. cbn [foldl]. assert (xid_step x r = x) as -> by (unfold xid_step; rewrite decide_False by lia; done). done.
Qed.

Lemma log_recs_take n lsn x os : take n (log_recs lsn x os) = log_recs lsn x (take n os).
Proof. revert n lsn x. induction os as [|o os IH]; intros [|n] lsn x; try done. cbn [log_recs take]. by rewrite IH. Qed.

Lemma commit_recs_xid lsn x ids ws n : Forall (λ r, XID r = ids) (take n (log_recs lsn x (commit_ops ids ws))).
Proof.
  apply Forall_take, Forall_forall. intros r. rewrite commit_recs, elem_of_app. intros [(w & _ & _ & ? & _)%elem_of_write_recs|Hr]; [done|].
  by apply list_elem_of_singleton in Hr as ->.
Qed.

(** *** The database opened again *)

(** A table without indexes that can be created, with names that fit. *)
Record table_def (name : string) (tbl : Table) : Prop := {
  td_name : ToLower (TName tbl) = ToLower name;
  td_no_index : Indexes tbl = [];
  td_valid : validateSchema tbl = Ok tt;
  td_names : NoDup ((λ c, ToLower (CName c)) <$> Columns tbl);
  td_pk : is_Some (PrimaryKeyIndex tbl);
  td_key : key_file (ToLower name) = table_file name;
  td_norm : norm_name (table_file name) = table_file name
}.

Lemma lasts_def gid db name tbl fid kvs rs n : table_lasts gid db name tbl fid kvs rs n → table_def name tbl.
Proof. intros [[[] ? ? ? ? ?] ? ? ? ? ? ? ? ? ?]. by split. Qed.

Section opened.
Context (name : string) (tbl : Table) (kvs : list Node.Entry) (rs' : list Rec) (k : Z).
Context (d' : directory) (ct : Catalog.Catalog) (sdb : StatsDB) (sf : option (list byte)) (b : list byte) (t : Z) (fl : list Z) (v : pmap) (root : Z).
Let w := Wal.Open (log_bytes rs').
Let mg := foldl (λ m x, MarkCommitted x m) Mvcc.New (elements (committed_xids (norm_rec <$> rs'))).
Let db3 := mkDB d' ct sdb sf w (BufferPool.New DefaultCapacity) mg ∅ ∅ ∅ [].
Let lsn := foldl lsn_step 1 rs'.
Let xid := foldl xid_step 1 rs'.
Hypothesis Hdef : table_def name tbl.
Hypothesis Htable : GetTable name ct = Some tbl.
Hypothesis Hcat : ∃ c, Load (join "catalog") (Catalog.file ct) = Ok c ∧ GetTable name c = Some tbl ∧ Catalog.file c = Catalog.file ct.
Hypothesis Hstats : ∃ sdb', LoadStatsDB (join "stats") sf = Ok sdb'.
Hypothesis Hwf : Forall rec_wf rs'.
Hypothesis Hb : d' !! table_file name = Some b.
Hypothesis Hr : disk_rep b t fl v.
Hypothesis Ht : holds_tree v 1 root kvs.
Hypothesis Hroom : 33 * k ≤ Z.of_nat (length fl) + (2 ^ 32 - 1 - t).
Hypothesis Hlsn : 0 ≤ lsn ∧ lsn + k * 2 ^ 33 < 2 ^ 64.
Hypothesis Hxid : 0 < xid ∧ xid + k < 2 ^ 32.
Hypothesis Hxids : Forall (λ r, XID r < xid) rs'.
Hypothesis Hentries : Forall (λ e, entry_ok (TakeSnapshot XIDNone mg) tbl e ∧ stamped xid e) kvs.
Hypothesis Hok : ∀ db4, wal db4 = w → open_files db4 = [(table_file name, 0)] →
  Forall (λ pf, is_Some (files (pool db4) !! pf.2)) (open_files db4) → crash_dir db4 = d' → db_ok db4 rs'.

Lemma committed_log y : y ∈ committed mg ↔ y ∈ committed_xids (norm_rec <$> rs').
Proof using Type. unfold mg. rewrite MarkCommitted_all, elem_of_union, elem_of_list_to_set, elem_of_elements. cbn. clear. set_solver. Qed.

Lemma opened_lasts : closed name tbl db3 ∧ ∀ gid', table_lasts gid' (opn name db3) name tbl 0 kvs rs' k.
Proof using Hdef Htable Hcat Hstats Hwf Hb Hr Ht Hroom Hlsn Hxid Hxids Hentries Hok.
  destruct (reopen_file name d' ct sdb sf w mg b t fl v Hb Hr) as (db4 & E & Ec & Es & Ew & Em & Hidle & Hopen & Hv & Hroom4 & EO & Hf & Ed).
  destruct (Open_log_holds rs' Hwf) as (Hlog & Hokw & EL & EX). destruct Hdef as [Hname Hidx Hvalid Hnames Hpk Hkey Hnorm].
  fold w lsn xid in Hlog, Hokw, EL, EX. assert (opn name db3 = db4) as -> by (unfold opn, db3; by rewrite E).
  split; [split; (done || eauto 10)|]. intros gid'. split.
  - split; [split|..]; unfold snap_now; rewrite ?Ec, ?Ew, ?Em, ?EL, ?EX, ?Hroom4; try done.
    + eauto.
    + eapply Forall_impl; [exact Hentries|]. by intros e [? _].
    + eapply Forall_impl; [exact Hentries|]. by intros e [_ ?].
    + intros y (r & (r' & -> & Hr')%list_elem_of_fmap & _ & <-)%committed_log%elem_of_committed_xids. rewrite Forall_forall in Hxids. exact (Hxids r' Hr').
  - by apply Hok.
  - intros y. rewrite Em. apply committed_log.
  - by rewrite Ew, EL.
  - by rewrite Ew, EX.
  - by rewrite Ew, EX.
  - by rewrite Ec.
  - by rewrite Es.
  - exact Hkey.
  - exact Hnorm.
Qed.
End opened.

Section transaction.
Context (gid : Z) (db db0 db1 : DB) (name : string) (tbl : Table) (fid : Z) (kvs kvs1 : list Node.Entry) (rs rs1 : list Rec) (n m : Z) (v0 : pmap).
Let xid := nextXID (wal db).
Let r := log_rec (nextLSN (wal db)) xid LBegin.
Hypothesis Hl : table_lasts gid db name tbl fid kvs rs n.
Hypothesis Hv0 : handle_view db (HBuf fid) v0.
Hypothesis Hrest : same_rest fid db db0.
Hypothesis Hm : txMgr db0 = txMgr db.
Hypothesis Hlsn0 : nextLSN (wal db0) = nextLSN (wal db) + 1.
Hypothesis Hxid0 : nextXID (wal db0) = xid + 1.
Hypothesis Hlog0 : log_holds (wal db0) (rs ++ [r]).
Hypothesis Hh : tx_holds gid name tbl fid xid v0 kvs db0 db1 kvs1 ((rs ++ [r]) ++ rs1) m.
Hypothesis Hm0 : 0 < m.

Lemma tx_base : same_base fid db0 db1.
Proof using Hh. exact (xs_since _ _ _ _ _ _ _ _ _ _ (xh_state _ _ _ _ _ _ _ _ _ _ _ _ Hh)). Qed.

Lemma tx_log : rs1 = [].
Proof using Hh Hlog0.
  destruct (xs_log _ _ _ _ _ _ _ _ _ _ (xh_state _ _ _ _ _ _ _ _ _ _ _ _ Hh)) as [[_ Hc _] _].
  rewrite (sb_wal _ _ _ tx_base), (lh_count _ _ Hlog0), (length_app (rs ++ [r])) in Hc. destruct rs1; [done|cbn in Hc; lia].
Qed.

Lemma tx_rest : same_rest fid db db1.
Proof using Hh Hrest. destruct Hrest, (sb_rest _ _ _ tx_base). split; [congruence..|by etrans]. Qed.

Lemma tx_begun_xid : 0 < xid ∧ xid < 2 ^ 32 ∧ 0 ≤ nextLSN (wal db) ∧ nextLSN (wal db1) + m * 2 ^ 33 < 2 ^ 64.
Proof using Hl Hh Hm0 Hxid0.
  pose proof (xh_state _ _ _ _ _ _ _ _ _ _ _ _ Hh) as [_ _ _ _ _ _ _ _ Hlsn Hx _ _ _ _].
  destruct (dr_lsn _ _ _ _ _ _ _ _ (th_ready _ _ _ _ _ _ _ _ (tl_holds _ _ _ _ _ _ _ _ Hl))) as [? _]. lia.
Qed.

Lemma rollback_lasts : ∃ db3 rs', execRollback gid db1 = (Ok (message "ROLLBACK"), db3) ∧
  table_lasts gid db3 name tbl fid kvs rs' (m - 1) ∧ visible_rows (snap_now db3) tbl kvs = visible_rows (snap_now db) tbl kvs.
Proof using HO Hl Hv0 Hrest Hm Hlsn0 Hxid0 Hlog0 Hh Hm0.
  pose proof (tl_db _ _ _ _ _ _ _ _ Hl) as Hdb. pose proof (tl_holds _ _ _ _ _ _ _ _ Hl) as Ht. destruct tx_begun_xid as (Hx0 & Hx & Hls & Hls1).
  destruct (tx_rollback gid name tbl fid xid v0 kvs db0 db1 kvs1 _ m Hh Hm0) as (db3 & ids & r3 & E & Hend & Hids & Er3 & EL3 & Ht3 & Em3).
  rewrite tx_log, app_nil_r, <-app_assoc in Ht3. cbn [app] in Ht3. pose proof (sb_wal _ _ _ tx_base) as Ew. rewrite Ew, Hlsn0 in EL3, Er3, Hls1.
  pose proof (en_xid _ _ _ _ _ Hend) as EX3. rewrite Ew, Hxid0 in EX3.
  assert (xid + 1 < 2 ^ 32) as Hx1 by (destruct (xs_xid _ _ _ _ _ _ _ _ _ _ (xh_state _ _ _ _ _ _ _ _ _ _ _ _ Hh)); rewrite Ew, Hxid0 in *; lia).
  assert (one_file fid db db3) as Hone by (eapply one_file_trans; [apply same_rest_one_file, tx_rest|apply same_rest_one_file, Hend]).
  destruct (view_on_disk _ _ _ Hv0) as (b & t & fl & Eb & Hr & _). destruct (view_on_disk _ _ _ (en_view _ _ _ _ _ Hend)) as (b3 & t3 & fl3 & Eb3 & Hr3 & _).
  assert (v0 ⊆ fresh_pages ids ∪ v0) as Hsub.
  { apply map_subseteq_spec. intros id d Hd. rewrite lookup_union_r; [done|]. apply fresh_pages_lookup_None. intros Hin. by rewrite Hids in Hd. }
  pose proof (one_file_open _ _ _ Hone) as EO. pose proof (do_paths _ _ Hdb) as Hp. pose proof (do_fids _ _ Hdb) as Hf.
  assert (txMgr db3 = txMgr db) as Em by (by rewrite Em3, (sb_txMgr _ _ _ tx_base)).
  assert (∀ r', r' ∈ [r; r3] → XID r' = xid ∧ Typ r' ≠ RecordWrite ∧ Typ r' ≠ RecordCommit) as Hrecs.
  { intros r' [->|Hr'%list_elem_of_singleton]%elem_of_cons; [done|]. by rewrite Hr', Er3. }
  exists db3, (rs ++ [r; r3]). split; [exact E|]. split; [|unfold snap_now; by rewrite Em]. split.
  - exact Ht3.
  - apply (db_ok_grow db rs db3 [r; r3] Hdb).
    + exact (proj1 (dr_log _ _ _ _ _ _ _ _ (th_ready _ _ _ _ _ _ _ _ Ht3))).
    + rewrite Er3. cbn. repeat constructor. lia.
    + rewrite EL3. constructor; [|constructor; [|constructor]]; rewrite ?Er3; cbn; split; try done; lia.
    + lia.
    + lia.
    + by rewrite EO.
    + by rewrite EO.
    + eapply one_file_files; [exact Hdb|exact Hone|eauto].
    + intros path b2 H2. destruct (one_file_crash name fid db db3 rs b b3 t fl v0 path b2 Hdb Hone (dr_open _ _ _ _ _ _ _ _ (th_ready _ _ _ _ _ _ _ _ Ht)) Eb Hr Eb3 H2)
        as [(-> & -> & H1)|(_ & H1 & t2 & fl2 & v2 & Hr2)]; [|by exists b2, t2, fl2, v2, t2, fl2, v2].
      by exists b, t, fl, v0, t3, fl3, (fresh_pages ids ∪ v0).
  - intros y. rewrite Em, committed_same; [apply (tl_committed _ _ _ _ _ _ _ _ Hl)|]. intros r' Hr'. by destruct (Hrecs r' Hr') as (_ & _ & ?).
  - rewrite foldl_app, (tl_lsn _ _ _ _ _ _ _ _ Hl), Er3, EL3. cbn [foldl]. unfold lsn_step. cbn [r log_rec LSN].
    rewrite (decide_True _ _ (Z.le_refl _)). unfold u64. rewrite Z.mod_small by lia. rewrite decide_True by lia. rewrite Z.mod_small; lia.
  - rewrite foldl_app, (tl_xid _ _ _ _ _ _ _ _ Hl), Er3, EX3. cbn [foldl]. unfold xid_step. cbn [r log_rec XID]. fold xid.
    rewrite (decide_True _ _ (Z.le_refl _)). unfold u32. rewrite Z.mod_small by lia. by rewrite decide_False by lia.
  - rewrite EX3. apply Forall_app. split.
    + eapply Forall_impl; [exact (tl_xids _ _ _ _ _ _ _ _ Hl)|]. intros r' Hr'. cbn beta in *. unfold xid. lia.
    + apply Forall_forall. intros r' Hr'. destruct (Hrecs r' Hr') as [-> _]. lia.
  - destruct (tl_catalog _ _ _ _ _ _ _ _ Hl) as (ct & EL & EG & EF). rewrite (sr_cat _ _ _ (en_rest _ _ _ _ _ Hend)), (sr_cat _ _ _ tx_rest). eauto.
  - rewrite (sr_stats _ _ _ (en_rest _ _ _ _ _ Hend)), (sr_stats _ _ _ tx_rest). exact (tl_stats _ _ _ _ _ _ _ _ Hl).
  - exact (tl_key _ _ _ _ _ _ _ _ Hl).
  - exact (tl_name _ _ _ _ _ _ _ _ Hl).
Qed.

(** The state at the end of the transaction, on devices in any condition. *)
Context (dbx : DB) (pagers : gmap string nat) (snap : Snapshot) (v : pmap).
Hypothesis Hdev : same_device db1 dbx.
Hypothesis Htx : goroutineTx gid db1 = Some (mkActiveTx xid snap pagers).
Hypothesis Hview : tx_writes_view name v0 db1 pagers v.

Lemma device_one_file : one_file fid db dbx.
Proof using Hdev Hh Hrest.
  apply (one_file_trans _ _ db1); [apply same_rest_one_file, tx_rest|]. destruct Hdev. split; try done.
Qed.

Lemma tx_pages_device path : Durability.tx_pages dbx pagers path = Durability.tx_pages db1 pagers path.
Proof using Hdev. unfold Durability.tx_pages. by rewrite (sd_heap _ _ Hdev). Qed.

Lemma tx_writes_device kps : tx_writes kps dbx = tx_writes kps db1.
Proof using Hdev. unfold tx_writes. by rewrite (sd_heap _ _ Hdev). Qed.

(** The table's file, before and at the end. *)
Lemma tx_file : ∃ b t fl b' t' fl' ids root root', disk_bytes (pool db) fid = Some b ∧ disk_rep b t fl v0 ∧
  disk_bytes (pool dbx) fid = Some b' ∧ disk_rep b' t' fl' (fresh_pages ids ∪ v0) ∧ v0 ⊆ fresh_pages ids ∪ v0 ∧
  33 * m ≤ Z.of_nat (length fl') + (2 ^ 32 - 1 - t') ∧
  holds_tree (fresh_pages ids ∪ v0) 1 root kvs ∧ holds_tree v 1 root' kvs1 ∧
  v = (Data <$> Durability.tx_pages dbx pagers (table_file name)) ∪ (fresh_pages ids ∪ v0).
Proof using HO Hl Hv0 Hh Hdev Htx Hview.
  destruct (view_on_disk _ _ _ Hv0) as (b & t & fl & Eb & Hr & _).
  destruct (tx_disk gid name tbl fid xid v0 kvs db0 (tl_key _ _ _ _ _ _ _ _ Hl) db1 kvs1 _ m pagers snap v Hh Htx Hview)
    as (ids & Hv1 & Hfr & Hroom & Ev & _ & _ & [root Hroot] & [root' Hroot'] & _).
  destruct (view_on_disk _ _ _ Hv1) as (b' & t' & fl' & Eb' & Hr' & Er). exists b, t, fl, b', t', fl', ids, root, root'. split_and!; try done.
  - by rewrite (sd_disk _ _ Hdev).
  - apply map_subseteq_spec. intros id d Hd. rewrite lookup_union_r; [done|]. apply fresh_pages_lookup_None. intros Hin. by rewrite Hfr in Hd.
  - by rewrite <-Er.
  - by rewrite tx_pages_device.
Qed.

Lemma device_db_ok : db_ok dbx (rs ++ [r]).
Proof using HO Hl Hv0 Hrest Hlsn0 Hxid0 Hlog0 Hh Hm0 Hdev Htx Hview.
  pose proof (tl_db _ _ _ _ _ _ _ _ Hl) as Hdb. destruct tx_begun_xid as (Hx0 & Hx & Hls & _).
  destruct tx_file as (b & t & fl & b' & t' & fl' & ids & _ & _ & Eb & Hr & Eb' & Hr' & Hsub & _).
  pose proof (one_file_open _ _ _ device_one_file) as EO. pose proof (do_paths _ _ Hdb) as Hp. pose proof (do_fids _ _ Hdb) as Hf.
  pose proof (sb_wal _ _ _ tx_base) as Ew. destruct (sd_counters _ _ Hdev) as [EL EX]. rewrite Ew in EL, EX.
  assert (nextXID (wal db1) < 2 ^ 32) as Hx1 by (pose proof (xh_state _ _ _ _ _ _ _ _ _ _ _ _ Hh) as []; lia). rewrite Ew in Hx1.
  pose proof (dr_open _ _ _ _ _ _ _ _ (th_ready _ _ _ _ _ _ _ _ (tl_holds _ _ _ _ _ _ _ _ Hl))) as Hopen.
  apply (db_ok_grow db rs dbx [r] Hdb).
  - apply (same_device_log db1); [done|]. by rewrite Ew.
  - repeat constructor.
  - constructor; [|constructor]. cbn. rewrite EL. split; [lia|done].
  - lia.
  - lia.
  - by rewrite EO.
  - by rewrite EO.
  - eapply one_file_files; [exact Hdb|exact device_one_file|eauto].
  - intros path b2 H2. destruct (one_file_crash name fid db dbx rs b b' t fl v0 path b2 Hdb device_one_file Hopen Eb Hr Eb' H2)
      as [(-> & -> & H1)|(_ & H1 & t2 & fl2 & v2 & Hr2)]; [|by exists b2, t2, fl2, v2, t2, fl2, v2].
    by exists b, t, fl, v0, t', fl', (fresh_pages ids ∪ v0).
Qed.

Lemma device_tx_ok : tx_ok dbx (rs ++ [r]) xid pagers.
Proof using HO Hl Hv0 Hrest Hlsn0 Hxid0 Hlog0 Hh Hm0 Hdev Htx Hview.
  destruct tx_begun_xid as (Hx0 & Hx & Hls & Hls1). pose proof (tl_key _ _ _ _ _ _ _ _ Hl) as Hkey.
  destruct (tx_disk gid name tbl fid xid v0 kvs db0 Hkey db1 kvs1 _ m pagers snap v Hh Htx Hview)
    as (ids & Hv1 & _ & _ & _ & _ & Hbufs & _ & _ & Hfew). destruct (view_on_disk _ _ _ Hv1) as (b' & t' & fl' & Eb' & Hr' & _).
  pose proof (tl_xids _ _ _ _ _ _ _ _ Hl) as Hxids. rewrite Forall_forall in Hxids. split.
  - lia.
  - intros r' [Hr|Hr]%elem_of_app; [specialize (Hxids r' Hr); fold xid in Hxids; lia|]. apply list_elem_of_singleton in Hr as ->. done.
  - intros key key' [ptr Hk] [ptr' Hk'] _. destruct (Hbufs _ _ Hk) as [-> _], (Hbufs _ _ Hk') as [-> _]. done.
  - intros key ptr Hk. destruct (Hbufs _ _ Hk) as (-> & b & Hb & Hfid & Hc). exists b. rewrite (sd_heap _ _ Hdev), Hkey, Hfid.
    split; [done|]. split; [|split; [exact (tl_name _ _ _ _ _ _ _ _ Hl)|]].
    + rewrite (one_file_open _ _ _ device_one_file). apply table_file_open.
      exact (dr_open _ _ _ _ _ _ _ _ (th_ready _ _ _ _ _ _ _ _ (tl_holds _ _ _ _ _ _ _ _ Hl))).
    + rewrite <-(sd_disk _ _ Hdev) in Eb'. apply fmap_Some in Eb' as (pg & Hpg & ->). by exists pg, t', fl', (fresh_pages ids ∪ v0).
  - rewrite tx_writes_device. destruct (sd_counters _ _ Hdev) as [-> _]. lia.
Qed.

(** *** A crash in the commit *)

Lemma tx_log_fits k : let recs := take k (log_recs (nextLSN (wal dbx)) (nextXID (wal dbx)) (commit_ops xid (tx_writes (map_order 0 (map_to_list pagers)) dbx))) in
  let rs' := (rs ++ [r]) ++ recs in
  foldl lsn_step 1 rs' = nextLSN (wal dbx) + Z.of_nat (length recs) ∧ Z.of_nat (length recs) ≤ 2 ^ 32 ∧
  foldl xid_step 1 rs' = xid + 1 ∧ nextXID (wal dbx) = xid + 1 ∧ nextLSN (wal dbx) = nextLSN (wal db1) ∧ Forall (λ r, XID r < xid + 1) rs' ∧
  (∀ y, y ∈ committed_xids (norm_rec <$> rs ++ [r]) ↔ y ∈ committed (txMgr db)).
Proof using HO Hl Hv0 Hrest Hlsn0 Hxid0 Hlog0 Hh Hm0 Hdev Htx Hview.
  intros recs rs'. destruct tx_begun_xid as (Hx0 & Hx & Hls & Hls1). pose proof (sb_wal _ _ _ tx_base) as Ew.
  destruct (sd_counters _ _ Hdev) as [EL EX]. rewrite Ew in EL, EX, Hls1. rewrite Hlsn0 in EL, Hls1. rewrite Hxid0 in EX.
  assert (nextXID (wal db1) < 2 ^ 32) as Hx1 by (pose proof (xh_state _ _ _ _ _ _ _ _ _ _ _ _ Hh) as []; lia). rewrite Ew, Hxid0 in Hx1.
  destruct (tx_disk gid name tbl fid xid v0 kvs db0 (tl_key _ _ _ _ _ _ _ _ Hl) db1 kvs1 _ m pagers snap v Hh Htx Hview)
    as (_ & _ & _ & _ & _ & _ & _ & _ & _ & Hfew).
  assert (Z.of_nat (length recs) ≤ 2 ^ 32) as Hlen.
  { unfold recs. rewrite length_take, length_log_recs. unfold commit_ops, write_ops. rewrite length_app, length_fmap, tx_writes_device. cbn [length]. lia. }
  pose proof (tl_xids _ _ _ _ _ _ _ _ Hl) as Hxids.
  assert (Forall (λ r, XID r < xid + 1) recs) as Hrecs by (eapply Forall_impl; [apply commit_recs_xid|]; intros r' E; cbn in E; lia).
  split_and!.
  - unfold rs'. rewrite !foldl_app, (tl_lsn _ _ _ _ _ _ _ _ Hl). cbn [foldl]. unfold lsn_step at 2. cbn [r log_rec LSN].
    rewrite decide_True by lia. unfold u64. rewrite Z.mod_small by lia. rewrite <-EL. unfold recs. rewrite log_recs_take.
    rewrite foldl_lsn_run; [by rewrite length_log_recs|lia|]. unfold recs in Hlen. rewrite log_recs_take, length_log_recs in Hlen. lia.
  - exact Hlen.
  - unfold rs'. rewrite !foldl_app, (tl_xid _ _ _ _ _ _ _ _ Hl). cbn [foldl]. unfold xid_step at 2. cbn [r log_rec XID].
    fold xid. rewrite decide_True by lia. unfold u32. rewrite Z.mod_small by lia. by apply foldl_xid_old.
  - exact EX.
  - rewrite Ew. lia.
  - apply Forall_app. split; [|exact Hrecs]. apply Forall_app. split; [|constructor; [cbn; lia|constructor]].
    eapply Forall_impl; [exact Hxids|]. intros r' Hr'. cbn beta in *. unfold xid. lia.
  - intros y. rewrite committed_same by (intros r' ->%list_elem_of_singleton; done). symmetry. apply (tl_committed _ _ _ _ _ _ _ _ Hl).
Qed.

(** The rows that the log makes the committed ones. *)
Lemma rows_after mg (durable : bool) : (∀ y, y ∈ committed mg ↔ y ∈ committed (txMgr db) ∨ (durable = true ∧ y = xid)) →
  let s := TakeSnapshot XIDNone mg in let kvs' := if durable then kvs1 else kvs in
  Forall (λ e, entry_ok s tbl e ∧ stamped (xid + 1) e) kvs' ∧
  visible_rows s tbl kvs' = if durable then visible_rows (tx_snap_now xid db1) tbl kvs1 else visible_rows (snap_now db) tbl kvs.
Proof using Hh Hm Hxid0.
  intros Hc s kvs'. pose proof (xh_state _ _ _ _ _ _ _ _ _ _ _ _ Hh) as Hs. destruct tx_base as [_ Ew Em].
  assert (txMgr db1 = txMgr db) as Em1 by congruence. unfold s, kvs'. destruct durable.
  - assert (mg = MarkCommitted xid (txMgr db1)) as ->.
    { destruct mg as [C]. cbn in Hc. unfold MarkCommitted. f_equal. apply set_eq. intros y. rewrite Hc, Em1. clear. set_solver. }
    destruct (snapshot_committed tbl xid db1 kvs1 (xh_entries _ _ _ _ _ _ _ _ _ _ _ _ Hh)) as [Hv He].
    rewrite Ew, Hxid0 in He. split; [exact He|exact Hv].
  - assert (mg = txMgr db) as -> by (destruct mg as [C], (txMgr db) as [C0]; cbn in Hc; f_equal; apply set_eq; intros y; rewrite Hc; clear; naive_solver).
    pose proof (xs_before _ _ _ _ _ _ _ _ _ _ Hs) as He. rewrite Ew, Hxid0 in He. unfold snap_now in He. rewrite Em1 in He. split; [exact He|done].
Qed.

Lemma crash_dir_open db' rs' path fid' b : db_ok db' rs' → (path, fid') ∈ open_files db' → disk_bytes (pool db') fid' = Some b → crash_dir db' !! path = Some b.
Proof using Type.
  intros Hdb Hin Hb. destruct (crash_dir_lookup db' path (do_paths _ _ Hdb) (do_files _ _ Hdb)) as [(fid1 & pg1 & Hin1 & Hpg1 & E1)|[Hnin _]].
  - assert (fid1 = fid') as -> by (eapply NoDup_fst_inj; [apply Hdb|done|done]). unfold disk_bytes in Hb. rewrite Hpg1 in Hb. cbn in Hb. congruence.
  - destruct Hnin. by apply (list_elem_of_fmap_2 fst) in Hin.
Qed.

Lemma crash_lasts sched : (∀ m, by_table m (sched m)) →
  let c := commitTx xid pagers dbx in
  ∃ (durable : bool) db3 img rs', (is_ok c.1 = true → durable = true) ∧
    Exec.Open join sched (crash_image c.2) = (Ok db3, img) ∧ closed name tbl db3 ∧
    (∀ gid', table_lasts gid' (opn name db3) name tbl 0 (if durable then kvs1 else kvs) rs' (m - 1)) ∧
    visible_rows (snap_now db3) tbl (if durable then kvs1 else kvs) =
      if durable then visible_rows (tx_snap_now xid db1) tbl kvs1 else visible_rows (snap_now db) tbl kvs.
Proof using HO Hl Hv0 Hrest Hm Hlsn0 Hxid0 Hlog0 Hh Hm0 Hdev Htx Hview.
  intros Hsched c. pose proof device_db_ok as Hdb. pose proof device_tx_ok as Htxok. pose proof (tl_holds _ _ _ _ _ _ _ _ Hl) as Ht.
  destruct (tl_catalog _ _ _ _ _ _ _ _ Hl) as (ct & EL & EG & EF). destruct (tl_stats _ _ _ _ _ _ _ _ Hl) as [sdb ES].
  assert (Catalog.file (cat dbx) = Catalog.file (cat db)) as Ecat by (rewrite (sd_cat _ _ Hdev), (sr_cat _ _ _ tx_rest); done).
  assert (stats_file dbx = stats_file db) as Esf by (rewrite (sd_stats _ _ Hdev), (sr_stats _ _ _ tx_rest); done).
  destruct (crash_opens join sched dbx _ xid pagers ct sdb Hdb Htxok Hsched) as (k & d' & img & Hk & Hok & Hwf & EO & Hdom & Hpages);
    [by rewrite Ecat|by rewrite Esf|]. set (rs' := (rs ++ [r]) ++ take k _) in *. set (durable := bool_decide _) in *.
  destruct tx_file as (b & t & fl & b' & t' & fl' & ids & root & root' & _ & _ & Eb' & Hr' & _ & Hroom & Hroot & Hroot' & Ev).
  assert ((table_file name, fid) ∈ open_files dbx) as Hin.
  { rewrite (one_file_open _ _ _ device_one_file). apply table_file_open. exact (dr_open _ _ _ _ _ _ _ _ (th_ready _ _ _ _ _ _ _ _ Ht)). }
  destruct (Hpages _ _ _ _ _ (crash_dir_open _ _ _ _ _ Hdb Hin Eb') Hr') as (b2 & Hb2 & Hr2). rewrite <-Ev in Hr2.
  destruct (tx_log_fits k) as (HL & Hlen & HX & EXx & ELx & Hxs & Hcom). fold rs' in HL, HX, Hxs.
  set (mg := foldl (λ m x, MarkCommitted x m) Mvcc.New (elements (committed_xids (norm_rec <$> rs')))) in *.
  assert (∀ y, y ∈ committed mg ↔ y ∈ committed (txMgr db) ∨ (durable = true ∧ y = xid)) as Hc.
  { intros y. pose proof (log_committed dbx _ xid pagers Hdb Htxok k Hk y) as Hy. unfold log_after in Hy. fold rs' in Hy.
    unfold mg. by rewrite (committed_log rs'), Hy, Hcom. }
  destruct (rows_after mg durable Hc) as [He Hvis]. rewrite Esf in EO.
  destruct tx_begun_xid as (Hx0 & Hx & Hls & Hls1). pose proof (xh_state _ _ _ _ _ _ _ _ _ _ _ _ Hh) as Hs.
  assert (nextXID (wal db1) = xid + 1) as EX1 by (by rewrite (sb_wal _ _ _ tx_base)).
  destruct (opened_lasts name tbl (if durable then kvs1 else kvs) rs' (m - 1) d' ct sdb (stats_file db) b2 t' fl'
    (if durable then v else fresh_pages ids ∪ v0) (if durable then root' else root) (lasts_def _ _ _ _ _ _ _ _ Hl) EG) as [Hc4 Hl4].
  - rewrite EF. eauto.
  - eauto.
  - exact Hwf.
  - exact Hb2.
  - exact Hr2.
  - by destruct durable.
  - lia.
  - rewrite HL. destruct (xs_lsn _ _ _ _ _ _ _ _ _ _ Hs). lia.
  - rewrite HX. destruct (xs_xid _ _ _ _ _ _ _ _ _ _ Hs). lia.
  - by rewrite HX.
  - by rewrite HX.
  - intros db4 Ew4 EO4 Hf4 Ed4. destruct (Open_log_holds rs' Hwf) as (Hlog4 & _ & EL4 & EX4).
    apply (db_ok_next dbx (rs ++ [r]) xid pagers Hdb Htxok k db4 Hk).
    + by rewrite Ew4.
    + rewrite Ew4, EL4, HL. rewrite length_take, length_log_recs. unfold commit_ops, write_ops. rewrite length_app, length_fmap. cbn [length]. lia.
    + rewrite Ew4, EX4, HX. destruct (xs_xid _ _ _ _ _ _ _ _ _ _ Hs). lia.
    + rewrite EO4. apply NoDup_singleton.
    + rewrite EO4. apply NoDup_singleton.
    + exact Hf4.
    + intros path b4 Hb4. rewrite Ed4 in Hb4. assert (is_Some (crash_dir dbx !! path)) as [b3 Hb3] by (apply elem_of_dom; rewrite <-Hdom; by eapply elem_of_dom_2).
      destruct (do_agrees _ _ Hdb path b3 Hb3) as (t3 & fl3 & v3 & Hr3 & _). destruct (Hpages _ _ _ _ _ Hb3 Hr3) as (b5 & Hb5 & Hr5).
      rewrite Hb4 in Hb5. injection Hb5 as <-. by exists b3, t3, fl3, v3, t3, fl3.
  - exists durable. eexists _, img, rs'. split; [intros Hc'; by apply bool_decide_eq_true_2, Hok|]. by split_and!.
Qed.

(** *** A commit and a rollback *)

Lemma writes_view_unique v' : tx_writes_view name v0 db1 pagers v' → v' = v.
Proof using Htx Hview.
  intros Hw. destruct Hview as [[-> ->]|(ptr & -> & b & Hb & Hr)], Hw as [[E ->]|(ptr' & E & b' & Hb' & Hr')]; try done.
  pose proof (f_equal (λ m : gmap string nat, m !! ToLower name) E) as E'. cbn in E'. rewrite !lookup_singleton_eq in E'. injection E' as <-.
  rewrite Hb in Hb'. injection Hb' as <-. by rewrite (tr_view _ _ _ Hr), (tr_view _ _ _ Hr').
Qed.

Lemma commit_lasts : dbx = clearGoroutineTx gid db1 → ∃ db2 rs', execCommit gid db1 = (Ok (message "COMMIT"), db2) ∧
  table_lasts gid db2 name tbl fid kvs1 rs' (m - 1) ∧ visible_rows (snap_now db2) tbl kvs1 = visible_rows (tx_snap_now xid db1) tbl kvs1.
Proof using HO Hl Hv0 Hrest Hm Hlsn0 Hxid0 Hlog0 Hh Hm0 Hdev Htx Hview.
  intros Ex. pose proof device_db_ok as Hdb. pose proof device_tx_ok as Htxok. pose proof (tl_holds _ _ _ _ _ _ _ _ Hl) as Ht.
  destruct (tx_commit gid name tbl fid xid v0 kvs db0 db1 kvs1 _ m Hh Hm0) as (pagers' & v' & db2 & rs2 & E & Etx' & Hw' & Hend & Ht2 & Hvis & Em2).
  rewrite Htx in Etx'. injection Etx' as _ <-. assert (v' = v) as -> by by apply writes_view_unique.
  destruct (execCommit_run gid db1 _ Htx) as [Eok E2]. cbn [tx_xid tx_pagers] in Eok, E2. rewrite E, <-Ex in Eok, E2. cbn [fst snd is_ok] in Eok, E2.
  rewrite <-Eok in E2.
  destruct (commit_outcome dbx _ xid pagers Hdb Htxok) as (k & Hk & Hfull & Hlog & _ & _ & _ & _ & HL). specialize (Hfull (eq_sym Eok)).
  set (dbc := (commitTx xid pagers dbx).2) in *. assert (wal db2 = wal dbc) as Ewal by (by rewrite E2).
  destruct (tx_log_fits k) as (HL' & Hlen & HX & EXx & ELx & Hxs & Hcom). set (rs' := (rs ++ [r]) ++ take k _) in *.
  assert (file_ok (f (wal dbx))) as Hokx by (rewrite Ex; exact (proj2 (xs_log _ _ _ _ _ _ _ _ _ _ (xh_state _ _ _ _ _ _ _ _ _ _ _ _ Hh)))).
  specialize (HL Hokx). pose proof (en_xid _ _ _ _ _ Hend) as EX2. rewrite (sb_wal _ _ _ tx_base), Hxid0 in EX2.
  assert (Z.of_nat (length (take k (log_recs (nextLSN (wal dbx)) (nextXID (wal dbx)) (commit_ops xid (tx_writes (map_order 0 (map_to_list pagers)) dbx))))) =
    Z.of_nat (length (tx_writes (map_order 0 (map_to_list pagers)) dbx) + 1)) as Erecs.
  { rewrite length_take, length_log_recs, Hfull. unfold commit_ops, write_ops. rewrite length_app, length_fmap. cbn [length]. lia. }
  assert (one_file fid dbx db2) as Hone by (pose proof (same_rest_one_file _ _ _ (en_rest _ _ _ _ _ Hend)) as Ho1; rewrite Ex; destruct Ho1; by split).
  assert (openTbls dbx !! ToLower name = Some fid) as Hopen.
  { rewrite (of_openTbls _ _ _ device_one_file). exact (dr_open _ _ _ _ _ _ _ _ (th_ready _ _ _ _ _ _ _ _ Ht)). }
  destruct tx_file as (_ & _ & _ & b' & t' & fl' & ids & _ & _ & _ & _ & Eb' & Hr' & _ & _ & _ & _ & Ev).
  destruct (view_on_disk _ _ _ (en_view _ _ _ _ _ Hend)) as (b2 & t2 & fl2 & Eb2 & Hr2 & _).
  pose proof (one_file_open _ _ _ Hone) as EO2.
  exists db2, rs'. split; [exact E|]. split; [|exact Hvis]. split.
  - eapply table_holds_log; [exact Ht2|]. by rewrite Ewal.
  - apply (db_ok_next dbx (rs ++ [r]) xid pagers Hdb Htxok k db2 Hk).
    + by rewrite Ewal.
    + rewrite Ewal, HL. lia.
    + rewrite EX2. destruct (xs_xid _ _ _ _ _ _ _ _ _ _ (xh_state _ _ _ _ _ _ _ _ _ _ _ _ Hh)). rewrite (sb_wal _ _ _ tx_base), Hxid0 in *. lia.
    + rewrite EO2. apply Hdb.
    + rewrite EO2. apply Hdb.
    + eapply one_file_files; [exact Hdb|exact Hone|eauto].
    + intros path b3 H3. destruct (one_file_crash name fid dbx db2 _ b' b2 t' fl' _ path b3 Hdb Hone Hopen Eb' Hr' Eb2 H3)
        as [(-> & -> & H1)|(Hne & H1 & t3 & fl3 & v3 & Hr3)].
      * exists b', t', fl', (fresh_pages ids ∪ v0), t2, fl2. split; [done|]. split; [done|]. rewrite bool_decide_eq_true_2 by done. by rewrite <-Ev.
      * exists b3, t3, fl3, v3, t3, fl3. split; [done|]. split; [done|]. case_bool_decide; [|done].
        destruct (tx_disk gid name tbl fid xid v0 kvs db0 (tl_key _ _ _ _ _ _ _ _ Hl) db1 kvs1 _ m pagers snap v Hh Htx Hview)
          as (_ & _ & _ & _ & _ & Hnone & _).
        rewrite tx_pages_device, Hnone by done. by rewrite fmap_empty, (left_id_L ∅ (∪)).
  - intros y. pose proof (log_committed dbx _ xid pagers Hdb Htxok k Hk y) as Hy. unfold log_after in Hy. fold rs' in Hy.
    rewrite Hy, bool_decide_eq_true_2, Hcom, Em2 by done. unfold MarkCommitted. cbn. rewrite (sb_txMgr _ _ _ tx_base), Hm. clear. set_solver.
  - rewrite HL', Ewal, HL, Erecs. lia.
  - by rewrite HX, EX2.
  - rewrite EX2. exact Hxs.
  - destruct (tl_catalog _ _ _ _ _ _ _ _ Hl) as (ct & EL & EG & EF). rewrite (sr_cat _ _ _ (en_rest _ _ _ _ _ Hend)), (sr_cat _ _ _ tx_rest). eauto.
  - rewrite (sr_stats _ _ _ (en_rest _ _ _ _ _ Hend)), (sr_stats _ _ _ tx_rest). exact (tl_stats _ _ _ _ _ _ _ _ Hl).
  - exact (tl_key _ _ _ _ _ _ _ _ Hl).
  - exact (tl_name _ _ _ _ _ _ _ _ Hl).
Qed.

End transaction.
End lasts.
