(* ===== verification/Lasting.v ===== *)
(** * Lasting: statements outside transactions, and restarts at rest

    An auto-commit statement does to the database what a transaction with this
    single change does, so it keeps what [Restart] calls a table that lasts: after
    it, as after a query or at any moment between two statements, the process may
    stop and the database be opened again with the same rows. *)
From S2P Require Import Prelude Disk Storage Store Pager Mvcc TxPager BufferPool Node BTree Transaction.
From S2P Require Import Wal GoLib Catalog Rows Ast Eval Agg Stats Planner Db Frame Sample Operators Plans Volcano Queries.
From S2P Require Import Select Dml Exec Durability Writes Tables Inserts Changes Statements Txns Lazy Restart.
From stdpp Require Import options.
Local Open Scope Z_scope.

Section lasting.
Context `{HU : Unicode} `{HO : MapOrder} (join : string → string).

(** ** A restart between two statements *)

Lemma rest_lasts gid db name tbl fid kvs rs n sched : table_lasts join gid db name tbl fid kvs rs n → 0 < n → (∀ m, by_table m (sched m)) →
  ∃ db3 img, Exec.Open join sched (crash_image db) = (Ok db3, img) ∧ closed name tbl db3 ∧
    (∀ gid', table_lasts join gid' (opn name db3) name tbl 0 kvs rs n) ∧ visible_rows (snap_now db3) tbl kvs = visible_rows (snap_now db) tbl kvs.
Proof using HO.
  intros Hl Hn Hsched. pose proof (tl_db _ _ _ _ _ _ _ _ _ Hl) as Hdb. pose proof (tl_holds _ _ _ _ _ _ _ _ _ Hl) as Ht.
  destruct (tl_catalog _ _ _ _ _ _ _ _ _ Hl) as (ct & EL & EG & EF). destruct (tl_stats _ _ _ _ _ _ _ _ _ Hl) as [sdb ES].
  pose proof (th_ready _ _ _ _ _ _ _ _ Ht) as [_ _ _ _ _ Hopen (v & root & Hv & Htree) Hroom _ Hlsn Hxid].
  pose proof (tl_lsn _ _ _ _ _ _ _ _ _ Hl) as HL. pose proof (tl_xid _ _ _ _ _ _ _ _ _ Hl) as HX.
  destruct (rest_opens join sched db rs ct sdb Hdb (tl_xids _ _ _ _ _ _ _ _ _ Hl) ltac:(lia) Hsched EL ES) as (d' & img & EO & Hwf & Hdom & Hpages).
  destruct (view_on_disk _ _ _ Hv) as (b & t & fl & Eb & Hr & Er).
  destruct (Hpages _ b t fl v (crash_dir_open _ _ _ _ _ Hdb (table_file_open name fid db Hopen) Eb) Hr) as (b' & Hb' & Hr').
  set (mg := foldl (λ m x, MarkCommitted x m) Mvcc.New (elements (committed_xids (norm_rec <$> rs)))) in *.
  assert (TakeSnapshot XIDNone mg = snap_now db) as Esn.
  { unfold snap_now. assert (mg = txMgr db) as ->; [|done]. destruct mg as [C] eqn:Emg, (txMgr db) as [C'] eqn:Em. f_equal. apply set_eq. intros y.
    pose proof (committed_log rs y) as Hy. fold mg in Hy. rewrite Emg in Hy. cbn in Hy. rewrite Hy, <-(tl_committed _ _ _ _ _ _ _ _ _ Hl), Em. done. }
  destruct (opened_lasts join name tbl kvs rs n d' ct sdb (stats_file db) b' t fl v root (lasts_def join _ _ _ _ _ _ _ _ Hl) EG) as [Hc4 Hl4].
  - rewrite EF. eauto.
  - eauto.
  - exact Hwf.
  - exact Hb'.
  - exact Hr'.
  - exact Htree.
  - by rewrite <-Er.
  - by rewrite HL.
  - by rewrite HX.
  - rewrite HX. exact (tl_xids _ _ _ _ _ _ _ _ _ Hl).
  - rewrite HX. fold mg. rewrite Esn. apply Forall_forall. intros e He. destruct Ht as [_ _ _ Hent Hst _]. rewrite Forall_forall in Hent, Hst. auto.
  - intros db4 Ew EO4 Hf4 Ed4. destruct (Open_log_holds rs Hwf) as (Hlog & _ & EL4 & EX4).
    rewrite <-(app_nil_r rs). apply (db_ok_grow db rs db4 [] Hdb); rewrite ?app_nil_r, ?Ew, ?EL4, ?EX4, ?HL, ?HX, ?EO4; try done.
    + constructor.
    + lia.
    + apply NoDup_singleton.
    + apply NoDup_singleton.
    + by rewrite <-EO4.
    + intros path b4 Hb4. rewrite Ed4 in Hb4. assert (is_Some (crash_dir db !! path)) as [b3 Hb3] by (apply elem_of_dom; rewrite <-Hdom; by eapply elem_of_dom_2).
      destruct (do_agrees _ _ Hdb path b3 Hb3) as (t3 & fl3 & v3 & Hr3 & _). destruct (Hpages _ _ _ _ _ Hb3 Hr3) as (b5 & Hb5 & Hr5).
      rewrite Hb4 in Hb5. injection Hb5 as <-. by exists b3, t3, fl3, v3, t3, fl3, v3.
  - eexists _, img. split; [exact EO|]. split; [exact Hc4|]. split; [exact Hl4|]. unfold snap_now at 1. cbn [txMgr]. fold mg. by rewrite Esn.
Qed.

(** ** Queries *)

Lemma read_lasts gid db db' name tbl fid kvs rs n : read_step db db' → table_holds gid db' name tbl fid kvs rs n →
  table_lasts join gid db name tbl fid kvs rs n → table_lasts join gid db' name tbl fid kvs rs n.
Proof using HO.
  intros (p & [Hf _] & ->) Ht' [Ht [] ? ? ? ? ? ? ? ?]. split; try done. split; try done.
  - change (open_files (set_pool p db)) with (open_files db). cbn. by rewrite Hf.
  - intros path b. unfold crash_dir in *. cbn. rewrite Hf. auto.
Qed.

(** ** Auto-commit *)

(** The state in which an auto-commit statement commits is that of a transaction
    that has made its change, but for the transaction's entry in the map of the
    goroutines. *)
Lemma auto_in_transaction gid db name tbl fid kvs kvs' rs n k db' :
  let xid := nextXID (wal db) in let r := log_rec (nextLSN (wal db)) xid LBegin in let ptr := length (txheap db) in
  let snap := TakeSnapshot xid (txMgr db) in
  table_holds gid db name tbl fid kvs rs n → 0 ≤ k → k + 1 ≤ n → committed_by xid name fid kvs kvs' k db db' →
  Forall (λ e, entry_ok snap tbl e ∧ stamped (xid + 1) e) kvs' →
  ∃ w db1 v0 v, let db0 := setGoroutineTx gid (mkActiveTx xid snap ∅) (set_wal w db) in
    let pagers := {[ToLower name := ptr]} in let c := commitTx xid pagers (clearGoroutineTx gid db1) in
    handle_view db (HBuf fid) v0 ∧ same_rest fid db db0 ∧ nextLSN w = nextLSN (wal db) + 1 ∧ nextXID w = xid + 1 ∧ log_holds w (rs ++ [r]) ∧
    tx_holds gid name tbl fid xid v0 kvs db0 db1 kvs' (rs ++ [r]) k ∧ goroutineTx gid db1 = Some (mkActiveTx xid snap pagers) ∧
    tx_writes_view name v0 db1 pagers v ∧ is_ok c.1 = true ∧ db' = set_txMgr (MarkCommitted xid (txMgr c.2)) c.2.
Proof.
  intros xid r ptr snap [Hr Hnames Hpk He Hst Hc] Hk0 Hk (w & db4 & db5 & v0 & root & root' & Ea & Hv0 & Ht0 & Hstep & Htree & Ec & ->) He'.
  destruct Hr as [Htbl Hname Hidx Hvalid Hidle Hopen _ Hroom [Hlog Hok] Hlsn Hxid].
  destruct (AllocXID_ok (wal db) rs Hlog Hok ltac:(lia) ltac:(lia)) as (w' & Ea' & Hlog' & Hok' & EL & EX). fold xid in Ea', EX, Hlog'.
  rewrite Ea in Ea'. injection Ea' as <-. destruct Hstep as (b & p & Hb & Ho & E4).
  fold ptr in Ec, E4, Htree. set (pagers := {[ToLower name := ptr]} : gmap string nat) in *. set (db1 := setGoroutineTx gid (mkActiveTx xid snap pagers) db4).
  assert (goroutineTx gid db1 = Some (mkActiveTx xid snap pagers)) as Etx by (unfold goroutineTx; cbn; by rewrite lookup_insert_eq).
  assert (clearGoroutineTx gid db1 = db4) as E1.
  { unfold clearGoroutineTx, db1, setGoroutineTx. cbn. rewrite delete_insert_id; [by destruct db4|]. by rewrite E4. }
  destruct Htree as (b4 & v & Hb4 & Hfid & Hview & Htree & Hroom4).
  exists w, db1, v0, v. cbv zeta. rewrite E1, Ec. subst db4. split_and!; try done.
  - split; [|right; exists ptr, root'; split|].
    + split; cbn; try done; rewrite ?EL, ?EX; [lia|lia|..].
      * intros x Hx%Hc. fold xid in Hx. lia.
      * by eexists.
      * apply Forall_forall. intros e Hin. rewrite Forall_forall in He, Hst. split; [by apply He|].
        destruct (Hst e Hin) as (? & ? & ?). unfold xid, stamped. split_and!; [done|lia..].
    + exact Etx.
    + by exists b4, v.
    + cbn. by rewrite EX.
  - right. exists ptr. split; [done|]. exact Hview.
Qed.

Lemma auto_lasts gid db name tbl fid kvs kvs' rs rs' n k db' :
  let xid := nextXID (wal db) in
  table_lasts join gid db name tbl fid kvs rs n → table_holds gid db' name tbl fid kvs' (rs ++ rs') k → committed_as xid fid rs' db db' →
  committed_by xid name fid kvs kvs' k db db' → 0 < k → k + 1 ≤ n → ∃ rs2, table_lasts join gid db' name tbl fid kvs' rs2 (k - 1).
Proof.
  intros xid Hl Ht' Hca Hby Hk Hkn. pose proof (tl_holds _ _ _ _ _ _ _ _ _ Hl) as Ht.
  assert (Forall (λ e, entry_ok (TakeSnapshot xid (txMgr db)) tbl e ∧ stamped (xid + 1) e) kvs') as He'.
  { destruct Ht' as [_ _ _ He Hst _]. rewrite (ca_xid _ _ _ _ _ Hca) in Hst. unfold snap_now in He. rewrite (ca_committed _ _ _ _ _ Hca) in He.
    apply Forall_forall. intros e Hin. rewrite Forall_forall in He, Hst. split; [|by apply Hst].
    eapply entry_ok_ext; [|by apply He]. by apply snapshot_commit, (Hst e Hin). }
  destruct (auto_in_transaction gid db name tbl fid kvs kvs' rs n k db' Ht ltac:(lia) Hkn Hby He')
    as (w & db1 & v0 & v & Hv0 & Hrest & EL & EX & Hlog & Hh & Etx & Hw & Hok & E').
  assert (same_device db1 (clearGoroutineTx gid db1)) as Hdev by done.
  destruct (commit_lasts join gid db _ db1 name tbl fid kvs kvs' rs [] n k v0 Hl Hv0 Hrest eq_refl EL EX Hlog ltac:(by rewrite app_nil_r) Hk
    (clearGoroutineTx gid db1) _ _ v Hdev Etx Hw eq_refl) as (db2 & rs2 & E2 & Hl2 & _).
  destruct (execCommit_run gid db1 _ Etx) as [_ E3]. cbn [tx_xid tx_pagers] in E3.
  rewrite E2 in E3. cbn [snd] in E3. exists rs2. replace db' with db2; [exact Hl2|]. rewrite E3, E'. unfold xid in *. by rewrite Hok.
Qed.

Lemma lasts_weaken gid db name tbl fid kvs rs n k : table_lasts join gid db name tbl fid kvs rs n → k ≤ n →
  table_lasts join gid db name tbl fid kvs rs k.
Proof using HO.
  intros [Ht ? ? ? ? ? ? ? ? ?] Hk. split; try done.
  exact (ts_weaken (TableState := auto_commit_state gid name tbl fid) db kvs rs n k Ht Hk).
Qed.

(** A table that lasts promises to statements what any table does.  A change is
    charged for its commit, too. *)
#[export] Instance lasting_state gid name tbl fid :
  TableState gid name tbl (λ db kvs _ n, ∃ rs, table_lasts join gid db name tbl fid kvs rs (2 * n)) snap_now.
Proof.
  pose proof (auto_commit_state gid name tbl fid) as HA. split.
  - intros db kvs _ n (rs & Hl). exact (ts_table db kvs rs _ (tl_holds _ _ _ _ _ _ _ _ _ Hl)).
  - intros db kvs _ n k (rs & Hl) Hk. exists rs. eapply lasts_weaken; [exact Hl|lia].
  - intros db db' kvs _ n Hs (rs & Hl). destruct (ts_read db db' kvs rs _ Hs (tl_holds _ _ _ _ _ _ _ _ _ Hl)) as [Ht' Ev].
    split; [|done]. exists rs. by eapply read_lasts.
  - intros db kvs _ n (rs & Hl). exact (ts_snap db kvs rs _ (tl_holds _ _ _ _ _ _ _ _ _ Hl)).
  - intros db kvs rs0 n (rs & Hl). pose proof (tl_holds _ _ _ _ _ _ _ _ _ Hl) as Ht.
    pose proof (table_holds_query _ _ _ _ _ _ _ _ (λ _, []) Ht) as Hq. exists db. split_and!; [done|by exists rs|done|done].
  - intros tfuel db kvs rs0 n i vals key (rs & Hl) Hn Hty Htf Hpk Hkey. pose proof (tl_holds _ _ _ _ _ _ _ _ _ Hl) as Ht.
    destruct (insert_holds gid tfuel db name tbl fid kvs rs _ i vals key Ht ltac:(lia) Hty Htf Hpk Hkey)
      as (slot & db' & rs' & E & Ht' & Hv & Hca & Hby).
    destruct (auto_lasts gid db name tbl fid kvs _ rs rs' _ _ db' Hl Ht' Hca Hby ltac:(lia) ltac:(lia)) as (rs2 & Hl2).
    exists slot, db', []. split_and!; [exact E| |exact Hv]. exists rs2. eapply lasts_weaken; [exact Hl2|lia].
  - intros fuel tfuel db kvs rs0 n w m (rs & Hl) Hm Hfuel Htf. pose proof (tl_holds _ _ _ _ _ _ _ _ _ Hl) as Ht.
    destruct (delete_holds gid fuel tfuel db name tbl fid kvs rs _ w Ht ltac:(unfold m in *; lia) Hfuel Htf)
      as (db' & rs' & E & Ht' & Hv & Hca & Hby).
    destruct (auto_lasts gid db name tbl fid kvs _ rs rs' _ _ db' Hl Ht' Hca Hby ltac:(unfold m in *; lia) ltac:(unfold m in *; lia)) as (rs2 & Hl2).
    eexists _, db', []. split; [exact E|]. split; [exists rs2; eapply lasts_weaken; [exact Hl2|unfold m in *; lia]|]. split; [apply length_fmap|done].
  - intros fuel tfuel db kvs rs0 n w assignments plans m (rs & Hl) Hm Hps Hfuel Htf Hb. pose proof (tl_holds _ _ _ _ _ _ _ _ _ Hl) as Ht.
    destruct (update_holds gid fuel tfuel db name tbl fid kvs rs _ w assignments plans Ht ltac:(unfold m in *; lia) Hps Hfuel Htf Hb)
      as (db' & rs' & E & Ht' & Hv & Hca & Hby).
    destruct (auto_lasts gid db name tbl fid kvs _ rs rs' _ _ db' Hl Ht' Hca Hby ltac:(unfold m in *; lia) ltac:(unfold m in *; lia)) as (rs2 & Hl2).
    eexists _, db', []. split; [exact E|]. split; [exists rs2; eapply lasts_weaken; [exact Hl2|unfold m in *; lia]|]. split; [apply length_fmap|done].
Qed.
End lasting.
