(* ===== verification/Histories.v ===== *)
(** * Histories: statements, transactions, restarts and crashes one after the other

    A goroutine runs statements on a table, some of them on their own and some in
    transactions.  A transaction ends with COMMIT, with ROLLBACK, or with a COMMIT
    in the middle of which the devices stop; between two statements the process
    may stop as well; then it starts again on what the devices hold.  Whatever
    happens, the table is the one that a list of rows becomes when the statements
    that have committed are applied to it. *)
From S2P Require Import Prelude Disk Storage Store Pager Mvcc TxPager BufferPool Node BTree Transaction.
From S2P Require Import Wal GoLib Catalog Rows Ast Eval Agg Stats Planner Db Frame Sample Operators Plans Volcano Queries.
From S2P Require Import Select Dml Exec Durability Writes Tables Inserts Changes Statements Txns Lazy Restart Lasting.
From stdpp Require Import options.
Local Open Scope Z_scope.

(** ** Devices that stop *)

(** The log's device takes [wb] more writes, that of file [fid] [fb fid] more;
    [None] is a device that works. *)
Definition failing (wb : option nat) (fb : Z → option nat) (db : DB) : DB :=
  set_wal (mkWAL (mkFile (f_bytes (f (wal db))) (f_open (f (wal db))) wb) (records (wal db)) (nextLSN (wal db)) (nextXID (wal db)))
    (set_pool (set_files (map_imap (λ fid pg, Some (set_file (mkFile (f_bytes (Pager.file pg)) (f_open (Pager.file pg)) (fb fid)) pg))
      (files (pool db))) (pool db)) db).

Lemma failing_device gid wb fb db : same_device db (clearGoroutineTx gid (failing wb fb db)).
Proof.
  split; try done. intros fid. unfold disk_bytes. cbn. rewrite map_lookup_imap. by destruct (files (pool db) !! fid).
Qed.

(** ** Runs *)

Inductive ending : Type :=
  | ECommit
  | ERollback
  | ECrash (wb : option nat) (fb : Z → option nat).

(** What happens to the table: a statement outside transactions, a transaction,
    or the end of the process between two statements. *)
Inductive event : Type :=
  | AutoCommit (st : Statement)
  | Transaction (sts : list Statement) (e : ending)
  | Stop.

Section run.
Context `{Unicode} `{Math} `{MapOrder} (growcap : nat → nat) (gid : Z) (fuel tfuel depth : nat).
Context (join : string → string) (sched : images → list (list byte * list (Z * list byte))).

(** The database is opened on what the devices hold. *)
Definition restart (db : DB) : res DB := (Exec.Open join sched (crash_image db)).1.

(** The end of a transaction, and whether it was reported to have succeeded. *)
Definition end_with (e : ending) (db : DB) : bool * res DB :=
  match e with
  | ECommit => let '(r, db) := execCommit gid db in (is_ok r, Ok db)
  | ERollback => let '(r, db) := execRollback gid db in (is_ok r, Ok db)
  | ECrash wb fb => let '(r, db) := execCommit gid (failing wb fb db) in (is_ok r, restart db)
  end.

(** The answers of each event, and whether its end was reported to have succeeded. *)
Fixpoint run_history (h : list event) (db : DB) : res (list (list (res Result) * bool) * DB) :=
  match h with
  | [] => Ok ([], db)
  | ev :: h =>
      let '(out, r) := match ev with
        | AutoCommit st =>
            let '(a, db) := exec_statement growcap gid fuel tfuel (S depth) st db in (([a], is_ok a), Ok db)
        | Transaction sts e =>
            let '(answers, db) := exec_statements growcap gid fuel tfuel depth (BeginStmt :: sts) db in
            let '(ok, r) := end_with e db in ((answers, ok), r)
        | Stop => (([], true), restart db)
        end in
      db ← r;
      '(outs, db) ← run_history h db;
      Ok (out :: outs, db)
  end.
End run.

(** ** The specification *)

(** What the end of a transaction leaves of the rows [T] before it and [after]
    its statements: a commit that was not reported may have succeeded. *)
Definition kept (e : ending) (ok : bool) (T after T' : list (Z * row)) : Prop :=
  match e with
  | ECommit => ok = true ∧ T' = after
  | ERollback => ok = true ∧ T' = T
  | ECrash _ _ => T' = after ∨ (ok = false ∧ T' = T)
  end.

Inductive event_step `{Unicode} (tbl : Table) : event → list (Z * row) → list (res Result) * bool → list (Z * row) → Prop :=
  | event_auto st T a T' : table_step tbl st T a T' → event_step tbl (AutoCommit st) T ([a], is_ok a) T'
  | event_transaction sts e T answers ok after T' : table_run tbl sts T answers after → kept e ok T after T' →
      event_step tbl (Transaction sts e) T (Ok (message "BEGIN") :: answers, ok) T'
  | event_stop T : event_step tbl Stop T ([], true) T.

Inductive history_run `{Unicode} (tbl : Table) :
    list event → list (Z * row) → list (list (res Result) * bool) → list (Z * row) → Prop :=
  | history_nil T : history_run tbl [] T [] T
  | history_cons ev h T out T' outs T'' :
      event_step tbl ev T out T' → history_run tbl h T' outs T'' → history_run tbl (ev :: h) T (out :: outs) T''.

(** The identifiers and pages that an event may use up, and the slots. *)
Definition event_cost (B : nat) (ev : event) : Z :=
  match ev with
  | AutoCommit _ => 2 * Z.of_nat B + 2
  | Transaction sts _ => Z.of_nat (length sts * B) + 2
  | Stop => 0
  end.
Definition event_length (ev : event) : nat :=
  match ev with AutoCommit _ => 1 | Transaction sts _ => length sts | Stop => 0 end.
Definition history_cost (B : nat) (h : list event) : Z := foldr (λ ev n, event_cost B ev + n) 0 h.
Definition history_length (h : list event) : nat := sum_list (event_length <$> h).

Definition event_ok (name : string) (fuel B : nat) (ev : event) : Prop :=
  match ev with
  | AutoCommit st => supported name st ∧ fuel_ok fuel B st
  | Transaction sts _ => Forall (supported name) sts ∧ Forall (fuel_ok fuel B) sts
  | Stop => True
  end.

(** ** A table between two events *)

Section stays.
Context `{HU : Unicode} `{HM : Math} `{HO : MapOrder} (join : string → string) (sched : images → list (list byte * list (Z * list byte))).
Context (gid : Z) (name : string) (tbl : Table).

(** The table lasts, or will once its file is open. *)
Definition table_stays (db : DB) (kvs : list Node.Entry) (n : Z) : Prop :=
  ∃ db' fid rs, tracks name tbl db db' ∧ table_lasts join gid db' name tbl fid kvs rs n.

Lemma tracks_snap db db' : tracks name tbl db db' → snap_now db' = snap_now db.
Proof. intros [->|[Hc ->]]; [done|]. unfold snap_now. by rewrite (bf_txMgr _ _ (opn_same name tbl db Hc)). Qed.

Lemma tracks_image db db' : tracks name tbl db db' → crash_image db' = crash_image db.
Proof.
  intros [->|[Hc ->]]; [done|]. unfold crash_image. rewrite (opn_crash name tbl db Hc). by destruct (opn_same name tbl db Hc) as [-> _ -> -> _ _].
Qed.

Lemma tracks_trans db1 db2 db3 : tracks name tbl db1 db2 → tracks name tbl db2 db3 → tracks name tbl db1 db3.
Proof.
  intros [->|[Hc ->]] H2; [done|]. destruct H2 as [->|[Hc' _]]; [by right|]. exfalso.
  destruct (cl_file _ _ _ Hc) as (b & t & fl & v & Hb & Hr). destruct (opn_eq name tbl db1 b t fl v Hc Hb Hr) as [E _].
  pose proof (cl_tbls _ _ _ Hc') as E'. rewrite E in E'. cbn in E'. by apply map_non_empty_singleton in E'.
Qed.

(** A commit without pages is written to the log alone. *)
Lemma commitTx_nothing xid w : ∃ r w', ∀ db, wal db = w → commitTx xid ∅ db = (r, set_wal w' db).
Proof.
  unfold commitTx. rewrite map_to_list_empty. cbn [fmap list_fmap]. rewrite !map_order_nil. cbn [log_pagers flush_pagers].
  destruct (AppendCommit xid w) as [r1 w1] eqn:E1. destruct (wal_Sync w1) as [r2 w2] eqn:E2.
  destruct r1 as [a|e| |]; [|eexists _, w1; intros db <-; unfold mbind, M_bind, mret, M_ret, on_wal; by rewrite E1..].
  destruct r2 as [u|e| |]; (eexists _, w2; intros db <-; unfold mbind, M_bind, mret, M_ret, on_wal; rewrite E1; cbn [wal set_wal]; by rewrite E2).
Qed.

Lemma crash_dir_failing wb fb db : crash_dir (failing wb fb db) = crash_dir db.
Proof.
  unfold crash_dir. change (open_files (failing wb fb db)) with (open_files db). change (dir (failing wb fb db)) with (dir db).
  induction (open_files db) as [|[path fid] l IH]; [done|]. cbn [foldr fst snd]. rewrite IH. cbn. rewrite map_lookup_imap.
  by destruct (files (pool db) !! fid).
Qed.

Lemma tracks_failing wb fb db db' w : tracks name tbl db db' →
  crash_image (set_wal w (failing wb fb db')) = crash_image (set_wal w (failing wb fb db)).
Proof.
  intros Ht. pose proof (tracks_image db db' Ht) as E. unfold crash_image in *. injection E as E1 E2 E3 E4.
  change (crash_dir (set_wal w ?d)) with (crash_dir d). rewrite !crash_dir_failing, E1. cbn. by rewrite E3, E4.
Qed.

(** So the devices hold the same, whether the file was open or not. *)
Lemma tracks_crash wb fb db db' : tracks name tbl db db' →
  let c := execCommit gid (failing wb fb db) in let c' := execCommit gid (failing wb fb db') in
  is_ok c.1 = is_ok c'.1 ∧ crash_image c'.2 = crash_image c.2.
Proof.
  intros Ht'. pose proof Ht' as [->|[Hc ->]]; [done|]. cbv zeta.
  destruct (opn_same name tbl db Hc) as [_ _ _ Ew _ Et].
  assert (wal (failing wb fb (opn name db)) = wal (failing wb fb db)) as Ew' by (cbn; by rewrite Ew).
  assert (goroutineTx gid (failing wb fb (opn name db)) = goroutineTx gid (failing wb fb db)) as Eg by (unfold goroutineTx; cbn; by rewrite Et).
  destruct (goroutineTx gid (failing wb fb db)) as [tx|] eqn:Etx.
  - destruct (execCommit_run gid _ _ Etx) as [-> ->], (execCommit_run gid _ _ Eg) as [-> ->].
    rewrite (cl_txns _ _ _ Hc gid tx Etx). destruct (commitTx_nothing (tx_xid tx) (wal (failing wb fb db))) as (r & w & E).
    rewrite (E (clearGoroutineTx gid (failing wb fb db)) eq_refl), (E (clearGoroutineTx gid (failing wb fb (opn name db))) Ew'). split; [done|].
    cbn [fst snd]. pose proof (tracks_failing wb fb db (opn name db) w Ht') as Ei. destruct (is_ok r); exact Ei.
  - unfold execCommit. rewrite (M_bind_Ok get_state _ (failing wb fb db) _ _ eq_refl), (M_bind_Ok get_state _ (failing wb fb (opn name db)) _ _ eq_refl).
    rewrite Etx, Eg. split; [done|]. cbn [fail snd]. pose proof (tracks_failing wb fb db (opn name db) (wal (failing wb fb db)) Ht') as Ei.
    unfold crash_image in Ei |- *. cbn in Ei |- *. rewrite Ew. exact Ei.
Qed.

Lemma end_with_tracks e db db' ok d' : tracks name tbl db db' → end_with gid join sched e db' = (ok, Ok d') →
  ∃ d, end_with gid join sched e db = (ok, Ok d) ∧ tracks name tbl d d'.
Proof.
  intros Ht E. destruct e as [| |wb fb]; cbn [end_with] in *.
  - destruct (execCommit gid db') as [r d1] eqn:E1. injection E as <- <-.
    destruct (lazy_tracks name tbl _ _ _ _ _ (lazy_commit name tbl gid) Ht E1) as (d & -> & Hd). eauto.
  - destruct (execRollback gid db') as [r d1] eqn:E1. injection E as <- <-.
    destruct (lazy_tracks name tbl _ _ _ _ _ (lazy_rollback name tbl gid) Ht E1) as (d & -> & Hd). eauto.
  - destruct (tracks_crash wb fb db db' Ht) as [Er Ei]. destruct (execCommit gid (failing wb fb db)) as [r d1], (execCommit gid (failing wb fb db')) as [r' d1'].
    cbn [fst snd] in *. injection E as <- E. exists d'. unfold restart in *. rewrite Er, <-Ei, E. split; [done|by left].
Qed.

Lemma stays_tracks db db' kvs n : tracks name tbl db db' → table_stays db' kvs n → table_stays db kvs n.
Proof. intros Ht (d & fid & rs & Hd & Hl). exists d, fid, rs. split; [by eapply tracks_trans|done]. Qed.

Lemma lasts_stays db fid kvs rs n : table_lasts join gid db name tbl fid kvs rs n → table_stays db kvs n.
Proof. intros Hl. exists db, fid, rs. split; [by left|done]. Qed.
End stays.

(** ** Every run is one of the specification *)

Section refines.
Context `{Unicode} `{Math} `{HO : MapOrder} (growcap : nat → nat) (gid : Z) (fuel tfuel depth : nat).
Context (join : string → string) (sched : images → list (list byte * list (Z * list byte))) (name : string) (tbl : Table).
Hypothesis Htf : (32 ≤ tfuel)%nat.
Hypothesis Hsched : ∀ m, by_table m (sched m).
Notation stays := (table_stays join gid name tbl).

Lemma transaction_lasts db fid kvs rs n B sts e :
  table_lasts join gid db name tbl fid kvs rs n → event_ok name fuel B (Transaction sts e) →
  (length kvs + length sts ≤ B)%nat → Z.of_nat (length sts * B) + 2 < n →
  ∃ answers db1 ok db' kvs' after,
    exec_statements growcap gid fuel tfuel depth (BeginStmt :: sts) db = (Ok (message "BEGIN") :: answers, db1) ∧
    end_with gid join sched e db1 = (ok, Ok db') ∧
    table_run tbl sts (visible_rows (snap_now db) tbl kvs) answers after ∧
    kept e ok (visible_rows (snap_now db) tbl kvs) after (visible_rows (snap_now db') tbl kvs') ∧
    stays db' kvs' (n - (Z.of_nat (length sts * B) + 2)) ∧
    (length kvs' ≤ length kvs + length sts)%nat.
Proof using Htf Hsched.
  intros Hl [Hsup Hfuel] Hlen Hn. set (k := Z.of_nat (length sts * B) + 2) in *.
  destruct (transaction_runs growcap gid fuel tfuel depth db name tbl fid kvs rs n B sts (tl_holds _ _ _ _ _ _ _ _ _ Hl)
    Htf Hlen Hn Hsup Hfuel)
    as (answers & db1 & kvs1 & v0 & db0 & r & rs1 & E1 & Hrun & Hv0 & Hrest & Em & Er & EL & EX & Hlog & Hlen1 & Hh). fold k in Hh. subst r.
  destruct (commit_pages gid name tbl fid _ v0 kvs db0 db1 kvs1 _ _ Hh ltac:(lia)) as (pagers & _ & _ & v & _ & Htx & Hview & _).
  set (after := visible_rows (tx_snap_now (nextXID (wal db)) db1) tbl kvs1) in *.
  replace (n - k) with (n - k + 1 - 1) by lia. destruct e as [| |wb fb].
  - destruct (commit_lasts join gid db db0 db1 name tbl fid kvs kvs1 rs rs1 n (n - k + 1) v0 Hl Hv0 Hrest Em EL EX Hlog Hh ltac:(lia)
      (clearGoroutineTx gid db1) pagers _ v ltac:(done) Htx Hview eq_refl) as (db2 & rs2 & E2 & Hl2 & Hv2).
    exists answers, db1, true, db2, kvs1, after. split_and!; try done; [cbn [end_with]; by rewrite E2|by eapply lasts_stays].
  - destruct (rollback_lasts join gid db db0 db1 name tbl fid kvs kvs1 rs rs1 n (n - k + 1) v0 Hl Hv0 Hrest Em EL EX Hlog Hh ltac:(lia))
      as (db3 & rs3 & E3 & Hl3 & Hv3).
    exists answers, db1, true, db3, kvs, after. split_and!; try done; [cbn [end_with]; by rewrite E3|by eapply lasts_stays|lia].
  - destruct (crash_lasts join gid db db0 db1 name tbl fid kvs kvs1 rs rs1 n (n - k + 1) v0 Hl Hv0 Hrest Em EL EX Hlog Hh ltac:(lia)
      (clearGoroutineTx gid (failing wb fb db1)) pagers _ v (failing_device gid wb fb db1) Htx Hview sched Hsched)
      as (durable & db3 & img & rs4 & Hack & EO & Hc3 & Hl4 & Hv4).
    destruct (execCommit_run gid (failing wb fb db1) _ Htx) as [Eok E2]. cbn [tx_xid tx_pagers] in Eok, E2.
    set (c := commitTx (nextXID (wal db)) pagers (clearGoroutineTx gid (failing wb fb db1))) in *.
    assert (crash_image (execCommit gid (failing wb fb db1)).2 = crash_image c.2) as Eimg by (rewrite E2; by destruct (is_ok c.1)).
    exists answers, db1, (is_ok c.1), db3, (if durable then kvs1 else kvs), after. split_and!; try done.
    + cbn [end_with]. rewrite (surjective_pairing (execCommit gid (failing wb fb db1))), Eok. unfold restart. by rewrite Eimg, EO.
    + cbn [kept]. rewrite Hv4. destruct durable; [by left|]. right. split; [|done]. destruct (is_ok c.1); [by specialize (Hack eq_refl)|done].
    + exists (opn name db3), 0, rs4. split; [by right|by apply Hl4].
    + destruct durable; lia.
Qed.

Lemma auto_commit_lasts db fid kvs rs n B st :
  table_lasts join gid db name tbl fid kvs rs n → event_ok name fuel B (AutoCommit st) →
  (length kvs < B)%nat → 2 * Z.of_nat B + 2 < n →
  ∃ a db' kvs' rs', exec_statement growcap gid fuel tfuel (S depth) st db = (a, db') ∧
    table_step tbl st (visible_rows (snap_now db) tbl kvs) a (visible_rows (snap_now db') tbl kvs') ∧
    table_lasts join gid db' name tbl fid kvs' rs' (n - (2 * Z.of_nat B + 2)) ∧ (length kvs' ≤ S (length kvs))%nat.
Proof using Htf.
  intros Hl [Hsup Hfuel] Hlen Hn. pose proof (Z.div_mod n 2 ltac:(lia)). pose proof (Z.mod_pos_bound n 2 ltac:(lia)).
  destruct (statement_ok growcap gid fuel tfuel depth Htf name tbl _ snap_now (HR := lasting_state join gid name tbl fid) db kvs rs (n / 2) B st)
    as (a & db' & kvs' & _ & E & Hstep & (rs' & Hl') & Hlen'); [exists rs; eapply lasts_weaken; [exact Hl|lia]|done|lia|done..|].
  exists a, db', kvs', rs'. split_and!; try done. eapply lasts_weaken; [exact Hl'|lia].
Qed.

Lemma stop_lasts db fid kvs rs n : table_lasts join gid db name tbl fid kvs rs n → 0 < n →
  ∃ db', restart join sched db = Ok db' ∧ stays db' kvs n ∧
    visible_rows (snap_now db') tbl kvs = visible_rows (snap_now db) tbl kvs.
Proof using HO Hsched.
  intros Hl Hn. destruct (rest_lasts join gid db name tbl fid kvs rs n sched Hl Hn Hsched) as (db3 & img & EO & Hc3 & Hl4 & Hv4).
  exists db3. split_and!; [unfold restart; by rewrite EO| |done]. exists (opn name db3), 0, rs. split; [by right|done].
Qed.

(** An event takes the rows it finds to those the specification leaves. *)
Lemma event_stays ev h db kvs n B : stays db kvs n → event_ok name fuel B ev → (length kvs + event_length ev ≤ B)%nat → event_cost B ev < n →
  ∃ out db' kvs', run_history growcap gid fuel tfuel depth join sched (ev :: h) db =
      ('(outs, db) ← run_history growcap gid fuel tfuel depth join sched h db'; Ok (out :: outs, db)) ∧
    event_step tbl ev (visible_rows (snap_now db) tbl kvs) out (visible_rows (snap_now db') tbl kvs') ∧
    stays db' kvs' (n - event_cost B ev) ∧ (length kvs' ≤ length kvs + event_length ev)%nat.
Proof using Htf Hsched.
  intros (d & fid & rs & Ht & Hl) Hok Hlen Hn. rewrite <-(tracks_snap name tbl db d Ht). destruct ev as [st|sts e|]; cbn [event_length event_cost] in *.
  - destruct (auto_commit_lasts d fid kvs rs n B st Hl Hok ltac:(lia) ltac:(lia)) as (a & d' & kvs' & rs' & E & Hstep & Hl' & Hlen').
    destruct (lazy_tracks name tbl _ _ _ _ _ (lazy_statement growcap gid fuel tfuel name tbl depth st (or_introl (proj1 Hok))) Ht E) as (db' & E' & Ht').
    exists ([a], is_ok a), db', kvs'. cbn [run_history]. rewrite E'. split_and!; [done| |by exists d', fid, rs'|lia].
    rewrite <-(tracks_snap name tbl db' d' Ht'). by constructor.
  - destruct (transaction_lasts d fid kvs rs n B sts e Hl Hok Hlen Hn)
      as (answers & d1 & ok & d' & kvs' & after & E1 & E2 & Hrun & Hkept & Hs' & Hlen').
    destruct (lazy_statements growcap gid fuel tfuel name tbl depth (BeginStmt :: sts)) with (db := db) (db' := d) (answers := Ok (message "BEGIN") :: answers) (d' := d1)
      as (db1 & E1' & Ht1); [constructor; [by right|eapply Forall_impl; [exact (proj1 Hok)|by left]]|done..|].
    destruct (end_with_tracks join sched gid name tbl e db1 d1 ok d' Ht1 E2) as (db' & E2' & Ht').
    exists (Ok (message "BEGIN") :: answers, ok), db', kvs'. cbn [run_history]. rewrite E1', E2'.
    split_and!; [done| |by eapply stays_tracks|done]. rewrite <-(tracks_snap name tbl db' d' Ht'). by econstructor.
  - destruct (stop_lasts d fid kvs rs n Hl ltac:(lia)) as (d' & E & Hs' & Hv).
    exists ([], true), d', kvs. unfold restart in E. rewrite (tracks_image name tbl db d Ht) in E. cbn [run_history]. unfold restart. rewrite E, Hv, Z.sub_0_r.
    split_and!; [done|constructor|done|lia].
Qed.
(** A history does. *)
Lemma history_stays h db kvs n B : stays db kvs n → Forall (event_ok name fuel B) h → (length kvs + history_length h ≤ B)%nat → history_cost B h < n →
  ∃ outs db' kvs', run_history growcap gid fuel tfuel depth join sched h db = Ok (outs, db') ∧
    history_run tbl h (visible_rows (snap_now db) tbl kvs) outs (visible_rows (snap_now db') tbl kvs') ∧
    stays db' kvs' (n - history_cost B h).
Proof using Htf Hsched.
  intros Hs Hh Hlen Hn. revert db kvs n Hs Hlen Hn.
  induction Hh as [|ev h Hev Hh IH]; intros db kvs n Hs Hlen Hn.
  { exists [], db, kvs. split; [done|]. split; [constructor|]. cbn. by rewrite Z.sub_0_r. }
  assert (0 ≤ history_cost B h) as Hcost by (clear; unfold history_cost; induction h as [|[] h IH]; cbn [foldr event_cost]; lia).
  change (history_cost B (ev :: h)) with (event_cost B ev + history_cost B h) in *.
  change (history_length (ev :: h)) with (event_length ev + history_length h)%nat in *.
  destruct (event_stays ev h db kvs n B Hs Hev ltac:(lia) ltac:(lia)) as (out & db1 & kvs1 & E1 & Hstep & Hs1 & Hlen1).
  destruct (IH db1 kvs1 _ Hs1 ltac:(lia) ltac:(lia)) as (outs & db2 & kvs2 & E2 & Hrun2 & Hs2).
  eexists _, db2, kvs2. split; [|split].
  - rewrite E1, E2. done.
  - by econstructor.
  - by rewrite Z.sub_add_distr.
Qed.
End refines.

(** C2. Any history of a table without secondary indexes is a run of the
    specification on the list of its rows: INSERT, DELETE, UPDATE and SELECT
    statements of one goroutine on this table, erroneous ones included, on their
    own and in transactions, the transactions ended with COMMIT, with ROLLBACK,
    or cut off in the middle of a COMMIT after any number of writes to the log
    and to each file, and stops of the process in between. After a restart the
    table has the rows of everything that has committed; of a transaction that
    was cut off it has all changes or none, all of them if its COMMIT was
    reported; and the history goes on from there. The scope is that of
    [supported]: literals as the parser makes them, no subqueries, no joins, and
    no comparison of two columns in the WHERE clause of a SELECT; in the
    specification, as in the code, a condition on a column that the table does
    not have, and in DELETE and UPDATE one between two columns, counts as
    satisfied. The name of the table's file has at most 32 bytes, and the
    database has pages, log records and identifiers for [history_cost] more
    changes. *)
Theorem history_refines `{Unicode} `{Math} `{MapOrder} growcap gid fuel tfuel depth join sched db name tbl kvs n B h :
  table_stays join gid name tbl db kvs n → (∀ m, by_table m (sched m)) → (32 ≤ tfuel)%nat →
  Forall (event_ok name fuel B) h → (length kvs + history_length h ≤ B)%nat → history_cost B h < n →
  ∃ outs db' kvs', run_history growcap gid fuel tfuel depth join sched h db = Ok (outs, db') ∧
    history_run tbl h (visible_rows (snap_now db) tbl kvs) outs (visible_rows (snap_now db') tbl kvs') ∧
    table_stays join gid name tbl db' kvs' (n - history_cost B h).
Proof.
  intros Hs Hsched Htf. by apply history_stays.
Qed.

(** ** A concrete history *)

#[local] Existing Instance no_tables.
#[local] Existing Instance some_math.
#[local] Existing Instance script_order.

(** Ada's database with its catalog on disk. *)
Definition ada_lasting_db (bt : BTree BufPager) : DB := set_cat (Catalog.CreateTable id people Catalog.New).2 (ada_log_db bt).

Lemma ada_open_file bt : open_files (ada_lasting_db bt) = [(people_file, bp_fid (pg bt))].
Proof.
  unfold open_files. change (openTbls (ada_lasting_db bt)) with ({["people"%string := bp_fid (pg bt)]} : gmap string Z).
  change (openIdxs (ada_lasting_db bt)) with (∅ : gmap string Z). by rewrite map_to_list_singleton, map_to_list_empty.
Qed.

Lemma ada_lasting_db_ok bt h : headerPage bt = 1 → tree_rep true bt h [ada_entry] → db_ok (ada_lasting_db bt) ada_log.
Proof.
  intros Hh Ht. destruct (ada_file bt h Hh Ht) as (pg0 & t & fl & v & Hf & _ & Hr & _).
  change (pool (ada_tx_db bt)) with (pool (ada_lasting_db bt)) in Hf. split; rewrite ?ada_open_file.
  - split; [done|done|]. constructor; [|constructor; [|constructor]]; apply log_rec_wf; (done || lia).
  - cbn. repeat constructor.
  - constructor; [|constructor; [|constructor]]; cbn; lia.
  - cbn. lia.
  - intros r [->|[->|[]%elem_of_nil]%elem_of_cons]%elem_of_cons; done.
  - apply NoDup_singleton.
  - apply NoDup_singleton.
  - apply Forall_singleton. eauto.
  - intros path b Hb. unfold crash_dir in Hb. rewrite ada_open_file in Hb. cbn [foldr fst snd] in Hb. rewrite Hf in Hb.
    apply lookup_insert_Some in Hb as [[<- <-]|[_ Hb]]; [|discriminate Hb]. exists t, fl, v. split; [exact Hr|]. intros id r Hl. discriminate Hl.
Qed.

Lemma ada_lasts bt h : headerPage bt = 1 → tree_rep true bt h [ada_entry] → 3300 ≤ ps_room (pg bt) →
  table_lasts id 1 (ada_lasting_db bt) "people" people (bp_fid (pg bt)) [ada_entry] ada_log 100.
Proof.
  intros Hh Ht Hroom. destruct (ada_table_holds bt h Hh Ht Hroom) as [[] ? ? ? ? ?]. split.
  - split; [|done..]. split; try done.
  - exact (ada_lasting_db_ok bt h Hh Ht).
  - intros x. cbn. set_solver.
  - reflexivity.
  - reflexivity.
  - constructor; [|constructor; [|constructor]]; cbn; lia.
  - eexists. split; [vm_compute; reflexivity|]. split; vm_compute; reflexivity.
  - eexists. reflexivity.
  - reflexivity.
  - reflexivity.
Qed.

(** Bob joins and Ada has a birthday, in a transaction; the process stops; Bob
    leaves; then a look at the table and a deletion of everything, with a log
    that takes no more writes. *)
Definition ada_history : list event :=
  [Transaction ada_tx ECommit; Stop;
   AutoCommit (DeleteStmt "people" (Some (mkWhere [[cond_val "name" OpEq (VText "Bob")]])));
   Transaction [SelectStatement ada_query; DeleteStmt "people" None] (ECrash (Some 0%nat) (λ _, None))].

Lemma ada_history_ok : Forall (event_ok "people" 100 7) ada_history.
Proof.
  destruct ada_tx_supported as [Hs _]. constructor; [|constructor; [done|constructor; [|constructor; [|constructor]]]].
  - split; [exact Hs|]. repeat constructor; vm_compute; lia.
  - split; [split; [done|]|vm_compute; lia]. intros w [= <-]. repeat constructor.
  - unfold ada_tx in Hs. apply Forall_cons in Hs as [_ Hs]. apply Forall_cons in Hs as [_ Hs].
    split; [constructor; [by apply Forall_cons in Hs as [? _]|]; repeat constructor; by intros ? [=]|].
    repeat constructor; vm_compute; lia.
Qed.

Lemma history_refines_witness : ∃ db outs db' kvs',
  run_history id 1 100 32 0 id by_file ada_history db = Ok (outs, db') ∧
  (visible_rows (snap_now db') people kvs' = [] ∨
   visible_rows (snap_now db') people kvs' = [(7, [VInt 7; VText "Ada"; VInt 37])]).
Proof.
  destruct ada_tree_room as (bt & h & Hh & Ht & Hroom).
  destruct (history_refines id 1 100 32 0 id by_file (ada_lasting_db bt) "people" people [ada_entry] 100 7 ada_history)
    as (outs & db' & kvs' & E & Hrun & _).
  - eapply lasts_stays, (ada_lasts bt h Hh Ht Hroom).
  - exact by_file_ok.
  - lia.
  - exact ada_history_ok.
  - cbn. lia.
  - cbn. lia.
  - exists (ada_lasting_db bt), outs, db', kvs'. split; [exact E|]. change (snap_now (ada_lasting_db bt)) with (snap_now (ada_log_db bt)) in Hrun.
    rewrite ada_visible_rows in Hrun.
    inversion Hrun as [|? ? ? ? T1 ? ? S1 R1]; subst. inversion S1 as [|? ? ? ? ? ? ? H1 K1|]; subst. apply ada_tx_after in H1 as ->. destruct K1 as [_ ->].
    inversion R1 as [|? ? ? ? T2 ? ? S2 R2]; subst. inversion S2; subst.
    inversion R2 as [|? ? ? ? T3 ? ? S3 R3]; subst. inversion S3 as [? ? ? ? H3| |]; subst. apply delete_step_inv in H3 as [_ ->].
    inversion R3 as [|? ? ? ? T4 ? ? S4 R4]; subst. inversion R4; subst. inversion S4 as [|? ? ? ? ? ? ? H4 K4|]; subst.
    inversion H4 as [|? ? ? a5 T5 l5 ? U5 N5]; subst. inversion U5; subst.
    inversion N5 as [|? ? ? a6 T6 l6 ? U6 N6]; subst. inversion N6; subst. apply delete_step_inv in U6 as [_ ->].
    destruct K4 as [->|[_ ->]]; [left|right]; reflexivity.
Defined.
