(* ===== verification/Creation.v ===== *)
(** * Creation: a table from its CREATE TABLE on

    CREATE TABLE makes the table's file with an empty tree and saves the catalog.
    A database that has been opened in an empty directory and has then created the
    table has the table that [Histories] goes on from, with no rows. *)
From S2P Require Import Prelude Disk Storage Store Pager Mvcc TxPager BufferPool Node BTree Transaction.
From S2P Require Import Wal GoLib Catalog Rows Ast Eval Agg Stats Planner Db Frame Sample Operators Plans Volcano Queries.
From S2P Require Import Select Dml Exec Durability Writes Tables Inserts Changes Statements Txns Lazy Restart Lasting Histories.
From stdpp Require Import options.
Local Open Scope Z_scope.

(** ** The file *)

Lemma Close_writes_meta pg v : pager_rep pg v → ∃ pg', Pager.Close pg = (Ok tt, pg') ∧ disk_rep (f_bytes (Pager.file pg')) (totalPages pg) (freeList pg) v.
Proof.
  intros [Hf Hr]. pose proof Hr as [Ht Hlen Hnd Hfree Hcap Hmeta Hpages Hview]. set (p := meta_page (totalPages pg) (freeList pg)).
  assert (page_wf p) as Hp by by apply meta_page_wf.
  assert (∀ id, 0 < id < totalPages pg → disk_data (write_page p (f_bytes (Pager.file pg))) id = disk_data (f_bytes (Pager.file pg)) id) as E.
  { intros id Hid. apply disk_data_write_ne; [done|cbn; unfold metaPageID; lia|lia|]. apply (in_file _ _ _ _ id Hr). lia. }
  assert (flushMeta pg = (Ok tt, set_file (OpenFile (write_page p (f_bytes (Pager.file pg)))) pg)) as Ef by (by rewrite flushMeta_ok, WritePage_ok by done).
  unfold Pager.Close. rewrite (M_bind_Ok _ _ _ _ _ Ef). eexists. split; [reflexivity|]. cbn [Pager.file set_file CloseFile f_bytes OpenFile]. split; try done.
  - pose proof (length_write_page p (f_bytes (Pager.file pg)) (wf_data _ Hp)). lia.
  - intros id Hid. destruct (Hfree id Hid) as [? ?]. by rewrite E.
  - by apply (disk_data_write_eq p).
  - intros id Hid. rewrite E by done. by apply Hpages.
  - intros id. rewrite Hview. case_decide as Hc; [|done]. by rewrite E by apply Hc.
Qed.

(** The file of a new table: its tree is empty, and its header is page 1. *)
Lemma new_file : ∃ pg0 fl0 root pg1 pg2 v, Pager.Open [] = (Ok pg0, fl0) ∧ BTree.Create pg0 = (Ok (1, root), pg1) ∧ Pager.Close pg1 = (Ok tt, pg2) ∧
  disk_rep (f_bytes (Pager.file pg2)) (totalPages pg1) (freeList pg1) v ∧ holds_tree v 1 root [] ∧
  Z.of_nat (length (freeList pg1)) + (2 ^ 32 - 1 - totalPages pg1) = 2 ^ 32 - 4.
Proof.
  rewrite Open_new. set (pg0 := mkPager _ 1 []). assert (ps_rep pg0 ∅) as Hr0 by (split; [done|apply disk_rep_new]).
  destruct (Create_ok pg0 ∅ Hr0) as (hd & root & pg1 & E & (v & fl & fp & Hv & Hrep & Hfp & Hhd) & Hroom); [by vm_compute|].
  assert (hd = 1) as ->.
  { pose proof (Create_first _ _ _ _ E) as E1. change (ps_alloc pg0) with (Pager.AllocatePage pg0) in E1.
    rewrite (AllocatePage_extend pg0) in E1 by done. by injection E1. }
  cbn [pg rootID headerPage] in *. destruct (Close_writes_meta pg1 v Hv) as (pg2 & E2 & Hr2).
  eexists pg0, _, root, pg1, pg2, v. split_and!; [done|done|done|done| |].
  - exists false, 0%nat, fl, fp. split_and!; [done|by right|done|done].
  - change (ps_room pg1) with (pager_room pg1) in Hroom. change (ps_room pg0) with (2 ^ 32 - 2) in Hroom. unfold pager_room in Hroom. lia.
Qed.

(** ** The statement *)

Section creation.
Context `{HU : Unicode} `{HM : Math} `{HO : MapOrder} (growcap : nat → nat) (gid : Z) (fuel tfuel depth : nat).
Context (join : string → string) (sched : images → list (list byte * list (Z * list byte))).

Definition empty_image : Image := mkImage ∅ [] None None.

(** The database that is opened in an empty directory. *)
Definition new_db : DB := mkDB ∅ Catalog.New NewStatsDB None (Wal.Open []) (BufferPool.New DefaultCapacity) Mvcc.New ∅ ∅ ∅ [].

Lemma new_log : Wal.Open [] = mkWAL (OpenFile []) 0 1 1.
Proof using Type. apply (Open_log [] [] (Forall_nil_2 _)). left. cbn. rec_lia. Qed.

Lemma new_records : readAllLocked (Wal.Open []) = Ok [].
Proof using Type.
  rewrite new_log. apply (readAll_ok _ []). split; [done|by exists []|done|constructor].
Qed.

Lemma new_opens : ∃ img, Exec.Open join sched empty_image = (Ok new_db, img).
Proof using Type.
  unfold Exec.Open, empty_image. cbn [i_wal i_dir i_catalog i_stats]. unfold Recover, CommittedXIDs. rewrite new_records.
  eexists. unfold new_db. M_run. cbn. rewrite elements_empty. reflexivity.
Qed.

(** The table in the catalog, in memory and on disk. *)
Lemma new_catalog name cols : table_fits (mkTable name cols []) → let tbl := mkTable name cols [] in
  ∃ c, Catalog.CreateTable (map_order 5) tbl Catalog.New = (Ok tt, c) ∧ GetTable name c = Some tbl ∧
    Load (join "catalog") (Catalog.file c) = Ok c.
Proof using Type.
  intros Hf tbl. set (b := Catalog.serialize [tbl]). set (c := add_table tbl (mkCatalog ∅ ∅ [] (Some b))). exists c.
  assert (Catalog.CreateTable (map_order 5) tbl Catalog.New = (Ok tt, c)) as E.
  { unfold Catalog.CreateTable, Save. M_run. cbn [tables Catalog.New tbl TName Columns Indexes arrays length]. rewrite lookup_empty.
    f_equal. unfold Tables. cbn [tables]. rewrite insert_empty, map_to_list_singleton. cbn [fmap list_fmap].
    assert (∀ t : Table, map_order 5 [t] = [t]) as -> by (intros t; apply Permutation_singleton_r, map_order_perm). reflexivity. }
  split; [exact E|]. split; [|apply Load_single; [done|constructor]].
  unfold GetTable, c, add_table. cbn [tables TName tbl]. rewrite lookup_insert_eq. reflexivity.
Qed.

(** CREATE TABLE in a new database. *)
Lemma create_stays name cols k : let tbl := mkTable name cols [] in table_def name tbl → table_fits tbl → 0 ≤ k ≤ 2 ^ 26 →
  ∃ db, execCreate name cols new_db = (Ok (message ("table " +:+ fmt_q name +:+ " created")%string), db) ∧
    snap_now db = snap_now new_db ∧ table_stays join gid name tbl db [] k.
Proof using Type.
  intros tbl Hd Hf Hk. destruct (new_catalog name cols Hf) as (c & Ec & EG & EL). cbv zeta in *. fold tbl in Ec, EG.
  destruct new_file as (pg0 & fl0 & root & pg1 & pg2 & v & Eo & Ecr & Ecl & Hr & Ht & Hroom). set (b := f_bytes (Pager.file pg2)) in *.
  set (db := mkDB {[table_file name := b]} c NewStatsDB None (Wal.Open []) (BufferPool.New DefaultCapacity) Mvcc.New ∅ ∅ ∅ []).
  exists db. split; [|split; [done|]].
  - unfold execCreate, create_file. M_run. fold tbl. rewrite (td_valid _ _ Hd). unfold read_file. cbn [registry openTbls new_db]. rewrite lookup_empty.
    cbn [mbind option_bind]. cbn [dir new_db]. rewrite lookup_empty. cbn [default from_option id]. rewrite Eo. unfold wrap. rewrite Ecr. cbn [wrap_err].
    rewrite Ecl. unfold write_file. cbn [registry openTbls new_db]. rewrite lookup_empty. unfold on_cat. cbn [cat set_dir new_db]. rewrite Ec. reflexivity.
  - destruct (opened_lasts join name tbl [] [] k {[table_file name := b]} c NewStatsDB None b (totalPages pg1) (freeList pg1) v root Hd EG) as [Hc Hl];
      [eauto|by eexists|constructor|by rewrite lookup_singleton_eq|exact Hr|exact Ht|lia|cbn; lia|cbn; lia|constructor|constructor|..].
    + intros db4 Ew EO Hf4 Ed. change (log_bytes []) with (@nil byte) in Ew. split; rewrite ?Ew, ?new_log, ?EO.
      * by split.
      * constructor.
      * constructor.
      * cbn. lia.
      * intros r []%elem_of_nil.
      * apply NoDup_singleton.
      * apply NoDup_singleton.
      * by rewrite <-EO.
      * intros path b4 Hb4. rewrite Ed in Hb4. apply lookup_singleton_Some in Hb4 as [<- <-]. exists (totalPages pg1), (freeList pg1), v.
        split; [exact Hr|]. intros id r Hl. discriminate Hl.
    + exists (opn name db), 0, []. split; [by right|apply Hl].
Qed.

(** ** Runs from nothing *)

(** The answer to CREATE TABLE in an empty directory, and those of the history
    that follows. *)
Definition from_scratch (name : string) (cols : list ColumnDef) (h : list event) : res (res Result * list (list (res Result) * bool)) :=
  db ← (Exec.Open join sched empty_image).1;
  let '(r, db) := exec_statement growcap gid fuel tfuel (S depth) (CreateTableStmt name cols) db in
  '(outs, _) ← run_history growcap gid fuel tfuel depth join sched h db;
  Ok (r, outs).
End creation.

(** C1. From an empty directory on: create a table whose schema the code
    accepts, with a primary key and without secondary indexes, and run any
    history on it. A history consists of INSERT, DELETE, UPDATE and SELECT
    statements of one goroutine on this table alone, with literals as the parser
    makes them (64-bit numbers and text), erroneous ones included, on their own
    and in transactions; the transactions are ended with COMMIT, with ROLLBACK,
    or cut off in the middle of a COMMIT after any number of writes to the log
    and to each file; in between the process may be stopped and started again.
    Every statement gives the answer that the specification gives for a list of
    rows that is empty at first: the rows after a restart are those of
    everything that has committed, and of a transaction that was cut off all
    changes or none, all of them if its COMMIT was reported. Not in the scope
    are clauses with subqueries, a WHERE clause of a SELECT that compares two
    columns (finding: with the primary key it is misread), joins, ANALYZE,
    EXPLAIN and further DDL. In the specification, as in the code, a condition
    of a WHERE clause on a column that the table does not have, and in DELETE
    and UPDATE one between two columns, counts as satisfied. Bounds: names and
    column counts below 256, column names that differ by more than case, the
    name of the table's file, which the log keeps, within 32 bytes,
    [history_cost] below 2^26 so that pages, records and identifiers last, and
    the fuel of the bounds [B] and [fuel]. *)
Theorem from_scratch_refines `{Unicode} `{Math} `{MapOrder} growcap gid fuel tfuel depth join sched name cols B h :
  let tbl := mkTable name cols [] in
  table_def name tbl → table_fits tbl → (∀ m, by_table m (sched m)) → (32 ≤ tfuel)%nat →
  Forall (event_ok name fuel B) h → (history_length h ≤ B)%nat → history_cost B h < 2 ^ 26 →
  ∃ outs T, from_scratch growcap gid fuel tfuel depth join sched name cols h =
      Ok (Ok (message ("table " +:+ fmt_q name +:+ " created")%string), outs) ∧
    history_run tbl h [] outs T.
Proof.
  intros tbl Hd Hf Hsched Htf Hh Hlen Hcost. destruct (new_opens join sched) as (img & EO).
  destruct (create_stays gid join name cols (2 ^ 26) Hd Hf ltac:(lia)) as (db & E & Es & Hs).
  destruct (history_stays growcap gid fuel tfuel depth join sched name tbl Htf Hsched h db [] (2 ^ 26) B Hs Hh Hlen Hcost)
    as (outs & db' & kvs' & Er & Hrun & _).
  exists outs. eexists. split; [|exact Hrun]. unfold from_scratch. rewrite EO. cbn [fst mbind res_bind exec_statement]. by rewrite E, Er.
Qed.

(** ** A concrete run *)

#[local] Existing Instance no_tables.
#[local] Existing Instance some_math.
#[local] Existing Instance script_order.

(** Bob joins; the process stops; everything is deleted in a transaction whose
    COMMIT is cut off; and a look at the table. *)
Definition bob_history : list event :=
  [AutoCommit (InsertStmt "people" bob); Stop;
   Transaction [DeleteStmt "people" None] (ECrash (Some 1%nat) (λ _, Some 0%nat));
   AutoCommit (SelectStatement ada_query)].

Lemma bob_history_ok : Forall (event_ok "people" 100 3) bob_history.
Proof.
  destruct ada_tx_supported as [Hs _]. unfold ada_tx in Hs. apply Forall_cons in Hs as [Hi Hs]. apply Forall_cons in Hs as [_ Hs].
  apply Forall_cons in Hs as [Hq _]. constructor; [|constructor; [done|constructor; [|constructor; [|constructor]]]].
  - split; [exact Hi|vm_compute; lia].
  - split; (constructor; [|constructor]); [split; [done|by intros w [=]]|vm_compute; lia].
  - split; [exact Hq|vm_compute; lia].
Qed.

Lemma people_def : table_def "people" people.
Proof. split; try reflexivity; [|by eexists]. vm_compute. repeat constructor; set_solver. Qed.

Lemma people_fits : table_fits people.
Proof. split; cbn; try lia; repeat (apply Forall_cons_2; [split; vm_compute; (lia || done)|]); constructor. Qed.

Lemma from_scratch_refines_witness : ∃ outs,
  from_scratch id 1 100 32 0 id by_file "people" (Columns people) bob_history = Ok (Ok (message ("table " +:+ fmt_q "people" +:+ " created")%string), outs) ∧
  outs !! 0%nat = Some ([Ok one_row], true) ∧
  (outs !! 3%nat = Some ([select_spec ada_query people [bob]], true) ∨ outs !! 3%nat = Some ([select_spec ada_query people []], true)).
Proof.
  destruct (from_scratch_refines id 1 100 32 0 id by_file "people" (Columns people) 3 bob_history people_def people_fits by_file_ok ltac:(lia) bob_history_ok)
    as (outs & T & E & Hrun); [cbn; lia|cbn; lia|]. exists outs. split; [exact E|]. clear E.
  inversion Hrun as [|? ? ? ? T1 ? ? S1 R1]; subst. inversion S1 as [? ? ? ? H1| |]; subst.
  apply (insert_step_inv _ _ _ 0%nat 8) in H1 as [-> ->]; [|exact bob_typed|reflexivity|reflexivity]. split; [reflexivity|].
  inversion R1 as [|? ? ? ? T2 ? ? S2 R2]; subst. inversion S2; subst.
  inversion R2 as [|? ? ? ? T3 ? ? S3 R3]; subst. inversion S3 as [|? ? ? ? ? ? ? H3 K3|]; subst.
  inversion H3 as [|? ? ? a3 T4 l3 ? U3 N3]; subst. inversion N3; subst. apply delete_step_inv in U3 as [_ ->].
  inversion R3 as [|? ? ? ? T5 ? ? S4 R4]; subst. inversion R4; subst. inversion S4 as [? ? ? ? H4| |]; subst.
  inversion H4 as [| | | | |? l ? _ Hl]; subst. specialize (Hl ltac:(intros w [= <-]; reflexivity)) as ->.
  destruct K3 as [->|[_ ->]]; [right|left]; reflexivity.
Defined.
