(* ===== verification/Sessions.v ===== *)
(** * Sessions: the engine run on concrete statements
    (scenarios of [src/executor/*_test.go])

    The model is executable from the text of a statement down to the bytes of
    the files, so the scenarios of the repository's own tests are evaluated
    here: statements of several goroutines, orderly shutdowns, crashes and lost
    pages.  The examples tie the definitions to the behaviour the authors
    expect; the last section runs the defects that the theorems of the other
    files found. *)
From S2P Require Import Prelude Disk Storage Store Pager BufferPool BTree Wal GoLib Catalog Ast Stats Db Select Dml Exec Sample Transaction Durability.
From stdpp Require Import options.
Local Open Scope Z_scope.

#[local] Existing Instance no_tables.
#[local] Existing Instance some_math.
#[local] Program Instance session_order : MapOrder := {| map_order _ _ l := l |}.
Next Obligation. done. Qed.

(** ** Commands *)

(** A statement of a goroutine; the end of the process, in order or not, and
    what happened to the files before the database is opened again. *)
Inductive command : Type :=
  | Do (gid : Z) (sql : string)
  | Shutdown
  | Crash (damage : Image → Image).

Inductive outcome : Type :=
  | Table (rows : list (list string))
  | Said (message : string)
  | Failed (e : error)
  | Died.

Definition growcap (n : nat) : nat := (2 * n + 1)%nat.

Definition open_image (img : Image) : option DB :=
  match Exec.Open id by_file img with (Ok db, _) => Some db | _ => None end.

Definition run_command (c : command) (db : DB) : outcome * option DB :=
  match c with
  | Do gid sql =>
      match Exec growcap gid 1000 32 20 sql db with
      | (Ok r, db) => (if decide (RColumns r = []) then Said (Message r) else Table (map (map Value_String) (RRows r)), Some db)
      | (Err e, db) => (Failed e, Some db)
      | (Panic, _) | (OutOfFuel, _) => (Died, None)
      end
  | Shutdown =>
      match Exec.Close 1 db with
      | (Ok _, db) => (Said "closed", open_image (crash_image db))
      | (Err e, _) => (Failed e, None)
      | _ => (Died, None)
      end
  | Crash damage => (Said "crashed", open_image (damage (crash_image db)))
  end.

Fixpoint session (cs : list command) (db : option DB) : list outcome :=
  match cs, db with
  | [], _ => []
  | _, None => [Died]
  | c :: cs, Some db => let '(o, db) := run_command c db in o :: session cs db
  end.

(** The outcomes of all commands on a new database. *)
Definition outcomes (cs : list command) : list outcome := session cs (open_image (mkImage ∅ [] None None)).

(** ** Tests *)

(** What a test expects of a command: success, an error, rows, a message, or a
    part of a message. *)
Inductive expectation : Type := fine | error_ | gives (rows : list (list string)) | says (message : string) | mentions (part : string).

Definition has (sub s : string) : bool := match String.index 0 sub s with Some _ => true | None => false end.

Definition meets (e : expectation) (o : outcome) : bool :=
  match e, o with
  | fine, (Table _ | Said _) => true
  | error_, Failed _ => true
  | gives rows, Table rs => bool_decide (rs = rows)
  | says message, Said m => bool_decide (m = message)
  | mentions part, Said m => has part m
  | _, _ => false
  end.

(** The commands are run in order on a new database; the list of those that do
    not do what is expected of them. *)
Definition failures (test : list (command * expectation)) : list (command * expectation * outcome) :=
  filter (λ ceo, meets ceo.1.2 ceo.2 = false) (zip test (outcomes test.*1)).

Definition passes (test : list (command * expectation)) : bool :=
  bool_decide (length (outcomes test.*1) = length test) && bool_decide (length (failures test) = 0%nat).

Declare Scope session_scope.
Delimit Scope session_scope with session.
Notation "g ⊢ sql ⇒ e" := (Do g sql%string, e) (at level 70, sql at level 60, e at level 60) : session_scope.
Notation "sql ⇒ e" := (Do 1 sql%string, e) (at level 70, e at level 60) : session_scope.

(** A page that did not reach its file. *)
Definition zero_page (path : string) (pageID : nat) (img : Image) : Image :=
  mkImage (alter (λ b, take (pageID * 4096) b ++ replicate 4096 "000"%byte ++ drop (pageID * 4096 + 4096) b)
             (String.list_byte_of_string path) (i_dir img))
    (i_wal img) (i_catalog img) (i_stats img).

Local Open Scope string_scope.
Local Open Scope session_scope.

(** ** executor_test.go *)

Example test_tables_and_rows : passes [
  "CREATE TABLE t (id INT, v TEXT)" ⇒ says ("table " +:+ fmt_q "t" +:+ " created");
  "CREATE TABLE t (id INT)" ⇒ error_;
  "CREATE TABLE bad (name TEXT)" ⇒ error_;
  "CREATE TABLE fat (id INT, a TEXT, b TEXT, c TEXT, d TEXT, e TEXT, f TEXT)" ⇒ error_;
  "INSERT INTO t VALUES (1, 'a')" ⇒ says "1 row inserted";
  "INSERT INTO t VALUES (2, 'b')" ⇒ fine;
  "INSERT INTO t VALUES ('oops', 'c')" ⇒ error_;
  "INSERT INTO t VALUES (3)" ⇒ error_;
  "INSERT INTO ghost VALUES (1, 'x')" ⇒ error_;
  "INSERT INTO t VALUES (3, 'c')" ⇒ fine;
  "SELECT * FROM t" ⇒ gives [["1"; "a"]; ["2"; "b"]; ["3"; "c"]];
  "SELECT * FROM t WHERE id = 3" ⇒ gives [["3"; "c"]];
  "SELECT * FROM t WHERE id >= 2 AND id <= 3" ⇒ gives [["2"; "b"]; ["3"; "c"]];
  "SELECT id FROM t WHERE v = 'b'" ⇒ gives [["2"]];
  "SELECT id FROM t WHERE id < 2 OR id > 2" ⇒ gives [["1"]; ["3"]];
  "SELECT id FROM t WHERE id > 1 OR id > 1" ⇒ gives [["2"]; ["3"]];
  "SELECT id FROM t LIMIT 2" ⇒ gives [["1"]; ["2"]];
  "SELECT ghost FROM t" ⇒ error_;
  "EXPLAIN SELECT * FROM t" ⇒ mentions "full scan";
  "EXPLAIN SELECT * FROM t WHERE id = 42" ⇒ mentions "point lookup";
  "EXPLAIN SELECT * FROM t WHERE id > 10 AND id <= 50" ⇒ mentions "range=[11..50]";
  "EXPLAIN SELECT * FROM t WHERE v = 'x'" ⇒ mentions "Filter";
  "EXPLAIN SELECT * FROM t WHERE id < 5 OR id > 90 LIMIT 10" ⇒ mentions "Union";
  "ANALYZE t" ⇒ mentions "3 rows"; "ANALYZE ghost" ⇒ error_
] = true.
Proof. vm_cast_no_check (eq_refl true). Qed.

Example test_secondary_indexes : passes [
  "CREATE TABLE t (id INT, score INT, v TEXT)" ⇒ fine;
  "CREATE INDEX i ON ghost (id)" ⇒ error_; "CREATE INDEX i ON t (v)" ⇒ error_; "DROP INDEX ghost" ⇒ error_;
  "CREATE INDEX score_idx ON t (score)" ⇒ says ("index " +:+ fmt_q "score_idx" +:+ " created on t(score)");
  "CREATE INDEX other ON t (score)" ⇒ error_;
  "INSERT INTO t VALUES (1, 100, 'a')" ⇒ fine;
  "INSERT INTO t VALUES (2, 200, 'b')" ⇒ fine;
  "INSERT INTO t VALUES (3, 100, 'c')" ⇒ error_;
  "EXPLAIN SELECT * FROM t WHERE score = 100" ⇒ mentions "index=score_idx";
  "SELECT id FROM t WHERE score = 200" ⇒ gives [["2"]];
  "SELECT id FROM t WHERE score >= 150" ⇒ gives [["2"]];
  "DELETE FROM t WHERE id = 1" ⇒ fine;
  "INSERT INTO t VALUES (3, 100, 'c')" ⇒ fine;
  "SELECT id FROM t WHERE score = 100" ⇒ gives [["3"]];
  "UPDATE t SET score = 300 WHERE id = 3" ⇒ fine;
  "SELECT id FROM t WHERE score = 300" ⇒ gives [["3"]];
  "DROP INDEX score_idx" ⇒ fine;
  "SELECT id FROM t WHERE score = 300" ⇒ gives [["3"]]
] = true.
Proof. vm_cast_no_check (eq_refl true). Qed.

Example test_joins : passes [
  "CREATE TABLE users (id INT, name TEXT, age INT)" ⇒ fine; "CREATE TABLE orders (id INT, user_id INT, amount INT)" ⇒ fine;
  "INSERT INTO users VALUES (1, 'Alice', 30)" ⇒ fine; "INSERT INTO users VALUES (2, 'Bob', 25)" ⇒ fine;
  "INSERT INTO orders VALUES (1, 1, 100)" ⇒ fine; "INSERT INTO orders VALUES (2, 2, 50)" ⇒ fine;
  "SELECT u.id, o.amount FROM users AS u JOIN orders AS o ON u.id = o.user_id" ⇒ gives [["1"; "100"]; ["2"; "50"]];
  "SELECT u.id, o.amount FROM users AS u, orders AS o WHERE u.id = o.user_id" ⇒ gives [["1"; "100"]; ["2"; "50"]];
  "SELECT u.id, o.amount FROM users AS u JOIN orders AS o ON u.id = o.user_id WHERE u.age > 25" ⇒ gives [["1"; "100"]];
  "SELECT u.id, o.id FROM users AS u JOIN orders AS o ON u.id = o.user_id LIMIT 1" ⇒ gives [["1"; "1"]];
  "EXPLAIN SELECT u.id FROM users AS u JOIN orders AS o ON u.id = o.user_id" ⇒ mentions "NestedLoopJoin"
] = true.
Proof. vm_cast_no_check (eq_refl true). Qed.

(** ** dml_test.go *)
Example test_delete_and_update : passes [
  "CREATE TABLE t (id INT, v TEXT)" ⇒ fine; "INSERT INTO t VALUES (1, 'a')" ⇒ fine;
  "INSERT INTO t VALUES (2, 'b')" ⇒ fine; "INSERT INTO t VALUES (3, 'c')" ⇒ fine;
  "DELETE FROM t WHERE id = 2" ⇒ says "1 row(s) deleted"; "SELECT * FROM t" ⇒ gives [["1"; "a"]; ["3"; "c"]];
  "DELETE FROM t WHERE id = 99" ⇒ says "0 row(s) deleted"; "DELETE FROM ghost" ⇒ error_;
  "INSERT INTO t VALUES (2, 'new')" ⇒ fine; "SELECT v FROM t WHERE id = 2" ⇒ gives [["new"]];
  "BEGIN" ⇒ fine; "DELETE FROM t WHERE id = 1" ⇒ fine; "SELECT id FROM t" ⇒ gives [["2"]; ["3"]];
  "ROLLBACK" ⇒ fine; "SELECT id FROM t" ⇒ gives [["1"]; ["2"]; ["3"]];
  "UPDATE t SET v = 'x' WHERE id = 1" ⇒ says "1 row(s) updated"; "SELECT v FROM t" ⇒ gives [["x"]; ["new"]; ["c"]];
  "UPDATE t SET v = 'y' WHERE id = 99" ⇒ says "0 row(s) updated"; "UPDATE t SET id = 2 WHERE id = 1" ⇒ error_;
  "UPDATE t SET no_col = 5" ⇒ error_; "UPDATE ghost SET x = 1" ⇒ error_;
  "BEGIN" ⇒ fine; "UPDATE t SET v = 'after' WHERE id = 1" ⇒ fine; "SELECT v FROM t WHERE id = 1" ⇒ gives [["after"]];
  "COMMIT" ⇒ fine; "SELECT v FROM t WHERE id = 1" ⇒ gives [["after"]];
  "DELETE FROM t" ⇒ says "3 row(s) deleted"; "SELECT * FROM t" ⇒ gives []
] = true.
Proof. vm_cast_no_check (eq_refl true). Qed.

(** ** txn_test.go and mvcc_test.go *)
Example test_transactions : passes [
  "CREATE TABLE t (id INT, val INT)" ⇒ fine; "COMMIT" ⇒ error_; "ROLLBACK" ⇒ error_;
  "BEGIN" ⇒ fine; "BEGIN" ⇒ error_;
  "INSERT INTO t VALUES (1, 100)" ⇒ fine; "INSERT INTO t VALUES (2, 200)" ⇒ fine;
  "SELECT id FROM t" ⇒ gives [["1"]; ["2"]]; 2 ⊢ "SELECT id FROM t" ⇒ gives [];
  "COMMIT" ⇒ fine; 2 ⊢ "SELECT id FROM t" ⇒ gives [["1"]; ["2"]];
  "BEGIN" ⇒ fine; "INSERT INTO t VALUES (3, 300)" ⇒ fine; "ROLLBACK" ⇒ fine; "SELECT id FROM t" ⇒ gives [["1"]; ["2"]];
  "BEGIN" ⇒ fine; 2 ⊢ "INSERT INTO t VALUES (4, 400)" ⇒ fine;
  "SELECT id FROM t" ⇒ gives [["1"]; ["2"]]; 2 ⊢ "SELECT id FROM t" ⇒ gives [["1"]; ["2"]; ["4"]];
  "COMMIT" ⇒ fine; "SELECT id FROM t" ⇒ gives [["1"]; ["2"]; ["4"]]
] = true.
Proof. vm_cast_no_check (eq_refl true). Qed.

(** ** recovery_test.go *)
Example test_recovery : passes [
  "CREATE TABLE t (id INT)" ⇒ fine; "INSERT INTO t VALUES (1)" ⇒ fine;
  "BEGIN" ⇒ fine; "INSERT INTO t VALUES (2)" ⇒ fine; "SELECT id FROM t" ⇒ gives [["1"]; ["2"]];
  (Crash (zero_page "t.db" 2), fine); "SELECT id FROM t" ⇒ gives [["1"]]
] = true.
Proof. vm_cast_no_check (eq_refl true). Qed.

(** ** agg_test.go *)
Example test_aggregates : passes [
  "CREATE TABLE t (id INT, dept INT, salary INT)" ⇒ fine;
  "SELECT COUNT(*) FROM t" ⇒ gives [["0"]]; "SELECT SUM(salary) FROM t" ⇒ gives [["0"]];
  "SELECT dept, COUNT(*) FROM t GROUP BY dept" ⇒ gives [];
  "INSERT INTO t VALUES (1, 1, 5000)" ⇒ fine; "INSERT INTO t VALUES (2, 1, 6000)" ⇒ fine; "INSERT INTO t VALUES (3, 2, 4000)" ⇒ fine;
  "INSERT INTO t VALUES (4, 2, 3000)" ⇒ fine; "INSERT INTO t VALUES (5, 2, 7000)" ⇒ fine; "INSERT INTO t VALUES (6, 3, 9000)" ⇒ fine;
  "SELECT COUNT(*), SUM(salary), MIN(salary), MAX(salary), AVG(salary) FROM t" ⇒ gives [["6"; "34000"; "3000"; "9000"; "5666"]];
  "SELECT COUNT(*) FROM t WHERE salary > 5000" ⇒ gives [["3"]];
  "SELECT dept, COUNT(*) FROM t GROUP BY dept" ⇒ gives [["1"; "2"]; ["2"; "3"]; ["3"; "1"]];
  "SELECT dept, AVG(salary) AS avg FROM t GROUP BY dept HAVING avg > 5000 ORDER BY avg DESC" ⇒ gives [["3"; "9000"]; ["1"; "5500"]];
  "SELECT id FROM t ORDER BY salary" ⇒ error_;
  "SELECT id, salary FROM t ORDER BY salary DESC LIMIT 2" ⇒ gives [["6"; "9000"]; ["5"; "7000"]]
] = true.
Proof. vm_cast_no_check (eq_refl true). Qed.

(** ** subquery_test.go *)
Example test_subqueries : passes [
  "CREATE TABLE users (id INT, age INT)" ⇒ fine; "INSERT INTO users VALUES (1, 30)" ⇒ fine; "INSERT INTO users VALUES (2, 25)" ⇒ fine;
  "INSERT INTO users VALUES (3, 35)" ⇒ fine; "CREATE TABLE banned (uid INT, reason TEXT)" ⇒ fine;
  "SELECT id FROM users WHERE id IN (SELECT uid FROM banned)" ⇒ gives [];
  "SELECT id FROM users WHERE id NOT IN (SELECT uid FROM banned)" ⇒ gives [["1"]; ["2"]; ["3"]];
  "SELECT id FROM users WHERE EXISTS (SELECT 1 FROM banned)" ⇒ gives [];
  "SELECT id FROM users WHERE id = (SELECT uid FROM banned)" ⇒ gives [];
  "INSERT INTO banned VALUES (2, 'spam')" ⇒ fine;
  "SELECT id FROM users WHERE id IN (1, 3, 99)" ⇒ gives [["1"]; ["3"]];
  "SELECT id FROM users WHERE id NOT IN (SELECT uid FROM banned)" ⇒ gives [["1"]; ["3"]];
  "SELECT id FROM users WHERE EXISTS (SELECT 1 FROM banned) AND age > 28" ⇒ gives [["1"]; ["3"]];
  "SELECT id FROM users WHERE age = (SELECT MAX(age) FROM users)" ⇒ gives [["3"]];
  "SELECT id FROM users WHERE age = (SELECT age FROM users)" ⇒ error_;
  "SELECT id FROM users WHERE id IN (SELECT uid FROM banned WHERE uid IN (2, 7))" ⇒ gives [["2"]];
  "UPDATE users SET age = 99 WHERE id IN (SELECT uid FROM banned)" ⇒ says "1 row(s) updated";
  "DELETE FROM users WHERE id IN (SELECT uid FROM banned)" ⇒ says "1 row(s) deleted";
  "SELECT id FROM users" ⇒ gives [["1"]; ["3"]]
] = true.
Proof. vm_cast_no_check (eq_refl true). Qed.

(** ** Defects *)

(** Two transactions insert into the same table and both report success, but
    COMMIT installs the pages of a transaction as a whole: the second one
    overwrites the leaf of the first, whose row is lost, although ROADMAP.md
    promises that concurrent writers do not interfere. *)
Example concurrent_commits_lose_rows : passes [
  "CREATE TABLE t (id INT)" ⇒ fine;
  1 ⊢ "BEGIN" ⇒ fine; 1 ⊢ "INSERT INTO t VALUES (1)" ⇒ says "1 row inserted";
  2 ⊢ "BEGIN" ⇒ fine; 2 ⊢ "INSERT INTO t VALUES (2)" ⇒ says "1 row inserted";
  1 ⊢ "COMMIT" ⇒ says "COMMIT"; "SELECT id FROM t" ⇒ gives [["1"]];
  2 ⊢ "COMMIT" ⇒ says "COMMIT"; "SELECT id FROM t" ⇒ gives [["2"]]
] = true.
Proof. vm_cast_no_check (eq_refl true). Qed.

(** An index holds one row for a value.  INSERT rejects a second one, but UPDATE
    does not look and INSERT does not remove the entry of the row it replaces:
    queries that go through the index miss rows, or return rows that do not
    satisfy their condition. *)
Theorem index_goes_stale : passes [
  "CREATE TABLE t (id INT, v INT)" ⇒ fine; "CREATE INDEX i ON t (v)" ⇒ fine;
  "INSERT INTO t VALUES (1, 10)" ⇒ fine; "INSERT INTO t VALUES (2, 20)" ⇒ fine;
  "INSERT INTO t VALUES (3, 20)" ⇒ error_; "UPDATE t SET v = 20 WHERE id = 1" ⇒ says "1 row(s) updated";
  "SELECT id, v FROM t" ⇒ gives [["1"; "20"]; ["2"; "20"]]; "SELECT id FROM t WHERE v = 20" ⇒ gives [["1"]];
  "INSERT INTO t VALUES (1, 50)" ⇒ fine; "SELECT id, v FROM t WHERE v = 20" ⇒ gives [["1"; "50"]]
] = true.
Proof. vm_cast_no_check (eq_refl true). Qed.

Example conditions_are_not_checked : passes [
  "CREATE TABLE t (id INT, v INT)" ⇒ fine; "INSERT INTO t VALUES (0, 7)" ⇒ fine; "INSERT INTO t VALUES (10, 10)" ⇒ fine;
  "SELECT * FROM t WHERE id = v" ⇒ gives [["0"; "7"]]; "INSERT INTO t VALUES (10, 11)" ⇒ says "1 row inserted";
  "SELECT * FROM t" ⇒ gives [["0"; "7"]; ["10"; "11"]]; "DELETE FROM t WHERE typo = 1" ⇒ says "2 row(s) deleted"
] = true.
Proof. vm_cast_no_check (eq_refl true). Qed.

Example snapshots_are_not_stable : passes [
  "CREATE TABLE t (id INT, v INT)" ⇒ fine; "CREATE INDEX i ON t (v)" ⇒ fine; "INSERT INTO t VALUES (1, 10)" ⇒ fine;
  "INSERT INTO t VALUES (2, 20)" ⇒ fine; 1 ⊢ "BEGIN" ⇒ fine;
  2 ⊢ "UPDATE t SET v = 99 WHERE id = 1" ⇒ fine; 2 ⊢ "DELETE FROM t WHERE id = 2" ⇒ fine;
  1 ⊢ "SELECT * FROM t" ⇒ gives [["2"; "20"]]; 1 ⊢ "SELECT * FROM t WHERE v = 20" ⇒ gives [];
  1 ⊢ "INSERT INTO t VALUES (3, 30)" ⇒ fine; 1 ⊢ "SELECT * FROM t WHERE v = 30" ⇒ gives [];
  1 ⊢ "INSERT INTO t VALUES (4, 30)" ⇒ error_; 1 ⊢ "SELECT id FROM t WHERE id > 2" ⇒ gives [["3"]; ["4"]]
] = true.
Proof. vm_cast_no_check (eq_refl true). Qed.
