(* ===== verification/Server.v ===== *)
(** * Server: the wire protocol, the connection loop and the client
    ([src/server/proto.go], [src/server/server.go], [src/client/client.go])

    A connection is what can be read from it, what has been written to it, and
    how many more writes the peer accepts.  [encoding/json] and the texts of
    errors are arguments.  One connection is served by one goroutine, whose
    identifier is [gid]. *)
From S2P Require Import Prelude GoLib Catalog Ast Pager BufferPool BTree Stats Db Select Exec Sample Transaction Durability.
From stdpp Require Import options.
Local Open Scope Z_scope.

(** ** Messages *)

Definition maxFrameSize : Z := Z.shiftl 4 20.

(** A [Request] is its SQL text. *)
Record Response : Type := mkResponse {
  rColumns : list string; rRows : list (list string); rMessage : string; rError : string }.

(** What the code uses of [encoding/json]; [Error] is the text of an error. *)
Class JSON : Type := {
  marshal_request : string → list byte;
  unmarshal_request : list byte → res string;
  marshal_response : Response → list byte;
  unmarshal_response : list byte → res Response;
  error_text : error → string
}.

(** JSON texts are Unicode: what is made of [text] comes back as it was. *)
Class JSONLaws `{JSON} (text : string → Prop) : Prop := {
  request_roundtrip s : text s → unmarshal_request (marshal_request s) = Ok s;
  response_roundtrip r : Forall text (rColumns r) → Forall (Forall text) (rRows r) → text (rMessage r) → text (rError r) →
    unmarshal_response (marshal_response r) = Ok r
}.

(** ** Connections and frames *)

Record Conn : Type := mkConn { c_in : list byte; c_out : list byte; c_credit : option nat }.

Definition conn_Write (bs : list byte) : M Conn unit := λ c,
  match c_credit c with
  | Some O => (Err ErrIO, c)
  | k => (Ok tt, mkConn (c_in c) (c_out c ++ bs) (pred <$> k))
  end.

Definition conn_Read {A} (m : M (list byte) A) : M Conn A := λ c,
  let '(r, l) := m (c_in c) in (r, mkConn l (c_out c) (c_credit c)).

(** [binary.BigEndian] on 32 bits *)
Definition be_enc32 (n : Z) : list byte := reverse (le_enc 4 n).
Definition be_dec32 (bs : list byte) : Z := le_dec (reverse bs).

Definition frame (payload : list byte) : list byte := be_enc32 (Z.of_nat (length payload)) ++ payload.

(** [writeFrame] behind [json.Marshal] *)
Definition writeFrame (payload : list byte) : M Conn unit :=
  _ ← conn_Write (be_enc32 (u32 (Z.of_nat (length payload))));
  conn_Write payload.

(** [readFrame] up to [json.Unmarshal]; server and client word the error differently. *)
Definition readFrame (too_large : string) : M Conn (list byte) :=
  hdr ← conn_Read (ReadFull 4);
  let n := be_dec32 hdr in
  if decide (maxFrameSize < n) then fail (Errorf too_large [GInt n])
  else conn_Read (ReadFull (Z.to_nat n)).

(** ** The server *)

Section server.
Context `{Unicode} `{Math} `{MapOrder} `{JSON} (growcap : nat → nat) (gid : Z) (fuel tfuel depth : nat).

Definition error_response (e : error) : Response := mkResponse [] [] EmptyString (error_text e).

Definition execSQL (sql : string) : M DB Response := λ db,
  match Exec growcap gid fuel tfuel depth sql db with
  | (Ok r, db) => (Ok (mkResponse (RColumns r) (map (map Value_String) (RRows r)) (Message r) EmptyString), db)
  | (Err e, db) => (Ok (error_response e), db)
  | (Panic, db) => (Panic, db)
  | (OutOfFuel, db) => (OutOfFuel, db)
  end.

Definition readRequest : M Conn string :=
  buf ← readFrame "proto: frame too large (%d bytes)";
  lift (unmarshal_request buf).

Definition on_conn {A} (m : M Conn A) : M (DB * Conn) A := λ s, let '(r, c) := m s.2 in (r, (s.1, c)).
Definition on_sql {A} (m : M DB A) : M (DB * Conn) A := λ s, let '(r, db) := m s.1 in (r, (db, s.2)).

(** The outcome of a call as a value, unless it panics. *)
Definition try_ {S A} (m : M S A) : M S (A + error) := λ s,
  match m s with
  | (Ok a, s) => (Ok (inl a), s)
  | (Err e, s) => (Ok (inr e), s)
  | (Panic, s) => (Panic, s)
  | (OutOfFuel, s) => (OutOfFuel, s)
  end.

(** The loop of [handle]; every turn reads a frame of at least four bytes. *)
Fixpoint handle (n : nat) : M (DB * Conn) unit :=
  match n with
  | O => lift OutOfFuel
  | Datatypes.S n =>
      r ← on_conn (try_ readRequest);
      match r with
      | inr ErrEOF => mret tt
      | inr e => _ ← on_conn (try_ (writeFrame (marshal_response (error_response e)))); mret tt
      | inl sql =>
          resp ← on_sql (execSQL sql);
          w ← on_conn (try_ (writeFrame (marshal_response resp)));
          match w with
          | inr _ => mret tt
          | inl _ => handle n
          end
      end
  end.

(** The statements one after the other, without a connection. *)
Fixpoint exec_all (sqls : list string) : M DB (list Response) :=
  match sqls with
  | [] => mret []
  | sql :: sqls => r ← execSQL sql; rs ← exec_all sqls; mret (r :: rs)
  end.
End server.

(** ** The client *)

Section client.
Context `{JSON}.

Record ClientResult : Type := mkClientResult { cr_Columns : list string; cr_Rows : list (list string); cr_Message : string }.

(** What the client makes of a response. *)
Definition client_result (resp : Response) : res ClientResult :=
  if decide (rError resp ≠ EmptyString) then Err (Errorf "%s" [GStr (rError resp)])
  else Ok (mkClientResult (rColumns resp) (rRows resp) (rMessage resp)).

Definition client_Exec (sql : string) : M Conn ClientResult :=
  _ ← wrap "send: %w" [] (writeFrame (marshal_request sql));
  resp ← wrap "recv: %w" [] (buf ← readFrame "frame too large (%d bytes)"; lift (unmarshal_response buf));
  lift (client_result resp).

(** A client that issues statements and looks at the outcomes later. *)
Fixpoint client_run (sqls : list string) : M Conn (list (ClientResult + error)) :=
  match sqls with
  | [] => mret []
  | sql :: sqls => r ← try_ (client_Exec sql); rs ← client_run sqls; mret (r :: rs)
  end.
End client.

(** ** Frames *)

Definition fits (payload : list byte) : Prop := Z.of_nat (length payload) ≤ maxFrameSize.

Lemma maxFrameSize_val : maxFrameSize = 4194304.
Proof. reflexivity. Qed.

Lemma length_be_enc32 n : length (be_enc32 n) = 4%nat.
Proof. unfold be_enc32. by rewrite length_reverse, length_le_enc. Qed.

Lemma be_dec_enc32 n : is_u32 n → be_dec32 (be_enc32 n) = n.
Proof. intros Hn. unfold be_dec32, be_enc32. rewrite reverse_involutive. by apply le_dec_enc_small. Qed.

Lemma fits_u32 payload : fits payload → is_u32 (Z.of_nat (length payload)).
Proof. unfold fits. rewrite maxFrameSize_val. lia. Qed.

Lemma writeFrame_ok payload c : is_u32 (Z.of_nat (length payload)) → c_credit c = None →
  writeFrame payload c = (Ok tt, mkConn (c_in c) (c_out c ++ frame payload) None).
Proof.
  intros Hp Hc. unfold writeFrame, conn_Write, frame. M_run. rewrite Hc. cbn [c_credit c_out c_in fmap option_fmap option_map].
  unfold u32. by rewrite Z.mod_small, <-app_assoc by lia.
Qed.

Lemma readFrame_ok msg payload rest out k : fits payload →
  readFrame msg (mkConn (frame payload ++ rest) out k) = (Ok payload, mkConn rest out k).
Proof.
  intros Hf. pose proof (fits_u32 payload Hf) as Hu. unfold readFrame, conn_Read, frame. M_run. cbn [c_in c_out c_credit].
  rewrite <-app_assoc, ReadFull_app by apply length_be_enc32. rewrite be_dec_enc32 by done. unfold fits in Hf.
  rewrite decide_False by lia. cbn [c_in c_out c_credit]. by rewrite ReadFull_app by lia.
Qed.

Lemma readFrame_too_large msg payload rest out k : is_u32 (Z.of_nat (length payload)) → ¬ fits payload →
  readFrame msg (mkConn (frame payload ++ rest) out k) =
    (Err (Errorf msg [GInt (Z.of_nat (length payload))]), mkConn (payload ++ rest) out k).
Proof.
  intros Hu Hf. unfold readFrame, conn_Read, frame. M_run. cbn [c_in c_out c_credit].
  rewrite <-app_assoc, ReadFull_app by apply length_be_enc32. rewrite be_dec_enc32 by done. unfold fits in Hf.
  by rewrite decide_True by lia.
Qed.

Lemma readFrame_eof msg out k : readFrame msg (mkConn [] out k) = (Err ErrEOF, mkConn [] out k).
Proof. reflexivity. Qed.

(** ** Serving a sequence of requests *)

Section serve.
Context `{Unicode} `{Math} `{MapOrder} `{JSON} (text : string → Prop) `{!JSONLaws text}.
Context (growcap : nat → nat) (gid : Z) (fuel tfuel depth : nat).

(** The bytes of a sequence of statements, and of their responses. *)
Definition requests (sqls : list string) : list byte := concat ((λ s, frame (marshal_request s)) <$> sqls).
Definition responses (rs : list Response) : list byte := concat ((λ r, frame (marshal_response r)) <$> rs).

Definition request_ok (s : string) : Prop := text s ∧ fits (marshal_request s).
Definition response_ok (r : Response) : Prop :=
  Forall text (rColumns r) ∧ Forall (Forall text) (rRows r) ∧ text (rMessage r) ∧ text (rError r) ∧ fits (marshal_response r).

Lemma readRequest_ok s rest out k : request_ok s →
  readRequest (mkConn (frame (marshal_request s) ++ rest) out k) = (Ok s, mkConn rest out k).
Proof using JSONLaws0.
  intros [Ht Hf]. unfold readRequest. erewrite M_bind_Ok by by apply readFrame_ok. unfold lift. by rewrite (request_roundtrip s Ht).
Qed.

Lemma handle_requests sqls db rs db' out n :
  Forall request_ok sqls → Forall (λ r, is_u32 (Z.of_nat (length (marshal_response r)))) rs →
  exec_all growcap gid fuel tfuel depth sqls db = (Ok rs, db') → (length sqls < n)%nat →
  handle growcap gid fuel tfuel depth n (db, mkConn (requests sqls) out None) =
    (Ok tt, (db', mkConn [] (out ++ responses rs) None)).
Proof using JSONLaws0.
  intros Hs. revert db rs out n. induction Hs as [|s sqls Hs _ IH]; intros db rs out n Hrs E Hn; (destruct n as [|n]; [cbn in Hn; lia|]).
  - injection E as <- <-. cbn. by rewrite app_nil_r.
  - cbn [exec_all] in E. apply M_bind_Ok_inv in E as (r & db1 & E1 & E). apply M_bind_Ok_inv in E as (rs' & db2 & E2 & E).
    injection E as <- <-. apply Forall_cons in Hrs as [Hr Hrs]. cbn [handle].
    rewrite (M_bind_Ok _ _ _ (inl s) (db, mkConn (requests sqls) out None)).
    2: { unfold on_conn, try_. cbn [fst snd]. unfold requests. cbn [fmap list_fmap concat]. by rewrite readRequest_ok. }
    rewrite (M_bind_Ok _ _ _ r (db1, mkConn (requests sqls) out None)) by (unfold on_sql; cbn [fst snd]; by rewrite E1).
    rewrite (M_bind_Ok _ _ _ (inl tt) (db1, mkConn (requests sqls) (out ++ frame (marshal_response r)) None))
      by (unfold on_conn, try_; cbn [fst snd]; by rewrite writeFrame_ok).
    rewrite (IH db1 rs' _ n Hrs E2) by (cbn in Hn; lia). unfold responses. cbn [fmap list_fmap concat]. by rewrite <-app_assoc.
Qed.

Lemma exec_all_length sqls db rs db' :
  exec_all growcap gid fuel tfuel depth sqls db = (Ok rs, db') → length rs = length sqls.
Proof.
  revert db rs. induction sqls as [|s sqls IH]; intros db rs E; cbn [exec_all] in E; [by injection E as <- _|].
  apply M_bind_Ok_inv in E as (r & db1 & _ & E). apply M_bind_Ok_inv in E as (rs' & db2 & E2 & E).
  injection E as <- ->. cbn [length]. f_equal. by eapply IH.
Qed.

Definition outcome (r : Response) : ClientResult + error :=
  match client_result r with Ok c => inl c | Err e => inr e | _ => inr ErrIO end.

Lemma client_run_ok sqls rs out : Forall request_ok sqls → Forall response_ok rs → length rs = length sqls →
  client_run sqls (mkConn (responses rs) out None) = (Ok (outcome <$> rs), mkConn [] (out ++ requests sqls) None).
Proof using JSONLaws0.
  intros Hs. revert rs out. induction Hs as [|s sqls [Ht Hf] _ IH]; intros rs out Hr Hl; (destruct rs as [|r rs]; [|]); try discriminate.
  { cbn. by rewrite app_nil_r. }
  apply Forall_cons in Hr as [(H1' & H2' & H3' & H4' & Hfr) Hr]. cbn [client_run]. set (c1 := mkConn (responses rs) (out ++ frame (marshal_request s)) None).
  assert (client_Exec s (mkConn (responses (r :: rs)) out None) = (client_result r, c1)) as E.
  { unfold client_Exec. erewrite M_bind_Ok by (apply wrap_Ok, writeFrame_ok; [by apply fits_u32|done]). cbn [c_in c_out].
    rewrite (M_bind_Ok _ _ _ r c1); [done|]. apply wrap_Ok. unfold responses. cbn [fmap list_fmap concat].
    erewrite M_bind_Ok by by apply readFrame_ok. unfold lift. by rewrite (response_roundtrip r H1' H2' H3' H4'). }
  rewrite (M_bind_Ok _ _ _ (outcome r) c1).
  2: { unfold try_. rewrite E. unfold outcome, client_result. by case_decide. }
  unfold c1. erewrite M_bind_Ok by (apply IH; [done|by injection Hl]). unfold requests. cbn [fmap list_fmap concat]. by rewrite <-app_assoc.
Qed.

(** C22. The wire is transparent.  A client that sends statements over a connection
    and the server's loop at its other end exchange exactly each other's bytes:
    the client gets, for every statement, the result or the error that [Exec]
    gives when the statements are executed one after the other, and the loop
    ends at the end of the stream with the database they leave, an open
    transaction of the connection included.  The texts must survive JSON and
    the messages fit in a frame. *)
Theorem wire_transparent sqls rs db db' n :
  Forall request_ok sqls → exec_all growcap gid fuel tfuel depth sqls db = (Ok rs, db') → Forall response_ok rs →
  (length sqls < n)%nat →
  ∃ to_server to_client,
    client_run sqls (mkConn to_client [] None) = (Ok (outcome <$> rs), mkConn [] to_server None) ∧
    handle growcap gid fuel tfuel depth n (db, mkConn to_server [] None) = (Ok tt, (db', mkConn [] to_client None)).
Proof using JSONLaws0.
  intros Hs E Hr Hn. exists (requests sqls), (responses rs). split.
  - apply client_run_ok; [done|done|]. by eapply exec_all_length.
  - refine (handle_requests sqls db rs db' [] n Hs _ E Hn). eapply Forall_impl; [exact Hr|].
    intros r (_ & _ & _ & _ & Hf). by apply fits_u32.
Qed.

(** The server does not limit what it sends: a response of more than 4 MiB is
    written, the statement has been executed, but the client reports an error
    and is left in the middle of the frame, so that it reads the next responses
    from there. *)
Theorem large_response_lost sql db r db' rest out n :
  request_ok sql → execSQL growcap gid fuel tfuel depth sql db = (Ok r, db') →
  is_u32 (Z.of_nat (length (marshal_response r))) → ¬ fits (marshal_response r) → (1 < n)%nat →
  handle growcap gid fuel tfuel depth n (db, mkConn (requests [sql]) [] None) = (Ok tt, (db', mkConn [] (frame (marshal_response r)) None)) ∧
  ∃ e, client_Exec sql (mkConn (frame (marshal_response r) ++ rest) out None) =
    (Err e, mkConn (marshal_response r ++ rest) (out ++ requests [sql]) None).
Proof using JSONLaws0.
  intros Hs E Hu Hf Hn. split.
  - rewrite (handle_requests [sql] db [r] db' [] n); [unfold responses; cbn; by rewrite app_nil_r|..].
    + by apply Forall_singleton.
    + by apply Forall_singleton.
    + cbn [exec_all]. by erewrite M_bind_Ok by exact E.
    + done.
  - destruct Hs as [_ Hfs]. eexists. unfold client_Exec. erewrite M_bind_Ok by (apply wrap_Ok, writeFrame_ok; [by apply fits_u32|done]).
    cbn [c_in c_out]. unfold requests. cbn [fmap list_fmap concat]. rewrite app_nil_r. unfold wrap, mbind, M_bind.
    rewrite readFrame_too_large by done. reflexivity.
Qed.
End serve.

(** ** A concrete connection *)

(** A stand-in for JSON that encodes every value: a byte per bit of stdpp's
    encoding of it. *)
Fixpoint pos_bytes (p : positive) : list byte :=
  match p with xH => [] | xO p => "000"%byte :: pos_bytes p | xI p => "001"%byte :: pos_bytes p end.

Fixpoint bytes_pos (bs : list byte) : positive :=
  match bs with [] => xH | b :: bs => if decide (b = "000"%byte) then xO (bytes_pos bs) else xI (bytes_pos bs) end.

Lemma bytes_pos_bytes p : bytes_pos (pos_bytes p) = p.
Proof. induction p as [p IH|p IH|]; cbn [pos_bytes bytes_pos]; [|by rewrite decide_True, IH|done]. by rewrite decide_False, IH. Qed.

Definition of_encoding {A} `{Countable A} (bs : list byte) : res A :=
  match decode (bytes_pos bs) with Some a => Ok a | None => Err ErrIO end.

Lemma of_encoding_encode {A} `{Countable A} (a : A) : of_encoding (pos_bytes (encode a)) = Ok a.
Proof. unfold of_encoding. by rewrite bytes_pos_bytes, decode_encode. Qed.

#[local] Instance bits : JSON := {|
  marshal_request s := pos_bytes (encode s);
  unmarshal_request := of_encoding;
  marshal_response r := pos_bytes (encode (rColumns r, rRows r, rMessage r, rError r));
  unmarshal_response bs :=
    '(cs, rows, m, e) ← (of_encoding bs : res (list string * list (list string) * string * string)); Ok (mkResponse cs rows m e);
  error_text e := match e with Errorf fmt _ | Wrapf fmt _ _ => fmt | ErrEOF => "EOF" | ErrIO => "input/output error" end
|}.

#[local] Instance bits_laws : JSONLaws (λ _, True).
Proof.
  split; [intros s _; apply of_encoding_encode|]. intros [cs rows m e] _ _ _ _. unfold unmarshal_response, bits.
  cbn [marshal_response rColumns rRows rMessage rError]. by rewrite of_encoding_encode.
Qed.

#[local] Existing Instance no_tables.
#[local] Existing Instance some_math.
#[local] Program Instance wire_order : MapOrder := {| map_order _ _ l := l |}.
Next Obligation. done. Qed.

Definition wire_session : list string :=
  ["CREATE TABLE people (id INT, name TEXT)"; "INSERT INTO people VALUES (7, 'ada')"; "SELECT name FROM people"; "SELECT FROM"]%string.

Definition wire_db : DB :=
  match (Exec.Open id by_file (mkImage ∅ [] None None)).1 with Ok db => db | _ => ada_db (mkBTree buf0 0 0) end.

Definition wire_responses : list Response :=
  [mkResponse [] [] ("table " +:+ fmt_q "people" +:+ " created") ""; mkResponse [] [] "1 row inserted" ""; mkResponse ["name"] [["ada"]] "" "";
   error_response (Wrapf "parse error: %w" [] ErrIO)]%string.

Lemma run_fst {S A} (m : M S A) s r : (m s).1 = r → m s = (r, (m s).2).
Proof. intros <-. apply surjective_pairing. Qed.

Lemma wire_session_responses :
  exec_all (λ n, 2 * n + 1)%nat 1 100 20 20 wire_session wire_db =
    (Ok wire_responses, (exec_all (λ n, 2 * n + 1)%nat 1 100 20 20 wire_session wire_db).2).
Proof. apply run_fst. vm_compute. reflexivity. Qed.

Lemma wire_transparent_witness :
  ∃ to_server to_client db',
    client_run wire_session (mkConn to_client [] None) = (Ok (outcome <$> wire_responses), mkConn [] to_server None) ∧
    handle (λ n, 2 * n + 1)%nat 1 100 20 20 5 (wire_db, mkConn to_server [] None) = (Ok tt, (db', mkConn [] to_client None)).
Proof.
  destruct (wire_transparent (λ _, True) (λ n, 2 * n + 1)%nat 1 100 20 20 wire_session wire_responses wire_db (exec_all (λ n, 2 * n + 1)%nat 1 100 20 20 wire_session wire_db).2 5) as (i & o & Hc & Hs).
  - repeat constructor; vm_compute; discriminate.
  - exact wire_session_responses.
  - repeat constructor; vm_compute; discriminate.
  - cbn. lia.
  - exists i, o, (exec_all (λ n, 2 * n + 1)%nat 1 100 20 20 wire_session wire_db).2. split; [exact Hc|exact Hs].
Defined.

(** The same with 4 MiB of white space before every response. *)
Definition padded : JSON := {|
  marshal_request := marshal_request;
  unmarshal_request := unmarshal_request;
  marshal_response r := replicate (Z.to_nat maxFrameSize) " "%byte ++ marshal_response r;
  unmarshal_response bs := unmarshal_response (drop (Z.to_nat maxFrameSize) bs);
  error_text := error_text
|}.

Lemma padded_laws : JSONLaws (H := padded) (λ _, True).
Proof.
  split; [exact (@request_roundtrip bits _ bits_laws)|]. intros r H1 H2 H3 H4. cbn [marshal_response unmarshal_response padded].
  rewrite drop_app_length' by (symmetry; apply length_replicate). exact (@response_roundtrip bits _ bits_laws r H1 H2 H3 H4).
Qed.

Lemma length_padded r :
  Z.of_nat (length (marshal_response (JSON := padded) r)) = maxFrameSize + Z.of_nat (length (marshal_response r)).
Proof. cbn [marshal_response padded]. rewrite length_app, length_replicate. rewrite maxFrameSize_val. lia. Qed.

Definition long_response : Response := error_response (Wrapf "parse error: %w" [] ErrIO).

Lemma large_response_lost_witness :
  ∃ db' e, handle (H2 := padded) (λ n, 2 * n + 1)%nat 1 100 20 20 2 (wire_db, mkConn (requests (H2 := padded) ["SELECT FROM"%string]) [] None) =
    (Ok tt, (db', mkConn [] (frame (marshal_response (JSON := padded) long_response)) None)) ∧
  client_Exec (H := padded) "SELECT FROM" (mkConn (frame (marshal_response (JSON := padded) long_response) ++ []) [] None) =
    (Err e, mkConn (marshal_response (JSON := padded) long_response ++ []) ([] ++ requests (H2 := padded) ["SELECT FROM"%string]) None).
Proof.
  destruct (large_response_lost (H2 := padded) (λ _, True) (JSONLaws0 := padded_laws) (λ n, 2 * n + 1)%nat 1 100 20 20 "SELECT FROM" wire_db long_response
    (execSQL (H2 := padded) (λ n, 2 * n + 1)%nat 1 100 20 20 "SELECT FROM" wire_db).2 [] [] 2) as (Hs & e & Hc).
  - split; [done|]. vm_compute. discriminate.
  - apply run_fst. vm_compute. reflexivity.
  - rewrite length_padded, maxFrameSize_val. vm_compute. split; [discriminate|reflexivity].
  - unfold fits. rewrite length_padded, maxFrameSize_val. vm_compute. intros Hn. by apply Hn.
  - lia.
  - eexists _, e. split; [exact Hs|exact Hc].
Defined.
