(* ===== verification/Lifecycle.v ===== *)
(** * Lifecycle: starting and stopping the server
    ([src/server/server.go], [src/cmd/dbserver/main.go])

    The goroutines of the server as a transition system: the one that runs
    [Serve], those that call [Close], and one [handle] for each connection.  A
    step is a statement, or a section under the mutex.  What a connection does
    ([Server.handle]) is left out, but for its end. *)
From S2P Require Import Prelude.
From stdpp Require Import relations options.

(** ** The server *)

(** Where [Serve] stands: before it has registered the listener, waiting in
    [Accept], with an accepted connection, after [wg.Add(1)], after a failed
    [Accept], or back, without ([true]) or with an error. *)
Inductive ServePC := SStart | SAccept | SAccepted | SAdded | SFailed | SReturned (ok : bool).

(** A call of [Close]: before [once.Do], at its two statements, waiting, or let
    go by [wg.Wait]. *)
Inductive ClosePC := CCalled | CBegun | CShut | CWaiting | CReturned.

(** [sync.Once]: the other callers wait for the running one. *)
Inductive OnceState := Fresh | Running | Finished.

#[global] Instance ServePC_eq_dec : EqDecision ServePC.
Proof. solve_decision. Defined.
#[global] Instance ClosePC_eq_dec : EqDecision ClosePC.
Proof. solve_decision. Defined.

(** [ln] says that [s.ln] is set, [listening] that the listener is open.
    [handlers] is the number of goroutines in [handle]; [gone] of them have come
    to the end of their connection: the client has closed it, or a frame could
    not be read or written. *)
Record Server : Type := mkServer {
  ln : bool; listening : bool; shutdown : bool; once : OnceState; wg : nat;
  serve : ServePC; closers : list ClosePC; handlers : nat; gone : nat }.

(** [New], and the listener that [Serve] is given. *)
Definition New : Server := mkServer false true false Fresh 0 SStart [] 0 0.

Definition set_serve (pc : ServePC) (s : Server) : Server :=
  mkServer (ln s) (listening s) (shutdown s) (once s) (wg s) pc (closers s) (handlers s) (gone s).
Definition set_closer (i : nat) (pc : ClosePC) (s : Server) : Server :=
  mkServer (ln s) (listening s) (shutdown s) (once s) (wg s) (serve s) (<[i := pc]> (closers s)) (handlers s) (gone s).
Definition set_once (o : OnceState) (s : Server) : Server :=
  mkServer (ln s) (listening s) (shutdown s) o (wg s) (serve s) (closers s) (handlers s) (gone s).

(** A step of [Serve]; [client] says whether an open listener has a client or
    fails to accept one. *)
Definition serve_step (client : bool) (s : Server) : option Server :=
  match serve s with
  | SStart => Some (set_serve SAccept (mkServer true (listening s) (shutdown s) (once s) (wg s) (serve s) (closers s) (handlers s) (gone s)))
  | SAccept => Some (set_serve (if listening s && client then SAccepted else SFailed) s)
  | SFailed => Some (set_serve (SReturned (shutdown s)) s)
  | SAccepted =>
      Some (set_serve SAdded (mkServer (ln s) (listening s) (shutdown s) (once s) (S (wg s)) (serve s) (closers s) (handlers s) (gone s)))
  | SAdded =>
      Some (set_serve SAccept (mkServer (ln s) (listening s) (shutdown s) (once s) (wg s) (serve s) (closers s) (S (handlers s)) (gone s)))
  | SReturned _ => None
  end.

(** [handle] returns, where its connection has come to its end, and its goroutine
    calls [wg.Done].  While the client stays, [handle] waits in [readFrame] or
    serves the next request. *)
Definition handler_exit (s : Server) : option Server :=
  match gone s with
  | O => None
  | S n => Some (mkServer (ln s) (listening s) (shutdown s) (once s) (pred (wg s)) (serve s) (closers s) (pred (handlers s)) n)
  end.

(** A client leaves, or its connection fails.  Nothing in the server makes it. *)
Definition hang_up (s : Server) : option Server :=
  if decide (gone s < handlers s)
  then Some (mkServer (ln s) (listening s) (shutdown s) (once s) (wg s) (serve s) (closers s) (handlers s) (S (gone s)))
  else None.

(** A call of [Close] begins. *)
Definition call_close (s : Server) : Server :=
  mkServer (ln s) (listening s) (shutdown s) (once s) (wg s) (serve s) (closers s ++ [CCalled]) (handlers s) (gone s).

(** A step of call [i] of [Close]. *)
Definition close_step (i : nat) (s : Server) : option Server :=
  match closers s !! i with
  | Some CCalled =>
      match once s with
      | Fresh => Some (set_closer i CBegun (set_once Running s))
      | Running => None
      | Finished => Some (set_closer i CWaiting s)
      end
  | Some CBegun =>
      Some (set_closer i CShut (mkServer (ln s) (listening s) true (once s) (wg s) (serve s) (closers s) (handlers s) (gone s)))
  | Some CShut =>
      Some (set_closer i CWaiting
        (mkServer (ln s) (if ln s then false else listening s) (shutdown s) Finished (wg s) (serve s) (closers s) (handlers s) (gone s)))
  | Some CWaiting => if decide (wg s = O) then Some (set_closer i CReturned s) else None
  | _ => None
  end.

(** What the goroutines do by themselves, *)
Inductive run : relation Server :=
  | run_serve client s s' : serve_step client s = Some s' → run s s'
  | run_exit s s' : handler_exit s = Some s' → run s s'
  | run_close i s s' : close_step i s = Some s' → run s s'.

(** with clients that leave, *)
Inductive live : relation Server :=
  | live_run s s' : run s s' → live s s'
  | live_hang s s' : hang_up s = Some s' → live s s'.

(** and with calls of [Close]. *)
Inductive step : relation Server :=
  | step_live s s' : live s s' → step s s'
  | step_call s : step s (call_close s).

Definition reachable (s : Server) : Prop := rtc step New s.

(** ** The invariant *)

Definition pending (s : Server) : nat := match serve s with SAccepted | SAdded => 1 | _ => 0 end.
Definition added (s : Server) : nat := match serve s with SAdded => 1 | _ => 0 end.

(** What the calls of [Close] and the fields say of each other. *)
Definition once_ok (s : Server) : Prop :=
  match once s with
  | Fresh => Forall (.= CCalled) (closers s) ∧ shutdown s = false ∧ listening s = true
  | Running => ∃ i, (closers s !! i = Some CBegun ∨ closers s !! i = Some CShut ∧ shutdown s = true) ∧
      (∀ j pc, j ≠ i → closers s !! j = Some pc → pc = CCalled) ∧ listening s = true
  | Finished => shutdown s = true ∧ Forall (λ pc, pc = CCalled ∨ pc = CWaiting ∨ pc = CReturned) (closers s)
  end.

Record server_ok (s : Server) : Prop := {
  so_wg : wg s = handlers s + added s;
  so_gone : gone s ≤ handlers s;
  so_once : once_ok s;
  so_ln : ln s = false ↔ serve s = SStart;
  so_listening : listening s = false → once s = Finished ∧ ln s = true;
  so_returned : serve s = SReturned true → shutdown s = true;
  so_closed : CReturned ∈ closers s → listening s = false → handlers s + pending s ≤ 1
}.

Lemma once_shutdown s : server_ok s → once s = Finished → shutdown s = true.
Proof. intros [_ _ Ho _ _ _ _] E. unfold once_ok in Ho. rewrite E in Ho. apply Ho. Qed.

Lemma serve_step_ok client s s' : server_ok s → serve_step client s = Some s' → server_ok s'.
Proof.
  intros [Hw Hg Ho Hl Hn Hr Hc]. unfold serve_step, added, pending, once_ok in *.
  destruct s as [ln0 li sh on w sv cl h g]. cbn in *. destruct sv; cbn in *; intros [= <-]; split; unfold added, pending, once_ok; cbn; try done; try tauto; try lia.
  all: try (by destruct (li && client)).
  all: try (split; [by intros E%Hl|]; by destruct (li && client)).
  - intros A ->. specialize (Hc A eq_refl). cbn. lia.
  - intros A B. specialize (Hc A B). lia.
  - intros E. by injection E.
Qed.

Lemma handler_exit_ok s s' : server_ok s → handler_exit s = Some s' → server_ok s'.
Proof.
  intros [Hw Hg Ho Hl Hn Hr Hc]. unfold handler_exit, added, pending, once_ok in *.
  destruct s as [ln0 li sh on w sv cl h g]. cbn in *. destruct g as [|g]; [done|]. intros [= <-].
  split; unfold added, pending, once_ok; cbn; try done; [lia..|]. intros A B. specialize (Hc A B). lia.
Qed.

Lemma hang_up_ok s s' : server_ok s → hang_up s = Some s' → server_ok s'.
Proof.
  intros [Hw Hg Ho Hl Hn Hr Hc]. unfold hang_up. case_decide; [|done]. intros [= <-]. split; cbn; done.
Qed.

Lemma call_close_ok s : server_ok s → server_ok (call_close s).
Proof.
  intros [Hw Hg Ho Hl Hn Hr Hc]. split; try done; unfold once_ok in *; cbn.
  - destruct (once s).
    + destruct Ho as (H1 & H2). split; [|done]. apply Forall_app. by rewrite Forall_singleton.
    + destruct Ho as (i & Hi & Hj & Hli). exists i. split; [|split; [|done]].
      * destruct Hi as [Hi|[Hi ?]]; [left|right; split; [|done]]; by apply lookup_app_l_Some.
      * intros j pc Hne [Hx|[_ Hx]]%lookup_app_Some; [by apply (Hj j)|]. by apply list_lookup_singleton_Some in Hx as [_ <-].
    + destruct Ho as [H1 H2]. split; [done|]. apply Forall_app. rewrite Forall_singleton. auto.
  - intros [A|A%list_elem_of_singleton]%elem_of_app; [by apply Hc|discriminate].
Qed.

Lemma elem_of_set_closer i pc (l : list ClosePC) x : x ∈ <[i := pc]> l → x = pc ∨ x ∈ l.
Proof.
  intros [j Hj]%list_elem_of_lookup_1. apply list_lookup_insert_Some in Hj as [(_ & -> & _)|[_ Hj]]; [by left|right].
  by eapply list_elem_of_lookup_2.
Qed.

(** The call that runs the body of [once.Do] takes its turn there. *)
Lemma close_step_once i s s' : server_ok s → close_step i s = Some s' → once_ok s'.
Proof.
  intros Hs E. pose proof (so_once _ Hs) as Ho. unfold close_step in E. unfold once_ok in *.
  destruct (closers s !! i) as [pc|] eqn:Ei; [|done].
  assert (∀ pc', pc' = CWaiting ∨ pc' = CReturned → once s = Finished → shutdown s = true ∧
    Forall (λ pc, pc = CCalled ∨ pc = CWaiting ∨ pc = CReturned) (<[i := pc']> (closers s))) as Hfin.
  { intros pc' Hpc Hf. rewrite Hf in Ho. destruct Ho as [? Ho]. split; [done|]. apply Forall_insert; tauto. }
  assert (∀ pc', once s = Running → pc ≠ CCalled → ∀ j q, j ≠ i → <[i := pc']> (closers s) !! j = Some q → q = CCalled) as Hrun.
  { intros pc' Hf Hpc j q Hne. rewrite Hf in Ho. destruct Ho as (k & _ & Hk & _). rewrite list_lookup_insert_ne by done.
    destruct (decide (i = k)) as [<-|Hik]; [by apply Hk|]. by apply Hk in Ei. }
  assert (i < length (closers s))%nat as Hlt by by eapply lookup_lt_Some.
  destruct pc; [..|done].
  - destruct (once s) eqn:Eo; [|done|]; injection E as <-; cbn.
    + destruct Ho as (Ho & Hsh & Hli). exists i. split; [left; by apply list_lookup_insert_eq|]. split; [|done].
      intros j q Hne. rewrite list_lookup_insert_ne by done. intros Hj. rewrite Forall_lookup in Ho. by eapply Ho.
    + rewrite Eo. by apply Hfin; [left|].
  - injection E as <-. cbn. destruct (once s) eqn:Eo.
    + destruct Ho as (Ho & _). rewrite Forall_lookup in Ho. by apply Ho in Ei.
    + exists i. split; [right; split; [by apply list_lookup_insert_eq|done]|]. split; [by apply Hrun|]. by destruct Ho as (k & _ & _ & Hli).
    + destruct Ho as [_ Ho]. rewrite Forall_lookup in Ho. apply Ho in Ei. by destruct Ei as [|[|]].
  - injection E as <-. cbn. destruct (once s) eqn:Eo.
    + destruct Ho as (Ho & _). rewrite Forall_lookup in Ho. by apply Ho in Ei.
    + destruct Ho as (k & Hk & Hj & _). destruct (decide (i = k)) as [<-|Hik]; [|by apply Hj in Ei].
      split; [destruct Hk as [Hk|[_ ?]]; [congruence|done]|]. apply Forall_lookup. intros j q Hq. destruct (decide (j = i)) as [->|Hne].
      * rewrite list_lookup_insert_eq in Hq by done. injection Hq as <-. auto.
      * left. by eapply Hrun.
    + destruct Ho as [_ Ho]. rewrite Forall_lookup in Ho. apply Ho in Ei. by destruct Ei as [|[|]].
  - case_decide; [|done]. injection E as <-. cbn. destruct (once s) eqn:Eo.
    + destruct Ho as (Ho & _). rewrite Forall_lookup in Ho. by apply Ho in Ei.
    + destruct Ho as (k & Hk & Hj & _). destruct (decide (i = k)) as [<-|Hik]; [destruct Hk as [|[]]; congruence|by apply Hj in Ei].
    + by apply Hfin; [right|].
Qed.

Lemma returned_finished s : server_ok s → CReturned ∈ closers s ∨ CWaiting ∈ closers s → once s = Finished.
Proof.
  intros [_ _ Ho _ _ _ _] Hin. unfold once_ok in Ho. destruct (once s); [| |done]; exfalso.
  - destruct Ho as [Ho _]. rewrite Forall_forall in Ho. by destruct Hin as [Hin|Hin]; apply Ho in Hin.
  - destruct Ho as (k & Hk & Hj & _).
    destruct Hin as [Hin|Hin]; apply list_elem_of_lookup_1 in Hin as [i Hi];
      (destruct (decide (i = k)) as [<-|Hne]; [destruct Hk as [|[]]; congruence|by apply Hj in Hi]).
Qed.

(** The other fields a step of [Close] changes. *)
Lemma close_step_fields i s s' : server_ok s → close_step i s = Some s' →
  ln s' = ln s ∧ wg s' = wg s ∧ serve s' = serve s ∧ (handlers s' = handlers s ∧ gone s' = gone s) ∧ (shutdown s = true → shutdown s' = true) ∧
  (listening s' = listening s ∨ ln s = true) ∧ (listening s' = false → listening s = false ∨ once s' = Finished) ∧
  (once s = Finished → once s' = Finished ∧ listening s' = listening s).
Proof.
  intros [_ _ Ho _ _ _ _] E. unfold close_step, once_ok in *. destruct (closers s !! i) as [pc|] eqn:Ei; [|done]. destruct pc; [..|done].
  - destruct (once s) eqn:Eo; [|done|]; injection E as <-; cbn; split_and!; by auto.
  - injection E as <-. cbn. split_and!; by auto.
  - injection E as <-. cbn. split_and!; try done; [by destruct (ln s); auto|by auto|].
    intros Hf. rewrite Hf in Ho. destruct Ho as [_ Ho]. rewrite Forall_lookup in Ho. apply Ho in Ei. by destruct Ei as [|[|]].
  - case_decide as Hw; [|done]. injection E as <-. cbn. split_and!; by auto.
Qed.

(** A call returns when the count is zero. *)
Lemma close_step_returned i s s' : close_step i s = Some s' → CReturned ∈ closers s' →
  CReturned ∈ closers s ∨ wg s = O ∧ CWaiting ∈ closers s.
Proof.
  unfold close_step. destruct (closers s !! i) as [pc|] eqn:Ei; [|done].
  assert (CWaiting = pc → CWaiting ∈ closers s) as Hw by (intros ->; by eapply list_elem_of_lookup_2).
  destruct pc; [destruct (once s)| | |case_decide|]; intros E Hin; try done; injection E as <-; apply elem_of_set_closer in Hin as [Hin|Hin]; auto; discriminate.
Qed.

Lemma close_step_ok i s s' : server_ok s → close_step i s = Some s' → server_ok s'.
Proof.
  intros Hs E. pose proof (close_step_once i s s' Hs E) as Ho. pose proof (returned_finished s Hs) as Hfin.
  pose proof (close_step_returned i s s' E) as Hret.
  destruct (close_step_fields i s s' Hs E) as (E1 & E2 & E3 & [E4 Eg] & E5 & E6 & E7 & E8).
  destruct Hs as [Hw Hg _ Hl Hn Hr Hc]. split; unfold added, pending in *; rewrite ?E1, ?E2, ?E3, ?E4, ?Eg; try done.
  - intros Hli. destruct (E7 Hli) as [Hf|Hf].
    + destruct (Hn Hf) as [? ?]. split; [by apply E8|done].
    + split; [done|]. destruct E6 as [E6|E6]; [|done]. rewrite E6 in Hli. by apply Hn.
  - auto.
  - intros A Hli. destruct (Hret A) as [B|[B B']].
    + destruct E8 as [_ E8]; [by auto|]. rewrite E8 in Hli. auto.
    + rewrite B in Hw. destruct (serve s); lia.
Qed.

Lemma New_ok : server_ok New.
Proof. split; cbn; try done. Qed.

Lemma run_ok s s' : server_ok s → run s s' → server_ok s'.
Proof. intros Hs Hr. destruct Hr; [by eapply serve_step_ok|by eapply handler_exit_ok|by eapply close_step_ok]. Qed.

Lemma live_ok s s' : server_ok s → live s s' → server_ok s'.
Proof. intros Hs Hr. destruct Hr; [by eapply run_ok|by eapply hang_up_ok]. Qed.

Lemma reachable_ok s : reachable s → server_ok s.
Proof.
  intros Hr. assert (server_ok New → server_ok s) as H; [|exact (H New_ok)].
  induction Hr as [|? ? ? Hs _ IH]; [done|]. intros Hx. apply IH. destruct Hs; [by eapply live_ok|by apply call_close_ok].
Qed.

(** Running the goroutines. *)
Ltac serving_step := eapply rtc_l; [apply step_live, live_run, (run_serve true); cbn; reflexivity|].
Ltac closing_step := eapply rtc_l; [apply step_live, live_run, (run_close 0); cbn; reflexivity|].
Ltac calling_step := eapply rtc_l; [apply step_call|cbn].

(** ** Shutdown *)

(** The steps that are left once the listener is closed, two for a connection:
    the client leaves and [handle] returns. *)
Definition serve_left (pc : ServePC) : nat :=
  match pc with SStart => 3 | SAccept => 2 | SAccepted => 6 | SAdded => 5 | SFailed => 1 | SReturned _ => 0 end.
Definition close_left (pc : ClosePC) : nat :=
  match pc with CCalled => 4 | CBegun => 3 | CShut => 2 | CWaiting => 1 | CReturned => 0 end.
Definition left_over (s : Server) : nat :=
  serve_left (serve s) + (handlers s + (handlers s - gone s)) + sum_list (close_left <$> closers s).

Lemma sum_list_insert (l : list nat) i x y : l !! i = Some x → sum_list (<[i := y]> l) + x = sum_list l + y.
Proof.
  revert i. induction l as [|z l IH]; intros [|i] Hi; try done.
  - injection Hi as ->. simpl. lia.
  - specialize (IH i Hi). simpl. lia.
Qed.

Lemma close_left_step i s pc pc' : closers s !! i = Some pc → close_left pc' < close_left pc →
  sum_list (close_left <$> <[i := pc']> (closers s)) < sum_list (close_left <$> closers s).
Proof.
  intros Hi Hlt. rewrite list_fmap_insert.
  pose proof (sum_list_insert (close_left <$> closers s) i (close_left pc) (close_left pc')) as H.
  rewrite list_lookup_fmap, Hi in H. specialize (H eq_refl). lia.
Qed.

Lemma run_left s s' : server_ok s → listening s = false → run s s' → listening s' = false ∧ left_over s' < left_over s.
Proof.
  intros Hs Hl Hr. pose proof (so_gone _ Hs) as Hg. unfold left_over. destruct Hr as [client s s' E|s s' E|i s s' E].
  - unfold serve_step in E. rewrite Hl in E. destruct (serve s) eqn:Es; try discriminate E; injection E as <-; cbn; (split; [done|lia]).
  - unfold handler_exit in E. destruct (gone s) eqn:Eh; [done|]. injection E as <-. cbn. split; [done|lia].
  - unfold close_step in E. destruct (closers s !! i) as [pc|] eqn:Ei; [|done].
    destruct pc; [destruct (once s)| | |case_decide|]; try discriminate E; injection E as <-; cbn;
      (split; [by destruct (ln s)|]); match goal with |- context [<[i := ?pc']> (closers s)] =>
        pose proof (close_left_step i s _ pc' Ei ltac:(cbn; lia)) end; lia.
Qed.

Lemma live_left s s' : server_ok s → listening s = false → live s s' → listening s' = false ∧ left_over s' < left_over s.
Proof.
  intros Hs Hl Hr. destruct Hr as [a b Hr|a b E]; [by apply run_left|].
  unfold hang_up in E. case_decide; [|done]. injection E as <-. unfold left_over. cbn. split; [done|lia].
Qed.

(** The server has nothing left to do: [Serve] is back, the connections that
    came to their end are over, and the calls of [Close] are back, or wait for
    clients that stay. *)
Definition settled (s : Server) : Prop :=
  (∃ ok, serve s = SReturned ok) ∧ gone s = O ∧ wg s = handlers s ∧
  Forall (λ pc, pc = CReturned ∨ pc = CWaiting ∧ 0 < handlers s) (closers s).

(** Everything is over. *)
Definition drained (s : Server) : Prop :=
  (∃ ok, serve s = SReturned ok) ∧ handlers s = O ∧ wg s = O ∧ Forall (.= CReturned) (closers s).

Lemma settled_drained s : settled s → handlers s = O → drained s.
Proof.
  intros (Hv & _ & Hw & Hc) Hh. split; [done|]. split; [done|]. split; [congruence|].
  eapply Forall_impl; [exact Hc|]. intros pc [?|[_ ?]]; [done|lia].
Qed.

Lemma live_shutdown s s' : server_ok s → live s s' → (shutdown s = true → shutdown s' = true) ∧
  (shutdown s = true → serve s ≠ SReturned false → serve s' ≠ SReturned false).
Proof.
  intros Hs Hr. destruct Hr as [a b Hr|a b E]; [|unfold hang_up in E; case_decide; [|done]; by injection E as <-].
  destruct Hr as [client s s' E|s s' E|i s s' E].
  - unfold serve_step in E. destruct (serve s) eqn:Es; try discriminate E; injection E as <-; cbn; (split; [done|]); try done.
    + by destruct (listening s && client).
    + by intros ->.
  - unfold handler_exit in E. destruct (gone s); [done|]. by injection E as <-.
  - destruct (close_step_fields i s s' Hs E) as (_ & _ & -> & _ & Hsh & _). done.
Qed.

Lemma stuck_settled s : server_ok s → listening s = false → (∀ s', ¬ run s s') → settled s.
Proof.
  intros Hs Hl Hstuck. pose proof (so_listening _ Hs Hl) as [Hf _]. pose proof (so_wg _ Hs) as Hw.
  assert (∃ ok, serve s = SReturned ok) as [ok Es].
  { destruct (serve s) eqn:Es; [exfalso..|eauto];
      (eapply Hstuck; eapply (run_serve true); unfold serve_step; rewrite Es; reflexivity). }
  assert (gone s = O) as Eh.
  { destruct (gone s) eqn:Eh; [done|]. exfalso. eapply Hstuck, run_exit. unfold handler_exit. by rewrite Eh. }
  assert (wg s = handlers s) as Ew by (unfold added in Hw; rewrite Es in Hw; lia).
  split; [eauto|]. split_and!; try done. apply Forall_lookup. intros i pc Hi. rewrite <-Ew.
  destruct pc; [exfalso..| |by left].
  1-3: eapply Hstuck; eapply (run_close i); unfold close_step; rewrite Hi, ?Hf; reflexivity.
  destruct (decide (wg s = O)) as [E0|]; [exfalso|right; split; [done|lia]].
  eapply Hstuck. eapply (run_close i). unfold close_step. by rewrite Hi, decide_True by done.
Qed.

(** C23. Once a call of [Close] has closed the listener, the server stops as far as
    its clients let it.  From any such state, whatever clients leave, it takes
    a bounded number of steps.  Where it can go no further by itself, [Serve]
    has returned, without an error unless it had failed before, the connections
    whose client has left or failed are over, and every call of [Close] is back
    or waits for a client that stays.  If no client stays, then, everything is
    over and every call is back.  A client that stays is waited for without a
    limit: as long as a counted connection is served no waiting call of [Close]
    returns, and a connection ends only after its client has left or failed.
    That a statement in execution ends is assumed. *)
Theorem shutdown_completes s : reachable s → listening s = false →
  (∀ n s', nsteps live n s s' → n + left_over s' ≤ left_over s) ∧
  (∀ s', rtc live s s' → (∀ s'', ¬ run s' s'') →
    settled s' ∧ (serve s ≠ SReturned false → serve s' = SReturned true) ∧
    ((∀ s'', hang_up s' ≠ Some s'') → drained s')) ∧
  (∀ i s', 0 < handlers s → close_step i s = Some s' → ¬ closers s !! i = Some CWaiting) ∧
  (∀ s', run s s' → handlers s' < handlers s → 0 < gone s).
Proof.
  intros Hr Hl. pose proof (reachable_ok s Hr) as Hs. clear Hr. split_and!.
  - intros n s' Hn. induction Hn as [|n a b c Hab _ IH]; [lia|].
    destruct (live_left a b Hs Hl Hab) as [Hl' ?]. specialize (IH Hl' (live_ok a b Hs Hab)). lia.
  - intros s' Hrun Hstuck. pose proof (once_shutdown s Hs (proj1 (so_listening _ Hs Hl))) as Hsh.
    induction Hrun as [a|a b c Hab _ IH].
    + pose proof (stuck_settled a Hs Hl Hstuck) as Hd. split; [done|]. split.
      * destruct Hd as [[[|] ->] _]; congruence.
      * intros Hh. apply settled_drained; [done|]. destruct Hd as (_ & Hg & _). destruct (handlers a) eqn:Eh; [done|].
        exfalso. eapply Hh. unfold hang_up. by rewrite decide_True by lia.
    + destruct (live_left a b Hs Hl Hab) as [Hl' _]. destruct (live_shutdown a b Hs Hab) as [H1 H2].
      destruct (IH Hl' (live_ok a b Hs Hab) Hstuck (H1 Hsh)) as (Hd & Hret & Hx). auto.
  - intros i s' Hh E Hi. pose proof (so_wg _ Hs). unfold close_step in E. rewrite Hi, decide_False in E by lia. done.
  - intros s' Hrun Hlt. destruct Hrun as [client a b E|a b E|i a b E].
    + unfold serve_step in E. destruct (serve a); try discriminate E; injection E as <-; cbn in Hlt; lia.
    + unfold handler_exit in E. destruct (gone a); [done|lia].
    + destruct (close_step_fields i a b Hs E) as (_ & _ & _ & [? _] & _). lia.
Qed.

(** C24. When a call of [Close] is back and the listener is closed, at most one
    connection is still to be served or being served. *)
Theorem Close_leaves_at_most_one s : reachable s → CReturned ∈ closers s → listening s = false → handlers s + pending s ≤ 1.
Proof. intros Hr. apply (so_closed s (reachable_ok s Hr)). Qed.

(** A [Close] before [Serve] has registered its listener closes nothing, and the
    listener it is given later stays open for good. *)
Lemma Close_before_Serve_is_lost : ∃ s, reachable s ∧ closers s = [CReturned] ∧ ∀ s', rtc step s s' → listening s' = true.
Proof.
  set (s := mkServer false true true Finished 0 SStart [CReturned] 0 0). assert (reachable s) as Hr.
  { unfold reachable. calling_step. do 4 closing_step. apply rtc_refl. }
  exists s. split; [exact Hr|]. split; [done|]. intros s' Hs'.
  assert (server_ok s) as Hok by by apply reachable_ok. assert (once s = Finished ∧ listening s = true) as H by done.
  clear Hr. clearbody s. induction Hs' as [|a b c Hab _ IH]; [apply H|]. apply IH; destruct Hab as [a b Hab|a].
  - by eapply live_ok.
  - by apply call_close_ok.
  - destruct H as [Hf Hl]. destruct Hab as [a b [client s1 s2 E|s1 s2 E|i s1 s2 E]|a b E].
    + unfold serve_step in E. destruct (serve s1); try discriminate E; by injection E as <-.
    + unfold handler_exit in E. destruct (gone s1); [done|]. by injection E as <-.
    + destruct (close_step_fields i s1 s2 Hok E) as (_ & _ & _ & _ & _ & _ & _ & Hx). destruct (Hx Hf) as [? ->]. done.
    + unfold hang_up in E. case_decide; [|done]. by injection E as <-.
  - done.
Qed.

(** ** The server command *)

(** Where [main] stands: in [Serve], before and after the deferred [db.Close],
    or the process has ended. *)
Inductive MainPC := MServe | MClosing | MClosed | MExited.

Record Process : Type := mkProcess { srv : Server; main : MainPC; db_open : bool }.

Definition start : Process := mkProcess New MServe true.

(** [log.Fatalf] runs no deferred calls. *)
Definition main_step (p : Process) : option Process :=
  match main p with
  | MServe =>
      match serve (srv p) with
      | SReturned ok => Some (mkProcess (srv p) (if ok then MClosing else MExited) (db_open p))
      | _ => None
      end
  | MClosing => Some (mkProcess (srv p) MClosed false)
  | MClosed => Some (mkProcess (srv p) MExited (db_open p))
  | MExited => None
  end.

(** The first signal makes its goroutine call [Close]; when [main] is over all
    goroutines are. *)
Inductive proc_step : relation Process :=
  | ps_srv p s' : main p ≠ MExited → live (srv p) s' → proc_step p (mkProcess s' (main p) (db_open p))
  | ps_signal p : main p ≠ MExited → closers (srv p) = [] → proc_step p (mkProcess (call_close (srv p)) (main p) (db_open p))
  | ps_main p p' : main_step p = Some p' → proc_step p p'.

Record process_ok (p : Process) : Prop := {
  po_srv : server_ok (srv p);
  po_main : main p = MClosing ∨ main p = MClosed ∨ db_open p = false → serve (srv p) = SReturned true
}.

Lemma returned_stays s s' ok : server_ok s → serve s = SReturned ok → live s s' → serve s' = SReturned ok.
Proof.
  intros Hs Er Hr. destruct Hr as [a b Hr|a b E]; [|unfold hang_up in E; case_decide; [|done]; by injection E as <-].
  destruct Hr as [client s s' E|s s' E|i s s' E].
  - unfold serve_step in E. by rewrite Er in E.
  - unfold handler_exit in E. destruct (gone s); [done|]. by injection E as <-.
  - destruct (close_step_fields i s s' Hs E) as (_ & _ & -> & _). done.
Qed.

Lemma process_reachable_ok p : rtc proc_step start p → process_ok p.
Proof.
  intros Hr. assert (process_ok start → process_ok p) as H.
  { induction Hr as [|a b c Hab _ IH]; [done|]. intros [Ha Hm]. apply IH. destruct Hab as [a s' _ Hrun|a _ _|a b E].
    - split; cbn; [by eapply live_ok|]. intros Hx. eapply returned_stays; [exact Ha|by apply Hm|done].
    - split; cbn; [by apply call_close_ok|done].
    - unfold main_step in E. destruct (main a) eqn:Em; [|injection E as <-; split; cbn; auto..|done].
      destruct (serve (srv a)) eqn:Es; try discriminate E. injection E as <-. split; cbn; [done|].
      destruct ok; [done|]. intros [|[|Hx]]; [done..|]. specialize (Hm (or_intror (or_intror Hx))). discriminate. }
  apply H. split; [exact New_ok|]. cbn. intros [|[|]]; done.
Qed.

(** The process while it serves [k] connections. *)
Definition serving (k : nat) : Process := mkProcess (mkServer true true false Fresh k SAccept [] k 0) MServe true.

Lemma serve_more k : rtc proc_step start (serving k).
Proof.
  induction k as [|k IH]; [apply rtc_once, ps_srv; [done|by apply live_run, (run_serve true)]|]. etrans; [exact IH|].
  do 2 (eapply rtc_l; [apply ps_srv; [done|by apply live_run, (run_serve true)]|]). apply rtc_once, ps_srv; [done|]. by apply live_run, (run_serve true).
Qed.

(** C25. The database is closed only when [Serve] is back because of a call of
    [Close].  But the signal does not drain the connections, as the command
    says: [main] does not wait for that call, so the process can close the
    database and end with any number of connections in service. *)
Theorem dbserver_does_not_drain :
  (∀ p, rtc proc_step start p → db_open p = false → serve (srv p) = SReturned true ∧ shutdown (srv p) = true) ∧
  ∀ k, ∃ p p', rtc proc_step start p ∧ proc_step p p' ∧ db_open p = false ∧ handlers (srv p) = k ∧
    closers (srv p) = [CWaiting] ∧ main p' = MExited ∧ srv p' = srv p.
Proof.
  split.
  - intros p Hr Hd. destruct (process_reachable_ok p Hr) as [Hs Hm]. assert (serve (srv p) = SReturned true) as E by auto.
    split; [done|]. by apply so_returned.
  - intros k. set (s := mkServer true false true Finished k (SReturned true) [CWaiting] k 0).
    exists (mkProcess s MClosed false), (mkProcess s MExited false).
    split; [|split; [by apply ps_main|done]]. etrans; [exact (serve_more k)|].
    eapply rtc_l; [by apply ps_signal|]. do 3 (eapply rtc_l; [apply ps_srv; [done|by apply live_run, (run_close 0)]|]).
    do 2 (eapply rtc_l; [apply ps_srv; [done|by apply live_run, (run_serve true)]|]).
    eapply rtc_l; [by apply ps_main|]. by apply rtc_once, ps_main.
Qed.

(** ** Concrete instances *)

(** Two connections, then a [Close] up to the closed listener. *)
Definition closing : Server := mkServer true false true Finished 2 SAccept [CWaiting] 2 0.

Lemma closing_reachable : reachable closing.
Proof.
  unfold reachable. do 7 serving_step. calling_step. do 3 closing_step. apply rtc_refl.
Qed.

(** One of the two clients stays: [Serve] is back, [Close] waits. *)
Definition held : Server := mkServer true false true Finished 1 (SReturned true) [CWaiting] 1 0.

Lemma held_settles : rtc live closing held ∧ ∀ s, ¬ run held s.
Proof.
  split.
  - eapply rtc_l; [apply live_hang; cbn; reflexivity|].
    do 2 (eapply rtc_l; [apply live_run, (run_serve true); cbn; reflexivity|]).
    apply rtc_once, live_run, run_exit. reflexivity.
  - intros s Hs. remember held as h eqn:Eh. destruct Hs as [client a b E|a b E|i a b E]; subst a; [done..|].
    unfold close_step in E. destruct i as [|i]; done.
Qed.

Lemma shutdown_completes_witness :
  reachable closing ∧ left_over closing = 7 ∧ (∀ n s', nsteps live n closing s' → n ≤ 7) ∧ settled held.
Proof.
  destruct (shutdown_completes closing closing_reachable eq_refl) as (H & H2 & _).
  split; [exact closing_reachable|]. split; [reflexivity|]. split.
  - intros n s' Hn. specialize (H n s' Hn). cbn in H. lia.
  - apply (H2 held (proj1 held_settles) (proj2 held_settles)).
Defined.

(** [Close] overtakes a connection that was accepted but not yet counted. *)
Definition overtaken : Server := mkServer true false true Finished 0 SAccepted [CReturned] 0 0.

Lemma overtaken_reachable : reachable overtaken.
Proof.
  unfold reachable. do 2 serving_step. calling_step. do 4 closing_step. apply rtc_refl.
Qed.

Lemma Close_leaves_at_most_one_witness : reachable overtaken ∧ handlers overtaken + pending overtaken ≤ 1 ∧ pending overtaken = 1.
Proof.
  split; [exact overtaken_reachable|]. split; [|reflexivity].
  apply (Close_leaves_at_most_one overtaken overtaken_reachable); [by left|reflexivity].
Defined.
