(* ===== verification/Commands.v ===== *)
(** * Commands: the page and B+ tree commands of the command line
    ([src/cmd/dbengine/main.go], phases 1 and 2)

    A command is one process on one file: it opens the pager on the bytes of the
    file, prints, and closes the pager; [die] ends it at once, without the
    deferred [Close].  What is printed is the list of [Printf] calls. *)
From S2P Require Import Prelude Wal Lexer Disk Storage Store Pager Node BTree.
From stdpp Require Import options.
Local Open Scope Z_scope.

(** ** Processes *)

(** A call of [fmt.Printf]. *)
Definition Line : Type := string * list garg.

(** The body of a command between [mustOpen] and the deferred [mustClose]; an
    error stands for [die]. *)
Definition Proc (A : Type) : Type := M (Pager * list Line) A.

Definition Printf (fmt : string) (args : list garg) : Proc unit := modify (λ s, (s.1, s.2 ++ [(fmt, args)])).

Definition on_pager {A} (m : M Pager A) : Proc A := λ s, let '(r, pg) := m s.1 in (r, (pg, s.2)).

(** [if err != nil { die(fmt, args, err) }] *)
Definition or_die {A} (fmt : string) (args : list garg) (m : M Pager A) : Proc A := wrap fmt args (on_pager m).

(** A process that has ended: with status 0, by [die], or by a panic; its output
    and the bytes it leaves in the file. *)
Record Process : Type := mkProcess { p_status : res unit; p_out : list Line; p_file : list byte }.

Definition Command : Type := list byte → Process.

Definition died (e : error) : Command := λ b, mkProcess (Err e) [] b.

(** [pg := mustOpen(file); defer mustClose(pg)] around [body]: a panic unwinds
    through the deferred call, [os.Exit] does not. *)
Definition with_pager (path : string) (body : Proc unit) : Command := λ b,
  match Pager.Open b with
  | (Ok pg, _) =>
      let '(r, (pg, out)) := body (pg, []) in
      match r with
      | Err _ | OutOfFuel => mkProcess r out (f_bytes (file pg))
      | _ =>
          let '(rc, pg) := wrap "close: %v" [] Pager.Close pg in
          mkProcess (match r with Ok _ => rc | r => r end) out (f_bytes (file pg))
      end
  | (Err e, f) => mkProcess (Err (Wrapf "open %q: %v" [GStr path] e)) [] (f_bytes f)
  | (Panic, f) => mkProcess Panic [] (f_bytes f)
  | (OutOfFuel, f) => mkProcess OutOfFuel [] (f_bytes f)
  end.

(** ** Arguments *)

Definition is_digit (c : Ascii.ascii) : bool := bool_decide (48 ≤ GoLib.code c ≤ 57).

(** [strconv.ParseUint(s, 10, bits)] on any string *)
Definition parse_uint (bits : Z) (s : string) : option Z :=
  if decide (s = EmptyString) then None
  else if GoLib.string_all is_digit s then
    let n := digits_val 0 s in if decide (n < 2 ^ bits) then Some n else None
  else None.

Definition mustParseID (s : string) (k : Z → Command) : Command :=
  match parse_uint 32 s with
  | Some id => k id
  | None => died (Errorf "invalid page ID %q: must be a non-negative integer" [GStr s])
  end.

Definition mustParseUint64 (s : string) (k : Z → Command) : Command :=
  match parse_uint 64 s with
  | Some n => k n
  | None => died (Errorf "invalid key %q: must be a non-negative integer" [GStr s])
  end.

Definition typeName (t : Z) : string :=
  if decide (t = PageTypeFree) then "free"
  else if decide (t = PageTypeMeta) then "meta"
  else if decide (t = PageTypeData) then "data"
  else ("unknown(" +:+ GoLib.fmt_d t +:+ ")")%string.

Definition bytes_of (s : string) : list byte := String.list_byte_of_string s.
Definition string_of (bs : list byte) : string := String.string_of_list_byte bs.

(** ** Pages *)

Definition runInit (path : string) : Command := λ b,
  let p := with_pager path (mret tt) b in
  match p_status p with
  | Ok _ =>
      mkProcess (Ok tt)
        [("initialized: %s", [GStr path]); ("  page size:   %d bytes", [GInt (Z.of_nat PageSize)]);
         ("  data/page:   %d bytes", [GInt (Z.of_nat DataSize)]); ("  header/page: %d bytes", [GInt (Z.of_nat Storage.HeaderSize)])]%string
        (p_file p)
  | _ => p
  end.

Definition runInfo (path : string) : Command := with_pager path (
  s ← get_state;
  let total := TotalPages s.1 in
  let free := FreeList s.1 in
  _ ← Printf "file:         %s" [GStr path];
  _ ← Printf "total pages:  %d  (%d KiB)" [GInt total; GInt (total * Z.of_nat PageSize / 1024)];
  _ ← Printf "free pages:   %d" [GInt (Z.of_nat (length free))];
  if decide (0 < length free)%nat then Printf "free IDs:     %v" (GInt <$> free) else mret tt).

Definition runAlloc (path : string) : Command := with_pager path (
  id ← or_die "alloc failed: %v" [] AllocatePage;
  Printf "allocated page ID: %d" [GInt id]).

Definition runWrite (path idStr data : string) : Command := mustParseID idStr (λ id, with_pager path (
  p ← or_die "read page %d: %v" [GInt id] (ReadPage id);
  p ← or_die "write to page %d: %v" [GInt id] (lift (Write (bytes_of data) p));
  _ ← or_die "flush page %d: %v" [GInt id] (WritePage p);
  _ ← Printf "wrote %d bytes to page %d" [GInt (Z.of_nat (length (bytes_of data))); GInt id];
  _ ← Printf "  used:  %d bytes" [GInt (FreeSpaceOffset (Header p))];
  Printf "  free:  %d bytes" [GInt (FreeSpace p)])).

(** [p.Data[:p.Header.FreeSpaceOffset]] *)
Definition used_data (p : Page) : res (list byte) :=
  let off := FreeSpaceOffset (Header p) in
  if decide (off ≤ Z.of_nat DataSize) then Ok (take (Z.to_nat off) (Data p)) else Panic.

Definition runRead (path idStr : string) : Command := mustParseID idStr (λ id, with_pager path (
  p ← or_die "read page %d: %v" [GInt id] (ReadPage id);
  _ ← Printf "page %d" [GInt id];
  _ ← Printf "  type:   %s" [GStr (typeName (PageType (Header p)))];
  _ ← Printf "  cells:  %d" [GInt (NumCells (Header p))];
  _ ← Printf "  used:   %d / %d bytes" [GInt (FreeSpaceOffset (Header p)); GInt (Z.of_nat DataSize)];
  data ← lift (used_data p);
  Printf "  data:   %q" [GStr (string_of data)])).

Definition runFree (path idStr : string) : Command := mustParseID idStr (λ id, with_pager path (
  _ ← or_die "free page %d: %v" [GInt id] (FreePage id);
  Printf "page %d freed (will be reused on next alloc)" [GInt id])).

(** ** B+ trees *)

Section trees.
Context (fuel : nat).

Definition runBTreeInit (path : string) : Command := with_pager path (
  _ ← or_die "btree-init: %v" [] Create;
  _ ← Printf "initialised B+ Tree: %s" [GStr path];
  _ ← Printf "  leaf capacity:     %d entries/page" [GInt (Z.of_nat LeafOrder)];
  _ ← Printf "  internal capacity: %d keys/page" [GInt (Z.of_nat InternalOrder)];
  Printf "  value size:        %d bytes" [GInt (Z.of_nat ValueSize)]).

(** [bt := mustBTreeOpen(pg)], then a call on [bt]. *)
Definition mustBTreeOpen : Proc (Z * Z) := or_die "open btree: %v" [] (BTree.Open 1).

Definition on_tree {A} (fmt : string) (bt : Z * Z) (m : M (BTree Pager) A) : Proc A :=
  or_die fmt [] (λ pg, let '(r, t) := m (mkBTree pg bt.1 bt.2) in (r, BTree.pg t)).

(** [copy(value[:], s)] *)
Definition value_of (s : string) : list byte :=
  take ValueSize (bytes_of s) ++ zeros (ValueSize - length (bytes_of s)).

(** [strings.TrimRight(string(value[:]), "\x00")] *)
Definition shown_value (v : list byte) : string := string_of (trim_nul v).

Definition runBTreeSet (path keyStr valueStr : string) : Command := mustParseUint64 keyStr (λ key, with_pager path (
  bt ← mustBTreeOpen;
  _ ← on_tree "btree-set: %v" bt (Insert fuel key (value_of valueStr));
  Printf "set key %d" [GInt key])).

Definition runBTreeGet (path keyStr : string) : Command := mustParseUint64 keyStr (λ key, with_pager path (
  bt ← mustBTreeOpen;
  v ← on_tree "btree-get: %v" bt (Search fuel key);
  match v with
  | None => Printf "key %d: not found" [GInt key]
  | Some v => Printf "key %d: %q" [GInt key; GStr (shown_value v)]
  end)).

Fixpoint print_entries (es : list Entry) : Proc unit :=
  match es with
  | [] => mret tt
  | e :: es => _ ← Printf "  %d → %q" [GInt (Key e); GStr (shown_value (Value e))]; print_entries es
  end.

Definition runBTreeScan (path minStr maxStr : string) : Command :=
  mustParseUint64 minStr (λ minKey, mustParseUint64 maxStr (λ maxKey, with_pager path (
    bt ← mustBTreeOpen;
    entries ← on_tree "btree-scan: %v" bt (RangeScan fuel minKey maxKey);
    if decide (length entries = 0%nat) then Printf "no entries in range [%d, %d]" [GInt minKey; GInt maxKey]
    else
      _ ← Printf "%d entries in [%d, %d]:" [GInt (Z.of_nat (length entries)); GInt minKey; GInt maxKey];
      print_entries entries))).

Definition runBTreeInfo (path : string) : Command := with_pager path (
  bt ← mustBTreeOpen;
  s ← get_state;
  _ ← Printf "file:          %s" [GStr path];
  _ ← Printf "root page ID:  %d" [GInt bt.2];
  Printf "total pages:   %d  (%d KiB on disk)" [GInt (TotalPages s.1); GInt (TotalPages s.1 * 4)]).

(** ** [main] *)

(** The command line after the program's name, without the [sql] command. *)
Definition usage (text : string) : Command := died (Errorf "usage: %s" [GStr text]).

Definition main (args : list string) : Command :=
  match args with
  | [] | [_] => died (Errorf "usage" [])
  | cmd :: path :: rest =>
      if decide (cmd = "init")%string then runInit path
      else if decide (cmd = "info")%string then runInfo path
      else if decide (cmd = "alloc")%string then runAlloc path
      else if decide (cmd = "write")%string then
        match rest with id :: data :: _ => runWrite path id data | _ => usage "dbengine write <file> <id> <data>" end
      else if decide (cmd = "read")%string then
        match rest with id :: _ => runRead path id | _ => usage "dbengine read <file> <id>" end
      else if decide (cmd = "free")%string then
        match rest with id :: _ => runFree path id | _ => usage "dbengine free <file> <id>" end
      else if decide (cmd = "btree-init")%string then runBTreeInit path
      else if decide (cmd = "btree-set")%string then
        match rest with k :: v :: _ => runBTreeSet path k v | _ => usage "dbengine btree-set <file> <key> <value>" end
      else if decide (cmd = "btree-get")%string then
        match rest with k :: _ => runBTreeGet path k | _ => usage "dbengine btree-get <file> <key>" end
      else if decide (cmd = "btree-scan")%string then
        match rest with lo :: hi :: _ => runBTreeScan path lo hi | _ => usage "dbengine btree-scan <file> <min> <max>" end
      else if decide (cmd = "btree-info")%string then runBTreeInfo path
      else died (Errorf "unknown command: %q" [GStr cmd])
  end.

(** Commands one after the other on the same file: their statuses and outputs. *)
Fixpoint run_commands (cmds : list (list string)) (b : list byte) : list (res unit * list Line) * list byte :=
  match cmds with
  | [] => ([], b)
  | args :: cmds =>
      let p := main args b in
      let '(outs, b) := run_commands cmds (p_file p) in
      ((p_status p, p_out p) :: outs, b)
  end.
End trees.

(** ** A file that holds a B+ tree *)

Lemma Close_rep pg v : pager_rep pg v → ∃ pg', Pager.Close pg = (Ok tt, pg') ∧
  f_bytes (file pg') = write_page (meta_page (totalPages pg) (freeList pg)) (f_bytes (file pg)) ∧
  let pg'' := mkPager (OpenFile (f_bytes (file pg'))) (totalPages pg) (freeList pg) in
  Pager.Open (f_bytes (file pg')) = (Ok pg'', OpenFile (f_bytes (file pg'))) ∧ pager_rep pg'' v.
Proof.
  intros [Hf Hd]. pose proof Hd as [Ht Hlen Hnd Hfree Hcap Hmeta Hpages Hview].
  unfold Pager.Close. M_run. rewrite flushMeta_ok, WritePage_ok by done. eexists. split; [reflexivity|].
  cbn [file set_file CloseFile OpenFile f_bytes totalPages freeList].
  assert (disk_rep (write_page (meta_page (totalPages pg) (freeList pg)) (f_bytes (file pg))) (totalPages pg) (freeList pg) v) as Hd'
    by (apply disk_rep_flush; eauto).
  split; [done|]. split; [by eapply Open_rep|]. by split.
Qed.

(** The file opens as a pager on which page 1 is the header of a tree with the
    entries [kvs], and [room] more pages can be allocated. *)
Definition tree_file (b : list byte) (kvs : list Entry) (room : Z) : Prop :=
  ∃ pg f root h, Pager.Open b = (Ok pg, f) ∧ tree_rep false (mkBTree pg 1 root) h kvs ∧ room ≤ ps_room pg.

Lemma with_pager_done path body b pg f pg1 out pg2 : Pager.Open b = (Ok pg, f) → body (pg, []) = (Ok tt, (pg1, out)) →
  Pager.Close pg1 = (Ok tt, pg2) → with_pager path body b = mkProcess (Ok tt) out (f_bytes (file pg2)).
Proof. intros Eo Eb Ec. unfold with_pager. rewrite Eo, Eb. unfold wrap. by rewrite Ec. Qed.

Lemma with_pager_died path body b pg f e pg1 out : Pager.Open b = (Ok pg, f) → body (pg, []) = (Err e, (pg1, out)) →
  with_pager path body b = mkProcess (Err e) out (f_bytes (file pg1)).
Proof. intros Eo Eb. unfold with_pager. by rewrite Eo, Eb. Qed.

Lemma with_tree_ok path body b pg f pg1 out root h kvs room :
  Pager.Open b = (Ok pg, f) → body (pg, []) = (Ok tt, (pg1, out)) →
  tree_rep false (mkBTree pg1 1 root) h kvs → room ≤ ps_room pg1 →
  ∃ b', with_pager path body b = mkProcess (Ok tt) out b' ∧ tree_file b' kvs room.
Proof.
  intros Eo Eb (v & fl & fp & Hs & Hrep & Hhd) Hroom. destruct (Close_rep pg1 v Hs) as (pg2 & Ec & _ & Eo2 & Hs2).
  exists (f_bytes (file pg2)). split.
  - by eapply with_pager_done.
  - eexists _, _, root, h. split; [exact Eo2|]. split; [by exists v, fl, fp|]. exact Hroom.
Qed.

Lemma is_digit_code c : is_digit c = true → 0 ≤ GoLib.code c - 48.
Proof. unfold is_digit. intros H%bool_decide_eq_true. lia. Qed.

Lemma digits_val_nonneg s acc : GoLib.string_all is_digit s = true → 0 ≤ acc → 0 ≤ digits_val acc s.
Proof.
  revert acc. induction s as [|c s IH]; intros acc Hs Hacc; [done|]. cbn in Hs |- *. apply andb_prop in Hs as [Hc Hs].
  apply is_digit_code in Hc. apply IH; [done|lia].
Qed.

Lemma parse_uint_range bits s n : parse_uint bits s = Some n → 0 ≤ n < 2 ^ bits.
Proof.
  unfold parse_uint. case_decide; [done|]. destruct (GoLib.string_all is_digit s) eqn:Hs; [|done]. cbv zeta.
  case_decide; [|done]. intros [= <-]. split; [|done]. by apply digits_val_nonneg.
Qed.

Lemma length_value_of s : length (value_of s) = ValueSize.
Proof. unfold value_of. rewrite length_app, length_take, length_zeros. lia. Qed.

(** ** The commands on an ordered list of entries *)

Inductive tree_command : Type :=
  | CSet (key value : string) | CGet (key : string) | CScan (min max : string).

Section spec.
Context (path : string).

(** The command line of a command, ... *)
Definition args_of (c : tree_command) : list string :=
  match c with
  | CSet k v => ["btree-set"; path; k; v]
  | CGet k => ["btree-get"; path; k]
  | CScan lo hi => ["btree-scan"; path; lo; hi]
  end%string.

(** ... and what it means on the entries in key order. *)
Definition with_key (s : string) (kvs : list Entry) (k : Z → (res unit * list Line) * list Entry) : (res unit * list Line) * list Entry :=
  match parse_uint 64 s with
  | Some n => k n
  | None => ((Err (Errorf "invalid key %q: must be a non-negative integer" [GStr s]), []), kvs)
  end.

Definition entry_line (e : Entry) : Line := ("  %d → %q"%string, [GInt (Key e); GStr (shown_value (Value e))]).

Definition meaning (c : tree_command) (kvs : list Entry) : (res unit * list Line) * list Entry :=
  match c with
  | CSet k v => with_key k kvs (λ k, ((Ok tt, [("set key %d", [GInt k])]), kv_insert k (value_of v) kvs))
  | CGet k => with_key k kvs (λ k, ((Ok tt,
      [match kv_map kvs !! k with
       | Some v => ("key %d: %q", [GInt k; GStr (shown_value v)])
       | None => ("key %d: not found", [GInt k])
       end]), kvs))
  | CScan lo hi => with_key lo kvs (λ lo, with_key hi kvs (λ hi, ((Ok tt,
      match kv_range lo hi kvs with
      | [] => [("no entries in range [%d, %d]", [GInt lo; GInt hi])]
      | es => ("%d entries in [%d, %d]:", [GInt (Z.of_nat (length es)); GInt lo; GInt hi]) :: (entry_line <$> es)
      end), kvs)))
  end%string.

Fixpoint meanings (cs : list tree_command) (kvs : list Entry) : list (res unit * list Line) * list Entry :=
  match cs with
  | [] => ([], kvs)
  | c :: cs => let '(o, kvs) := meaning c kvs in let '(os, kvs) := meanings cs kvs in (o :: os, kvs)
  end.

Lemma mustBTreeOpen_ok pg root h kvs out : tree_rep false (mkBTree pg 1 root) h kvs →
  ∃ pg1, mustBTreeOpen (pg, out) = (Ok (1, root), (pg1, out)) ∧ tree_rep false (mkBTree pg1 1 root) h kvs ∧ ps_room pg1 = ps_room pg.
Proof.
  intros Ht. destruct (BTree.Open_ok _ _ _ _ Ht) as (pg1 & E & Ht1 & Hr). exists pg1. split; [|by split].
  unfold mustBTreeOpen, or_die. apply wrap_Ok. unfold on_pager. cbn [fst snd]. cbn [headerPage BTree.pg rootID] in E. by rewrite E.
Qed.

(** An operation on the tree at its new root. *)
Lemma on_tree_ok {A} fmt (m : M (BTree Pager) A) pg root out a pg' hd' root' :
  m (mkBTree pg 1 root) = (Ok a, mkBTree pg' hd' root') → on_tree fmt (1, root) m (pg, out) = (Ok a, (pg', out)).
Proof. intros E. unfold on_tree, or_die. apply wrap_Ok. unfold on_pager. cbn [fst snd]. by rewrite E. Qed.

Lemma print_entries_ok es pg out : print_entries es (pg, out) = (Ok tt, (pg, out ++ (entry_line <$> es))).
Proof.
  revert out. induction es as [|e es IH]; intros out; cbn [print_entries]; [by rewrite app_nil_r|].
  unfold Printf. M_run. cbn [fst snd]. rewrite IH. cbn [fmap list_fmap]. by rewrite <-app_assoc.
Qed.

Lemma mustParse_ok s (k : Z → Command) b kvs room (km : Z → (res unit * list Line) * list Entry) :
  tree_file b kvs room →
  (∀ n, is_u64 n → ∃ b', k n b = mkProcess (km n).1.1 (km n).1.2 b' ∧ tree_file b' (km n).2 (room - 33)) →
  ∃ b', mustParseUint64 s k b = mkProcess (with_key s kvs km).1.1 (with_key s kvs km).1.2 b' ∧
    tree_file b' (with_key s kvs km).2 (room - 33).
Proof.
  intros Ht Hk. unfold mustParseUint64, with_key. destruct (parse_uint 64 s) as [n|] eqn:En.
  - apply Hk. by eapply (parse_uint_range 64).
  - exists b. split; [done|]. destruct Ht as (pg & f & root & h & Eo & Hrep & Hr). exists pg, f, root, h. split_and!; [done|done|lia].
Qed.

Context (fuel : nat) (Hfuel : 2 ^ 32 ≤ Z.of_nat fuel).

Lemma runBTreeSet_ok k v b kvs room : tree_file b kvs room → 33 ≤ room →
  ∃ b', runBTreeSet fuel path k v b = mkProcess (meaning (CSet k v) kvs).1.1 (meaning (CSet k v) kvs).1.2 b' ∧
    tree_file b' (meaning (CSet k v) kvs).2 (room - 33).
Proof using Hfuel.
  intros Ht Hroom. apply mustParse_ok; [done|]. intros key Hkey. destruct Ht as (pg & f & root & h & Eo & Ht & Hr).
  destruct (mustBTreeOpen_ok pg root h kvs [] Ht) as (pg1 & Em & Ht1 & Hr1).
  destruct (Insert_ok false false _ _ _ key (value_of v) fuel (or_introl eq_refl) Ht1) as ([pg2 hd2 root2] & h2 & Ei & Ht2 & Hr2 & Hhd2).
  { split; [exact Hkey|apply length_value_of]. } { cbn [BTree.pg]. lia. } { lia. }
  cbn [BTree.pg headerPage] in *. subst hd2.
  cbn [meaning fst snd]. eapply (with_tree_ok path _ b pg f pg2 _ root2 h2); [exact Eo| |exact Ht2|lia].
  rewrite (M_bind_Ok _ _ _ _ _ Em), (M_bind_Ok _ _ _ _ _ (on_tree_ok "btree-set: %v" _ _ _ _ _ _ _ _ Ei)). reflexivity.
Qed.

Lemma runBTreeGet_ok k b kvs room : tree_file b kvs room → 33 ≤ room →
  ∃ b', runBTreeGet fuel path k b = mkProcess (meaning (CGet k) kvs).1.1 (meaning (CGet k) kvs).1.2 b' ∧
    tree_file b' (meaning (CGet k) kvs).2 (room - 33).
Proof using Hfuel.
  intros Ht Hroom. apply mustParse_ok; [done|]. intros key Hkey. destruct Ht as (pg & f & root & h & Eo & Ht & Hr).
  destruct (mustBTreeOpen_ok pg root h kvs [] Ht) as (pg1 & Em & Ht1 & Hr1).
  destruct (Search_ok _ _ _ _ key fuel Ht1 Hkey ltac:(lia)) as ([pg2 hd2 root2] & Es & Ht2 & Hr2 & Hhd2).
  cbn [BTree.pg headerPage] in *. subst hd2. cbn [meaning fst snd].
  eapply (with_tree_ok path _ b pg f pg2 _ root2 h kvs); [exact Eo| |exact Ht2|lia].
  rewrite (M_bind_Ok _ _ _ _ _ Em), (M_bind_Ok _ _ _ _ _ (on_tree_ok "btree-get: %v" _ _ _ _ _ _ _ _ Es)).
  by destruct (kv_map kvs !! key).
Qed.

Lemma runBTreeScan_ok lo hi b kvs room : tree_file b kvs room → 33 ≤ room →
  ∃ b', runBTreeScan fuel path lo hi b = mkProcess (meaning (CScan lo hi) kvs).1.1 (meaning (CScan lo hi) kvs).1.2 b' ∧
    tree_file b' (meaning (CScan lo hi) kvs).2 (room - 33).
Proof using Hfuel.
  intros Ht Hroom. apply mustParse_ok; [done|]. intros lo' Hlo. apply mustParse_ok; [done|]. intros hi' Hhi.
  destruct Ht as (pg & f & root & h & Eo & Ht & Hr).
  destruct (mustBTreeOpen_ok pg root h kvs [] Ht) as (pg1 & Em & Ht1 & Hr1).
  destruct (RangeScan_ok _ _ _ _ lo' hi' fuel Ht1 Hlo Hfuel) as ([pg2 hd2 root2] & Es & Ht2 & Hr2 & Hhd2).
  cbn [BTree.pg headerPage] in *. subst hd2. cbn [meaning fst snd].
  eapply (with_tree_ok path _ b pg f pg2 _ root2 h kvs); [exact Eo| |exact Ht2|lia].
  rewrite (M_bind_Ok _ _ _ _ _ Em), (M_bind_Ok _ _ _ _ _ (on_tree_ok "btree-scan: %v" _ _ _ _ _ _ _ _ Es)).
  destruct (kv_range lo' hi' kvs) as [|e es]; [done|]. rewrite decide_False by done.
  set (es' := e :: es). unfold Printf at 1. M_run. cbn [fst snd]. by rewrite print_entries_ok.
Qed.

Lemma command_ok c b kvs room : tree_file b kvs room → 33 ≤ room →
  ∃ b', main fuel (args_of c) b = mkProcess (meaning c kvs).1.1 (meaning c kvs).1.2 b' ∧ tree_file b' (meaning c kvs).2 (room - 33).
Proof using Hfuel. destruct c; [apply runBTreeSet_ok|apply runBTreeGet_ok|apply runBTreeScan_ok]. Qed.

Lemma commands_ok cs b kvs room : tree_file b kvs room → 33 * Z.of_nat (length cs) ≤ room →
  ∃ b', run_commands fuel (args_of <$> cs) b = ((meanings cs kvs).1, b') ∧ tree_file b' (meanings cs kvs).2 0.
Proof using Hfuel.
  revert b kvs room. induction cs as [|c cs IH]; intros b kvs room Ht Hroom.
  - exists b. split; [done|]. destruct Ht as (pg & f & root & h & Eo & Hrep & Hr). exists pg, f, root, h. split_and!; [done|done|cbn in Hroom; lia].
  - cbn [length] in Hroom. destruct (command_ok c b kvs room Ht ltac:(lia)) as (b1 & E1 & Ht1).
    destruct (IH b1 _ _ Ht1 ltac:(lia)) as (b' & E2 & Ht2). exists b'. rewrite fmap_cons. cbn [run_commands meanings]. rewrite E1.
    cbn [p_file p_status p_out]. rewrite E2. destruct (meaning c kvs) as [[r o] kvs1]. cbn [fst snd] in *.
    destruct (meanings cs kvs1) as [os kvs2]. by split.
Qed.

Lemma runBTreeInit_ok : ∃ b', main fuel ["btree-init"; path]%string [] = mkProcess (Ok tt)
    [("initialised B+ Tree: %s", [GStr path]); ("  leaf capacity:     %d entries/page", [GInt (Z.of_nat LeafOrder)]);
     ("  internal capacity: %d keys/page", [GInt (Z.of_nat InternalOrder)]);
     ("  value size:        %d bytes", [GInt (Z.of_nat ValueSize)])]%string b' ∧
  tree_file b' [] (2 ^ 32 - 4).
Proof using Type.
  destruct (Create_ok (PSS := Pager_pages_spec) pager0 ∅ pager0_rep) as (hd & root & pg1 & Ec & Ht & Hr).
  { change (ps_room pager0) with (pager_room pager0). unfold pager_room, pager0. cbn [freeList totalPages length]. lia. }
  assert (hd = 1) as ->.
  { clear -Ec. unfold Create in Ec. apply M_bind_Ok_inv in Ec as (id & pg2 & Ea & Ec).
    change (ps_alloc (S := Pager)) with AllocatePage in Ea. rewrite (wrap_Ok _ _ _ _ _ _ (AllocatePage_extend pager0 (conj eq_refl eq_refl) eq_refl ltac:(easy) ltac:(easy))) in Ea.
    injection Ea as <- _. apply M_bind_Ok_inv in Ec as (r & pg3 & _ & Ec). apply M_bind_Ok_inv in Ec as (l & pg4 & _ & Ec).
    apply M_bind_Ok_inv in Ec as ([] & pg5 & _ & Ec). apply M_bind_Ok_inv in Ec as ([] & pg6 & _ & Ec).
    injection Ec as Ec _. symmetry. exact Ec. }
  change (main fuel ["btree-init"; path]%string []) with (runBTreeInit path []). unfold runBTreeInit.
  eapply (with_tree_ok path _ [] pager0 _ pg1 _ root 0 []); [exact Open_new| |exact Ht|].
  - assert (or_die "btree-init: %v" [] Create (pager0, @nil Line) = (Ok (1, root), (pg1, []))) as E.
    { unfold or_die. apply wrap_Ok. unfold on_pager. cbn [fst snd]. by rewrite Ec. }
    rewrite (M_bind_Ok _ _ _ _ _ E). reflexivity.
  - rewrite Hr. change (ps_room pager0) with (pager_room pager0). unfold pager_room, pager0. cbn [freeList totalPages length]. lia.
Qed.
End spec.

(** C34. The B+ tree commands on a file made by [btree-init] behave as operations on
    an ordered list of entries, although every command is a process of its own
    that only finds the bytes the others left in the file: a value that was set
    is printed by every later [btree-get] and [btree-scan], cut to 256 bytes and
    without its trailing zero bytes, scans print the entries in key order, and
    an argument that is not a 64-bit number ends the command with status 1 and
    changes nothing.  A command allocates at most 33 pages. *)
Theorem btree_commands_persist path fuel cs :
  2 ^ 32 ≤ Z.of_nat fuel → 33 * Z.of_nat (length cs) ≤ 2 ^ 32 - 4 →
  ∃ init b, run_commands fuel (["btree-init"; path]%string :: (args_of path <$> cs)) [] = ((Ok tt, init) :: (meanings cs []).1, b).
Proof.
  intros Hfuel Hroom. destruct (runBTreeInit_ok path fuel) as (b & Ei & Ht).
  destruct (commands_ok path fuel Hfuel cs b [] _ Ht Hroom) as (b' & E & _).
  eexists _, b'. cbn [run_commands]. rewrite Ei. cbn [p_file p_status p_out]. rewrite E. reflexivity.
Qed.

Definition some_commands : list tree_command := [CSet "7" "seven"; CSet "x" "eks"; CGet "7"; CScan "0" "9"]%string.

Lemma btree_commands_persist_witness : ∃ init b,
  run_commands (Z.to_nat (2 ^ 32)) (["btree-init"; "f"]%string :: (args_of "f" <$> some_commands)) [] =
    ((Ok tt, init) :: [(Ok tt, [("set key %d", [GInt 7])]); (Err (Errorf "invalid key %q: must be a non-negative integer" [GStr "x"]), []);
      (Ok tt, [("key %d: %q", [GInt 7; GStr "seven"])]);
      (Ok tt, [("%d entries in [%d, %d]:", [GInt 1; GInt 0; GInt 9]); ("  %d → %q", [GInt 7; GStr "seven"])])]%string, b).
Proof.
  destruct (btree_commands_persist "f" (Z.to_nat (2 ^ 32)) some_commands) as (init & b & E).
  - rewrite Z2Nat.id by lia. lia.
  - cbn. lia.
  - exists init, b. rewrite E. reflexivity.
Defined.

(** ** Text in a page *)

Lemma block_write_ne p b id : page_wf p → id ≠ PageID (Header p) → 0 ≤ id → (page_off id + PageSize ≤ length b)%nat →
  block (write_page p b) id = block b id.
Proof.
  intros Hwf Hne Hid Hlen. unfold block, write_page. apply slice_write_bytes_ne; [done|].
  rewrite length_Encode by apply (wf_data p Hwf). pose proof (wf_id p Hwf). unfold page_off in *. page_lia.
Qed.

Lemma block_write_eq p b : page_wf p → block (write_page p b) (PageID (Header p)) = Encode p.
Proof. intros Hwf. unfold block, write_page. apply slice_write_bytes_eq. by rewrite length_Encode by apply (wf_data p Hwf). Qed.

(** The page of an open pager, and of one whose file it was written to. *)
Lemma ReadPage_block pg v id p : pager_rep pg v → 0 ≤ id < totalPages pg → Decode (block (f_bytes (file pg)) id) = Ok p →
  ReadPage id pg = (Ok p, pg).
Proof.
  intros [Hf Hd] Hid E. unfold ReadPage. M_run. rewrite decide_False by lia. unfold pg_read.
  rewrite ReadAt_ok by (done || by eapply in_file). cbn. fold (block (f_bytes (file pg)) id). by rewrite E.
Qed.

Lemma Write_page_ok data p : page_ok p → Z.of_nat (length data) ≤ FreeSpace p →
  ∃ p', Write data p = Ok p' ∧ page_ok p' ∧ PageID (Header p') = PageID (Header p) ∧ PageType (Header p') = PageType (Header p) ∧
    NumCells (Header p') = u16 (NumCells (Header p) + 1) ∧
    FreeSpaceOffset (Header p') = FreeSpaceOffset (Header p) + Z.of_nat (length data) ∧
    used_data p' = Ok (take (Z.to_nat (FreeSpaceOffset (Header p))) (Data p) ++ data).
Proof.
  intros Hok Hroom. pose proof (Write_spec p data Hok) as H. rewrite decide_True in H by done.
  destruct H as (p' & E & Hok' & Hfs & Hnc & Hs & Ht & _). exists p'. unfold FreeSpace in Hfs.
  assert (PageID (Header p') = PageID (Header p) ∧ PageType (Header p') = PageType (Header p)) as [-> ->].
  { unfold Write in E. case_decide; [done|]. by injection E as <-. }
  destruct Hok as [Hwf Hoff]. destruct Hok' as [Hwf' Hoff']. pose proof (wf_fso p Hwf). pose proof (wf_data p' Hwf'). page_consts.
  split; [exact E|]. split; [by split|]. do 2 (split; [done|]). split; [exact Hnc|]. split; [lia|].
  unfold used_data. rewrite decide_True by lia. f_equal.
  replace (Z.to_nat (FreeSpaceOffset (Header p'))) with (Z.to_nat (FreeSpaceOffset (Header p)) + length data)%nat by lia.
  unfold slice in Hs. by rewrite <-take_take_drop, Ht, Hs.
Qed.

(** A string written to a page by one process is what the next one reads, after
    what the page held: [write] appends within the 4072 bytes of the page,
    counts the record, and refuses a string that does not fit without changing
    the file. *)
Theorem write_then_read path idStr data b pg f v id p :
  Pager.Open b = (Ok pg, f) → pager_rep pg v → parse_uint 32 idStr = Some id → is_Some (v !! id) → ReadPage id pg = (Ok p, pg) →
  FreeSpaceOffset (Header p) ≤ Z.of_nat DataSize →
  let n := Z.of_nat (length (bytes_of data)) in
  if decide (n ≤ FreeSpace p) then
    let used := FreeSpaceOffset (Header p) + n in
    ∃ b', runWrite path idStr data b = mkProcess (Ok tt)
        [("wrote %d bytes to page %d", [GInt n; GInt id]); ("  used:  %d bytes", [GInt used]);
         ("  free:  %d bytes", [GInt (Z.of_nat DataSize - used)])]%string b' ∧
      p_status (runRead path idStr b') = Ok tt ∧
      p_out (runRead path idStr b') =
        [("page %d", [GInt id]); ("  type:   %s", [GStr (typeName (PageType (Header p)))]);
         ("  cells:  %d", [GInt (u16 (NumCells (Header p) + 1))]);
         ("  used:   %d / %d bytes", [GInt used; GInt (Z.of_nat DataSize)]);
         ("  data:   %q", [GStr (string_of (take (Z.to_nat (FreeSpaceOffset (Header p))) (Data p) ++ bytes_of data))])]%string
  else is_err (p_status (runWrite path idStr data b)) = true ∧ p_file (runWrite path idStr data b) = f_bytes (file pg).
Proof.
  intros Eo Hrep Ei [d Hd] Er Hoff n.
  assert (page_ok p ∧ PageID (Header p) = id ∧ 0 < id < totalPages pg ∧ Decode (block (f_bytes (file pg)) id) = Ok p) as (Hok & Hid & Hlt & Hdec).
  { destruct Hrep as [Hf Hdr]. pose proof (dr_view _ _ _ _ Hdr id) as Hv. rewrite Hd in Hv. case_decide as Hc; [|done].
    destruct Hc as [Hc _]. destruct (disk_data_inv _ _ _ (eq_sym Hv)) as (p' & Edec & Hid & _ & Hwf); [eapply in_file; [done|lia]|].
    pose proof (ReadPage_block pg v id p' (conj Hf Hdr) ltac:(lia) Edec) as Er'. rewrite Er in Er'. injection Er' as <-.
    split; [by split|]. by split. }
  unfold runWrite, runRead, mustParseID. rewrite Ei. case_decide as Hroom.
  2: { pose proof (Write_spec p (bytes_of data) Hok) as Hw. rewrite decide_False in Hw by done.
    destruct (Write (bytes_of data) p) as [|e| |] eqn:Ew; try discriminate Hw.
    erewrite (with_pager_died path _ b pg f); [split; reflexivity|exact Eo|].
    unfold or_die, on_pager. M_run. cbn [fst snd]. rewrite Er. cbn [wrap_err fst snd]. rewrite Ew. reflexivity. }
  cbv zeta. destruct (Write_page_ok (bytes_of data) p Hok Hroom) as (p' & Ew & Hok' & Hid' & Hty' & Hnc' & Hfs' & Hu').
  set (pg1 := set_file (OpenFile (write_page p' (f_bytes (file pg)))) pg).
  assert (pager_rep pg1 (<[id := Data p']> v)) as Hrep1.
  { split; [done|]. cbn. rewrite <-Hid at 1. rewrite <-Hid'. apply disk_rep_write; [apply Hrep|apply Hok'|]. rewrite Hid', Hid. eauto. }
  destruct (Close_rep pg1 _ Hrep1) as (pg2 & Ec & Eb & Eo2 & Hrep2).
  exists (f_bytes (file pg2)). set (b2 := f_bytes (file pg2)) in *. split.
  - eapply with_pager_done; [exact Eo| |exact Ec].
    unfold or_die, on_pager, Printf. M_run. cbn [fst snd]. rewrite Er. cbn [wrap_err fst snd]. rewrite Ew. cbn [wrap_err fst snd].
    rewrite WritePage_ok by apply Hrep. cbn [wrap_err fst snd app]. unfold FreeSpace. by rewrite Hfs'.
  - set (pg3 := mkPager (OpenFile b2) (totalPages pg1) (freeList pg1)) in *.
    assert (ReadPage id pg3 = (Ok (with_checksum (ChecksumIEEE (Data p')) p'), pg3)) as Er3.
    { eapply ReadPage_block; [exact Hrep2|cbn; lia|]. cbn [pg3 file OpenFile f_bytes]. rewrite Eb. cbn [pg1 set_file file OpenFile f_bytes totalPages freeList].
      rewrite block_write_ne.
      - rewrite <-Hid, <-Hid'. rewrite block_write_eq by apply Hok'. apply Decode_Encode_ok, Hok'.
      - apply meta_page_wf, Hrep.
      - cbn. unfold metaPageID. lia.
      - lia.
      - eapply in_file; [apply Hrep1|cbn; lia]. }
    destruct (Close_rep pg3 _ Hrep2) as (pg4 & Ec4 & _).
    erewrite (with_pager_done path _ b2 pg3); [split; reflexivity|exact Eo2| |exact Ec4].
    unfold or_die, on_pager, Printf. M_run. cbn [fst snd]. rewrite Er3. cbn [wrap_err fst snd app with_checksum Header PageType NumCells FreeSpaceOffset].
    change (used_data (with_checksum (ChecksumIEEE (Data p')) p')) with (used_data p'). rewrite Hu'. cbn [fst snd app]. rewrite Hty', Hnc', Hfs'. reflexivity.
Qed.

(** A file with one page in use. *)
Definition one_page : Pager := (AllocatePage pager0).2.

Lemma one_page_eq : one_page = mkPager (OpenFile (write_page (meta_page 2 []) (write_page (NewPage 1 PageTypeData) (f_bytes (file pager0))))) 2 [].
Proof. unfold one_page. by rewrite (AllocatePage_extend pager0 (conj eq_refl eq_refl) eq_refl ltac:(easy) ltac:(easy)). Qed.

Lemma one_page_rep : pager_rep one_page {[1 := zeros DataSize]}.
Proof. rewrite one_page_eq. split; [done|]. apply (disk_rep_extend _ 1); [cbn; lia|]. apply pager0_rep. Qed.

Lemma one_page_read : ReadPage 1 one_page = (Ok (with_checksum (ChecksumIEEE (zeros DataSize)) (NewPage 1 PageTypeData)), one_page).
Proof.
  pose proof one_page_rep as Hrep. eapply ReadPage_block; [exact Hrep|rewrite one_page_eq; cbn; lia|]. rewrite one_page_eq.
  cbn [file OpenFile f_bytes]. rewrite block_write_ne.
  - rewrite (block_write_eq (NewPage 1 PageTypeData)) by (apply NewPage_data_wf; lia). apply Decode_Encode_ok, NewPage_data_wf. lia.
  - apply meta_page_wf. cbn. lia.
  - cbn. unfold metaPageID. lia.
  - lia.
  - pose proof (length_write_page (NewPage 1 PageTypeData) (f_bytes (file pager0)) (length_zeros _)) as [_ H]. exact H.
Qed.

Lemma write_then_read_witness : ∃ b',
  runWrite "f" "1" "hello" (f_bytes (file one_page)) = mkProcess (Ok tt)
    [("wrote %d bytes to page %d", [GInt 5; GInt 1]); ("  used:  %d bytes", [GInt 5]);
     ("  free:  %d bytes", [GInt (Z.of_nat DataSize - 5)])]%string b' ∧
  p_out (runRead "f" "1" b') =
    [("page %d", [GInt 1]); ("  type:   %s", [GStr "data"]); ("  cells:  %d", [GInt 1]);
     ("  used:   %d / %d bytes", [GInt 5; GInt (Z.of_nat DataSize)]); ("  data:   %q", [GStr "hello"])]%string.
Proof.
  pose proof one_page_rep as Hrep.
  pose proof (write_then_read "f" "1" "hello" (f_bytes (file one_page)) one_page (OpenFile (f_bytes (file one_page))) {[1 := zeros DataSize]} 1
    (with_checksum (ChecksumIEEE (zeros DataSize)) (NewPage 1 PageTypeData))) as H.
  assert (Pager.Open (f_bytes (file one_page)) = (Ok one_page, OpenFile (f_bytes (file one_page)))) as Eo.
  { rewrite (Open_rep _ _ _ _ (proj2 Hrep)). by rewrite one_page_eq. }
  specialize (H Eo Hrep eq_refl (ex_intro _ _ (lookup_singleton_eq 1 _)) one_page_read ltac:(cbn; page_lia)).
  rewrite decide_True in H by (unfold FreeSpace; cbn; page_lia). destruct H as (b' & Ew & _ & Er). exists b'. split; [exact Ew|exact Er].
Defined.
