(* ===== verification/Repl.v ===== *)
(** * Repl: the interactive SQL session ([runSQL] in
    [src/cmd/dbengine/main.go])

    The input is the list of lines that [bufio.Scanner] delivers; what is
    printed is a list of prompts, lines and errors. *)
From S2P Require Import Prelude GoLib Catalog Ast Stats BufferPool BTree Db Select Exec TxControl Sample Transaction.
From stdpp Require Import options.
Local Open Scope Z_scope.

(** ** Tables *)

(** [n] times the same character *)
Fixpoint fill (c : Ascii.ascii) (n : nat) : string :=
  match n with O => EmptyString | S n => String c (fill c n) end.

(** The widths after a row: an index out of range in [widths] panics. *)
Fixpoint widen (cells : list string) (ws : list nat) : res (list nat) :=
  match cells, ws with
  | [], _ => Ok ws
  | _ :: _, [] => Panic
  | c :: cells, w :: ws => ws ← widen cells ws; Ok (Nat.max w (String.length c) :: ws)
  end.

Fixpoint widen_all (rows : list (list string)) (ws : list nat) : res (list nat) :=
  match rows with
  | [] => Ok ws
  | r :: rows => ws ← widen r ws; widen_all rows ws
  end.

Definition pad (c : string) (w : nat) : string := (c +:+ fill " " (w - String.length c))%string.

Fixpoint pad_cells (cells : list string) (ws : list nat) : res (list string) :=
  match cells, ws with
  | [], _ => Ok []
  | _ :: _, [] => Panic
  | c :: cells, w :: ws => cs ← pad_cells cells ws; Ok (pad c w :: cs)
  end.

Definition printRow (cells : list string) (ws : list nat) : res string :=
  cs ← pad_cells cells ws; Ok (String.concat " | " cs).

Definition printDivider (ws : list nat) : string := String.concat "-+-" (fill "-" <$> ws).

Fixpoint print_rows (rows : list (list string)) (ws : list nat) : res (list string) :=
  match rows with
  | [] => Ok []
  | r :: rows => l ← printRow r ws; ls ← print_rows rows ws; Ok (l :: ls)
  end.

Definition count_line (n : nat) : string :=
  if decide (n = 1%nat) then "(1 row)" else ("(" +:+ fmt_d (Z.of_nat n) +:+ " rows)")%string.

(** The lines of [printResult]. *)
Definition printResult (r : Result) : res (list string) :=
  if decide (Message r ≠ EmptyString) then Ok [Message r; EmptyString]
  else if decide (length (RRows r) = 0%nat) then Ok ["(0 rows)"; EmptyString]
  else
    let rows := map (map Value_String) (RRows r) in
    ws ← widen_all rows (String.length <$> RColumns r);
    header ← printRow (RColumns r) ws;
    lines ← print_rows rows ws;
    Ok (header :: printDivider ws :: lines ++ [count_line (length rows); EmptyString]).

(** ** The session *)

Inductive Printed : Type :=
  | Prompt (text : string)
  | Out (line : string)
  | OutStats (s : PoolStats) (ratio : float64)
  | OutError (e : error).

Section repl.
Context `{Unicode} `{Math} `{MapOrder} `{Spaces} (growcap : nat → nat) (gid : Z) (fuel tfuel depth : nat) (dbName : string).

Definition prompt (db : DB) (buf : string) : Printed :=
  Prompt (if decide (buf = EmptyString) then
    if InTransaction gid db then "[" +:+ dbName +:+ "*]> " else "[" +:+ dbName +:+ "]> "
  else "  ... > ")%string.

(** The transaction is rolled back, with a warning, before the session ends. *)
Definition leave (warning : string) : M DB (list Printed) :=
  db ← get_state;
  if InTransaction gid db then
    _ ← ignore_err (_ ← Exec growcap gid fuel tfuel depth "ROLLBACK"; mret tt);
    mret [Out warning]
  else mret [].

Definition hit_ratio (s : PoolStats) : float64 :=
  let total := u64 (st_hits s + st_misses s) in
  if decide (0 < total) then fmul (fdiv (float_of_Z (st_hits s)) (float_of_Z total)) (float_of_Z 100) else float_of_Z 0.

(** A statement and what is printed about it. *)
Definition execute (sql : string) : M DB (list Printed) := λ db,
  match Exec growcap gid fuel tfuel depth sql db with
  | (Ok r, db) => ((ls ← printResult r; Ok (map Out ls)) : res (list Printed), db)
  | (Err e, db) => (Ok [OutError e], db)
  | (Panic, db) => (Panic, db)
  | (OutOfFuel, db) => (OutOfFuel, db)
  end.

Fixpoint loop (lines : list string) (buf : string) : M DB (list Printed) :=
  db ← get_state;
  match lines with
  | [] => o ← leave (String "010" "warning: open transaction rolled back on exit"); mret (prompt db buf :: o)
  | line :: lines =>
      let trimmed := TrimSpace line in
      if decide (trimmed = "quit" ∨ trimmed = "\q")%string then
        o ← leave "warning: open transaction rolled back on exit"; mret (prompt db buf :: o ++ [Out "bye."])
      else if decide (trimmed = "\stats")%string then
        let s := Stats (pool db) in
        o ← loop lines buf; mret (prompt db buf :: OutStats s (hit_ratio s) :: o)
      else if decide (trimmed = EmptyString) then o ← loop lines buf; mret (prompt db buf :: o)
      else
        let buf' := (buf +:+ line +:+ " ")%string in
        match IndexByte ";" line with
        | None => o ← loop lines buf'; mret (prompt db buf :: o)
        | Some _ => o1 ← execute (TrimSpace buf'); o2 ← loop lines EmptyString; mret (prompt db buf :: o1 ++ o2)
        end
  end.

(** [runSQL] on an open database, up to the deferred [Close]. *)
Definition runSQL (lines : list string) : M DB (list Printed) :=
  o ← loop lines EmptyString;
  _ ← ignore_err (Exec.Close gid);
  mret (Out ("db-engine SQL REPL — database: " +:+ dbName) :: Out "Type SQL statements (end with ';'), 'quit' to exit." :: Out EmptyString :: o)%string.
End repl.

(** ** Columns line up *)

Lemma length_str_app s t : String.length (s +:+ t)%string = (String.length s + String.length t)%nat.
Proof. induction s as [|c s IH]; [done|]. cbn. by rewrite <-IH. Qed.

Lemma length_fill c n : String.length (fill c n) = n.
Proof. induction n as [|n IH]; [done|]. cbn. by rewrite IH. Qed.

Lemma length_pad c w : (String.length c ≤ w)%nat → String.length (pad c w) = w.
Proof. intros. unfold pad. rewrite length_str_app, length_fill. lia. Qed.

(** [cells] fit in the columns of [ws]. *)
Abbreviation fits_in := (Forall2 (λ c w, (String.length c ≤ w)%nat)).

(** The least widths for [cells] above [ws]. *)
Lemma widen_spec cells ws ws' : length cells = length ws → widen cells ws = Ok ws' →
  ws' = zip_with (λ c w, Nat.max w (String.length c)) cells ws.
Proof.
  revert ws ws'. induction cells as [|c cells IH]; intros [|w ws] ws' Hl E; try discriminate Hl; [by injection E as <-|].
  cbn in E. destruct (widen cells ws) as [ws1| | |] eqn:E1; try discriminate E. injection E as <-. injection Hl as Hl.
  by rewrite (IH ws ws1 Hl E1).
Qed.

Lemma widen_ok cells ws : (length cells ≤ length ws)%nat → ∃ ws', widen cells ws = Ok ws' ∧ length ws' = length ws.
Proof.
  revert ws. induction cells as [|c cells IH]; intros [|w ws] Hl; cbn in *; [eauto|eauto|lia|].
  destruct (IH ws ltac:(lia)) as (ws' & -> & E). eexists. split; [reflexivity|]. cbn. by rewrite E.
Qed.

Lemma widen_mono cells ws ws' : widen cells ws = Ok ws' → Forall2 (λ w w', (w ≤ w')%nat) ws ws'.
Proof.
  revert ws ws'. induction cells as [|c cells IH]; intros ws ws' E.
  { injection E as <-. induction ws; constructor; auto. }
  destruct ws as [|w ws]; [discriminate E|]. cbn in E. destruct (widen cells ws) as [ws1| | |] eqn:E1; try discriminate E.
  injection E as <-. constructor; [lia|by apply IH].
Qed.

Lemma widen_fits cells ws ws' : length cells = length ws → widen cells ws = Ok ws' → fits_in cells ws'.
Proof.
  intros Hl E. rewrite (widen_spec cells ws ws' Hl E). clear E. revert ws Hl.
  induction cells as [|c cells IH]; intros [|w ws] Hl; try discriminate Hl; [constructor|]. injection Hl as Hl. constructor; [lia|by apply IH].
Qed.

Lemma fits_mono cells ws ws' : fits_in cells ws → Forall2 (λ w w', (w ≤ w')%nat) ws ws' → fits_in cells ws'.
Proof. intros H. revert ws'. induction H; intros ws' Hm; inversion Hm; subst; constructor; [lia|auto]. Qed.

Lemma le_widths_refl ws : Forall2 (λ w w', (w ≤ w')%nat) ws ws.
Proof. induction ws; constructor; auto. Qed.

Lemma le_widths_trans ws1 ws2 ws3 : Forall2 (λ w w', (w ≤ w')%nat) ws1 ws2 → Forall2 (λ w w', (w ≤ w')%nat) ws2 ws3 → Forall2 (λ w w', (w ≤ w')%nat) ws1 ws3.
Proof. intros H. revert ws3. induction H; intros ws3 Hm; inversion Hm; subst; constructor; [lia|auto]. Qed.

Lemma widen_all_ok rows ws : Forall (λ r, length r = length ws) rows →
  ∃ ws', widen_all rows ws = Ok ws' ∧ length ws' = length ws ∧ Forall (λ r, fits_in r ws') rows ∧ Forall2 (λ w w', (w ≤ w')%nat) ws ws'.
Proof.
  intros Hr. revert ws Hr. induction rows as [|r rows IH]; intros ws Hr; cbn.
  { exists ws. split_and!; [done|done|constructor|apply le_widths_refl]. }
  apply Forall_cons in Hr as [Hl Hr]. destruct (widen_ok r ws ltac:(lia)) as (ws1 & E1 & Hl1). rewrite E1. cbn.
  destruct (IH ws1) as (ws' & -> & Hl' & Hf & Hm). { eapply Forall_impl; [exact Hr|]. intros r' ->. by rewrite Hl1. }
  exists ws'. split_and!; [done|congruence| |].
  - constructor; [|exact Hf]. eapply fits_mono; [by eapply widen_fits|exact Hm].
  - eapply le_widths_trans; [by eapply widen_mono|exact Hm].
Qed.

Lemma pad_cells_ok cells ws : fits_in cells ws → pad_cells cells ws = Ok (zip_with pad cells ws).
Proof. induction 1 as [|c w cells ws Hc _ IH]; [done|]. cbn. by rewrite IH. Qed.

(** The length of a line of columns of these widths. *)
Definition line_width (ws : list nat) : nat := (sum_list ws + 3 * (length ws - 1))%nat.

Lemma length_concat sep cs : String.length sep = 3%nat → String.length (String.concat sep cs) = line_width (String.length <$> cs).
Proof.
  intros Hs. unfold line_width. induction cs as [|c [|c' cs] IH]; [done|cbn; lia|].
  change (String.concat sep (c :: c' :: cs)) with (c +:+ (sep +:+ String.concat sep (c' :: cs)))%string.
  rewrite !length_str_app, IH, Hs. rewrite !length_fmap. rewrite !fmap_cons. cbn [sum_list length]. rewrite ?Nat.sub_0_r. cbn. lia.
Qed.

Lemma pad_widths cells ws : fits_in cells ws → String.length <$> zip_with pad cells ws = ws.
Proof. induction 1 as [|c w cells ws Hc _ IH]; [done|]. cbn. rewrite length_pad by done. by f_equal. Qed.

Lemma printRow_ok cells ws : fits_in cells ws →
  printRow cells ws = Ok (String.concat " | " (zip_with pad cells ws)) ∧
  String.length (String.concat " | " (zip_with pad cells ws)) = line_width ws.
Proof. intros Hf. unfold printRow. rewrite pad_cells_ok by done. split; [done|]. rewrite length_concat by done. by rewrite pad_widths. Qed.

Lemma length_printDivider ws : String.length (printDivider ws) = line_width ws.
Proof.
  unfold printDivider. rewrite length_concat by done. f_equal. rewrite <-list_fmap_compose.
  induction ws as [|w ws IH]; [done|]. cbn. by rewrite length_fill, IH.
Qed.

Lemma print_rows_ok rows ws : Forall (λ r, fits_in r ws) rows →
  print_rows rows ws = Ok ((λ r, String.concat " | " (zip_with pad r ws)) <$> rows).
Proof. induction 1 as [|r rows Hr _ IH]; [done|]. cbn. destruct (printRow_ok r ws Hr) as [-> _]. cbn. by rewrite IH. Qed.

(** A result with rows is printed as a table whose columns line up: there are
    widths, one for each column, that the names and all cells fit in; the
    header, the divider and every row are lines of the same length, each column
    starting at the same position in all of them, because every cell is padded
    with blanks to the width of its column.  (Lengths are in bytes: a table with
    text beyond ASCII lines up in bytes, not on the screen.) *)
Theorem table_aligned (r : Result) :
  Message r = EmptyString → RRows r ≠ [] → Forall (λ cells, length cells = length (RColumns r)) (RRows r) →
  ∃ ws header divider lines count, printResult r = Ok (header :: divider :: lines ++ [count; EmptyString]) ∧
    length ws = length (RColumns r) ∧ fits_in (RColumns r) ws ∧ Forall (λ cells, fits_in (Value_String <$> cells) ws) (RRows r) ∧
    Forall (λ l, String.length l = line_width ws) (header :: divider :: lines) ∧
    header = String.concat " | " (zip_with pad (RColumns r) ws) ∧
    lines = (λ cells, String.concat " | " (zip_with pad (Value_String <$> cells) ws)) <$> RRows r.
Proof.
  intros Hm Hne Hl. unfold printResult. rewrite decide_False by (intros Hx; by apply Hx). rewrite decide_False by (by destruct (RRows r)).
  set (rows := map (map Value_String) (RRows r)).
  destruct (widen_all_ok rows (String.length <$> RColumns r)) as (ws & Ew & Hlw & Hf & Hmono).
  { unfold rows. apply Forall_fmap. eapply Forall_impl; [exact Hl|]. intros cells Hc. cbn. by rewrite !length_fmap. }
  assert (fits_in (RColumns r) ws) as Hc.
  { rewrite length_fmap in Hlw. clear -Hmono. revert ws Hmono. induction (RColumns r); intros ws Hmono; inversion Hmono; subst; constructor; auto. }
  destruct (printRow_ok _ _ Hc) as [Eh Hh]. rewrite Ew. cbn. rewrite Eh. cbn. rewrite print_rows_ok by done. cbn.
  eexists ws, _, _, _, _. split; [reflexivity|]. rewrite length_fmap in Hlw. split; [exact Hlw|]. split; [exact Hc|].
  assert (Forall (λ cells, fits_in (Value_String <$> cells) ws) (RRows r)) as Hf' by (unfold rows in Hf; by rewrite Forall_fmap in Hf).
  split; [exact Hf'|]. split; [|split; [done|]].
  - constructor; [exact Hh|]. constructor; [apply length_printDivider|]. apply Forall_fmap. unfold rows. apply Forall_fmap.
    eapply Forall_impl; [exact Hf'|]. intros cells Hcells. cbn. by apply printRow_ok.
  - unfold rows. rewrite <-list_fmap_compose. done.
Qed.

Lemma table_aligned_witness : ∃ header divider lines count,
  printResult (mkResult ["id"; "name"] [[VInt 7; VText "ada"]] "") = Ok (header :: divider :: lines ++ [count; EmptyString]) ∧
  (header, divider, lines) = ("id | name", "---+-----", ["7  | ada "])%string.
Proof.
  destruct (table_aligned (mkResult ["id"; "name"]%string [[VInt 7; VText "ada"]] "")) as (ws & h & d & l & c & E & _); [done|done|repeat constructor|].
  exists h, d, l, c. split; [exact E|]. vm_compute in E. injection E as <- <- El. destruct l as [|l1 l]; [discriminate El|].
  injection El as <- El. destruct l as [|l2 l]; [done|]. injection El as <- El. by destruct l as [|? [|]].
Defined.

Section session.
Context `{Unicode} `{Math} `{MapOrder} `{Spaces} (growcap : nat → nat) (gid : Z) (fuel tfuel depth : nat) (dbName : string).

(** ** The statements are executed in order *)

(** A line that is neither blank nor a command of the session. *)
Definition plain (l : string) : Prop := TrimSpace l ∉ ["quit"; "\q"; "\stats"; EmptyString]%string.

#[export] Instance plain_dec l : Decision (plain l).
Proof. unfold plain. apply _. Defined.

(** The lines of a statement: the last one has the semicolon. *)
Definition statement_lines (p : list string) : Prop :=
  ∃ init last, p = init ++ [last] ∧ Forall (λ l, plain l ∧ IndexByte ";" l = None) init ∧ plain last ∧ is_Some (IndexByte ";" last).

Fixpoint text (ls : list string) : string :=
  match ls with [] => EmptyString | l :: ls => (l +:+ " " +:+ text ls)%string end.

(** The statements one after the other, then the end of the session. *)
Fixpoint script (sqls : list string) : M DB (list Printed) :=
  match sqls with
  | [] => leave growcap gid fuel tfuel depth (String "010" "warning: open transaction rolled back on exit")
  | sql :: sqls => o1 ← execute growcap gid fuel tfuel depth sql; o2 ← script sqls; mret (o1 ++ o2)
  end.

Definition is_prompt (p : Printed) : bool := match p with Prompt _ => true | _ => false end.

(** What is printed without the prompts. *)
Definition shown (m : M DB (list Printed)) : M DB (list Printed) := λ db,
  match m db with
  | (Ok o, db) => (Ok (filter (λ p, is_prompt p = false) o), db)
  | r => r
  end.

Lemma shown_prompt p o : is_prompt p = true → filter (λ p, is_prompt p = false) (p :: o) = filter (λ p, is_prompt p = false) o.
Proof. intros Hp. rewrite filter_cons, decide_False; [done|]. by rewrite Hp. Qed.

Lemma shown_Out ls : filter (λ p, is_prompt p = false) (map Out ls) = map Out ls.
Proof. induction ls as [|l ls IH]; [done|]. cbn [map]. rewrite filter_cons, decide_True by done. by rewrite IH. Qed.

Lemma shown_execute sql db : shown (execute growcap gid fuel tfuel depth sql) db = execute growcap gid fuel tfuel depth sql db.
Proof.
  unfold shown, execute. destruct (Exec _ _ _ _ _ sql db) as [[r|e| |] db']; try done.
  destruct (printResult r); cbn; try done. by rewrite shown_Out.
Qed.

Abbreviation run lines buf := (loop growcap gid fuel tfuel depth dbName lines buf).
Abbreviation exec sql := (execute growcap gid fuel tfuel depth sql).

(** A line of a statement in the loop. *)
Lemma loop_plain l lines buf db : plain l →
  shown (run (l :: lines) buf) db =
    match IndexByte ";" l with
    | None => shown (run lines (buf +:+ l +:+ " ")%string) db
    | Some _ => (o1 ← exec (TrimSpace (buf +:+ l +:+ " ")%string); o2 ← shown (run lines EmptyString); mret (o1 ++ o2)) db
    end.
Proof.
  intros Hl. unfold plain in Hl. rewrite !not_elem_of_cons in Hl. destruct Hl as (H1' & H2' & H3' & H4' & _).
  cbn [loop]. unfold shown at 1, get_state. unfold mbind at 1, M_bind at 1. cbn beta iota.
  rewrite decide_False by tauto. rewrite !decide_False by done. destruct (IndexByte ";" l).
  - set (sql := TrimSpace _). pose proof (shown_execute sql db) as Es. unfold shown in Es |- *. unfold mbind, M_bind.
    destruct (exec sql db) as [[o1| | |] db1]; try done. injection Es as Es.
    destruct (run lines EmptyString db1) as [[o2| | |] db2]; try done. unfold mret, M_ret.
    rewrite shown_prompt by done. by rewrite filter_app, Es.
  - unfold shown, mbind, M_bind. by destruct (run lines _ db) as [[o2| | |] db2].
Qed.

Lemma loop_init init lines buf db : Forall (λ l, plain l ∧ IndexByte ";" l = None) init →
  shown (run (init ++ lines) buf) db = shown (run lines (buf +:+ text init)%string) db.
Proof.
  intros Hi. revert buf. induction Hi as [|l init [Hl Hn] _ IH]; intros buf; cbn [app text].
  - f_equal. f_equal. symmetry. apply str_app_nil.
  - rewrite loop_plain by done. rewrite Hn, IH. by rewrite !str_app_assoc.
Qed.

Lemma script_shown sqls db : shown (script sqls) db = script sqls db.
Proof.
  revert db. induction sqls as [|sql sqls IH]; intros db; cbn [script].
  - unfold shown, leave, get_state, mbind, M_bind. destruct (InTransaction gid db); [|done].
    by destruct (ignore_err _ db) as [[] ?].
  - pose proof (shown_execute sql db) as Es. unfold shown in Es |- *. unfold mbind, M_bind.
    destruct (exec sql db) as [[o1| | |] db1]; try done. injection Es as Es. specialize (IH db1). unfold shown in IH.
    destruct (script sqls db1) as [[o2| | |] db2]; try done. unfold mret, M_ret. injection IH as IH. by rewrite filter_app, Es, IH.
Qed.

(** C35. The session executes exactly its statements, in the order of the input, and
    prints their results: a statement extends over lines up to one with a
    semicolon and is passed to [Exec] with its line ends replaced by blanks and
    trimmed.  What follows the last semicolon is dropped at the end of the
    input without being executed.  This holds for every outcome of [Exec], an
    error does not end the session. *)
Theorem repl_executes (statements : list (list string)) (rest : list string) db :
  Forall statement_lines statements → Forall (λ l, plain l ∧ IndexByte ";" l = None) rest →
  shown (run (concat statements ++ rest) EmptyString) db = script ((λ p, TrimSpace (text p)) <$> statements) db.
Proof.
  intros Hs Hr. rewrite <-script_shown. revert db. induction Hs as [|p ps (init & last & -> & Hi & Hl & [k Hk]) _ IH]; intros db.
  - cbn [concat fmap list_fmap app]. rewrite <-(app_nil_r rest), loop_init by done. cbn [loop script]. unfold shown, get_state, mbind, M_bind.
    destruct (leave _ _ _ _ _ _ db) as [[o| | |] db']; done.
  - cbn [concat fmap list_fmap]. rewrite <-!app_assoc, loop_init by done. cbn [app]. rewrite loop_plain, Hk by done.
    assert ((("" +:+ text init) +:+ last +:+ " ") = text (init ++ [last]))%string as ->.
    { cbn. clear. induction init as [|l init IH]; cbn [text app]; [by rewrite str_app_nil|]. by rewrite <-IH, !str_app_assoc. }
    rewrite script_shown. cbn [script]. unfold mbind at 1 3, M_bind at 1 3. destruct (exec _ db) as [[o1| | |] db1]; try done.
    specialize (IH db1). rewrite script_shown in IH. unfold mbind, M_bind. by rewrite IH.
Qed.

(** ** No transaction stays open *)

Lemma Exec_ROLLBACK db : Exec growcap gid fuel tfuel depth "ROLLBACK" db = execRollback gid db.
Proof. reflexivity. Qed.

Lemma leave_idle w db o db' : leave growcap gid fuel tfuel depth w db = (Ok o, db') → InTransaction gid db' = false.
Proof.
  unfold leave, get_state. unfold mbind at 1, M_bind at 1. destruct (InTransaction gid db) eqn:Ei; [|by intros [= _ <-]].
  unfold InTransaction in Ei. apply bool_decide_eq_true_1 in Ei as [tx Etx].
  intros (u & db1 & E & [= _ <-])%M_bind_Ok_inv. unfold ignore_err in E. unfold mbind, M_bind in E. rewrite Exec_ROLLBACK in E.
  unfold execRollback, get_state, modify in E. unfold mbind, M_bind in E. rewrite Etx in E.
  pose proof (keeps_rollbackTx tx (clearGoroutineTx gid db)) as Hk. unfold tx_state in Hk.
  assert (InTransaction gid (rollbackTx tx (clearGoroutineTx gid db)).2 = false) as Hi.
  { unfold InTransaction, goroutineTx. injection Hk as -> _. apply bool_decide_eq_false_2. cbn. rewrite lookup_delete_eq. by intros []. }
  destruct (rollbackTx tx (clearGoroutineTx gid db)) as [[] db2]; by injection E as _ <-.
Qed.

(** A session never leaves its transaction open: whatever its lines are, when
    it ends, by the end of the input, [quit] or [\q], at a prompt or in the
    middle of a statement, the open transaction has been rolled back. *)
Theorem session_ends_idle lines buf db o db' : run lines buf db = (Ok o, db') → InTransaction gid db' = false.
Proof.
  revert buf db o. induction lines as [|l lines IH]; intros buf db o E; cbn [loop] in E;
    apply M_bind_Ok_inv in E as (db0 & db1 & [= -> ->] & E).
  { apply M_bind_Ok_inv in E as (o1 & db2 & E & [= _ <-]). by eapply leave_idle. }
  cbv zeta in E. case_decide.
  { apply M_bind_Ok_inv in E as (o1 & db2 & E & [= _ <-]). by eapply leave_idle. }
  case_decide; [apply M_bind_Ok_inv in E as (o1 & db2 & E & [= _ <-]); by eapply IH|].
  case_decide; [apply M_bind_Ok_inv in E as (o1 & db2 & E & [= _ <-]); by eapply IH|].
  destruct (IndexByte ";" l).
  - apply M_bind_Ok_inv in E as (o1 & db2 & _ & E). apply M_bind_Ok_inv in E as (o2 & db3 & E & [= _ <-]). by eapply IH.
  - apply M_bind_Ok_inv in E as (o1 & db2 & E & [= _ <-]). by eapply IH.
Qed.
End session.

(** ** A concrete session *)

#[local] Existing Instance no_tables.
#[local] Existing Instance some_math.
#[local] Instance ascii_spaces : Spaces := {| trim_slow s := s |}.
#[local] Program Instance session_order : MapOrder := {| map_order _ _ l := l |}.
Next Obligation. done. Qed.

Lemma plain_check l : bool_decide (plain l) = true → plain l.
Proof. apply bool_decide_eq_true_1. Qed.

Definition session_db : DB := ada_db (mkBTree buf0 0 0).

Lemma repl_executes_witness :
  shown (loop (λ n, n) 1 100 32 20 "db" ["BEGIN"; " ;"; "COMMIT;"; "SELECT 1"] EmptyString) session_db =
    script (λ n, n) 1 100 32 20 ["BEGIN  ;"; "COMMIT;"] session_db.
Proof.
  apply (repl_executes (λ n, n) 1 100 32 20 "db" [["BEGIN"; " ;"]; ["COMMIT;"]] ["SELECT 1"] session_db).
  - apply Forall_cons; split; [|apply Forall_singleton].
    + exists ["BEGIN"]%string, " ;"%string. split; [done|]. split; [apply Forall_singleton; split; [apply plain_check; reflexivity|done]|].
      split; [apply plain_check; reflexivity|eauto].
    + exists [], "COMMIT;"%string. split; [done|]. split; [constructor|]. split; [apply plain_check; reflexivity|eauto].
  - apply Forall_singleton. split; [apply plain_check; reflexivity|done].
Defined.

Lemma session_ends_idle_witness : ∃ o db', loop (λ n, n) 1 100 32 20 "db" ["BEGIN;"] EmptyString session_db = (Ok o, db') ∧
  InTransaction 1 db' = false.
Proof.
  destruct (loop (λ n, n) 1 100 32 20 "db" ["BEGIN;"]%string EmptyString session_db) as [r db'] eqn:E.
  assert (is_ok r = true) as Hr. { change r with (r, db').1. rewrite <-E. vm_compute. reflexivity. }
  destruct r as [o| | |]; try discriminate Hr. exists o, db'. split; [done|].
  exact (session_ends_idle (λ n, n) 1 100 32 20 "db" _ _ _ _ _ E).
Defined.
