(* ===== verification/Dashboard.v ===== *)
(** * Dashboard: the handlers of the web interface
    ([src/cmd/dashboard/main.go])

    A handler maps a request to a response; JSON encoding, the router and the
    clock (the durations in the responses) are left out.  [decode_query] stands
    for the JSON decoder of the request's body. *)
From S2P Require Import Prelude GoLib Catalog Ast Agg Stats AggSpec BufferPool BTree Db Select Exec Sample Transaction.
From stdpp Require Import options.
Local Open Scope Z_scope.

(** ** Statements of a text *)

Section split.
Context `{Spaces}.

Definition emit (buf : string) : list string :=
  let s := TrimSpace buf in if decide (s = EmptyString) then [] else [s].

Fixpoint split_from (s buf : string) (inStr : bool) : list string :=
  match s with
  | EmptyString => emit buf
  | String ch s =>
      if decide (ch = "'"%char) then
        if inStr then
          match s with
          | String c s' => if decide (c = "'"%char) then split_from s' (buf +:+ "''")%string true else split_from s (buf +:+ "'")%string false
          | EmptyString => split_from s (buf +:+ "'")%string false
          end
        else split_from s (buf +:+ "'")%string true
      else if decide (ch = ";"%char ∧ inStr = false) then emit buf ++ split_from s EmptyString false
      else split_from s (buf +:+ String ch EmptyString)%string inStr
  end.

Definition splitStatements (sql : string) : list string := split_from sql EmptyString false.
End split.

(** ** Responses *)

(** A cell of a JSON row: a number or a string. *)
Inductive cell : Type := CellInt (n : Z) | CellText (s : string).

Record queryResp : Type := mkQueryResp {
  q_columns : list string; q_rows : list (list cell); q_message : string; q_rowCount : Z; q_error : option error }.

Definition cell_of (v : Value) : cell := if decide (VType v = TypeInt) then CellInt (IntVal v) else CellText (TextVal v).

Definition buildQueryResp (r : Result + error) : queryResp :=
  match r with
  | inr e => mkQueryResp [] [] EmptyString 0 (Some e)
  | inl res =>
      if decide (0 < length (RColumns res))%nat then
        mkQueryResp (RColumns res) (map (map cell_of) (RRows res)) (Message res) (Z.of_nat (length (RRows res))) None
      else mkQueryResp [] [] (Message res) 0 None
  end.

Record tableInfo : Type := mkTableInfo {
  ti_name : string; ti_columns : list (string * string); ti_indexes : list (string * string); ti_stats : option (Z * list ColumnStat) }.

Record poolResp : Type := mkPoolResp { pr_hits : Z; pr_misses : Z; pr_ratio : float64 }.

Inductive http (A : Type) : Type := HttpError (text : string) (status : Z) | JsonOK (body : A).
Arguments HttpError {A} _ _. Arguments JsonOK {A} _.

(** ** Handlers *)

Section handlers.
Context `{Unicode} `{Math} `{MapOrder} `{Spaces} (growcap : nat → nat) (gid : Z) (fuel tfuel depth : nat)
  (decode_query : list byte → res string).

(** [DB.Tables]: [sort.Slice] by lower-case name; [DB.TableStats] *)
Definition name_less (a b : Table) : bool := bool_decide (str_compare (ToLower (TName a)) (ToLower (TName b)) < 0).
Definition db_Tables (db : DB) : list Table := sort_stable name_less (map_order 9 (Tables (cat db))).
Definition db_TableStats (name : string) (db : DB) : option TableStats := Stats.Get name (statsDB db).

Definition table_info (db : DB) (t : Table) : tableInfo :=
  mkTableInfo (TName t) (map (λ c, (CName c, DataType_String (CType c))) (Columns t))
    (map (λ i, (IName i, IColumn i)) (Indexes t))
    (match db_TableStats (TName t) db with Some ts => Some (RowCount ts, SCols ts) | None => None end).

Definition handleTables (db : DB) : http (list tableInfo) := JsonOK (map (table_info db) (db_Tables db)).

Definition db_PoolStats (db : DB) : PoolStats := BufferPool.Stats (pool db).

Definition handlePool (db : DB) : http poolResp :=
  let ps := db_PoolStats db in
  let total := u64 (st_hits ps + st_misses ps) in
  JsonOK (mkPoolResp (st_hits ps) (st_misses ps)
    (if decide (0 < total) then fdiv (float_of_Z (st_hits ps)) (float_of_Z total) else float_of_Z 0)).

(** The loop over the statements: it stops behind the first error. *)
Fixpoint run_statements (stmts : list string) : M DB (list queryResp) :=
  match stmts with
  | [] => mret []
  | stmt :: stmts => λ db,
      match Exec growcap gid fuel tfuel depth stmt db with
      | (Ok r, db) => (rs ← run_statements stmts; mret (buildQueryResp (inl r) :: rs)) db
      | (Err e, db) => (Ok [buildQueryResp (inr e)], db)
      | (Panic, db) => (Panic, db)
      | (OutOfFuel, db) => (OutOfFuel, db)
      end
  end.

Definition handleQuery (method : string) (body : list byte) : M DB (http (list queryResp)) :=
  if decide (method ≠ "POST")%string then mret (HttpError "method not allowed" 405)
  else match decode_query body with
  | Ok sql =>
      if decide (sql = EmptyString) then mret (HttpError "bad request" 400)
      else
        let stmts := splitStatements sql in
        if decide (length stmts = 0%nat) then mret (HttpError "empty query" 400)
        else rs ← run_statements stmts; mret (JsonOK rs)
  | _ => mret (HttpError "bad request" 400)
  end.
End handlers.

(** ** Splitting *)

Section split_proofs.
Context `{Spaces}.

(** No semicolon outside of string literals, and no literal left open. *)
Fixpoint closed_from (s : string) (inStr : bool) : bool :=
  match s with
  | EmptyString => negb inStr
  | String ch s =>
      if decide (ch = "'"%char) then
        if inStr then
          match s with
          | String c s' => if decide (c = "'"%char) then closed_from s' true else closed_from s false
          | EmptyString => true
          end
        else closed_from s true
      else if decide (ch = ";"%char ∧ inStr = false) then false
      else closed_from s inStr
  end.
Definition closed (s : string) : bool := closed_from s false.

(** What follows a closed text: nothing, or a semicolon. *)
Definition separated (t : string) : Prop := match t with EmptyString => True | String c _ => c = ";"%char end.

Lemma split_closed n s buf inStr t : (String.length s ≤ n)%nat → closed_from s inStr = true → separated t →
  split_from (s +:+ t) buf inStr = split_from t (buf +:+ s) false.
Proof.
  revert s buf inStr. induction n as [|n IH]; intros [|ch s] buf inStr Hn Hc Ht; cbn in Hn; try lia.
  1,2: change ("" +:+ t)%string with t; rewrite str_app_nil; by destruct inStr.
  rewrite app_String. cbn [split_from]. cbn [closed_from] in Hc. case_decide as Hq.
  - subst ch. destruct inStr.
    + destruct s as [|c s].
      { change ("" +:+ t)%string with t. destruct t as [|c t]; [done|]. cbn in Ht. subst c. done. }
      rewrite app_String. case_decide as Hc'.
      * subst c. rewrite (IH s) by (done || (cbn in Hn; lia)). by rewrite str_app_assoc.
      * rewrite <-app_String, (IH (String c s)) by (done || (cbn in Hn |- *; lia)). by rewrite str_app_assoc.
    + rewrite (IH s) by (done || lia). by rewrite str_app_assoc.
  - case_decide as Hs; [discriminate Hc|]. rewrite (IH s) by (done || lia). by rewrite str_app_assoc.
Qed.

Lemma split_joined ss buf : Forall (λ s, closed s = true) ss → ss ≠ [] →
  split_from (String.concat ";" ss) buf false =
    filter (λ s, s ≠ EmptyString) (TrimSpace <$> match ss with s :: ss => (buf +:+ s)%string :: ss | [] => [] end).
Proof.
  intros Hs. revert buf. induction Hs as [|s ss Hs Hss IH]; intros buf Hne; [done|].
  assert (∀ x, emit x = filter (λ s, s ≠ EmptyString) [TrimSpace x]) as He.
  { intros x. unfold emit. rewrite filter_cons. by repeat case_decide. }
  destruct ss as [|s' ss].
  - cbn [String.concat]. rewrite <-(str_app_nil s) at 1. rewrite (split_closed (String.length s)) by done. apply He.
  - change (String.concat ";" (s :: s' :: ss)) with (s +:+ (String ";" (String.concat ";" (s' :: ss))))%string.
    rewrite (split_closed (String.length s)) by done. cbn [split_from]. rewrite decide_False by done. rewrite decide_True by done.
    rewrite IH by done. rewrite He. rewrite <-filter_app. done.
Qed.

Lemma split_concat ss : Forall (λ s, closed s = true) ss →
  splitStatements (String.concat ";" ss) = filter (λ s, s ≠ EmptyString) (TrimSpace <$> ss).
Proof.
  intros Hs. unfold splitStatements. destruct ss as [|s ss]; [done|]. rewrite split_joined by done. done.
Qed.

Lemma trimmed_fragments ss : Forall (λ s, TrimSpace s = s ∧ s ≠ EmptyString) ss → filter (λ s, s ≠ EmptyString) (TrimSpace <$> ss) = ss.
Proof. induction 1 as [|s ss (Ht & Hn) _ IH]; [done|]. rewrite fmap_cons, filter_cons, Ht, decide_True by done. by rewrite IH. Qed.

(** [splitStatements] undoes the joining with semicolons: of fragments in which
    every semicolon is inside of a string literal and every literal is closed
    (a quote in a literal is doubled), it returns exactly the fragments, trimmed
    and without the blank ones, in their order. *)
Theorem splitStatements_join ss : Forall (λ s, closed s = true) ss →
  splitStatements (String.concat ";" ss) = filter (λ s, s ≠ EmptyString) (TrimSpace <$> ss).
Proof. apply split_concat. Qed.
End split_proofs.

(** ** Answers to queries *)

Section query.
Context `{Unicode} `{Math} `{MapOrder} `{Spaces} (growcap : nat → nat) (gid : Z) (fuel tfuel depth : nat)
  (decode_query : list byte → res string).

(** Statements executed in order until the first error. *)
Inductive executes : list string → DB → list (Result + error) → DB → Prop :=
  | executes_nil db : executes [] db [] db
  | executes_ok s ss db r db1 os db2 :
      Exec growcap gid fuel tfuel depth s db = (Ok r, db1) → executes ss db1 os db2 → executes (s :: ss) db (inl r :: os) db2
  | executes_err s ss db e db1 : Exec growcap gid fuel tfuel depth s db = (Err e, db1) → executes (s :: ss) db [inr e] db1.

Lemma run_statements_executes ss db rs db' :
  run_statements growcap gid fuel tfuel depth ss db = (Ok rs, db') ↔ ∃ os, executes ss db os db' ∧ rs = buildQueryResp <$> os.
Proof.
  split.
  - revert db rs. induction ss as [|s ss IH]; intros db rs E; cbn [run_statements] in E.
    { injection E as <- <-. exists []. split; [constructor|done]. }
    destruct (Exec growcap gid fuel tfuel depth s db) as [[r|e| |] db1] eqn:Es; try discriminate E.
    + apply M_bind_Ok_inv in E as (rs1 & db2 & E & [= <- <-]). destruct (IH db1 rs1 E) as (os & Ho & ->).
      exists (inl r :: os). split; [by econstructor|done].
    + injection E as <- <-. exists [inr e]. split; [by constructor|done].
  - intros (os & Ho & ->). induction Ho as [db|s ss db r db1 os db2 Es _ IH|s ss db e db1 Es]; cbn [run_statements]; [done| |by rewrite Es].
    rewrite Es. by erewrite M_bind_Ok by exact IH.
Qed.

(** C36. A query request with a text of several statements: they are executed in
    order up to and including the first one that fails, nothing after it is,
    and the response has one entry for each executed statement, the error in the
    last one; the database is what these statements made of it. *)
Theorem handleQuery_executes body ss db rs db' :
  decode_query body = Ok (String.concat ";" ss) → Forall (λ s, closed s = true ∧ TrimSpace s = s ∧ s ≠ EmptyString) ss → ss ≠ [] →
  handleQuery growcap gid fuel tfuel depth decode_query "POST" body db = (Ok (JsonOK rs), db') ↔
    ∃ os, executes ss db os db' ∧ rs = buildQueryResp <$> os.
Proof.
  intros Hd Hs Hne. rewrite <-run_statements_executes. unfold handleQuery. rewrite decide_False by (intros Hx; by apply Hx). rewrite Hd.
  assert (splitStatements (String.concat ";" ss) = ss) as Hsplit.
  { rewrite split_concat by (eapply Forall_impl; [exact Hs|by intros s (? & _)]). apply trimmed_fragments.
    eapply Forall_impl; [exact Hs|by intros s (_ & ? & ?)]. }
  assert (String.concat ";" ss ≠ EmptyString) as Hne2.
  { intros Hx. rewrite Hx in Hsplit. destruct ss; [done|]. by vm_compute in Hsplit. }
  rewrite decide_False by done. rewrite Hsplit. rewrite decide_False by (by destruct ss).
  split; [|by intros E; erewrite M_bind_Ok by exact E].
  intros (rs1 & db1 & E & [= <- <-])%M_bind_Ok_inv. done.
Qed.

(** ** The tables *)

Definition le_name (a b : Table) : Prop := str_compare (ToLower (TName a)) (ToLower (TName b)) ≤ 0.

(** The list of tables has every table of the catalog exactly once, ordered by
    lower-case name whatever the order of the catalog's map, each with its
    columns, its indexes and the statistics that ANALYZE has stored. *)
Theorem handleTables_sorted db :
  ∃ ts, handleTables db = JsonOK (table_info db <$> ts) ∧ ts ≡ₚ Tables (cat db) ∧ StronglySorted le_name ts.
Proof.
  exists (db_Tables db). split; [done|]. unfold db_Tables.
  assert (preorder_on (λ _, True) (λ a b, str_compare (ToLower (TName a)) (ToLower (TName b)))) as Hp.
  { pose proof (str_compare_po (λ _, True)) as [Ha Ht]. split; intros; [by apply Ha|eapply Ht; done]. }
  change name_less with (lt_of (λ a b, str_compare (ToLower (TName a)) (ToLower (TName b)))).
  split.
  - rewrite sort_perm. apply map_order_perm.
  - apply (sort_sorted _ _ Hp). by apply Forall_forall.
Qed.
End query.

(** ** Concrete requests *)

#[local] Existing Instance no_tables.
#[local] Existing Instance some_math.
#[local] Instance blanks : Spaces := {| trim_slow s := s |}.
#[local] Program Instance web_order : MapOrder := {| map_order _ _ l := l |}.
Next Obligation. done. Qed.

Definition web_db : DB := ada_db (mkBTree buf0 0 0).

Lemma splitStatements_join_witness :
  splitStatements (String.concat ";" ["INSERT INTO t VALUES (1, 'a;''b')"; "  "; " SELECT 1 "]) =
    ["INSERT INTO t VALUES (1, 'a;''b')"; "SELECT 1"]%string.
Proof. rewrite splitStatements_join; [reflexivity|]. repeat constructor. Defined.

Lemma handleQuery_executes_witness : ∃ os db',
  executes (λ n, n) 1 100 32 20 ["BEGIN"; "BEGIN"; "COMMIT"] web_db os db' ∧
  handleQuery (λ n, n) 1 100 32 20 (λ _, Ok "BEGIN;BEGIN;COMMIT"%string) "POST" [] web_db = (Ok (JsonOK (buildQueryResp <$> os)), db') ∧
  length os = 2%nat.
Proof.
  destruct (handleQuery (λ n, n) 1 100 32 20 (λ _, Ok "BEGIN;BEGIN;COMMIT"%string) "POST" [] web_db) as [r db'] eqn:E.
  assert (match r with Ok (JsonOK rs) => length rs = 2%nat | _ => False end) as Hr. { change r with (r, db').1. rewrite <-E. vm_compute. reflexivity. }
  destruct r as [[|rs]| | |]; try done.
  destruct (handleQuery_executes (λ n, n) 1 100 32 20 (λ _, Ok "BEGIN;BEGIN;COMMIT"%string) [] ["BEGIN"; "BEGIN"; "COMMIT"]%string web_db rs db') as [Hx _];
    [reflexivity|repeat constructor; discriminate|done|].
  destruct (Hx E) as (os & Ho & ->). exists os, db'. split; [exact Ho|]. split; [exact eq_refl|]. by rewrite length_fmap in Hr.
Defined.
